(* ===== verification/_CoqProject ===== *)
-Q . S2P
Prelude.v
Rbtree.v
RbtreeRep.v
RbtreeInsert.v
RbtreeDelete.v
RbtreeUnlink.v
RbtreeCorrect.v
RbtreeTheorems.v
Str.v
Search.v
StrTree.v
Queue.v
Conf.v
ConfToken.v
Escape.v
Sprintf.v
Times.v
Crc32.v
Palloc.v
PallocCorrect.v
Array.v
Inet.v
Resolver.v
ResolverCorrect.v
Radix.v
RadixCorrect.v
RadixPool.v
Shmtx.v
World.v
Systems.v
Timer.v
Event.v
PostedQueue.v
Backend.v
Connection.v
FreeList.v
Close.v
Callback.v
Refcount.v
Session.v
Server.v
Engine.v
Lifetime.v
Writer.v
Reader.v
Failure.v
Connect.v
Accept.v
Loop.v
