(* ===== verification/Prelude.v ===== *)
(** Nginx::Engine: a Perl module that embeds the event core of nginx 0.8.

    * The program

    Perl code creates servers, clients, intervals and timeouts, and gives each a
    subroutine; the module runs nginx's event loop and calls the subroutines.
    Its own code is in src/*.c and src/Engine.xs, nginx's is under src/nginx.
    The parts, from the bottom:

    - memory pools (core/ngx_palloc.c) own what a connection allocates and run
      cleanup handlers at their end;
    - a red-black tree (core/ngx_rbtree.c) with the timers of events in it
      (event/ngx_event_timer.c);
    - two queues of posted events (event/ngx_event_posted.c);
    - an event backend behind a table of functions ([ngx_event_actions]), here
      epoll, and its clients [ngx_handle_read_event] and
      [ngx_handle_write_event] (event/ngx_event.c);
    - connections, kept on a free list and reused
      (core/ngx_connection.c), with recv and send; accepting and connecting
      (event/ngx_event_accept.c, event/ngx_event_connect.c);
    - callbacks: a Perl subroutine with counted arguments (ngxe_xs.c);
    - sessions: readers and writers of a connection, whose handlers move bytes
      between the kernel and Perl scalars and run callbacks
      (ngxe_connection.c, ngxe_bufs.c), and timers of the Perl API
      (ngxe_timer.c);
    - one pass of the loop: find the nearest timer, wait for the kernel, run
      the posted accepts, expire timers, run the posted events;
    - beside it, what nginx's core offers on top of pools and shared memory:
      tables of network prefixes (core/ngx_radix_tree.c), and the locks its
      processes share (core/ngx_spinlock.c, core/ngx_shmtx.h), of which the
      accept mutex decides who listens;
    - and below, what the core is written with: strings (core/ngx_string.c), queues
      (core/ngx_queue.h), configuration text (core/ngx_conf_file.c,
      core/ngx_parse.c) and the messages of the resolver (core/ngx_resolver.c).

    They share one state: events are reached from connections, from the timer
    tree, from the queues and from the kernel, and a callback may call every
    function of the API again, on its own connection too.

    * The files

    - Prelude: machine integers, the two monads, record update, automation.
    - Rbtree: ngx_rbtree.c and ngx_rbtree.h on a heap of linked nodes.
      RbtreeRep relates linked nodes to trees as values; RbtreeInsert,
      RbtreeDelete, RbtreeUnlink and RbtreeCorrect prove the operations;
      RbtreeTheorems states the contract (C1, C3).
    - Str: numbers, base64 and UTF-8 of ngx_string.c (C37).
      Search: comparing, searching and sorting (C14, C36).  Escape: URIs and HTML
      (C22).  StrTree: red-black trees keyed by strings, those of ngx_string.c
      and those of ngx_resolver.c, on the tree of Rbtree and the comparisons of
      Search (C27).  Sprintf: its format interpreter and the functions on it (C10).
      Times: the calendar and the cached times of ngx_times.c (C4, C30).
      Crc32: ngx_crc32.c (C40).
    - Queue: ngx_queue.h and ngx_queue.c on a heap of links (C29).
      Conf: times, sizes and the slots of directives, ngx_parse.c and the
      handlers of ngx_conf_file.c (C31).  ConfToken: its reader of directives (C35).
    - Palloc, PallocCorrect: ngx_palloc.c at the level of addresses (C38, C39).
      Array: ngx_array.c and ngx_list.c on these pools (C8).
    - Inet: IPv4 addresses as text, ngx_inet.c, and the round trips of text (C34).
      Resolver: the queries and responses of ngx_resolver.c; ResolverCorrect has its
      theorems (C13, C26).
    - Radix: ngx_radix_tree.c on a heap of nodes, over the interface [NodePool];
      RadixCorrect proves it a finite map of prefixes for every pool that keeps
      the promise [NodePoolOk], and RadixPool discharges the promise with the
      pools of Palloc (C11).
    - Shmtx: the spin lock and the accept mutex as steps of several processes
      (C18, C33).
    - World: the state of the engine as a record, and the interfaces [Perl] and
      [Kernel].  Systems: concrete instances of them, for the witnesses.
    - Timer: ngx_event_timer.c and .h (C6, C9).
    - Event: the posted queues, the class [EventActions] (the backend's table
      of functions), its clients, and epoll.  PostedQueue (C12) and
      Backend (C15) are its theorems; the class [EventActionsOk] states what
      a backend promises, epoll is an instance, and the theorems on clients,
      closing and sessions hold for every instance.
    - Connection: the free list, closing, recv and send.  FreeList (C17)
      and Close (C19, C20) are its theorems.
    - Callback: ngxe_xs.c, ngxe_bufs.c and the end of a pool as its owner sees
      it.  Refcount holds C21.
    - Session: ngxe_connection.c and ngxe_timer.c.  Lifetime (C23, C24), Writer
      (C25), Reader (C28) and Failure (C32) are its theorems.
    - Server: accepting, connecting, listening.  Connect has the theorems on
      outgoing connections (C5, C16), Accept the one on incoming ones (C2).
    - Engine: the functions of Engine.xs that a subroutine can call, the
      dispatch of handlers, and the loop, which tie the recursion.  Loop has the
      theorems on a whole pass of it: intervals of the Perl API fire, and an
      interval of 0 ms keeps the pass from ending (C7).

    * How code is modelled

    A pointer is a [Z] and NULL is 0; memory is a record of finite maps, one per
    type of structure.  Code that touches memory is a function from a state to a
    result and a state, or no result for an access C does not allow: a read or
    write through NULL, of memory that was never allocated or was freed.  A
    handler with labels is split at them, and a goto is a call.  Integers have
    their C width, with the wrap-around written out.  Loops have fuel: the number of nodes
    for the tree and of blocks or entries for a pool, the size of the buffer
    for digits, the characters left of a text; the theorems show it suffices.  The loops that depend on the
    outside (recv and send interrupted by signals, expired timers, posted
    events) and the calls from callbacks take their fuel as an argument; the
    theorems (C9, C12, and C28 by the number of calls of recv) give a bound, and running out is an
    outcome of its own, apart from a fault.

    Code outside the repository is a class: [Perl] for the interpreter's
    functions, [Kernel] for system calls, [Malloc] for the C library's
    allocator.  Several processes are a state with all of them in it, which moves
    by one atomic step of one process at a time, in any order.
    What the theorems need of the outside are classes of laws:
    [RefcountLaws], [StringLaws], [BufferLaws] and [ErrorLaws] say what the Perl
    API documents of SvREFCNT_inc, sv_setpvn and the like, [CallLog] keeps a log of
    the subroutines that were called; [SendLog] and
    [RecvLaw] say what send and recv do with bytes, [SockLog] keeps a log of the sockets,
    [EpollLaws] says what epoll_ctl changes in the kernel's interest list, [MallocOk] that
    regions do not overlap.  Each has an instance, used by the witnesses.  The field [w_stale]
    of the state says whether the contents of a freed pool may still be read:
    C leaves that open, and only C24 depends on it.

    * What the theorems show

    The tree refines an ordered sequence and the timers a finite map from events
    to deadlines, each operation ending without a fault; the queues refine
    lists, and processing them calls each handler once.  With epoll the kernel
    watches a connection in exactly the directions whose events are active.  A connection that is closed leaves no
    timer, queue entry or registration behind and its stale events are ignored,
    although its memory is reused at once.  Reference counts are balanced;
    a session's end gives back what it holds.  Readers and writers lose and
    duplicate no byte, whatever the kernel answers, arm and disarm their timers,
    and report errors and timeouts once.  Pools give out disjoint memory and
    give all of it back; arrays and lists keep their elements when they grow.  Text forms round-trip, and so do escaped URIs, the
    names and addresses in DNS messages and the words of directives, which do
    not depend on the buffer they are read through; searches find the first place,
    sorting is stable, also in a queue, and a search in a tree keyed by strings finds the string;
    queues refine sequences; times in a configuration mean the sum of their parts; the check sums are CRC-32;
    a formatted print is the prefix of the whole output that fits its limit; dates
    are those of the Gregorian calendar, and a reader of the cached texts sees one
    whole second.  A pass of the loop calls every interval that is due once, in
    the order of the deadlines, and arms it again.
    Accepting and connecting leave a connection that is ready or one that is free
    again, with its pool, session and descriptor given back.  The radix tree
    refines a finite map of prefixes and finds the longest one; the spin lock
    excludes and makes progress, and one worker at a time may accept.  C5
    and C24 are failures: a connection the kernel refuses to watch is freed twice, and closing a connection in its own callback reads
    memory it may not.  Parts of C7, C8, C11, C13, C26, C27, C31 and C35 are failures, too:
    an interval of 0 ms starves the loop, an array for no elements; deleting the empty prefix from an empty table, names in responses with some
    compression pointers, records of unexpected types, names whose hashes
    collide, times without a unit, long runs of blanks, and words moved over themselves; C22, C28 and C37 state
    where the code differs from its documentation.

    * Not modelled

    Threads, and several processes but for the locks between them; kqueue and the other
    backends, file AIO; AF_UNIX and IPv6 addresses; debug logging; the argument
    conversion of Engine.xs and its constructors; nginx's cycle,
    process control, files, TLS and HTTP, which the module does not
    call.  Of the resolver its state is left: the queues of queries and of names that
    expire, the waiting contexts, timers and sockets.  Of the configuration the
    dispatch of directives, included files and the slots that are arrays are left,
    of ngx_string.c copying, of ngx_times.c ngx_next_time, of the containers
    ngx_hash.c. *)
From stdpp Require Import base gmap list numbers strings.
#[global] Open Scope Z_scope.

(** * Machine integers

    The sources are compiled for an LP64 platform: [ngx_uint_t], [size_t] and
    [ngx_msec_t] are 64-bit unsigned, [ngx_int_t], [ssize_t] and
    [ngx_msec_int_t] 64-bit signed two's complement, [int] 32-bit signed,
    [u_char] 8-bit unsigned.  A value is a [Z] in its range and every
    arithmetic operation that may leave the range is wrapped explicitly. *)

Definition wrapU (w z : Z) : Z := z mod 2 ^ w.
Definition wrapS (w z : Z) : Z := (z + 2 ^ (w - 1)) mod 2 ^ w - 2 ^ (w - 1).

Definition u8 (z : Z) : Z := wrapU 8 z.
Definition u16 (z : Z) : Z := wrapU 16 z.
Definition u32 (z : Z) : Z := wrapU 32 z.
Definition u64 (z : Z) : Z := wrapU 64 z.
Definition s32 (z : Z) : Z := wrapS 32 z.
Definition s64 (z : Z) : Z := wrapS 64 z.

(** A value in its range is not changed; [narrow] removes such wrap-arounds. *)
Create Rewrite HintDb machine.

Lemma wrapU_small w z : 0 <= z < 2 ^ w -> wrapU w z = z.
Proof. apply Z.mod_small. Qed.
Lemma wrapS_small w z : 0 < w -> - 2 ^ (w - 1) <= z < 2 ^ (w - 1) -> wrapS w z = z.
Proof.
  intros Hw Hz. unfold wrapS. assert (2 ^ w = 2 * 2 ^ (w - 1)) as Hp by (rewrite <- Z.pow_succ_r by lia; f_equal; lia).
  rewrite Z.mod_small; lia.
Qed.
Lemma u8_small z : 0 <= z < 2 ^ 8 -> u8 z = z.
Proof. apply wrapU_small. Qed.
Lemma u32_small z : 0 <= z < 2 ^ 32 -> u32 z = z.
Proof. apply wrapU_small. Qed.
Lemma u64_small z : 0 <= z < 2 ^ 64 -> u64 z = z.
Proof. apply wrapU_small. Qed.
Lemma s64_small z : 0 <= z < 2 ^ 63 -> s64 z = z.
Proof. intros Hz. apply wrapS_small; lia. Qed.

#[export] Hint Rewrite u8_small u32_small u64_small s64_small using (cbn in *; lia) : machine.
Ltac narrow := autorewrite with machine.

(** Bit operations as arithmetic. *)
Lemma shiftr_div x n : 0 <= n -> Z.shiftr x n = x / 2 ^ n.
Proof. apply Z.shiftr_div_pow2. Qed.
Lemma shiftl_mul x n : 0 <= n -> Z.shiftl x n = x * 2 ^ n.
Proof. apply Z.shiftl_mul_pow2. Qed.
Lemma land_low x n : 0 <= n -> Z.land x (Z.ones n) = x mod 2 ^ n.
Proof. apply Z.land_ones. Qed.

(** The bits of [b] below those of [a]. *)
Lemma lor_add a b n : 0 <= n -> 0 <= b < 2 ^ n -> Z.lor (a * 2 ^ n) b = a * 2 ^ n + b.
Proof.
  intros Hn Hb. pose proof (Z.add_lor_land (a * 2 ^ n) b) as Hadd.
  assert (Z.land (a * 2 ^ n) b = 0) as H0; [|lia].
  rewrite <- Z.shiftl_mul_pow2 by done. apply Z.bits_inj'. intros i Hi. rewrite Z.land_spec, Z.bits_0.
  destruct (Z.ltb_spec i n) as [Hlt|Hge].
  - by rewrite Z.shiftl_spec_low.
  - rewrite <- (Z.mod_small b (2 ^ n)), Z.mod_pow2_bits_high, andb_false_r by lia. done.
Qed.

(** The bytes of a string literal, without the terminating zero. *)
Fixpoint bytes (s : string) : list Z :=
  match s with
  | EmptyString => []
  | String a s => Z.of_N (Ascii.N_of_ascii a) :: bytes s
  end.

(** Pointers are addresses; [NULL] is address 0. *)
Abbreviation ptr := Z (only parsing).
Definition NULL : ptr := 0.

(** * Lists *)

Lemma filter_all {A} (P : A -> Prop) `{!forall x, Decision (P x)} (l : list A) :
  (forall x, x ∈ l -> P x) -> filter P l = l.
Proof. intros Hl. induction l as [|x l IH]; [done|]. rewrite filter_cons, decide_True, IH by set_solver. done. Qed.
Lemma filter_none {A} (P : A -> Prop) `{!forall x, Decision (P x)} (l : list A) :
  (forall x, x ∈ l -> ~ P x) -> filter P l = [].
Proof. intros Hl. induction l as [|x l IH]; [done|]. rewrite filter_cons, decide_False, IH by set_solver. done. Qed.

(** * A state and failure monad

    Code that mutates memory is a function from a state to a result and a new
    state; [None] is an access the C program may not make (a read or a write
    through an invalid pointer) or, in a loop, fuel that ran out. *)

Definition M (S A : Type) : Type := S -> option (A * S).

Definition ret {S A : Type} (a : A) : M S A := fun s => Some (a, s).
Definition fault {S A : Type} : M S A := fun _ => None.
Definition bind {S A B : Type} (m : M S A) (k : A -> M S B) : M S B :=
  fun s => match m s with Some (a, s') => k a s' | None => None end.

Declare Scope prog_scope.
Delimit Scope prog_scope with prog.
Notation "'let!' x := m 'in' k" := (bind m (fun x => k))
  (at level 10, x name, m at level 200, k at level 200) : prog_scope.
Notation "m1 ;; m2" := (bind m1 (fun _ => m2))
  (at level 100, right associativity) : prog_scope.

(** [wp m Q s]: [m] run from [s] returns (no fault) and the result and the
    final state satisfy [Q]. *)
Definition wp {S A : Type} (m : M S A) (Q : A -> S -> Prop) (s : S) : Prop :=
  match m s with Some (a, s') => Q a s' | None => False end.

Section Wp.
Context {S A B : Type}.

Lemma bind_run (m : M S A) (k : A -> M S B) s a s' : m s = Some (a, s') -> bind m k s = k a s'.
Proof. intros Hm. unfold bind. by rewrite Hm. Qed.

Lemma wp_ret (a : A) (Q : A -> S -> Prop) s : Q a s -> wp (ret a) Q s.
Proof. done. Qed.

Lemma wp_bind (m : M S A) (k : A -> M S B) Q s :
  wp m (fun a => wp (k a) Q) s -> wp (bind m k) Q s.
Proof. unfold wp, bind. by destruct (m s) as [[? ?]|]. Qed.

Lemma wp_bind_inv (m : M S A) (k : A -> M S B) Q s :
  wp (bind m k) Q s -> wp m (fun a => wp (k a) Q) s.
Proof. unfold wp, bind. by destruct (m s) as [[? ?]|]. Qed.

Lemma wp_mono (m : M S A) (P Q : A -> S -> Prop) s :
  wp m P s -> (forall a s', P a s' -> Q a s') -> wp m Q s.
Proof. unfold wp. destruct (m s) as [[? ?]|]; eauto. Qed.

Lemma wp_run (m : M S A) (Q : A -> S -> Prop) s :
  wp m Q s <-> exists a s', m s = Some (a, s') /\ Q a s'.
Proof.
  unfold wp. split.
  - destruct (m s) as [[a s']|]; [eauto | done].
  - by intros (a & s' & -> & HQ).
Qed.
End Wp.

(** * Record update

    [r <| f := v |>] is the record [r] with its field [f] set to [v].  A
    record type gets it by an instance of [Eta], its expansion into fields. *)

Class Eta (R : Type) := eta : R -> R.
Class Setter {R E : Type} (getter : R -> E) := set : (E -> E) -> R -> R.
Arguments set {R E} getter {_} _ _ /.

Ltac build_setter R getter :=
  let f := fresh "f" in let r := fresh "r" in intros f r;
  let b := eval hnf in (@eta R _ r) in
  match b with
  | context C [getter r] => let b' := context C [f (getter r)] in exact b'
  end.
#[export] Hint Extern 1 (@Setter ?R _ ?getter) => build_setter R getter : typeclass_instances.

Notation "r <| f := v |>" := (set f (fun _ => v) r)
  (at level 1, left associativity, format "r  <| f  :=  v |>").

(** * The monad of the engine

    The engine calls back into Perl code, which may call it again without
    bound, so a run is given fuel and has three outcomes: it returns, it makes
    an access the C program may not make ([Fault]), or the fuel ran out. *)

Inductive outcome (A S : Type) : Type :=
| Done (a : A) (s : S)
| Fault
| NoFuel.
Arguments Done {A S}.
Arguments Fault {A S}.
Arguments NoFuel {A S}.

Definition R (S A : Type) : Type := S -> outcome A S.

Definition rret {S A : Type} (a : A) : R S A := fun s => Done a s.
Definition rfault {S A : Type} : R S A := fun _ => Fault.
Definition rbind {S A B : Type} (m : R S A) (k : A -> R S B) : R S B :=
  fun s => match m s with Done a s' => k a s' | Fault => Fault | NoFuel => NoFuel end.

Declare Scope run_scope.
Delimit Scope run_scope with run.
Notation "'do!' x := m 'in' k" := (rbind m (fun x => k))
  (at level 10, x name, m at level 200, k at level 200) : run_scope.
Notation "m1 ;;; m2" := (rbind m1 (fun _ => m2))
  (at level 100, right associativity) : run_scope.
Notation "'when' b 'then' m" := (if b then m else rret tt)
  (at level 10, b at level 200, m at level 99) : run_scope.

(** [rsimpl]: a field of an updated record is the new value or the old field;
    of two updates of one field the last stays. *)
Ltac head_const t :=
  lazymatch t with
  | @set _ _ _ _ _ => fail
  | @rbind _ _ _ _ _ => fail
  | ?f _ => head_const f
  | _ => is_const t
  end.
Ltac rsimpl_step :=
  match goal with
  | |- context [?f (@set ?R ?E ?g ?i ?h ?r)] =>
      head_const f;
      first [ change (f (@set R E g i h r)) with (h (f r))
            | change (f (@set R E g i h r)) with (f r) ]
  | |- context [@set ?R ?E ?g ?i ?h (@set ?R ?E ?g ?i' ?h' ?r)] =>
      change (@set R E g i h (@set R E g i' h' r)) with (@set R E g i (fun x => h (h' x)) r)
  end.
Ltac rsimpl := repeat (rsimpl_step; cbv beta).
Ltac rsimpl_in H := revert H; rsimpl; intros H.

(** [rwp m Q s]: the run returns, and the result and the final state satisfy
    [Q].  [rsafe m Q s]: it does not fault, and [Q] holds if it returns. *)
Definition rwp {S A : Type} (m : R S A) (Q : A -> S -> Prop) (s : S) : Prop :=
  match m s with Done a s' => Q a s' | Fault | NoFuel => False end.
Definition rsafe {S A : Type} (m : R S A) (Q : A -> S -> Prop) (s : S) : Prop :=
  match m s with Done a s' => Q a s' | Fault => False | NoFuel => True end.

Section Rwp.
Context {S A B : Type}.

Lemma rwp_ret (a : A) (Q : A -> S -> Prop) s : Q a s -> rwp (rret a) Q s.
Proof. done. Qed.

Lemma rwp_bind (m : R S A) (k : A -> R S B) Q s :
  rwp m (fun a => rwp (k a) Q) s -> rwp (rbind m k) Q s.
Proof. unfold rwp, rbind. by destruct (m s). Qed.

Lemma rwp_mono (m : R S A) (P Q : A -> S -> Prop) s :
  rwp m P s -> (forall a s', P a s' -> Q a s') -> rwp m Q s.
Proof. unfold rwp. destruct (m s); eauto. Qed.

Lemma rwp_run (m : R S A) (Q : A -> S -> Prop) s :
  rwp m Q s <-> exists a s', m s = Done a s' /\ Q a s'.
Proof.
  unfold rwp. split.
  - destruct (m s) as [a s'| |]; [eauto | done..].
  - by intros (a & s' & -> & HQ).
Qed.

Lemma rsafe_ret (a : A) (Q : A -> S -> Prop) s : Q a s -> rsafe (rret a) Q s.
Proof. done. Qed.

Lemma rsafe_bind (m : R S A) (k : A -> R S B) Q s :
  rsafe m (fun a => rsafe (k a) Q) s -> rsafe (rbind m k) Q s.
Proof. unfold rsafe, rbind. by destruct (m s). Qed.

Lemma rsafe_mono (m : R S A) (P Q : A -> S -> Prop) s :
  rsafe m P s -> (forall a s', P a s' -> Q a s') -> rsafe m Q s.
Proof. unfold rsafe. destruct (m s); eauto. Qed.

Lemma rwp_rsafe (m : R S A) (Q : A -> S -> Prop) s : rwp m Q s -> rsafe m Q s.
Proof. unfold rwp, rsafe. by destruct (m s). Qed.
End Rwp.
