(* ===== verification/Rbtree.v ===== *)
(** The red-black tree of nginx/src/core/ngx_rbtree.c and ngx_rbtree.h. *)
From stdpp Require Import base gmap list numbers.
From S2P Require Import Prelude.
Local Open Scope Z_scope.

Module Rbtree.
Local Open Scope prog_scope.

(** A node of the tree ([struct ngx_rbtree_node_s]).  The field [data], which
    no function of this file reads or writes, is left out. *)
Record ngx_rbtree_node_t := mk_node {
  key : Z;
  left : ptr;
  right : ptr;
  parent : ptr;
  color : Z
}.

(** The memory the tree functions work on: the nodes by address (the sentinel
    is one of them) and the tree's [root] field.  [tree->sentinel] and
    [tree->insert] never change after [ngx_rbtree_init] and are arguments. *)
Record rbstate := mk_rb {
  nodes : gmap ptr ngx_rbtree_node_t;
  root : ptr
}.

Definition P (A : Type) : Type := M rbstate A.

(** [p->f] and [p->f = v]. *)
Definition rd (f : ngx_rbtree_node_t -> Z) (p : ptr) : P Z :=
  fun s => match nodes s !! p with Some n => Some (f n, s) | None => None end.
Definition wr (f : ngx_rbtree_node_t -> ngx_rbtree_node_t) (p : ptr) : P unit :=
  fun s => match nodes s !! p with
           | Some n => Some (tt, mk_rb (<[p := f n]> (nodes s)) (root s))
           | None => None
           end.
Definition set_key (p : ptr) (v : Z) : P unit :=
  wr (fun n => mk_node v (left n) (right n) (parent n) (color n)) p.
Definition set_left (p : ptr) (v : ptr) : P unit :=
  wr (fun n => mk_node (key n) v (right n) (parent n) (color n)) p.
Definition set_right (p : ptr) (v : ptr) : P unit :=
  wr (fun n => mk_node (key n) (left n) v (parent n) (color n)) p.
Definition set_parent (p : ptr) (v : ptr) : P unit :=
  wr (fun n => mk_node (key n) (left n) (right n) v (color n)) p.
Definition set_color (p : ptr) (v : Z) : P unit :=
  wr (fun n => mk_node (key n) (left n) (right n) (parent n) v) p.

(** [*root] and [*root = p]. *)
Definition rd_root : P ptr := fun s => Some (root s, s).
Definition set_root (p : ptr) : P unit := fun s => Some (tt, mk_rb (nodes s) p).

(** The colour macros: red is 1, black 0. *)
Definition ngx_rbt_red (p : ptr) : P unit := set_color p 1.
Definition ngx_rbt_black (p : ptr) : P unit := set_color p 0.
Definition ngx_rbt_is_red (p : ptr) : P bool :=
  let! c := rd color p in ret (negb (c =? 0)).
Definition ngx_rbt_is_black (p : ptr) : P bool :=
  let! r := ngx_rbt_is_red p in ret (negb r).
Definition ngx_rbt_copy_color (n1 n2 : ptr) : P unit :=
  let! c := rd color n2 in set_color n1 c.

(** [ngx_rbtree_init(tree, s, i)]: the sentinel's colour and an empty tree. *)
Definition ngx_rbtree_init (s : ptr) : P unit :=
  ngx_rbt_black s ;; set_root s.

(** A bound on the iterations of every loop below: a path of the tree visits
    a node once. *)
Definition fuel_of (s : rbstate) : nat := S (size (nodes s)).
Definition with_fuel {A} (f : nat -> P A) : P A := fun s => f (fuel_of s) s.

Fixpoint ngx_rbtree_min_loop (fuel : nat) (node sentinel : ptr) : P ptr :=
  match fuel with
  | O => fault
  | S fuel =>
      let! l := rd left node in
      if l =? sentinel then ret node
      else ngx_rbtree_min_loop fuel l sentinel
  end.
Definition ngx_rbtree_min (node sentinel : ptr) : P ptr :=
  with_fuel (fun fuel => ngx_rbtree_min_loop fuel node sentinel).

Definition ngx_rbtree_left_rotate (sentinel node : ptr) : P unit :=
  let! temp := rd right node in
  let! tl := rd left temp in
  set_right node tl ;;
  (let! tl := rd left temp in
   if negb (tl =? sentinel) then set_parent tl node else ret tt) ;;
  let! np := rd parent node in
  set_parent temp np ;;
  let! r := rd_root in
  (if node =? r then set_root temp
   else
     let! np := rd parent node in
     let! npl := rd left np in
     if node =? npl then set_left np temp else set_right np temp) ;;
  set_left temp node ;;
  set_parent node temp.

Definition ngx_rbtree_right_rotate (sentinel node : ptr) : P unit :=
  let! temp := rd left node in
  let! tr := rd right temp in
  set_left node tr ;;
  (let! tr := rd right temp in
   if negb (tr =? sentinel) then set_parent tr node else ret tt) ;;
  let! np := rd parent node in
  set_parent temp np ;;
  let! r := rd_root in
  (if node =? r then set_root temp
   else
     let! np := rd parent node in
     let! npr := rd right np in
     if node =? npr then set_right np temp else set_left np temp) ;;
  set_right temp node ;;
  set_parent node temp.

(** The descent shared by [ngx_rbtree_insert_value],
    [ngx_rbtree_insert_timer_value] and the insertions of trees with strings,
    which differ in the comparison of two nodes (address and key) only. *)
Fixpoint insert_loop (less : ptr * Z -> ptr * Z -> bool) (fuel : nat)
    (temp node sentinel : ptr) : P unit :=
  match fuel with
  | O => fault
  | S fuel =>
      let! nk := rd key node in
      let! tk := rd key temp in
      let to_left := less (node, nk) (temp, tk) in
      let! p := (if to_left then rd left temp else rd right temp) in
      if p =? sentinel then
        (if to_left then set_left temp node else set_right temp node) ;;
        set_parent node temp ;;
        set_left node sentinel ;;
        set_right node sentinel ;;
        ngx_rbt_red node
      else insert_loop less fuel p node sentinel
  end.

Definition by_key (less : Z -> Z -> bool) (a b : ptr * Z) : bool := less a.2 b.2.
Definition less_value (a b : Z) : bool := a <? b.

(** [(ngx_rbtree_key_int_t) a - (ngx_rbtree_key_int_t) b < 0], the subtraction
    wrapping around at 64 bits. *)
Definition less_timer (a b : Z) : bool := s64 (s64 a - s64 b) <? 0.

Definition ngx_rbtree_insert_value (temp node sentinel : ptr) : P unit :=
  with_fuel (fun fuel => insert_loop (by_key less_value) fuel temp node sentinel).
Definition ngx_rbtree_insert_timer_value (temp node sentinel : ptr) : P unit :=
  with_fuel (fun fuel => insert_loop (by_key less_timer) fuel temp node sentinel).

(** The body of the re-balancing loop of [ngx_rbtree_insert]; it returns the
    new value of [node]. *)
Definition insert_fixup_step (sentinel node : ptr) : P ptr :=
  let! p := rd parent node in
  let! pp := rd parent p in
  let! ppl := rd left pp in
  if p =? ppl then
    let! temp := rd right pp in
    let! tr := ngx_rbt_is_red temp in
    if tr then
      ngx_rbt_black p ;;
      ngx_rbt_black temp ;;
      ngx_rbt_red pp ;;
      ret pp
    else
      let! pr := rd right p in
      let! node := (if node =? pr then
                      ngx_rbtree_left_rotate sentinel p ;; ret p
                    else ret node) in
      let! p := rd parent node in
      ngx_rbt_black p ;;
      let! pp := rd parent p in
      ngx_rbt_red pp ;;
      ngx_rbtree_right_rotate sentinel pp ;;
      ret node
  else
    let! temp := rd left pp in
    let! tr := ngx_rbt_is_red temp in
    if tr then
      ngx_rbt_black p ;;
      ngx_rbt_black temp ;;
      ngx_rbt_red pp ;;
      ret pp
    else
      let! pl := rd left p in
      let! node := (if node =? pl then
                      ngx_rbtree_right_rotate sentinel p ;; ret p
                    else ret node) in
      let! p := rd parent node in
      ngx_rbt_black p ;;
      let! pp := rd parent p in
      ngx_rbt_red pp ;;
      ngx_rbtree_left_rotate sentinel pp ;;
      ret node.

Fixpoint insert_fixup (fuel : nat) (sentinel node : ptr) : P unit :=
  match fuel with
  | O => fault
  | S fuel =>
      let! r := rd_root in
      if node =? r then ret tt
      else
        let! p := rd parent node in
        let! red := ngx_rbt_is_red p in
        if red then
          let! node := insert_fixup_step sentinel node in
          insert_fixup fuel sentinel node
        else ret tt
  end.

(** [ngx_rbtree_insert]; [insert] is [tree->insert]. *)
Definition ngx_rbtree_insert (insert : ptr -> ptr -> ptr -> P unit)
    (sentinel node : ptr) : P unit :=
  let! r := rd_root in
  if r =? sentinel then
    set_parent node NULL ;;
    set_left node sentinel ;;
    set_right node sentinel ;;
    ngx_rbt_black node ;;
    set_root node
  else
    insert r node sentinel ;;
    with_fuel (fun fuel => insert_fixup fuel sentinel node) ;;
    let! r := rd_root in
    ngx_rbt_black r.

(** [/* DEBUG stuff */]. *)
Definition delete_debug (node : ptr) : P unit :=
  set_left node NULL ;;
  set_right node NULL ;;
  set_parent node NULL ;;
  set_key node 0.

(** The choice of [subst], the node spliced out, and of [temp], its only
    child or the sentinel. *)
Definition delete_choose (sentinel node : ptr) : P (ptr * ptr) :=
  let! nl := rd left node in
  if nl =? sentinel then
    let! temp := rd right node in ret (node, temp)
  else
    let! nr := rd right node in
    if nr =? sentinel then
      let! temp := rd left node in ret (node, temp)
    else
      let! subst := ngx_rbtree_min nr sentinel in
      let! sl := rd left subst in
      if negb (sl =? sentinel) then ret (subst, sl)
      else let! temp := rd right subst in ret (subst, temp).

(** The unlinking of [subst] from its parent, and, when [subst] is not
    [node], its move to the place of [node]. *)
Definition delete_unlink (sentinel node subst temp : ptr) : P unit :=
  let! sp := rd parent subst in
  let! spl := rd left sp in
  (if subst =? spl then set_left sp temp else set_right sp temp) ;;
  if subst =? node then
    let! sp := rd parent subst in
    set_parent temp sp
  else
    let! sp := rd parent subst in
    (if sp =? node then set_parent temp subst
     else set_parent temp sp) ;;
    let! nl := rd left node in set_left subst nl ;;
    let! nr := rd right node in set_right subst nr ;;
    let! np := rd parent node in set_parent subst np ;;
    ngx_rbt_copy_color subst node ;;
    let! r := rd_root in
    (if node =? r then set_root subst
     else
       let! np := rd parent node in
       let! npl := rd left np in
       if node =? npl then set_left np subst else set_right np subst) ;;
    (let! sl := rd left subst in
     if negb (sl =? sentinel) then set_parent sl subst else ret tt) ;;
    (let! sr := rd right subst in
     if negb (sr =? sentinel) then set_parent sr subst else ret tt).

(** [ngx_rbt_is_black(w->left) && ngx_rbt_is_black(w->right)]. *)
Definition children_black (w : ptr) : P bool :=
  let! wl := rd left w in
  let! bl := ngx_rbt_is_black wl in
  if bl then let! wr := rd right w in ngx_rbt_is_black wr
  else ret false.

(** The body of the delete fixup loop; it returns the new value of [temp].
    First the part that follows the case of a red sibling [w], for [temp] a
    left child. *)
Definition delete_fixup_left_rest (sentinel temp w : ptr) : P ptr :=
  let! bb := children_black w in
  if bb then
    ngx_rbt_red w ;;
    rd parent temp
  else
    let! wr := rd right w in
    let! br := ngx_rbt_is_black wr in
    let! w := (if br then
                 let! wl := rd left w in
                 ngx_rbt_black wl ;;
                 ngx_rbt_red w ;;
                 ngx_rbtree_right_rotate sentinel w ;;
                 let! p := rd parent temp in
                 rd right p
               else ret w) in
    let! p := rd parent temp in
    ngx_rbt_copy_color w p ;;
    ngx_rbt_black p ;;
    let! wr := rd right w in
    ngx_rbt_black wr ;;
    ngx_rbtree_left_rotate sentinel p ;;
    rd_root.

Definition delete_fixup_left (sentinel temp : ptr) : P ptr :=
  let! p := rd parent temp in
  let! w := rd right p in
  let! wr := ngx_rbt_is_red w in
  let! w := (if wr then
               ngx_rbt_black w ;;
               let! p := rd parent temp in
               ngx_rbt_red p ;;
               ngx_rbtree_left_rotate sentinel p ;;
               let! p := rd parent temp in
               rd right p
             else ret w) in
  delete_fixup_left_rest sentinel temp w.

(** The mirror image, for [temp] a right child. *)
Definition delete_fixup_right_rest (sentinel temp w : ptr) : P ptr :=
  let! bb := children_black w in
  if bb then
    ngx_rbt_red w ;;
    rd parent temp
  else
    let! wl := rd left w in
    let! bl := ngx_rbt_is_black wl in
    let! w := (if bl then
                 let! wr := rd right w in
                 ngx_rbt_black wr ;;
                 ngx_rbt_red w ;;
                 ngx_rbtree_left_rotate sentinel w ;;
                 let! p := rd parent temp in
                 rd left p
               else ret w) in
    let! p := rd parent temp in
    ngx_rbt_copy_color w p ;;
    ngx_rbt_black p ;;
    let! wl := rd left w in
    ngx_rbt_black wl ;;
    ngx_rbtree_right_rotate sentinel p ;;
    rd_root.

Definition delete_fixup_right (sentinel temp : ptr) : P ptr :=
  let! p := rd parent temp in
  let! w := rd left p in
  let! wr := ngx_rbt_is_red w in
  let! w := (if wr then
               ngx_rbt_black w ;;
               let! p := rd parent temp in
               ngx_rbt_red p ;;
               ngx_rbtree_right_rotate sentinel p ;;
               let! p := rd parent temp in
               rd left p
             else ret w) in
  delete_fixup_right_rest sentinel temp w.

Definition delete_fixup_step (sentinel temp : ptr) : P ptr :=
  let! p := rd parent temp in
  let! pl := rd left p in
  if temp =? pl then delete_fixup_left sentinel temp
  else delete_fixup_right sentinel temp.

(** The loop, and the colouring of [temp] after it. *)
Fixpoint delete_fixup (fuel : nat) (sentinel temp : ptr) : P unit :=
  match fuel with
  | O => fault
  | S fuel =>
      let! r := rd_root in
      if temp =? r then ngx_rbt_black temp
      else
        let! b := ngx_rbt_is_black temp in
        if b then
          let! temp := delete_fixup_step sentinel temp in
          delete_fixup fuel sentinel temp
        else ngx_rbt_black temp
  end.

Definition ngx_rbtree_delete (sentinel node : ptr) : P unit :=
  let! st := delete_choose sentinel node in
  let '(subst, temp) := st in
  let! r := rd_root in
  if subst =? r then
    set_root temp ;;
    ngx_rbt_black temp ;;
    delete_debug node
  else
    let! red := ngx_rbt_is_red subst in
    delete_unlink sentinel node subst temp ;;
    delete_debug node ;;
    if red then ret tt
    else with_fuel (fun fuel => delete_fixup fuel sentinel temp).

End Rbtree.
