(* ===== verification/RbtreeRep.v ===== *)
(** Red-black trees as values, and the relation between such a tree and the
    linked nodes of [Rbtree]. *)
From stdpp Require Import base gmap list numbers.
From S2P Require Import Prelude Rbtree.
Local Open Scope Z_scope.
Import Rbtree.

Module RbtreeRep.

(** A tree whose nodes carry their colour, address and key. *)
Inductive tree :=
| E
| T (c : Z) (l : tree) (p k : Z) (r : tree).

(** The path from a subtree up to the root, the nearest node first. *)
Inductive frame :=
| FL (c p k : Z) (r : tree)      (* the hole is the left child of [p] *)
| FR (c : Z) (l : tree) (p k : Z). (* the hole is the right child of [p] *)

Definition fill (f : frame) (t : tree) : tree :=
  match f with
  | FL c p k r => T c t p k r
  | FR c l p k => T c l p k t
  end.
Fixpoint plug (K : list frame) (t : tree) : tree :=
  match K with [] => t | f :: K => plug K (fill f t) end.

Definition fptr (f : frame) : ptr :=
  match f with FL _ p _ _ => p | FR _ _ p _ => p end.

(** The nodes in order, as pairs of an address and a key. *)
Fixpoint inorder (t : tree) : list (Z * Z) :=
  match t with E => [] | T _ l p k r => inorder l ++ (p, k) :: inorder r end.
Definition ptrs (t : tree) : list Z := (inorder t).*1.
#[global] Arguments ptrs : simpl never.

Fixpoint ctx_l (K : list frame) : list (Z * Z) :=
  match K with
  | [] => []
  | FL _ _ _ _ :: K => ctx_l K
  | FR _ l p k :: K => ctx_l K ++ inorder l ++ [(p, k)]
  end.
Fixpoint ctx_r (K : list frame) : list (Z * Z) :=
  match K with
  | [] => []
  | FL _ p k r :: K => (p, k) :: inorder r ++ ctx_r K
  | FR _ _ _ _ :: K => ctx_r K
  end.

Lemma inorder_plug K : forall t,
  inorder (plug K t) = ctx_l K ++ inorder t ++ ctx_r K.
Proof.
  induction K as [|[] K IH]; intros t; simpl.
  - by rewrite app_nil_r.
  - by rewrite IH; simpl; rewrite <- !app_assoc.
  - by rewrite IH; simpl; rewrite <- !app_assoc.
Qed.

Lemma plug_app K1 K2 t : plug (K1 ++ K2) t = plug K2 (plug K1 t).
Proof. revert t; induction K1; simpl; auto. Qed.

Fixpoint ctx_ptrs (K : list frame) : list Z :=
  match K with
  | [] => []
  | FL _ p _ r :: K => p :: ptrs r ++ ctx_ptrs K
  | FR _ l p _ :: K => p :: ptrs l ++ ctx_ptrs K
  end.

Lemma ptrs_T c l p k r : ptrs (T c l p k r) = ptrs l ++ p :: ptrs r.
Proof. unfold ptrs. simpl. by rewrite fmap_app. Qed.

Lemma ptrs_plug K t : ptrs (plug K t) ≡ₚ ptrs t ++ ctx_ptrs K.
Proof.
  revert t. induction K as [|[] K IH]; intros t; simpl.
  - by rewrite app_nil_r.
  - rewrite IH. simpl. rewrite ptrs_T, <- app_assoc. done.
  - rewrite IH. simpl. rewrite ptrs_T. solve_Permutation.
Qed.

(** * Representation *)

Section Rep.
Variable sentinel : ptr.

Definition root_ptr (t : tree) : ptr :=
  match t with E => sentinel | T _ _ p _ _ => p end.

(** The nodes of [t] are in memory, linked to each other, the topmost one to
    the parent [par]. *)
Fixpoint tree_rep (h : gmap ptr ngx_rbtree_node_t) (par : ptr) (t : tree) : Prop :=
  match t with
  | E => True
  | T c l p k r =>
      h !! p = Some (mk_node k (root_ptr l) (root_ptr r) par c)
      /\ tree_rep h p l /\ tree_rep h p r
  end.

Definition par (gp : ptr) (K : list frame) : ptr :=
  match K with [] => gp | f :: _ => fptr f end.

Fixpoint ctx_rep (h : gmap ptr ngx_rbtree_node_t) (gp : ptr) (K : list frame)
    (q : ptr) : Prop :=
  match K with
  | [] => True
  | FL c p k r :: K =>
      h !! p = Some (mk_node k q (root_ptr r) (par gp K) c)
      /\ tree_rep h p r /\ ctx_rep h gp K p
  | FR c l p k :: K =>
      h !! p = Some (mk_node k (root_ptr l) q (par gp K) c)
      /\ tree_rep h p l /\ ctx_rep h gp K p
  end.

Lemma tree_rep_plug h gp K t :
  tree_rep h gp (plug K t) <->
  tree_rep h (par gp K) t /\ ctx_rep h gp K (root_ptr t).
Proof.
  revert t. induction K as [|[] K IH]; intros t; simpl.
  - tauto.
  - rewrite IH. simpl. tauto.
  - rewrite IH. simpl. tauto.
Qed.

Lemma tree_rep_insert h q n par t :
  q ∉ ptrs t -> tree_rep h par t -> tree_rep (<[q := n]> h) par t.
Proof.
  revert par. induction t as [|c l IHl p k r IHr]; intros par Hq; simpl; [done|].
  rewrite ptrs_T in Hq. intros (Hp & Hl & Hr).
  rewrite lookup_insert_ne by set_solver.
  split_and!; [done | apply IHl | apply IHr]; set_solver.
Qed.

Lemma ctx_rep_insert h gp q n K x :
  q ∉ ctx_ptrs K -> ctx_rep h gp K x -> ctx_rep (<[q := n]> h) gp K x.
Proof.
  revert x. induction K as [|[] K IH]; intros x Hq; simpl in *; [done|..];
    intros (Hp & Ht & HK); rewrite lookup_insert_ne by set_solver;
    (split_and!; [done | apply tree_rep_insert | apply IH]; set_solver).
Qed.

(** [rep sn st gp t]: the state [st] holds the tree [t]; [gp] is the value of
    the root's [parent] field, which no function relies on.  [sn] is the
    contents of the sentinel, which is black and is not a node of the tree. *)
Variable sn : ngx_rbtree_node_t.

Definition sentinel_ok (h : gmap ptr ngx_rbtree_node_t) : Prop :=
  h !! sentinel = Some sn /\ color sn = 0.

Record rep (st : rbstate) (gp : ptr) (t : tree) : Prop := mk_rep {
  rep_root : root st = root_ptr t;
  rep_tree : tree_rep (nodes st) gp t;
  rep_nodup : NoDup (sentinel :: ptrs t);
  rep_sentinel : sentinel_ok (nodes st)
}.

Lemma sentinel_ok_insert h q n :
  q <> sentinel -> sentinel_ok h -> sentinel_ok (<[q := n]> h).
Proof. intros Hq [Hm Hc]. split; [by rewrite lookup_insert_ne | done]. Qed.

(** * Steps of the program *)

Lemma wp_rd f p (Q : Z -> rbstate -> Prop) st n :
  nodes st !! p = Some n -> Q (f n) st -> wp (rd f p) Q st.
Proof. intros Hp HQ. unfold wp, rd. by rewrite Hp. Qed.

Lemma wp_wr f p (Q : unit -> rbstate -> Prop) st n :
  nodes st !! p = Some n ->
  Q tt (mk_rb (<[p := f n]> (nodes st)) (root st)) -> wp (wr f p) Q st.
Proof. intros Hp HQ. unfold wp, wr. by rewrite Hp. Qed.

Lemma wp_rd_root (Q : ptr -> rbstate -> Prop) st : Q (root st) st -> wp rd_root Q st.
Proof. done. Qed.

Lemma wp_set_root p (Q : unit -> rbstate -> Prop) st :
  Q tt (mk_rb (nodes st) p) -> wp (set_root p) Q st.
Proof. done. Qed.

End Rep.

(** Turns a [NoDup] of the addresses of a plugged tree into disequalities and
    non-memberships, one hypothesis each. *)
Ltac nodup_in H :=
  rewrite ?ptrs_plug in H; simpl in H; rewrite ?ptrs_T in H;
  repeat (rewrite <- Permutation_middle in H; simpl in H);
  rewrite ?list.NoDup_cons, ?not_elem_of_cons, ?not_elem_of_app in H;
  destruct_and? H.

Ltac ne_solve := first [ assumption | apply not_eq_sym; assumption | congruence ].

Ltac notin_solve :=
  first [ assumption | ne_solve
        | simpl; rewrite ?ptrs_T, ?not_elem_of_app, ?not_elem_of_cons, ?not_elem_of_app,
            ?not_elem_of_cons; split_and?; first [assumption | ne_solve | apply not_elem_of_nil] ].

Ltac lookup_solve :=
  simpl; rewrite ?lookup_insert_ne by ne_solve;
  rewrite ?lookup_insert_eq; first [eassumption | reflexivity].

Ltac wp_step :=
  match goal with
  | |- wp (bind _ _) _ _ => apply wp_bind
  | |- wp (ret _) _ _ => apply wp_ret
  | |- wp rd_root _ _ => apply wp_rd_root
  | |- wp (set_root _) _ _ => apply wp_set_root
  | |- wp (rd _ _) _ _ => eapply wp_rd; [solve [lookup_solve] | ]
  | |- wp (wr _ _) _ _ => eapply wp_wr; [solve [lookup_solve] | ]
  | |- wp (?f _ _) _ _ =>
      lazymatch f with
      | set_left => idtac | set_right => idtac | set_parent => idtac
      | set_color => idtac | set_key => idtac
      end; eapply wp_wr; [solve [lookup_solve] | ]
  end; simpl.


Lemma inorder_plug_eq K t t' : inorder t = inorder t' -> inorder (plug K t) = inorder (plug K t').
Proof. intros Hi. by rewrite !inorder_plug, Hi. Qed.

Lemma ptrs_plug_eq K t t' : inorder t = inorder t' -> ptrs (plug K t) = ptrs (plug K t').
Proof. intros Hi. unfold ptrs. by rewrite (inorder_plug_eq K t t'). Qed.

Section Steps.
Variable s : ptr.
Variable sn : ngx_rbtree_node_t.

Lemma root_plug_cons f K t t' : root_ptr s (plug (f :: K) t) = root_ptr s (plug (f :: K) t').
Proof.
  revert f t t'. induction K as [|g K IH]; intros f t t'; [by destruct f|].
  change (plug (f :: g :: K) t) with (plug (g :: K) (fill f t)).
  change (plug (f :: g :: K) t') with (plug (g :: K) (fill f t')).
  apply IH.
Qed.

Lemma root_plug_in f K t : root_ptr s (plug (f :: K) t) ∈ ctx_ptrs (f :: K).
Proof.
  revert f t. induction K as [|g K IH]; intros f t; [destruct f; simpl; set_solver|].
  change (plug (f :: g :: K) t) with (plug (g :: K) (fill f t)).
  specialize (IH g (fill f t)). destruct f; simpl in *; set_solver.
Qed.

Lemma root_plug_same K t t' :
  root_ptr s t = root_ptr s t' -> root_ptr s (plug K t) = root_ptr s (plug K t').
Proof. destruct K; [done | intros _; apply root_plug_cons]. Qed.

Lemma root_ptr_ne x t : x ∉ ptrs t -> x <> s -> x <> root_ptr s t.
Proof. destruct t; simpl; [done|]. rewrite ptrs_T. set_solver. Qed.

(** Below the root a node is not the root. *)
Lemma not_root st gp f K t x :
  rep s sn st gp (plug (f :: K) t) -> x ∈ ptrs t -> x <> root st.
Proof.
  intros [Hr _ Hn _] Hx ->. rewrite Hr in Hx.
  apply list.NoDup_cons in Hn as [_ Hn]. rewrite ptrs_plug in Hn.
  apply list.NoDup_app in Hn as (_ & Hd & _).
  apply (Hd _ Hx), root_plug_in.
Qed.

End Steps.

Ltac rep_solve :=
  repeat first
    [ assumption | reflexivity | exact Logic.I
    | match goal with |- _ /\ _ => split end
    | match goal with |- _ = _ => lookup_solve end
    | apply tree_rep_insert; [notin_solve | ]
    | apply ctx_rep_insert; [notin_solve | ]
    | match goal with |- sentinel_ok _ _ _ => apply sentinel_ok_insert; [notin_solve | ] end ].

(** Decides the tests of the program the context settles. *)
Ltac test_step :=
  match goal with
  | |- wp (if ?b then _ else _) _ _ =>
      match b with
      | context [?x =? ?y] =>
          first [ rewrite (Z.eqb_refl x)
                | rewrite (proj2 (Z.eqb_neq x y)) by ne_solve
                | rewrite (proj2 (Z.eqb_neq x y)) by (apply root_ptr_ne; ne_solve)
                | rewrite (proj2 (Z.eqb_eq x y)) by congruence ]
      end
  end; simpl.
Ltac wp_auto := repeat first [wp_step | test_step].

Section Rotate.
Variable s : ptr.
Variable sn : ngx_rbtree_node_t.

Lemma wp_rep {A} (m : P A) gp K t st :
  wp m (fun _ st' => root st' = root_ptr s (plug K t) /\
    (tree_rep s (nodes st') (par gp K) t /\ ctx_rep s (nodes st') gp K (root_ptr s t)) /\
    NoDup (s :: ptrs (plug K t)) /\ sentinel_ok s sn (nodes st')) st ->
  wp m (fun _ st' => rep s sn st' gp (plug K t)) st.
Proof.
  intros Hm. eapply wp_mono; [exact Hm|]. intros _ st' (? & Ht & ? & ?).
  constructor; auto. by apply tree_rep_plug.
Qed.

Lemma left_rotate_ok st gp K c a x k c' b y k' d :
  rep s sn st gp (plug K (T c a x k (T c' b y k' d))) ->
  wp (ngx_rbtree_left_rotate s x)
     (fun _ st' => rep s sn st' gp (plug K (T c' (T c a x k b) y k' d))) st.
Proof.
  intros Hrep. pose proof Hrep as [Hr Ht Hn Hs].
  pose proof Hn as Hd.
  apply tree_rep_plug in Ht as [(Hx & Ha & Hy & Hb & Hdd) HK].
  rewrite (ptrs_plug_eq K _ (T c' (T c a x k b) y k' d)) in Hn
    by (simpl; by rewrite <- app_assoc).
  apply wp_rep.
  unfold ngx_rbtree_left_rotate.
  destruct K as [|f K]; [|
    pose proof (not_root _ _ _ _ _ _ _ x Hrep ltac:(rewrite ptrs_T; set_solver)) as Hxr;
    destruct f as [c2 p2 k2 r2|c2 l2 p2 k2]];
  simpl in Hr; destruct b; simpl in Hb, HK; destruct_and?; nodup_in Hd; wp_auto;
  (split; [first [done | rewrite Hr; by apply root_plug_same] | simpl; rep_solve]).
Qed.

Lemma right_rotate_ok st gp K c d x k c' b y k' a :
  rep s sn st gp (plug K (T c (T c' a y k' b) x k d)) ->
  wp (ngx_rbtree_right_rotate s x)
     (fun _ st' => rep s sn st' gp (plug K (T c' a y k' (T c b x k d)))) st.
Proof.
  intros Hrep. pose proof Hrep as [Hr Ht Hn Hs].
  pose proof Hn as Hd.
  apply tree_rep_plug in Ht as [(Hx & (Hy & Ha & Hb) & Hdd) HK].
  rewrite (ptrs_plug_eq K _ (T c' a y k' (T c b x k d))) in Hn
    by (simpl; by rewrite <- app_assoc).
  apply wp_rep.
  unfold ngx_rbtree_right_rotate.
  destruct K as [|f K]; [|
    pose proof (not_root _ _ _ _ _ _ _ x Hrep ltac:(rewrite ptrs_T; set_solver)) as Hxr;
    destruct f as [c2 p2 k2 r2|c2 l2 p2 k2]];
  simpl in Hr; destruct b; simpl in Hb, HK; destruct_and?; nodup_in Hd; wp_auto;
  (split; [first [done | rewrite Hr; by apply root_plug_same] | simpl; rep_solve]).
Qed.

(** Recolouring a node of the tree. *)
Lemma set_color_ok v st gp K c l p k r :
  rep s sn st gp (plug K (T c l p k r)) ->
  wp (set_color p v) (fun _ st' => rep s sn st' gp (plug K (T v l p k r))) st.
Proof.
  intros [Hr Ht Hn Hs]. pose proof Hn as Hd. nodup_in Hd.
  apply tree_rep_plug in Ht as [(Hp & Hl & Hrr) HK].
  rewrite (ptrs_plug_eq K _ (T v l p k r)) in Hn by done.
  apply wp_rep.
  wp_auto. split; [rewrite Hr; by apply root_plug_same | rep_solve].
Qed.
End Rotate.
End RbtreeRep.
