(* ===== verification/RbtreeInsert.v ===== *)
(** Insertion into the red-black tree: the balance invariant, the descent, the
    re-balancing loop, and the theorems on [ngx_rbtree_insert]. *)
From stdpp Require Import base gmap list numbers.
From S2P Require Import Prelude Rbtree RbtreeRep.
Local Open Scope Z_scope.
Import Rbtree RbtreeRep.

Module RbtreeInsert.

(** [rb t c n]: [t] obeys the red-black rules, its root has colour [c] (the
    sentinel is black) and every path down from it meets [n] black nodes. *)
Inductive rb : tree -> Z -> nat -> Prop :=
| rb_E : rb E 0 0
| rb_R l p k r n : rb l 0 n -> rb r 0 n -> rb (T 1 l p k r) 1 n
| rb_B l cl p k r cr n : rb l cl n -> rb r cr n -> rb (T 0 l p k r) 0 (S n).

(** [cx K c n]: plugging into [K] a subtree of colour [c] and black height [n]
    gives a red-black tree. *)
Inductive cx : list frame -> Z -> nat -> Prop :=
| cx_nil n : cx [] 0 n
| cx_LR p k r K n : rb r 0 n -> cx K 1 n -> cx (FL 1 p k r :: K) 0 n
| cx_RR p k l K n : rb l 0 n -> cx K 1 n -> cx (FR 1 l p k :: K) 0 n
| cx_LB p k r c c' K n : rb r c' n -> cx K 0 (S n) -> cx (FL 0 p k r :: K) c n
| cx_RB p k l c c' K n : rb l c' n -> cx K 0 (S n) -> cx (FR 0 l p k :: K) c n.

#[local] Hint Constructors rb cx : core.

Lemma rb_color t c n : rb t c n -> c = 0 \/ c = 1.
Proof. destruct 1; auto. Qed.

Lemma rb_plug K : forall t c n, cx K c n -> rb t c n -> exists m, rb (plug K t) 0 m.
Proof.
  induction K as [|f K IH]; intros t c n HK Ht; inversion HK; subst; simpl; eauto.
Qed.

Lemma rb_plug_inv K : forall t m,
  rb (plug K t) 0 m -> exists c n, rb t c n /\ cx K c n.
Proof.
  induction K as [|f K IH]; intros t m H; simpl in *; [eauto|].
  apply IH in H as (c & n & Ht & HK). clear IH.
  destruct f; simpl in Ht; inversion Ht; subst; eauto 8.
Qed.

Lemma plug_not_E K : forall t, t <> E -> plug K t <> E.
Proof. induction K as [|[] K IH]; intros t Ht; simpl; [done | by apply IH..]. Qed.

Definition colour (t : tree) : Z := match t with E => 0 | T c _ _ _ _ => c end.

Lemma rb_colour t c n : rb t c n -> colour t = c.
Proof. by destruct 1. Qed.

Fixpoint height (t : tree) : nat :=
  match t with E => O | T _ l _ _ r => S (height l `max` height r) end.

Lemma height_ptrs t : (height t <= length (ptrs t))%nat.
Proof. induction t; simpl; [lia|]. rewrite ptrs_T, length_app. simpl. lia. Qed.

Section Insert.
Variable s : ptr.
Variable sn : ngx_rbtree_node_t.

Lemma tree_rep_dom h gp t x : tree_rep s h gp t -> x ∈ ptrs t -> x ∈ dom h.
Proof.
  revert gp. induction t as [|c l IHl p k r IHr]; intros gp; [set_solver|].
  simpl. intros (Hp & Hl & Hr). rewrite ptrs_T, elem_of_app, elem_of_cons.
  intros [Hx|[->|Hx]]; eauto. apply elem_of_dom. eauto.
Qed.

(** The number of nodes bounds the fuel. *)
Lemma rep_size st gp t : rep s sn st gp t -> (S (length (ptrs t)) <= size (nodes st))%nat.
Proof.
  intros [_ Ht Hn [Hs _]].
  rewrite <- size_dom. change (S (length (ptrs t))) with (length (s :: ptrs t)).
  rewrite <- (size_list_to_set (C := gset Z) (s :: ptrs t)) by done.
  apply subseteq_size. intros x Hx. apply elem_of_list_to_set, elem_of_cons in Hx.
  destruct Hx as [->|Hx]; [apply elem_of_dom; eauto | by eapply tree_rep_dom].
Qed.

Lemma rep_lookup st gp K c l p k r :
  rep s sn st gp (plug K (T c l p k r)) ->
  nodes st !! p = Some (mk_node k (root_ptr s l) (root_ptr s r) (par gp K) c).
Proof. intros [_ Ht _ _]. apply tree_rep_plug in Ht as [[Hp _] _]. done. Qed.

Lemma wp_is_red st gp K t (Q : bool -> rbstate -> Prop) :
  rep s sn st gp (plug K t) -> Q (negb (colour t =? 0)) st ->
  wp (ngx_rbt_is_red (root_ptr s t)) Q st.
Proof.
  intros Hr HQ. unfold ngx_rbt_is_red. apply wp_bind.
  destruct t; simpl.
  - destruct Hr as [_ _ _ [Hn Hc]]. eapply wp_rd; [done|]. apply wp_ret. by rewrite Hc.
  - eapply wp_rd; [by eapply rep_lookup|]. by apply wp_ret.
Qed.

(** * The descent *)

Section Descent.
Variable less : ptr * Z -> ptr * Z -> bool.

(** The tree after [node], with key [nk], was linked in as a red leaf. *)
Fixpoint ins (node nk : Z) (t : tree) : tree :=
  match t with
  | E => T 1 E node nk E
  | T c l p k r =>
      if less (node, nk) (p, k) then T c (ins node nk l) p k r else T c l p k (ins node nk r)
  end.

Lemma ins_plug node nk t : exists K, ins node nk t = plug K (T 1 E node nk E) /\
  forall c n K0, rb t c n -> cx K0 c n -> cx (K ++ K0) 0 0.
Proof.
  induction t as [|c l IHl p k r IHr]; simpl.
  - exists []. split; [done|]. by inversion 1; subst.
  - destruct IHl as (Kl & El & Hl), IHr as (Kr & Er & Hr). destruct (less (node, nk) (p, k)).
    + exists (Kl ++ [FL c p k r]). rewrite plug_app, El. split; [done|].
      intros c0 n K0 Hrb HK. rewrite <- app_assoc. simpl.
      inversion Hrb; subst; eauto.
    + exists (Kr ++ [FR c l p k]). rewrite plug_app, Er. split; [done|].
      intros c0 n K0 Hrb HK. rewrite <- app_assoc. simpl.
      inversion Hrb; subst; eauto.
Qed.

(** Linking [node] below [p], to the left or to the right. *)
Lemma link_ok (to_left : bool) node n st gp K c t p k :
  let f := if to_left then FL c p k t else FR c t p k in
  rep s sn st gp (plug (f :: K) E) ->
  nodes st !! node = Some n -> node ∉ s :: ptrs (plug (f :: K) E) ->
  wp ((if to_left then set_left p node else set_right p node) ;;
      set_parent node p ;; set_left node s ;; set_right node s ;;
      ngx_rbt_red node)%prog
     (fun _ st' => rep s sn st' gp (plug (f :: K) (T 1 E node (key n) E))) st.
Proof.
  intros f [Hr Ht Hn Hs] Hnode Hnin. pose proof Hn as Hd.
  assert (Hn' : NoDup (s :: ptrs (plug (f :: K) (T 1 E node (key n) E)))).
  { revert Hn Hnin. rewrite !ptrs_plug. change (ptrs (T 1 E node (key n) E)) with [node].
    generalize (ctx_ptrs (f :: K)). intros L. change (ptrs E) with (@nil Z). simpl.
    rewrite !list.NoDup_cons, !not_elem_of_cons. naive_solver. }
  apply tree_rep_plug in Ht as [_ HK]. rewrite ptrs_plug in Hnin.
  apply wp_rep. unfold ngx_rbt_red.
  destruct to_left; simpl in f; subst f; simpl in HK, Hnin, Hr; destruct_and?; nodup_in Hd;
    rewrite !not_elem_of_cons, !not_elem_of_app in Hnin; destruct_and?; wp_auto;
    (split; [simpl; rewrite Hr; by apply root_plug_same | simpl; rep_solve]).
Qed.

Lemma insert_loop_ok node n fuel : forall st gp K c l p k r,
  rep s sn st gp (plug K (T c l p k r)) ->
  nodes st !! node = Some n -> node ∉ s :: ptrs (plug K (T c l p k r)) ->
  (height (T c l p k r) <= fuel)%nat ->
  wp (insert_loop less fuel p node s)
     (fun _ st' => rep s sn st' gp (plug K (ins node (key n) (T c l p k r)))) st.
Proof.
  induction fuel as [|fuel IH]; intros st gp K c l p k r Hrep Hnode Hnin Hh; [simpl in Hh; lia|].
  pose proof (rep_lookup _ _ _ _ _ _ _ _ Hrep) as Hp. cbn [height] in Hh.
  assert (Hs : forall t, t = l \/ t = r -> t <> E -> (root_ptr s t =? s) = false).
  { intros t Ht HE. destruct Hrep as [_ _ Hn _]. apply list.NoDup_cons in Hn as [Hn _].
    rewrite ptrs_plug, ptrs_T in Hn. apply Z.eqb_neq. intros Heq.
    destruct t; [done|]. simpl in Heq. subst. apply Hn.
    destruct Ht as [<-|<-]; rewrite ptrs_T; set_solver. }
  simpl. do 4 wp_step.
  destruct (less (node, key n) (p, k)) eqn:Hless; wp_step; wp_step.
  - destruct l as [|cl ll pl kl rl].
    + rewrite Z.eqb_refl. by apply (link_ok true).
    + rewrite Hs by auto. apply (IH st gp (FL c p k r :: K)); auto. cbn [height] in *. lia.
  - destruct r as [|cr lr pr kr rr].
    + rewrite Z.eqb_refl. by apply (link_ok false).
    + rewrite Hs by auto. apply (IH st gp (FR c l p k :: K)); auto. cbn [height] in *. lia.
Qed.
End Descent.

(** * Re-balancing *)

(** The loop invariant of the re-balancing: [x] is a red node whose subtrees
    have black roots, the only rule that may be broken is that the parent of
    [x] is red or [x] the root; [I] is the tree's in-order sequence. *)
Definition fix_inv (I : list (Z * Z)) (st : rbstate) (gp : ptr) (x : ptr)
    (K : list frame) : Prop :=
  exists l k r n, rep s sn st gp (plug K (T 1 l x k r)) /\
    rb l 0 n /\ rb r 0 n /\ cx K 0 n /\ inorder (plug K (T 1 l x k r)) = I.

Lemma wp_with_fuel {A} (f : nat -> P A) Q st :
  wp (f (fuel_of st)) Q st -> wp (with_fuel f) Q st.
Proof. done. Qed.

Lemma wp_color v st gp K c l p k r (Q : unit -> rbstate -> Prop) :
  rep s sn st gp (plug K (T c l p k r)) ->
  (forall st', rep s sn st' gp (plug K (T v l p k r)) -> Q tt st') ->
  wp (set_color p v) Q st.
Proof.
  intros H HQ. eapply wp_mono; [by eapply set_color_ok|]. intros [] st' H'. by apply HQ.
Qed.

Lemma wp_left_rotate st gp K c a x k c' b y k' d (Q : unit -> rbstate -> Prop) :
  rep s sn st gp (plug K (T c a x k (T c' b y k' d))) ->
  (forall st', rep s sn st' gp (plug K (T c' (T c a x k b) y k' d)) -> Q tt st') ->
  wp (ngx_rbtree_left_rotate s x) Q st.
Proof.
  intros H HQ. eapply wp_mono; [by eapply left_rotate_ok|]. intros [] st' H'. by apply HQ.
Qed.

Lemma wp_right_rotate st gp K c d x k c' b y k' a (Q : unit -> rbstate -> Prop) :
  rep s sn st gp (plug K (T c (T c' a y k' b) x k d)) ->
  (forall st', rep s sn st' gp (plug K (T c' a y k' (T c b x k d))) -> Q tt st') ->
  wp (ngx_rbtree_right_rotate s x) Q st.
Proof.
  intros H HQ. eapply wp_mono; [by eapply right_rotate_ok|]. intros [] st' H'. by apply HQ.
Qed.

End Insert.

(** [open_rep H K t]: the lookups of the nodes of [t], from [H : rep s sn st gp (plug K t)]. *)
Ltac open_rep H :=
  match type of H with
  | rep ?s ?sn ?st ?gp (plug ?K ?t) =>
      let Ho := fresh "Ho" in
      pose proof (proj1 (proj1 (tree_rep_plug s (nodes st) gp K t) (rep_tree _ _ _ _ _ H))) as Ho;
      cbn [tree_rep root_ptr] in Ho; destruct_and? Ho
  end.

(** Runs reads and tests only. *)
Ltac wp_reads :=
  repeat first
    [ test_step
    | lazymatch goal with
      | |- wp (bind (set_color _ _) _) _ _ => fail
      | |- wp (bind (ngx_rbtree_left_rotate _ _) _) _ _ => fail
      | |- wp (bind (ngx_rbtree_right_rotate _ _) _) _ _ => fail
      | |- _ => wp_step
      end ].

(** One step that changes the tree, the changed subtree plugged into [K]. *)
Ltac tree_step lem K H :=
  apply wp_bind;
  eapply (lem _ _ _ _ K); [exact H | clear H];
  let st := fresh "st" in intros st H; simpl in H.
Ltac color_step K H :=
  apply wp_bind;
  eapply (wp_color _ _ _ _ _ K); [exact H | clear H];
  let st := fresh "st" in intros st H; simpl in H.

Section Fixup.
Variable s : ptr.
Variable sn : ngx_rbtree_node_t.

Definition step_post I gp (K : list frame) : ptr -> rbstate -> Prop :=
  fun x' st' => exists K', fix_inv s sn I st' gp x' K' /\ (length K' < S (S (length K)))%nat.

Lemma step_post_intro I gp K K' l x k r n st :
  rep s sn st gp (plug K' (T 1 l x k r)) -> rb l 0 n -> rb r 0 n -> cx K' 0 n ->
  inorder (plug K' (T 1 l x k r)) = I -> (length K' < S (S (length K)))%nat ->
  step_post I gp K x st.
Proof. intros. exists K'. split; [|done]. exists l, k, r, n. auto. Qed.

Ltac solve_inorder HI :=
  rewrite <- HI; simpl; apply inorder_plug_eq; simpl; repeat (rewrite <- app_assoc; simpl); reflexivity.

Ltac fixup_case Hrep Hu ctx :=
  unfold insert_fixup_step, ngx_rbt_black, ngx_rbt_red; open_rep Hrep; wp_reads;
  eapply wp_is_red; [exact (Hrep : rep _ _ _ _ (plug ctx _)) |];
  rewrite (rb_colour _ _ _ Hu);
  destruct (rb_color _ _ _ Hu) as [-> | ->]; simpl.

Lemma fixup_step_LL I st gp l x k r n p pk b g gk u cu K :
  rep s sn st gp (plug K (T 0 (T 1 (T 1 l x k r) p pk b) g gk u)) ->
  rb l 0 n -> rb r 0 n -> rb b 0 n -> rb u cu n -> cx K 0 (S n) ->
  inorder (plug K (T 0 (T 1 (T 1 l x k r) p pk b) g gk u)) = I ->
  wp (insert_fixup_step s x) (step_post I gp K) st.
Proof.
  intros Hrep Hl Hr Hb Hu HK HI.
  pose proof (rep_nodup _ _ _ _ _ Hrep) as Hd. nodup_in Hd.
  fixup_case Hrep Hu (FR 0 (T 1 (T 1 l x k r) p pk b) g gk :: K).
  - wp_reads. 
    color_step (FL 0 g gk u :: K) Hrep. open_rep Hrep. wp_reads.
    color_step K Hrep.
    tree_step wp_right_rotate K Hrep. wp_reads.
    eapply (step_post_intro _ _ _ (FL 0 p pk (T 1 b g gk u) :: K));
      [exact Hrep | eauto .. | solve_inorder HI | simpl; lia].
  - inversion Hu; subst u n0. simpl.
    color_step (FL 0 g gk (T 1 l0 p0 k0 r0) :: K) Hrep.
    color_step (FR 0 (T 0 (T 1 l x k r) p pk b) g gk :: K) Hrep.
    color_step K Hrep. wp_reads.
    eapply (step_post_intro _ _ _ K); [exact Hrep | eauto .. | solve_inorder HI | lia].
Qed.

Lemma fixup_step_LR I st gp l x k r n p pk a g gk u cu K :
  rep s sn st gp (plug K (T 0 (T 1 a p pk (T 1 l x k r)) g gk u)) ->
  rb l 0 n -> rb r 0 n -> rb a 0 n -> rb u cu n -> cx K 0 (S n) ->
  inorder (plug K (T 0 (T 1 a p pk (T 1 l x k r)) g gk u)) = I ->
  wp (insert_fixup_step s x) (step_post I gp K) st.
Proof.
  intros Hrep Hl Hr Ha Hu HK HI.
  pose proof (rep_nodup _ _ _ _ _ Hrep) as Hd. nodup_in Hd.
  fixup_case Hrep Hu (FR 0 (T 1 a p pk (T 1 l x k r)) g gk :: K).
  - wp_reads. tree_step wp_left_rotate (FL 0 g gk u :: K) Hrep.
    open_rep Hrep. wp_reads.
    color_step (FL 0 g gk u :: K) Hrep. open_rep Hrep. wp_reads.
    color_step K Hrep. tree_step wp_right_rotate K Hrep. wp_reads.
    eapply (step_post_intro _ _ _ (FL 0 x k (T 1 r g gk u) :: K));
      [exact Hrep | eauto .. | solve_inorder HI | simpl; lia].
  - inversion Hu; subst u n0. simpl.
    color_step (FL 0 g gk (T 1 l0 p0 k0 r0) :: K) Hrep.
    color_step (FR 0 (T 0 a p pk (T 1 l x k r)) g gk :: K) Hrep.
    color_step K Hrep. wp_reads.
    eapply (step_post_intro _ _ _ K); [exact Hrep | eauto .. | solve_inorder HI | lia].
Qed.

Lemma fixup_step_RR I st gp l x k r n p pk a g gk u cu K :
  rep s sn st gp (plug K (T 0 u g gk (T 1 a p pk (T 1 l x k r)))) ->
  rb l 0 n -> rb r 0 n -> rb a 0 n -> rb u cu n -> cx K 0 (S n) ->
  inorder (plug K (T 0 u g gk (T 1 a p pk (T 1 l x k r)))) = I ->
  wp (insert_fixup_step s x) (step_post I gp K) st.
Proof.
  intros Hrep Hl Hr Ha Hu HK HI.
  pose proof (rep_nodup _ _ _ _ _ Hrep) as Hd. nodup_in Hd.
  fixup_case Hrep Hu (FL 0 g gk (T 1 a p pk (T 1 l x k r)) :: K).
  - wp_reads.
    color_step (FR 0 u g gk :: K) Hrep. open_rep Hrep. wp_reads.
    color_step K Hrep. tree_step wp_left_rotate K Hrep. wp_reads.
    eapply (step_post_intro _ _ _ (FR 0 (T 1 u g gk a) p pk :: K));
      [exact Hrep | eauto .. | solve_inorder HI | simpl; lia].
  - inversion Hu; subst u n0. simpl.
    color_step (FR 0 (T 1 l0 p0 k0 r0) g gk :: K) Hrep.
    color_step (FL 0 g gk (T 0 a p pk (T 1 l x k r)) :: K) Hrep.
    color_step K Hrep. wp_reads.
    eapply (step_post_intro _ _ _ K); [exact Hrep | eauto .. | solve_inorder HI | lia].
Qed.

Lemma fixup_step_RL I st gp l x k r n p pk b g gk u cu K :
  rep s sn st gp (plug K (T 0 u g gk (T 1 (T 1 l x k r) p pk b))) ->
  rb l 0 n -> rb r 0 n -> rb b 0 n -> rb u cu n -> cx K 0 (S n) ->
  inorder (plug K (T 0 u g gk (T 1 (T 1 l x k r) p pk b))) = I ->
  wp (insert_fixup_step s x) (step_post I gp K) st.
Proof.
  intros Hrep Hl Hr Hb Hu HK HI.
  pose proof (rep_nodup _ _ _ _ _ Hrep) as Hd. nodup_in Hd.
  fixup_case Hrep Hu (FL 0 g gk (T 1 (T 1 l x k r) p pk b) :: K).
  - wp_reads. tree_step wp_right_rotate (FR 0 u g gk :: K) Hrep.
    open_rep Hrep. wp_reads.
    color_step (FR 0 u g gk :: K) Hrep. open_rep Hrep. wp_reads.
    color_step K Hrep. tree_step wp_left_rotate K Hrep. wp_reads.
    eapply (step_post_intro _ _ _ (FR 0 (T 1 u g gk l) x k :: K));
      [exact Hrep | eauto .. | solve_inorder HI | simpl; lia].
  - inversion Hu; subst u n0. simpl.
    color_step (FR 0 (T 1 l0 p0 k0 r0) g gk :: K) Hrep.
    color_step (FL 0 g gk (T 0 (T 1 l x k r) p pk b) :: K) Hrep.
    color_step K Hrep. wp_reads.
    eapply (step_post_intro _ _ _ K); [exact Hrep | eauto .. | solve_inorder HI | lia].
Qed.

(** One iteration, with a red parent. *)
Lemma fixup_step_ok I st gp f K x :
  fix_inv s sn I st gp x (f :: K) -> match f with FL c _ _ _ | FR c _ _ _ => c end <> 0 ->
  wp (insert_fixup_step s x)
     (fun x' st' => exists K', fix_inv s sn I st' gp x' K' /\ (length K' < length (f :: K))%nat) st.
Proof.
  intros (l & k & r & n & Hrep & Hl & Hr & HK & HI) Hf.
  assert (Hpost : forall K0 f0, K = f0 :: K0 -> forall a st',
    step_post I gp K0 a st' -> exists K', fix_inv s sn I st' gp a K' /\ (length K' < length (f :: K))%nat)
    by (intros ? ? ->; done).
  inversion HK as [|? ? ? ? ? Hb HK1|? ? ? ? ? Hb HK1|?|?]; subst; try done;
    inversion HK1; subst; (eapply wp_mono; [|by eapply Hpost]).
  - by eapply fixup_step_LL.
  - by eapply fixup_step_RL.
  - by eapply fixup_step_LR.
  - by eapply fixup_step_RR.
Qed.

(** The loop ends, and blackening the root then gives a red-black tree. *)
Definition fixup_done I gp (st : rbstate) : Prop :=
  exists c l p k r m, rep s sn st gp (T c l p k r) /\ rb (T 0 l p k r) 0 m /\
    inorder (T c l p k r) = I.

Lemma fix_inv_done I st gp x K :
  fix_inv s sn I st gp x K ->
  match K with FL c _ _ _ :: _ | FR c _ _ _ :: _ => c = 0 | [] => True end ->
  fixup_done I gp st.
Proof.
  intros (l & k & r & n & Hrep & Hl & Hr & HK & HI) Hc. destruct K as [|f K].
  - exists 1, l, x, k, r, (S n). eauto.
  - assert (cx (f :: K) 1 n) as HK1 by (inversion HK; subst; eauto; done).
    destruct (rb_plug _ (T 1 l x k r) _ _ HK1 ltac:(eauto)) as [m Hm].
    destruct (plug (f :: K) (T 1 l x k r)) as [|c0 l0 p0 k0 r0] eqn:Et.
    + by apply plug_not_E in Et.
    + inversion Hm; subst. exists 0, l0, p0, k0, r0, (S n0). eauto.
Qed.

Lemma length_ctx_ptrs K : (length K <= length (ctx_ptrs K))%nat.
Proof. induction K as [|[] K IH]; simpl; [lia|..]; rewrite length_app; lia. Qed.

Lemma insert_fixup_ok I fuel : forall st gp x K,
  fix_inv s sn I st gp x K -> (length K < fuel)%nat ->
  wp (insert_fixup fuel s x) (fun _ => fixup_done I gp) st.
Proof.
  induction fuel as [|fuel IH]; intros st gp x K Hinv Hfuel; [lia|]. simpl.
  pose proof Hinv as (l & k & r & n & Hrep & Hl & Hr & HK & HI).
  wp_step. wp_step. destruct K as [|f K].
  - rewrite (rep_root _ _ _ _ _ Hrep). simpl. rewrite Z.eqb_refl. wp_step.
    by eapply fix_inv_done.
  - rewrite (proj2 (Z.eqb_neq _ _)) by (eapply not_root; [done | rewrite ptrs_T; set_solver]).
    wp_step. eapply wp_rd; [by eapply rep_lookup|]. cbn [parent par].
    wp_step. unfold ngx_rbt_is_red. wp_step.
    destruct f as [c p pk b|c b p pk]; (eapply wp_rd; [by eapply (rep_lookup s sn st gp K)|]);
      wp_step; (destruct (Z.eqb_spec c 0) as [Hc|Hc]; simpl; wp_step;
        [by eapply fix_inv_done
        |eapply wp_mono; [by eapply fixup_step_ok|];
         intros x' st' (K' & Hinv' & Hlen); (eapply IH; [done | simpl in *; lia])]).
Qed.
End Fixup.

(** * Insertion *)

Section Theorems.
Variable s : ptr.
Variable sn : ngx_rbtree_node_t.
Variable less : ptr * Z -> ptr * Z -> bool.

(** [ngx_rbtree_insert] with the descent of any comparison. *)
Definition insert_by (temp node sentinel : ptr) : P unit :=
  with_fuel (fun fuel => insert_loop less fuel temp node sentinel).

Lemma insert_ok st gp t m node n :
  rep s sn st gp t -> rb t 0 m -> nodes st !! node = Some n -> node ∉ s :: ptrs t ->
  wp (ngx_rbtree_insert insert_by s node)
     (fun _ st' => exists gp' t' m', rep s sn st' gp' t' /\ rb t' 0 m' /\
        inorder t' = inorder (ins less node (key n) t)) st.
Proof.
  intros Hrep Hrb Hnode Hnin. unfold ngx_rbtree_insert.
  wp_step. wp_step. rewrite (rep_root _ _ _ _ _ Hrep).
  destruct t as [|c l p k r].
  - simpl. rewrite Z.eqb_refl. destruct Hrep as [Hr Ht Hn Hs].
    unfold ngx_rbt_black. wp_auto. apply not_elem_of_cons in Hnin as [Hns _].
    exists NULL, (T 0 E node (key n) E), 1%nat. split_and!; [|eauto|done].
    constructor; simpl; [done|rep_solve| |rep_solve].
    change (ptrs (T 0 E node (key n) E)) with [node].
    repeat constructor; set_solver.
  - simpl. rewrite (proj2 (Z.eqb_neq _ _)).
    2: { pose proof (rep_nodup _ _ _ _ _ Hrep) as Hd. rewrite ptrs_T in Hd.
         apply list.NoDup_cons in Hd as [Hd _]. intros ->. set_solver. }
    pose proof (rep_size _ _ _ _ _ Hrep) as Hsize.
    pose proof (height_ptrs (T c l p k r)) as Hh.
    wp_step. apply wp_with_fuel.
    eapply wp_mono.
    { apply (insert_loop_ok s sn less node n _ st gp [] c l p k r Hrep Hnode Hnin).
      unfold fuel_of. lia. }
    intros ? st1 Hrep1. cbn [plug] in Hrep1.
    destruct (ins_plug less node (key n) (T c l p k r)) as (K & EK & HK).
    rewrite EK in Hrep1. specialize (HK 0 m [] Hrb (cx_nil _)). rewrite app_nil_r in HK.
    pose proof (rep_size _ _ _ _ _ Hrep1) as Hsize1. rewrite ptrs_plug, length_app in Hsize1.
    pose proof (length_ctx_ptrs K) as HlK.
    wp_step. apply wp_with_fuel. eapply wp_mono.
    { eapply insert_fixup_ok with (I := inorder (ins less node (key n) (T c l p k r))) (K := K);
        [|unfold fuel_of; lia].
      exists E, (key n), E, 0%nat. rewrite EK. eauto 10. }
    intros _ st2 (c2 & l2 & p2 & k2 & r2 & m2 & Hrep2 & Hrb2 & HI2).
    wp_step. wp_step. rewrite (rep_root _ _ _ _ _ Hrep2). simpl. unfold ngx_rbt_black.
    eapply (wp_color s sn _ _ gp []); [exact Hrep2|]. intros st3 Hrep3. simpl in Hrep3.
    exists gp, (T 0 l2 p2 k2 r2), m2. auto.
Qed.
End Theorems.
End RbtreeInsert.
