(* ===== verification/RbtreeDelete.v ===== *)
(** Deletion from the red-black tree: the fixup loop. *)
From stdpp Require Import base gmap list numbers.
From S2P Require Import Prelude Rbtree RbtreeRep RbtreeInsert.
Local Open Scope Z_scope.
Import Rbtree RbtreeRep RbtreeInsert.

Module RbtreeDelete.
#[local] Hint Constructors rb cx : core.

Definition blacken (t : tree) : tree :=
  match t with E => E | T _ l p k r => T 0 l p k r end.

Lemma cx_weaken K n : cx K 1 n -> cx K 0 n.
Proof. inversion 1; subst; eauto. Qed.

Lemma rb_red_inv t n : rb t 1 n ->
  exists l p k r, t = T 1 l p k r /\ rb l 0 n /\ rb r 0 n.
Proof. inversion 1; subst; eauto 10. Qed.

Lemma rb_black_inv t n : rb t 0 (S n) ->
  exists l p k r cl cr, t = T 0 l p k r /\ rb l cl n /\ rb r cr n.
Proof. inversion 1; subst; eauto 10. Qed.

Section Fixup.
Variable s : ptr.
Variable sn : ngx_rbtree_node_t.

(** The fixup invariant: the subtree [t] below the path [K] lacks one black
    node, or it is red and becomes right when blackened. *)
Definition short (t : tree) (n : nat) : Prop :=
  (colour t = 0 /\ rb t 0 n) \/ (colour t = 1 /\ rb (blacken t) 0 (S n)).

Definition hole_parent (gp : ptr) (K : list frame) (t : tree) : Prop :=
  K <> [] -> t = E -> parent sn = par gp K.

Definition del_inv (I : list (Z * Z)) st gp K t : Prop :=
  exists n, rep s sn st gp (plug K t) /\ hole_parent gp K t /\ short t n /\
    cx K 0 (S n) /\ inorder (plug K t) = I.

(** The iterations the loop still makes. *)
Definition rank (K : list frame) (t : tree) : nat :=
  if colour t =? 0 then S (length K) else 1%nat.

Lemma wp_parent st gp f K t (Q : Z -> rbstate -> Prop) :
  rep s sn st gp (plug (f :: K) t) -> (t = E -> parent sn = fptr f) ->
  Q (fptr f) st -> wp (rd parent (root_ptr s t)) Q st.
Proof.
  intros Hrep Hh HQ. destruct t.
  - eapply wp_rd; [apply (rep_sentinel _ _ _ _ _ Hrep)|]. by rewrite Hh.
  - eapply wp_rd; [by eapply rep_lookup|]. done.
Qed.

Lemma wp_is_black st gp K t c n (Q : bool -> rbstate -> Prop) :
  rep s sn st gp (plug K t) -> rb t c n -> Q (c =? 0) st ->
  wp (ngx_rbt_is_black (root_ptr s t)) Q st.
Proof.
  intros Hr Hrb HQ. unfold ngx_rbt_is_black. apply wp_bind.
  eapply wp_is_red; [done|]. apply wp_ret. rewrite (rb_colour _ _ _ Hrb).
  by rewrite negb_involutive.
Qed.

Definition step_post I gp (m : nat) : ptr -> rbstate -> Prop :=
  fun x st => exists K t, x = root_ptr s t /\ del_inv I st gp K t /\ (rank K t <= m)%nat.

Lemma wp_children_black st gp K c a w wk b ca cb n (Q : bool -> rbstate -> Prop) :
  rep s sn st gp (plug K (T c a w wk b)) -> rb a ca n -> rb b cb n ->
  Q ((ca =? 0) && (cb =? 0)) st -> wp (children_black w) Q st.
Proof.
  intros Hrep Ha Hb HQ. unfold children_black.
  pose proof (rep_lookup _ _ _ _ _ _ _ _ _ _ Hrep) as Hw. wp_reads.
  eapply wp_is_black; [exact (Hrep : rep s sn st gp (plug (FL c w wk b :: K) a)) | done |].
  destruct (ca =? 0); wp_reads; [|done].
  by eapply wp_is_black; [exact (Hrep : rep s sn st gp (plug (FR c a w wk :: K) b)) | done |].
Qed.


(** The colours and heights around a hole that is a left child. *)
Lemma cx_FL_inv cp p pk w K n :
  cx (FL cp p pk w :: K) 0 (S n) ->
  exists cw, rb w cw (S n) /\
    ((cp = 1 /\ cw = 0 /\ cx K 1 (S n)) \/ (cp = 0 /\ cx K 0 (S (S n)))).
Proof. inversion 1; subst; eauto 10. Qed.

Lemma cx_FR_inv cp p pk w K n :
  cx (FR cp w p pk :: K) 0 (S n) ->
  exists cw, rb w cw (S n) /\
    ((cp = 1 /\ cw = 0 /\ cx K 1 (S n)) \/ (cp = 0 /\ cx K 0 (S (S n)))).
Proof. inversion 1; subst; eauto 10. Qed.

(** The last case of the fixup rebuilds the whole tree: the loop is over. *)
Lemma post_root I st gp K c a w wk b cp n m :
  rep s sn st gp (plug K (T cp a w wk b)) ->
  rb (T cp a w wk b) c n -> cx K c n -> inorder (plug K (T cp a w wk b)) = I ->
  (1 <= m)%nat -> step_post I gp m (root st) st.
Proof.
  intros Hrep Hrb HK HI Hm. destruct (rb_plug _ _ _ _ HK Hrb) as [mm Hmm].
  exists [], (plug K (T cp a w wk b)).
  split; [by rewrite (rep_root _ _ _ _ _ Hrep)|]. split.
  - exists mm. split_and!; [done | by intros ? | | by constructor | done].
    left. split; [by eapply rb_colour | done].
  - unfold rank. rewrite (rb_colour _ _ _ Hmm). simpl. lia.
Qed.

(** Both children of the sibling are black: the sibling becomes red and the
    hole moves up. *)
Lemma post_up I st gp K c a p pk b n m :
  rep s sn st gp (plug K (T c a p pk b)) ->
  rb (T 0 a p pk b) 0 (S n) ->
  (c = 1 /\ cx K 1 (S n)) \/ (c = 0 /\ cx K 0 (S (S n))) ->
  inorder (plug K (T c a p pk b)) = I ->
  (rank K (T c a p pk b) <= m)%nat -> step_post I gp m p st.
Proof.
  intros Hrep Hrb HK HI Hm. exists K, (T c a p pk b). split; [done|]. split; [|done].
  destruct HK as [[-> HK]|[-> HK]].
  - exists n. split_and!; [done | done | by right | by apply cx_weaken | done].
  - exists (S n). split_and!; [done | done | by left | done | done].
Qed.

Ltac solve_inorder HI :=
  rewrite <- HI; simpl; apply inorder_plug_eq; simpl;
  repeat (rewrite <- app_assoc; simpl); reflexivity.

Ltac parent_step Hrep fr Hh := eapply (wp_parent _ _ fr); [exact Hrep | exact Hh |].

(** The end of the fixup, when the outer child of the sibling is red. *)
Lemma left_last I st gp K t n cp p pk a w wk b1 q qk b2 ca m :
  rep s sn st gp (plug K (T cp t p pk (T 0 a w wk (T 1 b1 q qk b2)))) ->
  (t = E -> parent sn = p) ->
  rb t 0 n -> rb a ca n -> rb b1 0 n -> rb b2 0 n ->
  (cp = 1 /\ cx K 1 (S n)) \/ (cp = 0 /\ cx K 0 (S (S n))) ->
  inorder (plug K (T cp t p pk (T 0 a w wk (T 1 b1 q qk b2)))) = I -> (1 <= m)%nat ->
  wp (let! p := rd parent (root_ptr s t) in
      ngx_rbt_copy_color w p ;;
      ngx_rbt_black p ;;
      let! wr := rd right w in
      ngx_rbt_black wr ;;
      ngx_rbtree_left_rotate s p ;;
      rd_root)%prog (step_post I gp m) st.
Proof.
  intros Hrep Hh Ht Ha Hb1 Hb2 HK HI Hm.
  unfold ngx_rbt_black, ngx_rbt_copy_color. open_rep Hrep. wp_step.
  parent_step Hrep (FL cp p pk (T 0 a w wk (T 1 b1 q qk b2))) Hh. simpl.
  do 3 wp_step. eapply (wp_color _ _ _ _ _ (FR cp t p pk :: K)); [exact Hrep|].
  clear Hrep. intros st1 Hrep. simpl in Hrep.
  color_step K Hrep. open_rep Hrep. wp_reads.
  color_step (FR cp a w wk :: FR 0 t p pk :: K) Hrep.
  tree_step wp_left_rotate K Hrep. wp_step.
  destruct HK as [[-> HK]|[-> HK]];
    (eapply post_root; [exact Hrep | eauto .. | solve_inorder HI | done]).
Qed.

Lemma right_last I st gp K t n cp p pk b1 q qk b2 w wk a ca m :
  rep s sn st gp (plug K (T cp (T 0 (T 1 b1 q qk b2) w wk a) p pk t)) ->
  (t = E -> parent sn = p) ->
  rb t 0 n -> rb a ca n -> rb b1 0 n -> rb b2 0 n ->
  (cp = 1 /\ cx K 1 (S n)) \/ (cp = 0 /\ cx K 0 (S (S n))) ->
  inorder (plug K (T cp (T 0 (T 1 b1 q qk b2) w wk a) p pk t)) = I -> (1 <= m)%nat ->
  wp (let! p := rd parent (root_ptr s t) in
      ngx_rbt_copy_color w p ;;
      ngx_rbt_black p ;;
      let! wl := rd left w in
      ngx_rbt_black wl ;;
      ngx_rbtree_right_rotate s p ;;
      rd_root)%prog (step_post I gp m) st.
Proof.
  intros Hrep Hh Ht Ha Hb1 Hb2 HK HI Hm.
  unfold ngx_rbt_black, ngx_rbt_copy_color. open_rep Hrep. wp_step.
  parent_step Hrep (FR cp (T 0 (T 1 b1 q qk b2) w wk a) p pk) Hh. simpl.
  do 3 wp_step. eapply (wp_color _ _ _ _ _ (FL cp p pk t :: K)); [exact Hrep|].
  clear Hrep. intros st1 Hrep. simpl in Hrep.
  color_step K Hrep. open_rep Hrep. wp_reads.
  color_step (FL cp w wk a :: FL 0 p pk t :: K) Hrep.
  tree_step wp_right_rotate K Hrep. wp_step.
  destruct HK as [[-> HK]|[-> HK]];
    (eapply post_root; [exact Hrep | eauto .. | solve_inorder HI | done]).
Qed.

Lemma left_rest_ok I st gp K t n cp p pk a w wk b ca cb :
  rep s sn st gp (plug K (T cp t p pk (T 0 a w wk b))) ->
  (t = E -> parent sn = p) ->
  rb t 0 n -> rb a ca n -> rb b cb n ->
  (cp = 1 /\ cx K 1 (S n)) \/ (cp = 0 /\ cx K 0 (S (S n))) ->
  inorder (plug K (T cp t p pk (T 0 a w wk b))) = I ->
  wp (delete_fixup_left_rest s (root_ptr s t) w)
     (step_post I gp (if cp =? 0 then S (length K) else 1%nat)) st.
Proof.
  intros Hrep Hh Ht Ha Hb HK HI.
  pose proof (rep_nodup _ _ _ _ _ Hrep) as Hd. nodup_in Hd.
  unfold delete_fixup_left_rest, ngx_rbt_black, ngx_rbt_red, ngx_rbt_copy_color.
  wp_step. eapply wp_children_black;
    [exact (Hrep : rep s sn st gp (plug (FR cp t p pk :: K) (T 0 a w wk b))) | done..|].
  destruct (rb_color _ _ _ Ha) as [-> | ->], (rb_color _ _ _ Hb) as [-> | ->]; simpl.
  - color_step (FR cp t p pk :: K) Hrep.
    parent_step Hrep (FL cp p pk (T 1 a w wk b)) Hh.
    eapply post_up; [exact Hrep | eauto | eauto | solve_inorder HI |].
    unfold rank. simpl. done.
  - inversion Hb; subst b n0. open_rep Hrep.
    unfold ngx_rbt_is_black, ngx_rbt_is_red at 1. wp_reads.
    eapply wp_bind_inv, left_last; eauto. destruct (cp =? 0); lia.
  - inversion Ha; subst a n0. open_rep Hrep. wp_reads.
    eapply wp_is_black;
      [exact (Hrep : rep s sn st gp (plug (FR 0 _ w wk :: FR cp t p pk :: K) b)) | exact Hb |].
    wp_reads.
    color_step (FL 0 w wk b :: FR cp t p pk :: K) Hrep.
    color_step (FR cp t p pk :: K) Hrep.
    tree_step wp_right_rotate (FR cp t p pk :: K) Hrep. wp_step.
    parent_step Hrep (FL cp p pk (T 0 l p0 k (T 1 r w wk b))) Hh. simpl.
    open_rep Hrep. wp_reads. eapply wp_bind_inv, left_last; eauto; [|destruct (cp =? 0); lia].
    solve_inorder HI.
  - inversion Hb; subst b n0. open_rep Hrep.
    unfold ngx_rbt_is_black, ngx_rbt_is_red at 1. wp_reads.
    eapply wp_bind_inv, left_last; eauto. destruct (cp =? 0); lia.
Qed.

Lemma right_rest_ok I st gp K t n cp p pk a w wk b ca cb :
  rep s sn st gp (plug K (T cp (T 0 a w wk b) p pk t)) ->
  (t = E -> parent sn = p) ->
  rb t 0 n -> rb a ca n -> rb b cb n ->
  (cp = 1 /\ cx K 1 (S n)) \/ (cp = 0 /\ cx K 0 (S (S n))) ->
  inorder (plug K (T cp (T 0 a w wk b) p pk t)) = I ->
  wp (delete_fixup_right_rest s (root_ptr s t) w)
     (step_post I gp (if cp =? 0 then S (length K) else 1%nat)) st.
Proof.
  intros Hrep Hh Ht Ha Hb HK HI.
  pose proof (rep_nodup _ _ _ _ _ Hrep) as Hd. nodup_in Hd.
  unfold delete_fixup_right_rest, ngx_rbt_black, ngx_rbt_red, ngx_rbt_copy_color.
  wp_step. eapply wp_children_black;
    [exact (Hrep : rep s sn st gp (plug (FL cp p pk t :: K) (T 0 a w wk b))) | done..|].
  destruct (rb_color _ _ _ Ha) as [-> | ->], (rb_color _ _ _ Hb) as [-> | ->]; simpl.
  - color_step (FL cp p pk t :: K) Hrep.
    parent_step Hrep (FR cp (T 1 a w wk b) p pk) Hh.
    eapply post_up; [exact Hrep | eauto | eauto | solve_inorder HI |].
    unfold rank. simpl. done.
  - inversion Hb; subst b n0. open_rep Hrep. wp_reads.
    eapply wp_is_black;
      [exact (Hrep : rep s sn st gp (plug (FL 0 w wk _ :: FL cp p pk t :: K) a)) | exact Ha |].
    wp_reads.
    color_step (FR 0 a w wk :: FL cp p pk t :: K) Hrep.
    color_step (FL cp p pk t :: K) Hrep.
    tree_step wp_left_rotate (FL cp p pk t :: K) Hrep. wp_step.
    parent_step Hrep (FR cp (T 0 (T 1 a w wk l) p0 k r) p pk) Hh. simpl.
    open_rep Hrep. wp_reads. eapply wp_bind_inv, right_last; eauto; [|destruct (cp =? 0); lia].
    solve_inorder HI.
  - inversion Ha; subst a n0. open_rep Hrep.
    unfold ngx_rbt_is_black, ngx_rbt_is_red at 1. wp_reads.
    eapply wp_bind_inv, right_last; eauto. destruct (cp =? 0); lia.
  - inversion Ha; subst a n0. open_rep Hrep.
    unfold ngx_rbt_is_black, ngx_rbt_is_red at 1. wp_reads.
    eapply wp_bind_inv, right_last; eauto. destruct (cp =? 0); lia.
Qed.

Lemma post_weaken I gp m m' x st : (m <= m')%nat -> step_post I gp m x st -> step_post I gp m' x st.
Proof. intros Hm (K & t & ? & ? & ?). exists K, t. split_and!; [done..|lia]. Qed.

Lemma left_ok I st gp K t n cp p pk w :
  rep s sn st gp (plug K (T cp t p pk w)) -> (t = E -> parent sn = p) ->
  rb t 0 n -> cx (FL cp p pk w :: K) 0 (S n) -> inorder (plug K (T cp t p pk w)) = I ->
  wp (delete_fixup_left s (root_ptr s t)) (step_post I gp (S (length K))) st.
Proof.
  intros Hrep Hh Ht HK HI. apply cx_FL_inv in HK as (cw & Hw & HK).
  unfold delete_fixup_left, ngx_rbt_black, ngx_rbt_red. wp_step.
  parent_step Hrep (FL cp p pk w) Hh. open_rep Hrep. simpl. wp_reads.
  eapply wp_is_red; [exact (Hrep : rep s sn st gp (plug (FR cp t p pk :: K) w)) |].
  rewrite (rb_colour _ _ _ Hw). destruct (rb_color _ _ _ Hw) as [-> | ->]; simpl.
  - apply rb_black_inv in Hw as (a & wp & wk & b & ca & cb & -> & Ha & Hb). wp_reads.
    eapply wp_mono; [eapply left_rest_ok; eauto; naive_solver|].
    intros x st'. apply post_weaken. destruct (cp =? 0); lia.
  - destruct HK as [(? & ? & ?)|[-> HK]]; [lia|].
    apply rb_red_inv in Hw as (wl & q & qk & wr & -> & Hwl & Hwr).
    apply rb_black_inv in Hwl as (a & w & wk & b & ca & cb & -> & Ha & Hb). simpl.
    wp_step. color_step (FR 0 t p pk :: K) Hrep. wp_step.
    parent_step Hrep (FL 0 p pk (T 0 (T 0 a w wk b) q qk wr)) Hh. simpl.
    color_step K Hrep. tree_step wp_left_rotate K Hrep. wp_step.
    eapply (wp_parent _ _ (FL 1 p pk (T 0 a w wk b)) (FL 0 q qk wr :: K)); [exact Hrep | exact Hh |].
    open_rep Hrep. simpl. wp_reads.
    eapply wp_mono; [eapply (left_rest_ok I _ gp (FL 0 q qk wr :: K)); [exact Hrep | eauto ..| solve_inorder HI]|].
    intros x st'. apply post_weaken. simpl. lia.
Qed.

Lemma right_ok I st gp K t n cp p pk w :
  rep s sn st gp (plug K (T cp w p pk t)) -> (t = E -> parent sn = p) ->
  rb t 0 n -> cx (FR cp w p pk :: K) 0 (S n) -> inorder (plug K (T cp w p pk t)) = I ->
  wp (delete_fixup_right s (root_ptr s t)) (step_post I gp (S (length K))) st.
Proof.
  intros Hrep Hh Ht HK HI. apply cx_FR_inv in HK as (cw & Hw & HK).
  unfold delete_fixup_right, ngx_rbt_black, ngx_rbt_red. wp_step.
  parent_step Hrep (FR cp w p pk) Hh. open_rep Hrep. simpl. wp_reads.
  eapply wp_is_red; [exact (Hrep : rep s sn st gp (plug (FL cp p pk t :: K) w)) |].
  rewrite (rb_colour _ _ _ Hw). destruct (rb_color _ _ _ Hw) as [-> | ->]; simpl.
  - apply rb_black_inv in Hw as (a & wp & wk & b & ca & cb & -> & Ha & Hb). wp_reads.
    eapply wp_mono; [eapply right_rest_ok; eauto; naive_solver|].
    intros x st'. apply post_weaken. destruct (cp =? 0); lia.
  - destruct HK as [(? & ? & ?)|[-> HK]]; [lia|].
    apply rb_red_inv in Hw as (wl & q & qk & wr & -> & Hwl & Hwr).
    apply rb_black_inv in Hwr as (a & w & wk & b & ca & cb & -> & Ha & Hb). simpl.
    wp_step. color_step (FL 0 p pk t :: K) Hrep. wp_step.
    parent_step Hrep (FR 0 (T 0 wl q qk (T 0 a w wk b)) p pk) Hh. simpl.
    color_step K Hrep. tree_step wp_right_rotate K Hrep. wp_step.
    eapply (wp_parent _ _ (FR 1 (T 0 a w wk b) p pk) (FR 0 wl q qk :: K)); [exact Hrep | exact Hh |].
    open_rep Hrep. simpl. wp_reads.
    eapply wp_mono; [eapply (right_rest_ok I _ gp (FR 0 wl q qk :: K)); [exact Hrep | eauto ..| solve_inorder HI]|].
    intros x st'. apply post_weaken. simpl. lia.
Qed.

Lemma root_ptr_disj t t' :
  t' <> E -> s ∉ ptrs t' -> (forall x, x ∈ ptrs t -> x ∉ ptrs t') ->
  root_ptr s t <> root_ptr s t'.
Proof.
  destruct t'; [done|]. intros _ Hs Hd.
  destruct t; simpl; intros Heq; subst; [apply Hs | apply (Hd p)]; rewrite ptrs_T; set_solver.
Qed.

Lemma delete_step_ok I st gp f K t :
  del_inv I st gp (f :: K) t -> colour t = 0 ->
  wp (delete_fixup_step s (root_ptr s t)) (step_post I gp (S (length K))) st.
Proof.
  intros (n & Hrep & Hh & Ht & HK & HI) Hc.
  specialize (Hh ltac:(done)). destruct Ht as [[_ Ht]|[Hc' _]]; [|lia].
  unfold delete_fixup_step. wp_step. parent_step Hrep f Hh. wp_step.
  pose proof (rep_nodup _ _ _ _ _ Hrep) as Hd.
  destruct f as [cp p pk w|cp w p pk]; simpl in Hrep, HI, Hh; open_rep Hrep; simpl; nodup_in Hd;
    wp_reads.
  - by eapply left_ok.
  - rewrite (proj2 (Z.eqb_neq _ _)).
    + by eapply right_ok.
    + apply cx_FR_inv in HK as (cw & Hw & _).
      apply root_ptr_disj; [by intros ->; inversion Hw | done |].
      apply list.NoDup_app in H8 as (_ & H8 & _). set_solver.
Qed.

Lemma black_ok st gp K t :
  rep s sn st gp (plug K t) ->
  wp (ngx_rbt_black (root_ptr s t)) (fun _ st' => rep s sn st' gp (plug K (blacken t))) st.
Proof.
  intros Hrep. unfold ngx_rbt_black. destruct t; simpl.
  - destruct Hrep as [Hr Ht Hn [Hs Hc]]. wp_step.
    rewrite insert_id by (rewrite Hs; f_equal; destruct sn; simpl in *; by subst).
    destruct st. by constructor.
  - eapply wp_color; [exact Hrep|]. auto.
Qed.

Definition delete_done I gp (st : rbstate) : Prop :=
  exists t m, rep s sn st gp t /\ rb t 0 m /\ inorder t = I.

Lemma blacken_inorder t : inorder (blacken t) = inorder t.
Proof. by destruct t. Qed.

Lemma blacken_rb t n : rb t 0 n -> blacken t = t.
Proof. by inversion 1. Qed.

(** The fixup, at the end of its loop. *)
Lemma delete_end I st gp K t :
  del_inv I st gp K t -> K = [] \/ colour t <> 0 ->
  wp (ngx_rbt_black (root_ptr s t)) (fun _ => delete_done I gp) st.
Proof.
  intros (n & Hrep & _ & Ht & HK & HI) Hend.
  eapply wp_mono; [by apply black_ok|]. intros ? st' Hrep'. cbv beta in Hrep'.
  exists (plug K (blacken t)).
  rewrite (inorder_plug_eq K _ t) by apply blacken_inorder.
  destruct Hend as [-> | Hc].
  - destruct Ht as [[_ Ht]|[_ Ht]]; [rewrite (blacken_rb _ _ Ht) in * |]; eauto.
  - destruct Ht as [[? _]|[_ Ht]]; [lia|].
    destruct (rb_plug _ _ _ _ HK Ht) as [m Hm]. eauto.
Qed.

Lemma root_below st gp f K t :
  rep s sn st gp (plug (f :: K) t) -> root_ptr s t <> root st.
Proof.
  intros Hrep. destruct t.
  - simpl. rewrite (rep_root _ _ _ _ _ Hrep). destruct Hrep as [_ _ Hn _].
    apply list.NoDup_cons in Hn as [Hn _]. rewrite ptrs_plug in Hn. intros Heq. apply Hn.
    rewrite elem_of_app. right. rewrite Heq at 1. apply root_plug_in.
  - eapply not_root; [done|]. rewrite ptrs_T. set_solver.
Qed.

Lemma delete_fixup_ok I fuel : forall st gp K t,
  del_inv I st gp K t -> (rank K t <= fuel)%nat ->
  wp (delete_fixup fuel s (root_ptr s t)) (fun _ => delete_done I gp) st.
Proof.
  induction fuel as [|fuel IH]; intros st gp K t Hinv Hrank.
  { unfold rank in Hrank. destruct (colour t =? 0); lia. }
  pose proof Hinv as (n & Hrep & _ & Ht & _). simpl. wp_step. wp_step. destruct K as [|f K].
  - rewrite (rep_root _ _ _ _ _ Hrep). simpl. rewrite Z.eqb_refl.
    eapply delete_end; eauto.
  - rewrite (proj2 (Z.eqb_neq _ _)) by (by eapply root_below).
    wp_step. unfold ngx_rbt_is_black. wp_step. eapply wp_is_red; [done|]. wp_step.
    rewrite negb_involutive. unfold rank in Hrank. simpl length in Hrank.
    destruct (Z.eqb_spec (colour t) 0) as [Hc|Hc].
    + wp_step. eapply wp_mono; [by eapply delete_step_ok|].
      intros x st' (K' & t' & -> & Hinv' & Hr'). eapply IH; [done|lia].
    + eapply delete_end; eauto.
Qed.
End Fixup.

End RbtreeDelete.
