(* ===== verification/RbtreeUnlink.v ===== *)
(** Deletion from the red-black tree: splicing a node out of the linked nodes. *)
From stdpp Require Import base gmap list numbers.
From S2P Require Import Prelude Rbtree RbtreeRep RbtreeInsert.
Local Open Scope Z_scope.
Import Rbtree RbtreeRep RbtreeInsert.

Module RbtreeUnlink.

(** * Splicing a node out *)

Section Unlink.
Variable s : ptr.

(** The sentinel after [temp->parent = v], when [temp] is the root of [t]. *)
Definition sn_after (sn : ngx_rbtree_node_t) (t : tree) (v : ptr) : ngx_rbtree_node_t :=
  match t with
  | E => mk_node (key sn) (left sn) (right sn) v (color sn)
  | _ => sn
  end.

(** [t] now hangs below [K] in a tree without [node]. *)
Definition spliced gp (K : list frame) (t : tree) (node : ptr) (st : rbstate) : Prop :=
  exists sn, rep s sn st gp (plug K t) /\ (t = E -> parent sn = par gp K) /\
    is_Some (nodes st !! node).

Lemma wp_spliced {A} (m : P A) gp K t node sn st :
  wp m (fun _ st' => root st' = root_ptr s (plug K t) /\
    (tree_rep s (nodes st') (par gp K) t /\ ctx_rep s (nodes st') gp K (root_ptr s t)) /\
    NoDup (s :: ptrs (plug K t)) /\
    sentinel_ok s (sn_after sn t (par gp K)) (nodes st') /\ is_Some (nodes st' !! node)) st ->
  wp m (fun _ st' => spliced gp K t node st') st.
Proof.
  intros Hm. eapply wp_mono; [exact Hm|]. intros ? st' (? & Ht & ? & ? & ?).
  exists (sn_after sn t (par gp K)). split_and!; [|by intros -> |done].
  constructor; auto. by apply tree_rep_plug.
Qed.

Lemma is_Some_insert (h : gmap ptr ngx_rbtree_node_t) p q n :
  is_Some (h !! p) -> is_Some (<[q := n]> h !! p).
Proof. intros ?. destruct (decide (q = p)) as [->|]; [rewrite lookup_insert_eq | rewrite lookup_insert_ne]; eauto. Qed.

Ltac spliced_solve :=
  repeat first
    [ assumption | reflexivity | exact Logic.I
    | match goal with |- _ /\ _ => split end
    | match goal with |- _ = _ => lookup_solve end
    | apply tree_rep_insert; [notin_solve | ]
    | apply ctx_rep_insert; [notin_solve | ]
    | match goal with |- sentinel_ok _ _ _ =>
        first [ apply sentinel_ok_insert; [notin_solve | ] | split; [lookup_solve | done] ] end
    | apply is_Some_insert
    | by eexists ].

Lemma nodup_drop p t (L : list Z) :
  ptrs t ≡ₚ p :: L -> NoDup (s :: ptrs t) -> NoDup (s :: p :: L).
Proof. by intros ->. Qed.

Lemma nodup_child K c l p k r t :
  (l = E /\ t = r \/ r = E /\ t = l) ->
  NoDup (s :: ptrs (plug K (T c l p k r))) -> NoDup (s :: p :: ptrs (plug K t)).
Proof.
  intros Ht. rewrite !ptrs_plug, !ptrs_T.
  destruct Ht as [[-> ->]|[-> ->]]; rewrite <- !Permutation_middle, ?app_nil_l, ?app_nil_r; done.
Qed.

(** [subst == node]: the node has at most one child. *)
Lemma unlink_self sn st gp f K c l p k r t :
  rep s sn st gp (plug (f :: K) (T c l p k r)) ->
  (l = E /\ t = r \/ r = E /\ t = l) ->
  wp (delete_unlink s p p (root_ptr s t)) (fun _ => spliced gp (f :: K) t p) st.
Proof.
  intros [Hr Ht Hn [Hs Hc]] Hch. apply (nodup_child _ _ _ _ _ _ _ Hch) in Hn.
  pose proof Hn as Hd. apply tree_rep_plug in Ht as [(Hp & Hl & Hrr) HK].
  assert (Hn' : NoDup (s :: ptrs (plug (f :: K) t)))
    by (rewrite !list.NoDup_cons in *; set_solver).
  assert (Htt : tree_rep s (nodes st) p t) by (by destruct Hch as [[-> ->]|[-> ->]]).
  clear Hch Hl Hrr Hn. apply (wp_spliced _ _ _ _ _ sn). unfold delete_unlink.
  destruct f as [c2 p2 k2 r2|c2 l2 p2 k2]; simpl in HK, Hr; destruct_and?;
  destruct t as [|c3 l3 p3 k3 r3]; simpl in Htt; destruct_and?; nodup_in Hd; wp_auto;
  (split; [rewrite Hr; by apply root_plug_same | spliced_solve]).
Qed.

(** [subst] is the right child of [node]. *)
Lemma unlink_right sn st gp K c l p k c2 q k2 r2 :
  rep s sn st gp (plug K (T c l p k (T c2 E q k2 r2))) -> l <> E ->
  wp (delete_unlink s p q (root_ptr s r2)) (fun _ => spliced gp (FR c l q k2 :: K) r2 p) st.
Proof.
  intros Hrep Hl. pose proof Hrep as [Hr Ht Hn [Hs Hc]].
  pose proof Hn as Hd. apply tree_rep_plug in Ht as [(Hp & Hlr & Hq & _ & Hr2) HK].
  assert (Hn' : NoDup (s :: ptrs (plug (FR c l q k2 :: K) r2))).
  { apply (nodup_drop p _ (ptrs (plug (FR c l q k2 :: K) r2))) in Hn;
      [rewrite !list.NoDup_cons in *; set_solver|].
    rewrite !ptrs_plug. simpl. rewrite !ptrs_T. simpl. solve_Permutation. }
  apply (wp_spliced _ _ _ _ _ sn). unfold delete_unlink, ngx_rbt_copy_color.
  destruct l as [|cl ll pl kl rl]; [done|].
  destruct K as [|f K]; [|
    pose proof (not_root _ _ _ _ _ _ _ p Hrep ltac:(rewrite ptrs_T; set_solver)) as Hxr;
    destruct f as [c3 p3 k3 r3|c3 l3 p3 k3]];
  simpl in HK, Hr, Hlr; destruct_and?; destruct r2; simpl in Hr2; destruct_and?; nodup_in Hd;
  wp_auto; (split; [first [done | rewrite Hr; by apply root_plug_same] | spliced_solve]).
Qed.

Lemma ctx_rep_app h gp K1 f K2 : forall t,
  ctx_rep s h gp (K1 ++ f :: K2) (root_ptr s t) <->
  ctx_rep s h (fptr f) K1 (root_ptr s t) /\ ctx_rep s h gp (f :: K2) (root_ptr s (plug K1 t)).
Proof.
  induction K1 as [|g K1 IH]; intros t; [simpl; tauto|].
  assert (Hpar : par gp (K1 ++ f :: K2) = par (fptr f) K1) by (by destruct K1).
  specialize (IH (fill g t)). destruct g; simpl in *; rewrite Hpar; tauto.
Qed.

Ltac perm_solve :=
  rewrite ?ptrs_plug; simpl; rewrite ?ptrs_T; simpl; rewrite ?ptrs_plug; simpl;
  rewrite ?ptrs_T; simpl; solve_Permutation.

(** [subst] is the left child of the right child of [node]. *)
Lemma unlink_right_left sn st gp K c l p k c2 q k2 r2 c4 p4 k4 r4 :
  rep s sn st gp (plug K (T c l p k (T c4 (T c2 E q k2 r2) p4 k4 r4))) -> l <> E ->
  wp (delete_unlink s p q (root_ptr s r2))
     (fun _ => spliced gp (FL c4 p4 k4 r4 :: FR c l q k2 :: K) r2 p) st.
Proof.
  intros Hrep Hl. pose proof Hrep as [Hr Ht Hn [Hs Hc]].
  pose proof Hn as Hd. apply tree_rep_plug in Ht as [(Hp & Hlr & Hp4 & (Hq & _ & Hr2) & Hr4) HK].
  assert (Hn' : NoDup (s :: ptrs (plug (FL c4 p4 k4 r4 :: FR c l q k2 :: K) r2))).
  { apply (nodup_drop p _ (ptrs (plug (FL c4 p4 k4 r4 :: FR c l q k2 :: K) r2))) in Hn;
      [rewrite !list.NoDup_cons in *; set_solver | perm_solve]. }
  apply (wp_spliced _ _ _ _ _ sn). unfold delete_unlink, ngx_rbt_copy_color.
  destruct l as [|cl ll pl kl rl]; [done|].
  destruct K as [|f K]; [|
    pose proof (not_root _ _ _ _ _ _ _ p Hrep ltac:(rewrite ptrs_T; set_solver)) as Hxr;
    destruct f as [c3 p3 k3 r3|c3 l3 p3 k3]];
  simpl in HK, Hr, Hlr; destruct_and?; destruct r2; simpl in Hr2; destruct_and?; nodup_in Hd;
  wp_auto; (split; [first [done | rewrite Hr; by apply root_plug_same] | spliced_solve]).
Qed.

Lemma perm_deep K1 K c l p k c2 q k2 r2 c4 p4 k4 r4 :
  ptrs (plug K (T c l p k (T c4 (plug K1 (T c2 E q k2 r2)) p4 k4 r4))) ≡ₚ
  p :: ptrs (plug (K1 ++ FL c4 p4 k4 r4 :: FR c l q k2 :: K) r2).
Proof. rewrite plug_app. perm_solve. Qed.

Lemma perm_deep_flat c5 p5 k5 r5 Kl K c l p k c2 q k2 r2 c4 p4 k4 r4 :
  ptrs (plug K (T c l p k (T c4 (plug (FL c5 p5 k5 r5 :: Kl) (T c2 E q k2 r2)) p4 k4 r4))) ≡ₚ
  p :: q :: p4 :: p5 :: ptrs l ++ ptrs r2 ++ ptrs r4 ++ ptrs r5 ++ ctx_ptrs Kl ++ ctx_ptrs K.
Proof.
  rewrite ptrs_plug, !ptrs_T, ptrs_plug, ptrs_T. cbn [ctx_ptrs].
  change (ptrs E) with (@nil Z). solve_Permutation.
Qed.

Lemma wp_spliced_app {A} (m : P A) gp K1 f K t node sn st :
  wp m (fun _ st' => root st' = root_ptr s (plug (f :: K) (plug K1 t)) /\
    (tree_rep s (nodes st') (par gp (K1 ++ f :: K)) t /\
     ctx_rep s (nodes st') (fptr f) K1 (root_ptr s t) /\
     ctx_rep s (nodes st') gp (f :: K) (root_ptr s (plug K1 t))) /\
    NoDup (s :: ptrs (plug (K1 ++ f :: K) t)) /\
    sentinel_ok s (sn_after sn t (par gp (K1 ++ f :: K))) (nodes st') /\
    is_Some (nodes st' !! node)) st ->
  wp m (fun _ st' => spliced gp (K1 ++ f :: K) t node st') st.
Proof.
  intros Hm. apply (wp_spliced _ _ _ _ _ sn). eapply wp_mono; [exact Hm|].
  intros ? st' (H1 & H2 & H3). rewrite ctx_rep_app, plug_app in *. tauto.
Qed.

(** [subst] is deeper. *)
Lemma unlink_deep sn st gp K c l p k c2 q k2 r2 c5 p5 k5 r5 Kl c4 p4 k4 r4 :
  let K1 := FL c5 p5 k5 r5 :: Kl in
  rep s sn st gp (plug K (T c l p k (T c4 (plug K1 (T c2 E q k2 r2)) p4 k4 r4))) -> l <> E ->
  wp (delete_unlink s p q (root_ptr s r2))
     (fun _ => spliced gp (K1 ++ FL c4 p4 k4 r4 :: FR c l q k2 :: K) r2 p) st.
Proof.
  intros K1; subst K1. set (F5 := FL c5 p5 k5 r5). intros Hrep Hl. pose proof Hrep as [Hr Ht Hn [Hs Hc]].
  apply tree_rep_plug in Ht as [(Hp & Hlr & Hp4 & HK1 & Hr4) HK].
  apply tree_rep_plug in HK1 as [(Hq & _ & Hr2) HK1].
  pose proof Hn as Hd. unfold F5 in Hd. rewrite (perm_deep_flat c5 p5 k5 r5 Kl) in Hd.
  assert (Hn' : NoDup (s :: ptrs (plug (F5 :: Kl ++ FL c4 p4 k4 r4 :: FR c l q k2 :: K) r2))).
  { apply (nodup_drop p _ (ptrs (plug (F5 :: Kl ++ FL c4 p4 k4 r4 :: FR c l q k2 :: K) r2))) in Hn;
      [rewrite !list.NoDup_cons in *; set_solver | apply (perm_deep (F5 :: Kl))]. }
  assert (Hroot : root_ptr s (plug (F5 :: Kl) (T c2 E q k2 r2)) = root_ptr s (plug (F5 :: Kl) r2))
    by apply root_plug_cons.
  rewrite Hroot in Hp4. apply (wp_spliced_app _ _ (F5 :: Kl) _ _ _ _ sn).
  subst F5. simpl in Hp4, HK1, Hq. unfold delete_unlink, ngx_rbt_copy_color.
  destruct l as [|cl ll pl kl rl]; [done|].
  destruct K as [|f K]; [|
    pose proof (not_root _ _ _ _ _ _ _ p Hrep ltac:(rewrite ptrs_T; set_solver)) as Hxr;
    destruct f as [c3 p3 k3 r3|c3 l3 p3 k3]];
  simpl in HK, Hr, Hlr; destruct_and?; destruct r2; simpl in Hr2; destruct_and?; nodup_in Hd;
  wp_auto; (split; [first [done | rewrite Hr; by apply root_plug_same] | spliced_solve]).
Qed.
End Unlink.
End RbtreeUnlink.
