(* ===== verification/RbtreeCorrect.v ===== *)
(** The red-black tree: [ngx_rbtree_delete] and the theorems of the component. *)
From stdpp Require Import base gmap list numbers.
From S2P Require Import Prelude Rbtree RbtreeRep RbtreeInsert RbtreeDelete RbtreeUnlink.
Local Open Scope Z_scope.
Import Rbtree RbtreeRep RbtreeInsert RbtreeDelete RbtreeUnlink.

Module RbtreeCorrect.
#[local] Hint Constructors rb cx : core.

(** The path to the least node of a tree turns left only. *)
Definition is_FL (f : frame) : Prop := match f with FL _ _ _ _ => True | FR _ _ _ _ => False end.

Lemma leftmost t : t <> E -> exists Kl c q k r,
  t = plug Kl (T c E q k r) /\ Forall is_FL Kl /\ (length Kl < height t)%nat.
Proof.
  induction t as [|c l IHl p k r _]; [done|]. intros _. destruct l as [|cl ll pl kl rl].
  - exists [], c, p, k, r. simpl. split_and!; [done|done|lia].
  - destruct (IHl ltac:(done)) as (Kl & c2 & q & k2 & r2 & Heq & HF & Hlen).
    exists (Kl ++ [FL c p k r]), c2, q, k2, r2. rewrite plug_app, <- Heq. split_and!; [done| |].
    + apply Forall_app. by repeat constructor.
    + rewrite length_app. cbn [height length] in *. lia.
Qed.

Lemma ctx_l_FL Kl : Forall is_FL Kl -> ctx_l Kl = [].
Proof. induction 1 as [|[] Kl HF]; simpl; auto; done. Qed.

(** No operation allocates or frees a node. *)
Class Keeps {A} (m : P A) : Prop :=
  keeps : forall st a st', m st = Some (a, st') -> dom (nodes st') = dom (nodes st).

#[export] Instance keeps_ret {A} (a : A) : Keeps (ret a).
Proof. intros st b st' H. unfold ret in H. by simplify_eq. Qed.
#[export] Instance keeps_fault {A} : Keeps (@fault rbstate A).
Proof. by intros st b st' H. Qed.
#[export] Instance keeps_rd f p : Keeps (rd f p).
Proof. intros st b st' H. unfold rd in H. by repeat case_match; simplify_eq. Qed.
#[export] Instance keeps_wr f p : Keeps (wr f p).
Proof.
  intros st b st' H. unfold wr in H. case_match; simplify_eq. simpl.
  rewrite dom_insert_L. enough (p ∈ dom (nodes st)) by set_solver. apply elem_of_dom. eauto.
Qed.
#[export] Instance keeps_rd_root : Keeps rd_root.
Proof. intros st b st' H. unfold rd_root in H. by simplify_eq. Qed.
#[export] Instance keeps_set_root p : Keeps (set_root p).
Proof. intros st b st' H. unfold set_root in H. by simplify_eq. Qed.
#[export] Instance keeps_bind {A B} (m : P A) (k : A -> P B) :
  Keeps m -> (forall a, Keeps (k a)) -> Keeps (bind m k).
Proof.
  intros Hm Hk st b st' H. unfold bind in H. destruct (m st) as [[a st1]|] eqn:E1; [|done].
  rewrite (Hk _ _ _ _ H). eauto.
Qed.
#[export] Instance keeps_if {A} (b : bool) (m1 m2 : P A) :
  Keeps m1 -> Keeps m2 -> Keeps (if b then m1 else m2).
Proof. by destruct b. Qed.
#[export] Instance keeps_fuel {A} (f : nat -> P A) : (forall n, Keeps (f n)) -> Keeps (with_fuel f).
Proof. intros Hf st a st' H. by apply Hf in H. Qed.
#[export] Instance keeps_pair {A B C} (x : A * B) (k : A -> B -> P C) :
  (forall a b, Keeps (k a b)) -> Keeps (let '(a, b) := x in k a b).
Proof. destruct x. auto. Qed.

Ltac keeps_tac := repeat (first [apply _ | intro]).

#[export] Instance keeps_min_loop n p q : Keeps (ngx_rbtree_min_loop n p q).
Proof. revert p q; induction n; intros; simpl; apply _. Qed.
#[export] Instance keeps_insert_loop less n p q r : Keeps (insert_loop less n p q r).
Proof. revert p q r; induction n; intros; simpl; unfold ngx_rbt_red, set_left, set_right, set_parent, set_color; apply _. Qed.
#[export] Instance keeps_left_rotate p q : Keeps (ngx_rbtree_left_rotate p q).
Proof. unfold ngx_rbtree_left_rotate, set_left, set_right, set_parent. apply _. Qed.
#[export] Instance keeps_right_rotate p q : Keeps (ngx_rbtree_right_rotate p q).
Proof. unfold ngx_rbtree_right_rotate, set_left, set_right, set_parent. apply _. Qed.
#[export] Instance keeps_insert_fixup n p q : Keeps (insert_fixup n p q).
Proof.
  revert p q; induction n; intros; simpl;
    unfold insert_fixup_step, ngx_rbt_is_red, ngx_rbt_red, ngx_rbt_black, set_color; apply _.
Qed.
#[export] Instance keeps_delete_fixup n p q : Keeps (delete_fixup n p q).
Proof.
  revert p q; induction n; intros; simpl;
    unfold delete_fixup_step, delete_fixup_left, delete_fixup_right, delete_fixup_left_rest,
      delete_fixup_right_rest, children_black, ngx_rbt_copy_color, ngx_rbt_is_black, ngx_rbt_is_red,
      ngx_rbt_red, ngx_rbt_black, set_color; apply _.
Qed.

Lemma wp_keeps {A} (m : P A) (Q : A -> rbstate -> Prop) st :
  Keeps m -> wp m Q st -> wp m (fun a st' => Q a st' /\ dom (nodes st') = dom (nodes st)) st.
Proof.
  intros Hk. unfold wp. destruct (m st) as [[a st']|] eqn:Hm; [|done]. intros HQ.
  split; [done | by eapply Hk].
Qed.

Section Delete.
Variable s : ptr.

Lemma root_not_sentinel sn st gp K t :
  rep s sn st gp (plug K t) -> t <> E -> root_ptr s t <> s.
Proof.
  intros [_ _ Hn _] Ht. destruct t; [done|]. simpl. intros ->.
  apply list.NoDup_cons in Hn as [Hn _]. apply Hn. rewrite ptrs_plug, ptrs_T. set_solver.
Qed.

Lemma min_loop_ok sn st gp fuel : forall Kl K c q k r,
  rep s sn st gp (plug K (plug Kl (T c E q k r))) -> Forall is_FL Kl -> (length Kl < fuel)%nat ->
  wp (ngx_rbtree_min_loop fuel (root_ptr s (plug Kl (T c E q k r))) s)
     (fun a st' => a = q /\ st' = st) st.
Proof.
  induction fuel as [|fuel IH]; intros Kl K c q k r Hrep HF Hf; [lia|]. simpl.
  destruct (plug Kl (T c E q k r)) as [|c0 l0 p0 k0 r0] eqn:Et; [by apply plug_not_E in Et|].
  pose proof (rep_lookup _ _ _ _ _ _ _ _ _ _ Hrep) as Hp. simpl. wp_step. wp_step.
  destruct Kl as [|f Kl _] using rev_ind.
  - simpl in Et. simplify_eq. simpl. rewrite Z.eqb_refl. by wp_step.
  - rewrite Forall_app in HF; destruct HF as [HF Hf']. rewrite Forall_singleton in Hf'.
    destruct f as [cf pf kf rf|]; [|destruct Hf'].
    rewrite plug_app in Et. simpl in Et. simplify_eq.
    rewrite (proj2 (Z.eqb_neq _ _)).
    + eapply (IH Kl (FL c0 p0 k0 r0 :: K)); [done | done | rewrite length_app in Hf; simpl in Hf; lia].
    + eapply (root_not_sentinel sn st gp (FL c0 p0 k0 r0 :: K)); [done | by apply plug_not_E].
Qed.

Lemma min_ok sn st gp K t Kl c q k r :
  rep s sn st gp (plug K t) -> t = plug Kl (T c E q k r) -> Forall is_FL Kl ->
  wp (ngx_rbtree_min (root_ptr s t) s) (fun a st' => a = q /\ st' = st) st.
Proof.
  intros Hrep -> HF. apply wp_with_fuel. eapply min_loop_ok; [done..|].
  pose proof (rep_size _ _ _ _ _ Hrep) as Hsz. rewrite <- plug_app, ptrs_plug, length_app in Hsz.
  pose proof (length_ctx_ptrs (Kl ++ K)) as Hc. rewrite length_app in Hc. unfold fuel_of. lia.
Qed.

(** The two shapes of a deletion: the node has at most one child, or its
    in-order successor [q] takes its place. *)
Inductive chosen (l r : tree) (p : ptr) : ptr -> tree -> Prop :=
| chosen_self t : (l = E /\ t = r \/ r = E /\ t = l) -> chosen l r p p t
| chosen_succ Kl c2 q k2 r2 :
    l <> E -> r = plug Kl (T c2 E q k2 r2) -> Forall is_FL Kl -> chosen l r p q r2.

Lemma choose_ok sn st gp K c l p k r :
  rep s sn st gp (plug K (T c l p k r)) ->
  wp (delete_choose s p)
     (fun a st' => st' = st /\ exists t, a.2 = root_ptr s t /\ chosen l r p a.1 t) st.
Proof.
  intros Hrep. pose proof (rep_lookup _ _ _ _ _ _ _ _ _ _ Hrep) as Hp.
  unfold delete_choose. wp_step. wp_step.
  destruct l as [|cl ll pl kl rl].
  { simpl. rewrite Z.eqb_refl. do 3 wp_step. split; [done|]. exists r. split; [done|].
    constructor. by left. }
  rewrite (proj2 (Z.eqb_neq _ _))
    by (eapply (root_not_sentinel sn st gp (FL c p k r :: K)); done).
  wp_step. wp_step. destruct r as [|cr lr pr kr rr].
  { simpl. rewrite Z.eqb_refl. do 3 wp_step. split; [done|]. exists (T cl ll pl kl rl).
    split; [done|]. constructor. by right. }
  assert (Hrep' : rep s sn st gp (plug (FR c (T cl ll pl kl rl) p k :: K) (T cr lr pr kr rr))) by done.
  rewrite (proj2 (Z.eqb_neq _ _)) by (by eapply root_not_sentinel).
  destruct (leftmost (T cr lr pr kr rr) ltac:(done)) as (Kl & c2 & q & k2 & r2 & Heq & HF & _).
  wp_step. eapply wp_mono; [exact (min_ok _ _ _ _ _ _ _ _ _ _ Hrep' Heq HF)|]. intros q' st' [-> ->].
  rewrite Heq in Hrep'. rewrite <- plug_app in Hrep'.
  pose proof (rep_lookup _ _ _ _ _ _ _ _ _ _ Hrep') as Hq.
  wp_step. wp_step. simpl. rewrite Z.eqb_refl. simpl. wp_step. wp_step. wp_step.
  split; [done|]. exists r2. split; [done|]. by econstructor.
Qed.

(** [subst != node], whatever the depth of [subst]. *)
Lemma unlink_succ sn st gp K c l p k Kl c2 q k2 r2 :
  rep s sn st gp (plug K (T c l p k (plug Kl (T c2 E q k2 r2)))) -> l <> E -> Forall is_FL Kl ->
  wp (delete_unlink s p q (root_ptr s r2))
     (fun _ => spliced s gp (Kl ++ FR c l q k2 :: K) r2 p) st.
Proof.
  intros Hrep Hl HF. destruct Kl as [|f Kl _] using rev_ind.
  - by eapply unlink_right.
  - rewrite Forall_app in HF; destruct HF as [HF Hf']. rewrite Forall_singleton in Hf'.
    destruct f as [c4 p4 k4 r4|]; [|destruct Hf']. rewrite plug_app in Hrep. simpl in Hrep.
    rewrite <- app_assoc. simpl. destruct Kl as [|[c5 p5 k5 r5|] Kl].
    + by eapply unlink_right_left.
    + by eapply unlink_deep.
    + inversion HF as [|? ? Hbad]. destruct Hbad.
Qed.

Lemma debug_ok sn st gp t p :
  rep s sn st gp t -> is_Some (nodes st !! p) -> p ∉ s :: ptrs t ->
  wp (delete_debug p) (fun _ st' => rep s sn st' gp t /\ is_Some (nodes st' !! p)) st.
Proof.
  intros [Hr Ht Hn Hs] [n Hp] Hnin. unfold delete_debug. wp_auto.
  apply not_elem_of_cons in Hnin as [Hps Hpt]. split; [|simpl; rewrite lookup_insert_eq; by eexists].
  constructor; simpl; [done | rep_solve | done | rep_solve].
Qed.


(** The place of [q] in the tree after it replaced [p]. *)
Lemma cx_relabel c l p k q k2 K K1 cc n :
  cx (K1 ++ FR c l p k :: K) cc n -> cx (K1 ++ FR c l q k2 :: K) cc n.
Proof.
  revert cc n. induction K1 as [|f K1 IH]; intros cc n; simpl; inversion 1; subst; eauto.
Qed.

Definition deleted (I1 I2 : list (Z * Z)) (p : ptr) (st : rbstate) : Prop :=
  exists sn gp t m, rep s sn st gp t /\ rb t 0 m /\ inorder t = I1 ++ I2 /\
    is_Some (nodes st !! p).

(** What follows the splicing out: the debug writes and, when the spliced
    node was black, the fixup. *)
Lemma after_unlink st gp K t p (red : bool) n I1 I2 k :
  spliced s gp K t p st -> inorder (plug K t) = I1 ++ I2 ->
  NoDup (s :: (I1 ++ (p, k) :: I2).*1) ->
  (if red then rb t 0 n /\ cx K 0 n else short t n /\ cx K 0 (S n)) ->
  wp (delete_debug p ;;
      if red then ret tt else with_fuel (fun fuel => delete_fixup fuel s (root_ptr s t)))%prog
     (fun _ => deleted I1 I2 p) st.
Proof.
  intros (sn & Hrep & Hpar & Hp) HI Hn Hred.
  assert (Hnin : p ∉ s :: ptrs (plug K t)).
  { unfold ptrs. rewrite HI. rewrite fmap_app in *. simpl in Hn.
    rewrite <- Permutation_middle, !list.NoDup_cons in Hn. set_solver. }
  wp_step. eapply wp_mono; [by apply debug_ok|]. intros ? st1 [Hrep1 Hp1].
  destruct red.
  - destruct Hred as [Ht HK]. destruct (rb_plug _ _ _ _ HK Ht) as [m Hm].
    wp_step. by exists sn, gp, (plug K t), m.
  - destruct Hred as [Ht HK]. apply wp_with_fuel.
    assert (Hinv : del_inv s sn (I1 ++ I2) st1 gp K t).
    { exists n. split_and!; [done | by intros _ | done..]. }
    eapply wp_mono.
    { apply wp_keeps; [apply _|]. eapply delete_fixup_ok; [done|].
      pose proof (rep_size _ _ _ _ _ Hrep1) as Hsz. rewrite ptrs_plug, length_app in Hsz.
      pose proof (length_ctx_ptrs K) as HlK. unfold rank, fuel_of. destruct (_ =? _); lia. }
    intros ? st2 [(t2 & m & Hrep2 & Hrb2 & HI2) Hdom]. exists sn, gp, t2, m. split_and!; [done..|].
    apply elem_of_dom. rewrite Hdom. by apply elem_of_dom.
Qed.

(** Around the spliced node, the balance that is left. *)
Lemma balance_self K c l p k r t m :
  (l = E /\ t = r \/ r = E /\ t = l) -> rb (plug K (T c l p k r)) 0 m ->
  exists n, if negb (c =? 0) then rb t 0 n /\ cx K 0 n else short t n /\ cx K 0 (S n).
Proof.
  intros Hch Hrb. apply rb_plug_inv in Hrb as (c0 & n & Ht & HK).
  assert (Hshort : forall t c n, rb t c n -> short t n).
  { intros t0 c1 n1 H. pose proof (rb_colour _ _ _ H) as Hc.
    destruct (rb_color _ _ _ H) as [-> | ->]; [by left|]. right. split; [done|].
    inversion H; subst; simpl; eauto. }
  inversion Ht as [|? ? ? ? ? Hl Hr|? ? ? ? ? ? ? Hl Hr]; subst; simpl.
  - exists n. split; [by destruct Hch as [[-> ->]|[-> ->]] | by apply cx_weaken].
  - exists n0. split; [|done]. destruct Hch as [[-> ->]|[-> ->]]; eauto.
Qed.

(** The deleted node is the root and has at most one child: the child becomes
    the root, its stale [parent] field untouched. *)
Lemma delete_root sn st gp c l p k r t m :
  rep s sn st gp (T c l p k r) -> rb (T c l p k r) 0 m ->
  (l = E /\ t = r \/ r = E /\ t = l) ->
  wp (set_root (root_ptr s t) ;; ngx_rbt_black (root_ptr s t) ;; delete_debug p)%prog
     (fun _ => deleted (inorder l) (inorder r) p) st.
Proof.
  intros [Hr Ht Hn Hs] Hrb Hch. pose proof (nodup_child s [] _ _ _ _ _ _ Hch Hn) as Hn'.
  simpl plug in Hn'. destruct Ht as (Hp & Hl & Hrr).
  assert (HI : inorder t = inorder l ++ inorder r)
    by (destruct Hch as [[-> ->]|[-> ->]]; simpl; by rewrite ?app_nil_r).
  wp_step. wp_step. wp_step. eapply wp_mono.
  { apply wp_keeps; [unfold ngx_rbt_black, set_color; apply _|].
    apply (black_ok s sn _ p []). constructor; simpl; [done | | |done].
    - by destruct Hch as [[-> ->]|[-> ->]].
    - rewrite !list.NoDup_cons in *. set_solver. }
  intros ? st1 [Hrep1 Hdom]. simpl in Hrep1, Hdom. eapply wp_mono.
  { apply debug_ok; [exact Hrep1 | |].
    - apply elem_of_dom. rewrite Hdom. apply elem_of_dom. by eexists.
    - unfold ptrs. rewrite blacken_inorder. fold (ptrs t). rewrite !list.NoDup_cons in Hn'. set_solver. }
  intros ? st2 [Hrep2 Hp2].
  assert (exists n, rb (blacken t) 0 n) as [n Hbl].
  { assert (exists ct n, rb t ct n) as (ct & n & H)
      by (destruct Hch as [[-> ->]|[-> ->]]; inversion Hrb; subst; eauto).
    inversion H; subst; simpl; eauto. }
  exists sn, p, (blacken t), n. rewrite blacken_inorder. auto.
Qed.

Lemma delete_ok sn st gp K c l p k r m :
  rep s sn st gp (plug K (T c l p k r)) -> rb (plug K (T c l p k r)) 0 m ->
  wp (ngx_rbtree_delete s p)
     (fun _ => deleted (ctx_l K ++ inorder l) (inorder r ++ ctx_r K) p) st.
Proof.
  intros Hrep Hrb. pose proof (rep_nodup _ _ _ _ _ Hrep) as Hn.
  unfold ptrs in Hn. rewrite inorder_plug in Hn. cbn [inorder] in Hn.
  rewrite <- app_assoc, app_assoc in Hn. simpl in Hn.
  unfold ngx_rbtree_delete. wp_step. eapply wp_mono; [by eapply choose_ok|].
  intros [subst temp] st' (-> & t & Et & Hch). simpl in Et, Hch. subst temp. wp_step. wp_step.
  destruct Hch as [t Hch|Kl c2 q k2 r2 Hl -> HF].
  - destruct K as [|f K].
    + rewrite (rep_root _ _ _ _ _ Hrep). simpl. rewrite Z.eqb_refl.
      rewrite app_nil_r. by eapply delete_root.
    + rewrite (proj2 (Z.eqb_neq _ _))
        by (eapply not_root; [done | rewrite ptrs_T; set_solver]).
      wp_step. eapply (wp_is_red s sn st gp (f :: K) (T c l p k r)); [done|]. cbn [colour].
      wp_step. eapply wp_mono; [by eapply unlink_self|]. intros ? st1 Hsp.
      destruct (balance_self _ _ _ _ _ _ _ _ Hch Hrb) as [n Hbal].
      eapply after_unlink; [exact Hsp | | exact Hn | exact Hbal].
      rewrite inorder_plug. destruct Hch as [[-> ->]|[-> ->]]; simpl; by rewrite ?app_nil_r, <- ?app_assoc.
  - assert (Hsucc : plug K (T c l p k (plug Kl (T c2 E q k2 r2))) =
                    plug (Kl ++ FR c l p k :: K) (T c2 E q k2 r2)) by (by rewrite plug_app).
    rewrite Hsucc in Hrep. rewrite (proj2 (Z.eqb_neq _ _)).
    2: { destruct Kl; (eapply not_root; [exact Hrep | rewrite ptrs_T; set_solver]). }
    wp_step. eapply (wp_is_red s sn st gp _ (T c2 E q k2 r2)); [exact Hrep|]. cbn [colour].
    wp_step. rewrite <- Hsucc in Hrep. eapply wp_mono; [by eapply unlink_succ|].
    intros ? st1 Hsp. rewrite Hsucc in Hrb.
    destruct (balance_self _ _ _ _ _ _ r2 _ ltac:(by left) Hrb) as [n Hbal].
    eapply after_unlink; [exact Hsp | | exact Hn |].
    + rewrite plug_app. cbn [plug fill]. rewrite inorder_plug. cbn [inorder].
      rewrite !inorder_plug, (ctx_l_FL _ HF). simpl. by repeat (rewrite <- ?app_assoc; simpl).
    + destruct (c2 =? 0); simpl in *; (split; [apply Hbal | eapply cx_relabel, Hbal]).
Qed.
End Delete.
End RbtreeCorrect.
