(* ===== verification/RbtreeTheorems.v ===== *)
(** The contract of the red-black tree: what [ngx_rbtree_insert],
    [ngx_rbtree_delete] and [ngx_rbtree_min] promise to their callers, stated
    on the sequence of the tree's nodes in key order. *)
From stdpp Require Import base gmap list numbers sorting.
From S2P Require Import Prelude Rbtree RbtreeRep RbtreeInsert RbtreeDelete RbtreeUnlink RbtreeCorrect.
Local Open Scope Z_scope.
Import Rbtree RbtreeRep RbtreeInsert RbtreeCorrect.

Module RbtreeTheorems.

(** * The abstract view *)

(** [holds s st L]: the memory [st] holds a well-formed red-black tree with
    sentinel [s] whose nodes, in order, are the pairs (address, key) of [L]. *)
Definition holds (s : ptr) (st : rbstate) (L : list (Z * Z)) : Prop :=
  exists sn gp t m, rep s sn st gp t /\ rb t 0 m /\ inorder t = L.

(** A comparison that orders the elements of [D]. *)
Class StrictWeakOrder {A} (less : A -> A -> bool) (D : A -> Prop) : Prop := {
  swo_irrefl : forall x, D x -> less x x = false;
  swo_trans : forall x y z, D x -> D y -> D z ->
    less x y = true -> less y z = true -> less x z = true;
  swo_negtrans : forall x y z, D x -> D y -> D z ->
    less x y = false -> less y z = false -> less x z = false
}.

(** The nodes of [L] never decrease; their keys never do. *)
Definition ordered_by (less : ptr * Z -> ptr * Z -> bool) (L : list (Z * Z)) : Prop :=
  StronglySorted (fun a b => less b a = false) L.
Abbreviation ordered less := (ordered_by (by_key less)).
Abbreviation insert_with less := (insert_by (by_key less)).

#[export] Instance by_key_swo less D : StrictWeakOrder less D -> StrictWeakOrder (by_key less) (fun x => D x.2).
Proof. intros [H1 H2 H3]. split; unfold by_key; eauto. Qed.

#[export] Instance less_value_swo : StrictWeakOrder less_value (fun _ => True).
Proof. split; intros; unfold less_value in *; lia. Qed.

(** Timer keys wrap around; they are ordered when they lie in a window of
    half the range, which starts at some [base]. *)
Definition in_window (base k : Z) : Prop := 0 <= k < 2 ^ 64 /\ u64 (k - base) < 2 ^ 63.

Lemma s64_range z : - 2 ^ 63 <= s64 z < 2 ^ 63.
Proof. unfold s64, wrapS. pose proof (Z.mod_pos_bound (z + 2 ^ (64 - 1)) (2 ^ 64)). lia. Qed.

Lemma s64_mod z : exists q, s64 z = z + q * 2 ^ 64.
Proof.
  unfold s64, wrapS. exists (- ((z + 2 ^ (64 - 1)) / 2 ^ 64)).
  pose proof (Z.div_mod (z + 2 ^ (64 - 1)) (2 ^ 64) ltac:(lia)). lia.
Qed.

Lemma u64_mod z : exists q, u64 z = z + q * 2 ^ 64.
Proof.
  unfold u64, wrapU. exists (- (z / 2 ^ 64)).
  pose proof (Z.div_mod z (2 ^ 64) ltac:(lia)). lia.
Qed.

Lemma u64_range z : 0 <= u64 z < 2 ^ 64.
Proof. unfold u64, wrapU. apply Z.mod_pos_bound. lia. Qed.

Lemma less_timer_window base a b :
  in_window base a -> in_window base b ->
  less_timer a b = (u64 (a - base) <? u64 (b - base)).
Proof.
  intros [Ha1 Ha2] [Hb1 Hb2]. unfold less_timer.
  pose proof (s64_range (s64 a - s64 b)) as Hr.
  destruct (s64_mod (s64 a - s64 b)) as [q Hq].
  destruct (s64_mod a) as [qa Hqa], (s64_mod b) as [qb Hqb].
  pose proof (u64_range (a - base)) as Hra. pose proof (u64_range (b - base)) as Hrb.
  destruct (u64_mod (a - base)) as [ra Hua], (u64_mod (b - base)) as [rb' Hub].
  assert (s64 (s64 a - s64 b) = u64 (a - base) - u64 (b - base)) as -> by lia.
  destruct (Z.ltb_spec (u64 (a - base) - u64 (b - base)) 0); lia.
Qed.

#[export] Instance less_timer_swo base : StrictWeakOrder less_timer (in_window base).
Proof.
  split; intros *; intros; rewrite !(less_timer_window base) in * by done; lia.
Qed.

(** * Insertion and order *)

Lemma ordered_app less L1 L2 :
  ordered_by less (L1 ++ L2) <->
  ordered_by less L1 /\ ordered_by less L2 /\ (forall a b, a ∈ L1 -> b ∈ L2 -> less b a = false).
Proof.
  unfold ordered_by. induction L1 as [|x L1 IH]; simpl.
  - split; [intros; split_and!; [constructor | done | set_solver] | naive_solver].
  - split.
    + intros H. apply StronglySorted_inv in H as [H1 H2]. apply IH in H1 as (Ha & Hb & Hc).
      rewrite Forall_forall in H2. split_and!; [|done|].
      * constructor; [done|]. rewrite Forall_forall. set_solver.
      * intros a b [->|Ha']%elem_of_cons Hb'; set_solver.
    + intros (Ha & Hb & Hc). apply StronglySorted_inv in Ha as [Ha1 Ha2].
      rewrite Forall_forall in Ha2. constructor; [apply IH; split_and!; set_solver|].
      rewrite Forall_forall. set_solver.
Qed.

Section Order.
Context (less : ptr * Z -> ptr * Z -> bool) (D : ptr * Z -> Prop) `{HD : !StrictWeakOrder less D}.

Lemma ins_split node nk t : exists L1 L2,
  inorder t = L1 ++ L2 /\ inorder (ins less node nk t) = L1 ++ (node, nk) :: L2.
Proof.
  induction t as [|c l IHl p k r IHr]; simpl.
  - by exists [], [].
  - destruct (less (node, nk) (p, k)); simpl.
    + destruct IHl as (A1 & A2 & -> & ->). exists A1, (A2 ++ (p, k) :: inorder r).
      by rewrite <- !app_assoc.
    + destruct IHr as (B1 & B2 & -> & ->). exists (inorder l ++ (p, k) :: B1), B2.
      by rewrite <- !app_assoc.
Qed.

Lemma ins_In node nk t x : x ∈ inorder (ins less node nk t) <-> x = (node, nk) \/ x ∈ inorder t.
Proof. destruct (ins_split node nk t) as (L1 & L2 & -> & ->). set_solver. Qed.

Lemma ins_ordered node nk t :
  D (node, nk) -> (forall x, x ∈ inorder t -> D x) ->
  ordered_by less (inorder t) -> ordered_by less (inorder (ins less node nk t)).
Proof.
  intros Hnk. induction t as [|c l IHl p k r IHr]; simpl; intros HDt Hord.
  - repeat constructor.
  - apply ordered_app in Hord as (Hl & Hr & Hlr).
    apply StronglySorted_inv in Hr as [Hr Hpr]. rewrite Forall_forall in Hpr.
    assert (Dk : D (p, k)) by (apply HDt; set_solver).
    destruct (less (node, nk) (p, k)) eqn:Hless; simpl; apply ordered_app.
    + split_and!; [apply IHl; set_solver| constructor; [done | by rewrite Forall_forall] |].
      intros a b [->|Ha]%ins_In Hb; [|set_solver]. simpl.
      apply not_true_is_false. intros Hb'.
      assert (less b (p, k) = true) as Hbk by (eapply swo_trans; [.. | exact Hb' | exact Hless]; set_solver).
      apply elem_of_cons in Hb as [->|Hb]; [|by rewrite Hpr in Hbk].
      simpl in Hbk. by rewrite swo_irrefl in Hbk.
    + split_and!; [done | constructor; [apply IHr; set_solver|] |].
      * rewrite Forall_forall. intros b [->|Hb]%ins_In; [done | by apply Hpr].
      * intros a b Ha [->|[->|Hb]%ins_In]%elem_of_cons; [set_solver | | set_solver]. simpl.
        eapply (swo_negtrans (node, nk) (p, k) a); [done | done | set_solver | done |]. apply (Hlr a (p, k)); set_solver.
Qed.

(** Where the new node goes: after every key that is not greater. *)
Lemma ins_position node nk t :
  D (node, nk) -> (forall x, x ∈ inorder t -> D x) -> ordered_by less (inorder t) ->
  exists L1 L2, inorder t = L1 ++ L2 /\ inorder (ins less node nk t) = L1 ++ (node, nk) :: L2 /\
    (forall x, x ∈ L1 -> less (node, nk) x = false) /\ (forall x, x ∈ L2 -> less (node, nk) x = true).
Proof.
  intros Hnk. induction t as [|c l IHl p k r IHr]; simpl; intros HDt Hord.
  { exists [], []. split_and!; set_solver. }
  apply ordered_app in Hord as (Hl & Hr & Hlr).
  apply StronglySorted_inv in Hr as [Hr Hpr]. rewrite Forall_forall in Hpr.
  assert (Dk : D (p, k)) by (apply HDt; set_solver).
  destruct (less (node, nk) (p, k)) eqn:Hless; simpl.
  - destruct IHl as (A1 & A2 & El & -> & H1 & H2); [set_solver | done |].
    exists A1, (A2 ++ (p, k) :: inorder r). rewrite El, <- !app_assoc. split_and!; [done..|].
    intros x [Hx|[->|Hx]%elem_of_cons]%elem_of_app; [by apply H2 | done |].
    apply not_false_is_true. intros Hf. rewrite (swo_negtrans (node, nk) x (p, k)) in Hless; [done | ..]; set_solver.
  - destruct IHr as (B1 & B2 & Er & -> & H1 & H2); [set_solver | done |].
    exists (inorder l ++ (p, k) :: B1), B2. rewrite Er, <- !app_assoc. split_and!; [done..| |done].
    intros x [Hx|[->|Hx]%elem_of_cons]%elem_of_app; [|done | by apply H1].
    apply (swo_negtrans (node, nk) (p, k) x); [set_solver.. |]. apply (Hlr x (p, k)); set_solver.
Qed.
End Order.

(** * Facts about [holds] *)

Lemma holds_nodup s st L : holds s st L -> NoDup (s :: L.*1).
Proof. intros (sn & gp & t & m & [_ _ Hn _] & _ & <-). done. Qed.

Lemma holds_key s st L p k : holds s st L -> (p, k) ∈ L ->
  exists n, nodes st !! p = Some n /\ key n = k.
Proof.
  intros (sn & gp & t & m & [_ Ht _ _] & _ & <-) Hin. clear -Ht Hin. revert gp Ht.
  induction t as [|c l IHl p' k' r IHr]; simpl; intros gp Ht; [set_solver|].
  destruct Ht as (Hp & Hl & Hr).
  apply elem_of_app in Hin as [Hin|[Heq|Hin]%elem_of_cons]; [eauto | | eauto]. simplify_eq. eauto.
Qed.

(** Memory outside the tree does not matter. *)
Lemma holds_frame s st st' L :
  holds s st L -> root st' = root st ->
  (forall p, p ∈ s :: L.*1 -> nodes st' !! p = nodes st !! p) -> holds s st' L.
Proof.
  intros (sn & gp & t & m & [Hr Ht Hn [Hs Hc]] & Hrb & <-) Hroot Hsame.
  exists sn, gp, t, m. split_and!; [|done..]. constructor; [congruence| |done|].
  - assert (Hsub : forall p, p ∈ ptrs t -> nodes st' !! p = nodes st !! p) by (unfold ptrs; set_solver).
    clear -Ht Hsub. revert gp Ht. induction t as [|c l IHl p k r IHr]; simpl; intros gp Ht; [done|].
    destruct Ht as (Hp & Hl & Hr). rewrite ptrs_T in Hsub.
    split_and!; [rewrite Hsub by set_solver; done | apply IHl | apply IHr]; set_solver.
  - split; [rewrite Hsame by set_solver; done | done].
Qed.

Lemma holds_nil_root s st L : holds s st L -> root st = s <-> L = [].
Proof.
  intros (sn & gp & t & m & [Hr _ Hn _] & _ & <-). rewrite Hr.
  destruct t as [|c l p k r]; simpl; [done|]. split.
  - intros ->. rewrite ptrs_T in Hn. apply list.NoDup_cons in Hn. set_solver.
  - intros []%app_eq_nil; done.
Qed.

Lemma split_at t : forall L1 p k L2, inorder t = L1 ++ (p, k) :: L2 -> NoDup (ptrs t) ->
  exists K c l r, t = plug K (T c l p k r) /\ L1 = ctx_l K ++ inorder l /\ L2 = inorder r ++ ctx_r K.
Proof.
  intros L1 p k L2 HI Hn.
  assert (Hin : (p, k) ∈ inorder t) by (rewrite HI; set_solver).
  assert (exists K c l r, t = plug K (T c l p k r)) as (K & c & l & r & ->).
  { clear -Hin. induction t as [|c l IHl p' k' r IHr]; simpl in Hin; [set_solver|].
    apply elem_of_app in Hin as [Hin|[Heq|Hin]%elem_of_cons].
    - destruct (IHl Hin) as (K & c' & l' & r' & ->). exists (K ++ [FL c p' k' r]), c', l', r'.
      by rewrite plug_app.
    - simplify_eq. by exists [], c, l, r.
    - destruct (IHr Hin) as (K & c' & l' & r' & ->). exists (K ++ [FR c l p' k']), c', l', r'.
      by rewrite plug_app. }
  exists K, c, l, r. split; [done|]. unfold ptrs in Hn. rewrite HI in Hn.
  rewrite inorder_plug in HI. cbn [inorder] in HI. rewrite <- app_assoc, app_assoc in HI. simpl in HI.
  rewrite fmap_app in Hn. simpl in Hn. clear -HI Hn.
  generalize dependent (ctx_l K ++ inorder l). generalize (inorder r ++ ctx_r K).
  intros B A HI. revert A HI Hn. induction L1 as [|x L1 IH]; intros A HI Hn.
  - destruct A as [|a A]; simplify_eq/=; [done|].
    rewrite fmap_app in Hn. simpl in Hn. rewrite list.NoDup_cons in Hn. set_solver.
  - destruct A as [|a A]; simplify_eq/=.
    + rewrite list.NoDup_cons in Hn. set_solver.
    + rewrite list.NoDup_cons in Hn. destruct (IH A) as [-> ->]; naive_solver.
Qed.

Lemma insert_by_spec less D `{!StrictWeakOrder less D} s st L node n :
  holds s st L -> ordered_by less L -> (forall x, x ∈ L -> D x) -> D (node, key n) ->
  nodes st !! node = Some n -> node ∉ s :: L.*1 ->
  exists st' L1 L2,
    ngx_rbtree_insert (insert_by less) s node st = Some (tt, st') /\
    L = L1 ++ L2 /\ holds s st' (L1 ++ (node, key n) :: L2) /\
    ordered_by less (L1 ++ (node, key n) :: L2) /\
    (forall x, x ∈ L1 -> less (node, key n) x = false) /\
    (forall x, x ∈ L2 -> less (node, key n) x = true).
Proof.
  intros (sn & gp & t & m & Hrep & Hrb & <-) Hord HD Hk Hnode Hnin.
  destruct (proj1 (wp_run _ _ _) (insert_ok s sn less _ _ _ _ _ _ Hrep Hrb Hnode Hnin))
    as ([] & st' & Hrun & gp' & t' & m' & Hrep' & Hrb' & HI).
  destruct (ins_position less D node (key n) t Hk HD Hord) as (L1 & L2 & E1 & E2 & H1 & H2).
  exists st', L1, L2. rewrite <- E2. split_and!; [done | done | | by apply (ins_ordered less D) | done | done].
  exists sn, gp', t', m'. auto.
Qed.

Lemma insert_spec less D `{!StrictWeakOrder less D} s st L node n :
  holds s st L -> ordered less L -> (forall x, x ∈ L -> D x.2) -> D (key n) ->
  nodes st !! node = Some n -> node ∉ s :: L.*1 ->
  exists st' L1 L2,
    ngx_rbtree_insert (insert_with less) s node st = Some (tt, st') /\
    L = L1 ++ L2 /\ holds s st' (L1 ++ (node, key n) :: L2) /\
    ordered less (L1 ++ (node, key n) :: L2) /\
    (forall x, x ∈ L1 -> less (key n) x.2 = false) /\
    (forall x, x ∈ L2 -> less (key n) x.2 = true).
Proof. apply (insert_by_spec (by_key less) (fun x => D x.2)). Qed.

Lemma delete_spec s st L1 p k L2 :
  holds s st (L1 ++ (p, k) :: L2) ->
  exists st', ngx_rbtree_delete s p st = Some (tt, st') /\ holds s st' (L1 ++ L2) /\
    dom (nodes st') = dom (nodes st).
Proof.
  intros (sn & gp & t & m & Hrep & Hrb & HI).
  destruct (split_at t _ _ _ _ HI) as (K & c & l & r & -> & -> & ->).
  { pose proof (rep_nodup _ _ _ _ _ Hrep) as Hn. by apply list.NoDup_cons in Hn as [_ Hn]. }
  destruct (proj1 (wp_run _ _ _) (delete_ok _ _ _ _ _ _ _ _ _ _ _ Hrep Hrb))
    as ([] & st' & Hrun & sn' & gp' & t' & m' & Hrep' & Hrb' & HI' & _).
  exists st'. split_and!; [done | by exists sn', gp', t', m' |].
  assert (Keeps (ngx_rbtree_delete s p)) as Hk; [|by eapply Hk].
  unfold ngx_rbtree_delete, delete_choose, delete_unlink, delete_debug, ngx_rbtree_min,
    ngx_rbt_copy_color, ngx_rbt_is_red, ngx_rbt_black, set_left, set_right, set_parent, set_key, set_color.
  apply _.
Qed.

Lemma insert_dom less s st node st' a :
  ngx_rbtree_insert (insert_by less) s node st = Some (a, st') -> dom (nodes st') = dom (nodes st).
Proof.
  assert (Keeps (ngx_rbtree_insert (insert_by less) s node)) as Hk; [|by apply Hk].
  unfold ngx_rbtree_insert, insert_by, ngx_rbt_black, set_left, set_right, set_parent, set_color.
  apply _.
Qed.

Lemma min_spec s st p k L :
  holds s st ((p, k) :: L) -> ngx_rbtree_min (root st) s st = Some (p, st).
Proof.
  intros (sn & gp & t & m & Hrep & _ & HI). rewrite (rep_root _ _ _ _ _ Hrep).
  destruct (leftmost t) as (Kl & c & q & k' & r & -> & HF & _); [by intros -> |].
  destruct (proj1 (wp_run _ _ _) (min_ok s sn st gp [] _ _ _ _ _ _ Hrep eq_refl HF))
    as (a & st' & Hrun & -> & ->).
  rewrite Hrun. rewrite inorder_plug, (ctx_l_FL _ HF) in HI. simpl in HI. by simplify_eq.
Qed.

(** The height of a red-black tree is logarithmic. *)
Lemma rb_height t c n : rb t c n -> (height t <= 2 * n + Z.to_nat c)%nat.
Proof.
  induction 1 as [|l p k r n Hl IHl Hr IHr|l cl p k r cr n Hl IHl Hr IHr]; cbn [height]; [lia|lia|].
  destruct (rb_color _ _ _ Hl) as [-> | ->], (rb_color _ _ _ Hr) as [-> | ->]; lia.
Qed.

Lemma rb_size t c n : rb t c n -> (2 ^ n <= S (length (inorder t)))%nat.
Proof.
  induction 1; cbn [inorder]; [done|..]; rewrite ?length_app; cbn [length];
    rewrite ?Nat.pow_succ_r'; lia.
Qed.

Lemma height_log t m : rb t 0 m -> (height t <= 2 * Nat.log2 (S (length (inorder t))))%nat.
Proof.
  intros Hrb. pose proof (rb_height _ _ _ Hrb) as Hh. pose proof (rb_size _ _ _ Hrb) as Hs.
  apply Nat.log2_le_mono in Hs. rewrite Nat.log2_pow2 in Hs; lia.
Qed.

(** * The theorems *)

(** C1.  [ngx_rbtree_insert] never faults and always ends: from any memory that
    holds a well-formed tree in key order and a node outside it, it links the
    node in after every node whose key is not greater, leaves the other nodes in
    their order, and the memory again holds a well-formed red-black tree.  With
    [ngx_rbtree_insert_timer_value], whose keys wrap around at 64 bits, the
    order is the distance from the start of the window, of half the range, in
    which all keys lie. *)
Theorem rbtree_insert_correct s st L node n :
  holds s st L -> nodes st !! node = Some n -> node ∉ s :: L.*1 ->
  (ordered less_value L -> exists st' L1 L2,
    ngx_rbtree_insert ngx_rbtree_insert_value s node st = Some (tt, st') /\
    L = L1 ++ L2 /\ holds s st' (L1 ++ (node, key n) :: L2) /\
    ordered less_value (L1 ++ (node, key n) :: L2) /\
    (forall x, x ∈ L1 -> x.2 <= key n) /\ (forall x, x ∈ L2 -> key n < x.2)) /\
  (forall base, ordered less_timer L -> (forall x, x ∈ L -> in_window base x.2) -> in_window base (key n) ->
   exists st' L1 L2,
    ngx_rbtree_insert ngx_rbtree_insert_timer_value s node st = Some (tt, st') /\
    L = L1 ++ L2 /\ holds s st' (L1 ++ (node, key n) :: L2) /\
    ordered less_timer (L1 ++ (node, key n) :: L2) /\
    (forall x, x ∈ L1 -> u64 (x.2 - base) <= u64 (key n - base)) /\
    (forall x, x ∈ L2 -> u64 (key n - base) < u64 (x.2 - base))).
Proof.
  intros Hh Hnode Hnin. split.
  - intros Hord. destruct (insert_spec less_value (fun _ => True) s st L node n)
      as (st' & L1 & L2 & Hrun & HL & Hh' & Hord' & H1 & H2); [done.. |].
    exists st', L1, L2. unfold less_value in H1, H2.
    split_and!; [done..| |]; intros x Hx; [apply H1 in Hx | apply H2 in Hx]; lia.
  - intros base Hord HD Hk. destruct (insert_spec less_timer (in_window base) s st L node n)
      as (st' & L1 & L2 & Hrun & -> & Hh' & Hord' & H1 & H2); [done.. |].
    exists st', L1, L2. split_and!; [done..| |]; intros x Hx;
      [pose proof (H1 _ Hx) as H | pose proof (H2 _ Hx) as H];
      rewrite (less_timer_window base) in H by set_solver; lia.
Qed.

Lemma min_logarithmic s st p k L :
  holds s st ((p, k) :: L) ->
  ngx_rbtree_min_loop (2 * Nat.log2 (S (length ((p, k) :: L)))) (root st) s st = Some (p, st).
Proof.
  intros (sn & gp & t & m & Hrep & Hrb & HI). pose proof (height_log _ _ Hrb) as Hh.
  rewrite (rep_root _ _ _ _ _ Hrep). rewrite HI in Hh.
  destruct (leftmost t) as (Kl & c & q & k' & r & Et & HF & Hlen); [by intros -> |]. subst t.
  destruct (proj1 (wp_run _ _ _) (min_loop_ok s sn st gp (2 * Nat.log2 (S (length ((p, k) :: L))))
    Kl [] _ _ _ _ Hrep HF ltac:(lia))) as (a & st' & Hrun & -> & ->).
  rewrite Hrun. rewrite inorder_plug, (ctx_l_FL _ HF) in HI. simpl in HI. by simplify_eq.
Qed.

(** C3.  [ngx_rbtree_delete] of a node of the tree never faults and always
    ends, removes exactly that node, keeps the order of the others, frees
    nothing, and the memory again holds a well-formed red-black tree.
    [ngx_rbtree_min] from the root returns the first node of the order and
    changes nothing, and the descent is logarithmic: in a tree of [length L]
    nodes its loop ends within [2 * log2 (length L + 1)] iterations. *)
Theorem rbtree_delete_min_correct s st L :
  holds s st L ->
  (forall L1 p k L2, L = L1 ++ (p, k) :: L2 ->
     exists st', ngx_rbtree_delete s p st = Some (tt, st') /\ holds s st' (L1 ++ L2) /\
       dom (nodes st') = dom (nodes st)) /\
  (forall p k L', L = (p, k) :: L' ->
     ngx_rbtree_min (root st) s st = Some (p, st) /\
     ngx_rbtree_min_loop (2 * Nat.log2 (S (length L))) (root st) s st = Some (p, st)).
Proof.
  intros Hh. split; [intros L1 p k L2 ->; by apply (delete_spec s st L1 p k L2)|].
  intros p k L' ->. split; [by eapply min_spec | by apply min_logarithmic].
Qed.

(** * Witnesses *)

(** A tree of three nodes at addresses 1, 2, 3 with keys 10, 20, 30, a fourth
    node at address 4, and the sentinel at address 9. *)
Definition demo (k4 : Z) : rbstate :=
  mk_rb (list_to_map [(1, mk_node 10 9 9 2 1); (2, mk_node 20 1 3 0 0);
                      (3, mk_node 30 9 9 2 1); (4, mk_node k4 0 0 0 0);
                      (9, mk_node 0 0 0 0 0)]) 2.

Lemma demo_holds k4 : holds 9 (demo k4) [(1, 10); (2, 20); (3, 30)].
Proof.
  exists (mk_node 0 0 0 0 0), 0, (T 0 (T 1 E 1 10 E) 2 20 (T 1 E 3 30 E)), 1%nat.
  split_and!; [|repeat econstructor | done].
  constructor; [done | | | done].
  - by repeat split.
  - apply (bool_decide_unpack _). by vm_compute.
Qed.

Lemma demo_ordered less :
  less 20 10 = false -> less 30 10 = false -> less 30 20 = false ->
  ordered less [(1, 10); (2, 20); (3, 30)].
Proof. intros. repeat constructor; done. Qed.

(** Keys on both sides of the wrap-around: the window starts at [2^64 - 10]. *)
Lemma rbtree_insert_correct_witness :
  (exists st' L1 L2,
    ngx_rbtree_insert ngx_rbtree_insert_value 9 4 (demo (2 ^ 64 - 5)) = Some (tt, st') /\
    [(1, 10); (2, 20); (3, 30)] = L1 ++ L2 /\ holds 9 st' (L1 ++ (4, 2 ^ 64 - 5) :: L2) /\
    ordered less_value (L1 ++ (4, 2 ^ 64 - 5) :: L2) /\
    (forall x, x ∈ L1 -> x.2 <= 2 ^ 64 - 5) /\ (forall x, x ∈ L2 -> 2 ^ 64 - 5 < x.2)) /\
  (exists st' L1 L2,
    ngx_rbtree_insert ngx_rbtree_insert_timer_value 9 4 (demo (2 ^ 64 - 5)) = Some (tt, st') /\
    [(1, 10); (2, 20); (3, 30)] = L1 ++ L2 /\ holds 9 st' (L1 ++ (4, 2 ^ 64 - 5) :: L2) /\
    ordered less_timer (L1 ++ (4, 2 ^ 64 - 5) :: L2) /\
    (forall x, x ∈ L1 -> u64 (x.2 - (2 ^ 64 - 10)) <= u64 (2 ^ 64 - 5 - (2 ^ 64 - 10))) /\
    (forall x, x ∈ L2 -> u64 (2 ^ 64 - 5 - (2 ^ 64 - 10)) < u64 (x.2 - (2 ^ 64 - 10)))).
Proof.
  destruct (rbtree_insert_correct 9 (demo (2 ^ 64 - 5)) [(1, 10); (2, 20); (3, 30)] 4 (mk_node (2 ^ 64 - 5) 0 0 0 0)) as [Hv Ht].
  - apply demo_holds.
  - reflexivity.
  - set_solver by lia.
  - split.
    + apply Hv. by apply demo_ordered.
    + apply (Ht (2 ^ 64 - 10)).
      * by apply demo_ordered.
      * intros x Hx. repeat (apply elem_of_cons in Hx as [-> | Hx]; [by vm_compute|]). set_solver.
      * by vm_compute.
Defined.

Lemma rbtree_delete_min_correct_witness :
  (exists st', ngx_rbtree_delete 9 2 (demo 0) = Some (tt, st') /\ holds 9 st' [(1, 10); (3, 30)] /\
     dom (nodes st') = dom (nodes (demo 0))) /\
  (ngx_rbtree_min 2 9 (demo 0) = Some (1, demo 0) /\ ngx_rbtree_min_loop 4 2 9 (demo 0) = Some (1, demo 0)).
Proof.
  destruct (rbtree_delete_min_correct 9 (demo 0) [(1, 10); (2, 20); (3, 30)] (demo_holds 0)) as [Hdel Hmin].
  split; [by apply (Hdel [(1, 10)] 2 20 [(3, 30)]) | by apply (Hmin 1 10 [(2, 20); (3, 30)])].
Defined.

End RbtreeTheorems.
