(* ===== verification/Str.v ===== *)
(** Numbers and byte strings as text: the parts of nginx/src/core/ngx_string.c
    that convert between them (numbers in decimal and hexadecimal, base64,
    UTF-8).  Strings are lists of bytes. *)
From stdpp Require Import base list numbers strings.
From S2P Require Import Prelude.
Local Open Scope Z_scope.

Module Str.

(** A list of bytes. *)
Definition is_byte (c : Z) : Prop := 0 <= c < 256.
Abbreviation are_bytes := (Forall is_byte).

(** The entry [i] of a static table; every index the code uses is inside. *)
Definition entry (table : list Z) (i : Z) : Z := nth (Z.to_nat i) table 0.

(** * Printing numbers *)

Definition NGX_MAX_UINT32_VALUE : Z := 0xffffffff.
Definition NGX_INT64_LEN : nat := 20.

(** [do *--p = (ui % 10 + '0'); while (ui /= 10);] *)
Fixpoint dec_loop (fuel : nat) (ui : Z) (p : list Z) : list Z :=
  match fuel with
  | O => p
  | S fuel =>
      let p := (ui mod 10 + 48) :: p in
      if ui / 10 =? 0 then p else dec_loop fuel (ui / 10) p
  end.

(** [do *--p = hex[ui & 0xf]; while (ui >>= 4);] *)
Fixpoint hex_loop (hex : list Z) (fuel : nat) (ui : Z) (p : list Z) : list Z :=
  match fuel with
  | O => p
  | S fuel =>
      let p := entry hex (Z.land ui 0xf) :: p in
      if Z.shiftr ui 4 =? 0 then p else hex_loop hex fuel (Z.shiftr ui 4) p
  end.

Definition hex_lower : list Z := bytes "0123456789abcdef".
Definition hex_upper : list Z := bytes "0123456789ABCDEF".

(** The digits, last first, in a buffer of [NGX_INT64_LEN] bytes: the fuel is
    the size of the buffer. *)
Definition num_digits (ui64 hexadecimal : Z) : list Z :=
  if hexadecimal =? 0 then
    if ui64 <=? NGX_MAX_UINT32_VALUE then dec_loop NGX_INT64_LEN (u32 ui64) []
    else dec_loop NGX_INT64_LEN ui64 []
  else if hexadecimal =? 1 then hex_loop hex_lower NGX_INT64_LEN ui64 []
  else hex_loop hex_upper NGX_INT64_LEN ui64 [].

(** [ngx_sprintf_num]: the bytes it writes when [room] bytes are left. *)
Definition ngx_sprintf_num (room ui64 zero hexadecimal width : Z) : list Z :=
  let digits := num_digits ui64 hexadecimal in
  let len := Z.of_nat (length digits) in
  let pad := Z.min (Z.max 0 (width - len)) room in
  replicate (Z.to_nat pad) zero ++ take (Z.to_nat (Z.min len (room - pad))) digits.

(** * Reading numbers *)

(** [ngx_atoi]: the value is an [ngx_int_t], a 64-bit signed number whose
    overflow wraps around on the machines nginx runs on. *)
Fixpoint atoi_loop (line : list Z) (value : Z) : option Z :=
  match line with
  | [] => Some value
  | c :: line => if (c <? 48) || (57 <? c) then None else atoi_loop line (s64 (value * 10 + (c - 48)))
  end.
Definition ngx_atoi (line : list Z) : Z :=
  match line with
  | [] => -1
  | _ => match atoi_loop line 0 with
         | None => -1
         | Some value => if value <? 0 then -1 else value
         end
  end.

Fixpoint hextoi_loop (line : list Z) (value : Z) : option Z :=
  match line with
  | [] => Some value
  | ch :: line =>
      if (48 <=? ch) && (ch <=? 57) then hextoi_loop line (s64 (value * 16 + (ch - 48)))
      else
        let c := u8 (Z.lor ch 0x20) in
        if (97 <=? c) && (c <=? 102) then hextoi_loop line (s64 (value * 16 + (c - 97 + 10)))
        else None
  end.
Definition ngx_hextoi (line : list Z) : Z :=
  match line with
  | [] => -1
  | _ => match hextoi_loop line 0 with
         | None => -1
         | Some value => if value <? 0 then -1 else value
         end
  end.

Definition ngx_hex_dump (src : list Z) : list Z :=
  flat_map (fun c => [entry hex_lower (Z.shiftr c 4); entry hex_lower (Z.land c 0xf)]) src.

(** * Base64 *)

Definition basis64_encode : list Z :=
  bytes "ABCDEFGHIJKLMNOPQRSTUVWXYZabcdefghijklmnopqrstuvwxyz0123456789+/".

Fixpoint ngx_encode_base64 (s : list Z) : list Z :=
  match s with
  | s0 :: s1 :: s2 :: s =>
      entry basis64_encode (Z.land (Z.shiftr s0 2) 0x3f) ::
      entry basis64_encode (Z.lor (Z.shiftl (Z.land s0 3) 4) (Z.shiftr s1 4)) ::
      entry basis64_encode (Z.lor (Z.shiftl (Z.land s1 0x0f) 2) (Z.shiftr s2 6)) ::
      entry basis64_encode (Z.land s2 0x3f) :: ngx_encode_base64 s
  | [s0; s1] =>
      [entry basis64_encode (Z.land (Z.shiftr s0 2) 0x3f);
       entry basis64_encode (Z.lor (Z.shiftl (Z.land s0 3) 4) (Z.shiftr s1 4));
       entry basis64_encode (Z.shiftl (Z.land s1 0x0f) 2); 61]
  | [s0] =>
      [entry basis64_encode (Z.land (Z.shiftr s0 2) 0x3f);
       entry basis64_encode (Z.shiftl (Z.land s0 3) 4); 61; 61]
  | [] => []
  end.

(** The tables of the decoders; 77 marks what is not in the alphabet. *)
Definition x16 : list Z := replicate 16 77.
Definition basis64_decode : list Z :=
  x16 ++ x16 ++
  [77; 77; 77; 77; 77; 77; 77; 77; 77; 77; 77; 62; 77; 77; 77; 63;
   52; 53; 54; 55; 56; 57; 58; 59; 60; 61; 77; 77; 77; 77; 77; 77;
   77;  0;  1;  2;  3;  4;  5;  6;  7;  8;  9; 10; 11; 12; 13; 14;
   15; 16; 17; 18; 19; 20; 21; 22; 23; 24; 25; 77; 77; 77; 77; 77;
   77; 26; 27; 28; 29; 30; 31; 32; 33; 34; 35; 36; 37; 38; 39; 40;
   41; 42; 43; 44; 45; 46; 47; 48; 49; 50; 51; 77; 77; 77; 77; 77] ++
  x16 ++ x16 ++ x16 ++ x16 ++ x16 ++ x16 ++ x16 ++ x16.
Definition basis64url_decode : list Z :=
  x16 ++ x16 ++
  [77; 77; 77; 77; 77; 77; 77; 77; 77; 77; 77; 77; 77; 62; 77; 77;
   52; 53; 54; 55; 56; 57; 58; 59; 60; 61; 77; 77; 77; 77; 77; 77;
   77;  0;  1;  2;  3;  4;  5;  6;  7;  8;  9; 10; 11; 12; 13; 14;
   15; 16; 17; 18; 19; 20; 21; 22; 23; 24; 25; 77; 77; 77; 77; 63;
   77; 26; 27; 28; 29; 30; 31; 32; 33; 34; 35; 36; 37; 38; 39; 40;
   41; 42; 43; 44; 45; 46; 47; 48; 49; 50; 51; 77; 77; 77; 77; 77] ++
  x16 ++ x16 ++ x16 ++ x16 ++ x16 ++ x16 ++ x16 ++ x16.

(** The first loop: the part before ['='], or nothing on a foreign byte. *)
Fixpoint base64_scan (basis src : list Z) : option (list Z) :=
  match src with
  | [] => Some []
  | c :: src =>
      if c =? 61 then Some []
      else if entry basis c =? 77 then None
      else cons c <$> base64_scan basis src
  end.

(** The second loop and the rest of one to three characters. *)
Fixpoint base64_groups (basis s : list Z) : list Z :=
  match s with
  | s0 :: s1 :: s2 :: s3 :: s =>
      u8 (Z.lor (Z.shiftl (entry basis s0) 2) (Z.shiftr (entry basis s1) 4)) ::
      u8 (Z.lor (Z.shiftl (entry basis s1) 4) (Z.shiftr (entry basis s2) 2)) ::
      u8 (Z.lor (Z.shiftl (entry basis s2) 6) (entry basis s3)) :: base64_groups basis s
  | [s0; s1; s2] =>
      [u8 (Z.lor (Z.shiftl (entry basis s0) 2) (Z.shiftr (entry basis s1) 4));
       u8 (Z.lor (Z.shiftl (entry basis s1) 4) (Z.shiftr (entry basis s2) 2))]
  | [s0; s1] => [u8 (Z.lor (Z.shiftl (entry basis s0) 2) (Z.shiftr (entry basis s1) 4))]
  | _ => []
  end.

(** [None] is [NGX_ERROR]. *)
Definition ngx_decode_base64_internal (basis src : list Z) : option (list Z) :=
  s ← base64_scan basis src;
  if (length s mod 4 =? 1)%nat then None else Some (base64_groups basis s).
Definition ngx_decode_base64 : list Z -> option (list Z) := ngx_decode_base64_internal basis64_decode.
Definition ngx_decode_base64url : list Z -> option (list Z) := ngx_decode_base64_internal basis64url_decode.

(** * UTF-8 *)

(** The loop over the continuation bytes.  A read past the end of the text is
    [None]; the result is the value and what is left of the text. *)
Fixpoint utf8_loop (len : nat) (u valid : Z) (p : list Z) : option (Z * list Z) :=
  match len with
  | O => Some (if valid <? u then u else 0xffffffff, p)
  | S len =>
      match p with
      | [] => None
      | i :: p =>
          if i <? 0x80 then Some (0xffffffff, p)
          else utf8_loop len (u32 (Z.lor (Z.shiftl u 6) (Z.land i 0x3f))) valid p
      end
  end.

(** [ngx_utf8_decode(&p, n)]: the result and the new [p]. *)
Definition ngx_utf8_decode (p : list Z) (n : Z) : option (Z * list Z) :=
  match p with
  | [] => None
  | u :: p' =>
      let go u valid len :=
        if u64 (n - 1) <? Z.of_nat len then Some (0xfffffffe, p) else utf8_loop len u valid p' in
      if 0xf0 <? u then go (Z.land u 0x07) 0xffff 3%nat
      else if 0xe0 <? u then go (Z.land u 0x0f) 0x7ff 2%nat
      else if 0xc0 <? u then go (Z.land u 0x1f) 0x7f 1%nat
      else Some (0xffffffff, p')
  end.

(** [ngx_utf8_length(p, n)]: [left] is the text from [p] on, [last] the number
    of its bytes before [p + n]; every iteration moves [p], so the fuel [n] is
    enough.  [ngx_utf8_decode] is given [n], not what is left. *)
Fixpoint utf8_length_loop (fuel : nat) (left : list Z) (last n len : Z) : option Z :=
  if last <=? 0 then Some len
  else
    match fuel with
    | O => None
    | S fuel =>
        match left with
        | [] => None
        | c :: left' =>
            if c <? 0x80 then utf8_length_loop fuel left' (last - 1) n (len + 1)
            else
              match ngx_utf8_decode left n with
              | None => None
              | Some (u, left') =>
                  if 0x10ffff <? u then Some n
                  else utf8_length_loop fuel left' (last - Z.of_nat (length left - length left')) n (len + 1)
              end
        end
    end.
Definition ngx_utf8_length (p : list Z) (n : Z) : option Z := utf8_length_loop (Z.to_nat n) p n n 0.

(** * Numbers *)

(** A loop that reads decimal digits into an accumulator. *)
Section Decimal.
Context {A : Type} (read : list Z -> Z -> A) (bound : Z).
Context (read_digit : forall d l v, 0 <= d < 10 -> 0 <= v -> v * 10 + d < bound ->
  read ((d + 48) :: l) v = read l (v * 10 + d)).

Lemma dec_loop_read fuel ui p :
  0 <= ui < 10 ^ Z.of_nat fuel -> ui < bound -> read (dec_loop fuel ui p) 0 = read p ui.
Proof.
  revert ui p. induction fuel as [|fuel IH]; intros ui p Hui Hb.
  { change (10 ^ Z.of_nat 0) with 1 in Hui. by assert (ui = 0) as -> by lia. }
  rewrite Nat2Z.inj_succ, Z.pow_succ_r in Hui by lia. cbn [dec_loop].
  pose proof (Z.mod_pos_bound ui 10 ltac:(lia)). pose proof (Z.div_mod ui 10 ltac:(lia)).
  destruct (Z.eqb_spec (ui / 10) 0) as [Hz|Hz].
  - rewrite read_digit by lia. f_equal. lia.
  - rewrite IH; [rewrite read_digit by lia; f_equal; lia | | lia].
    split; [lia|]. apply Z.div_lt_upper_bound; lia.
Qed.
End Decimal.

Lemma dec_loop_length fuel ui p : (length (dec_loop fuel ui p) <= fuel + length p)%nat.
Proof.
  revert ui p. induction fuel as [|fuel IH]; intros ui p; cbn [dec_loop]; [lia|].
  case_match; [cbn; lia|]. specialize (IH (ui / 10) ((ui mod 10 + 48) :: p)). cbn in IH. lia.
Qed.
Lemma dec_loop_nonempty fuel ui p : p <> [] \/ (0 < fuel)%nat -> dec_loop fuel ui p <> [].
Proof.
  revert ui p. induction fuel as [|fuel IH]; intros ui p Hp; cbn [dec_loop]; [by destruct Hp as [|]; [|lia]|].
  case_match; [done|]. apply IH. by left.
Qed.

Lemma atoi_digit d l v :
  0 <= d < 10 -> 0 <= v -> v * 10 + d < 2 ^ 63 -> atoi_loop ((d + 48) :: l) v = atoi_loop l (v * 10 + d).
Proof.
  intros Hd Hv Hb. cbn [atoi_loop]. destruct (Z.ltb_spec (d + 48) 48); [lia|].
  destruct (Z.ltb_spec 57 (d + 48)); [lia|]. cbn [orb]. rewrite s64_small by lia. f_equal. lia.
Qed.

Lemma atoi_zeros n l : atoi_loop (replicate n 48 ++ l) 0 = atoi_loop l 0.
Proof. induction n as [|n IH]; [done|]. cbn. exact IH. Qed.

Lemma hextoi_digit hex d l v :
  hex = hex_lower \/ hex = hex_upper -> 0 <= d < 16 -> 0 <= v -> v * 16 + d < 2 ^ 63 ->
  hextoi_loop (entry hex d :: l) v = hextoi_loop l (v * 16 + d).
Proof.
  intros Hhex Hd Hv Hb. rewrite <- (s64_small (v * 16 + d)) by lia.
  assert (d = 0 \/ d = 1 \/ d = 2 \/ d = 3 \/ d = 4 \/ d = 5 \/ d = 6 \/ d = 7 \/ d = 8 \/ d = 9 \/ d = 10 \/
          d = 11 \/ d = 12 \/ d = 13 \/ d = 14 \/ d = 15) as Hcases by lia.
  destruct Hhex as [-> | ->]; repeat destruct Hcases as [-> | Hcases]; try subst d; reflexivity.
Qed.

Lemma hextoi_zeros n l : hextoi_loop (replicate n 48 ++ l) 0 = hextoi_loop l 0.
Proof. induction n as [|n IH]; [done|]. cbn. exact IH. Qed.

Lemma hex_loop_read hex fuel ui p :
  hex = hex_lower \/ hex = hex_upper -> 0 <= ui < 16 ^ Z.of_nat fuel -> ui < 2 ^ 63 ->
  hextoi_loop (hex_loop hex fuel ui p) 0 = hextoi_loop p ui.
Proof.
  intros Hhex. revert ui p. induction fuel as [|fuel IH]; intros ui p Hui Hb.
  { change (16 ^ Z.of_nat 0) with 1 in Hui. by assert (ui = 0) as -> by lia. }
  rewrite Nat2Z.inj_succ, Z.pow_succ_r in Hui by lia. cbn [hex_loop].
  change 0xf with (Z.ones 4). rewrite land_low, shiftr_div by lia. change (2 ^ 4) with 16.
  pose proof (Z.mod_pos_bound ui 16 ltac:(lia)). pose proof (Z.div_mod ui 16 ltac:(lia)).
  destruct (Z.eqb_spec (ui / 16) 0) as [Hz|Hz].
  - rewrite hextoi_digit by (done || lia). f_equal. lia.
  - rewrite IH; [rewrite hextoi_digit by (done || lia); f_equal; lia | | lia].
    split; [lia|]. apply Z.div_lt_upper_bound; lia.
Qed.
Lemma hex_loop_length hex fuel ui p : (length (hex_loop hex fuel ui p) <= fuel + length p)%nat.
Proof.
  revert ui p. induction fuel as [|fuel IH]; intros ui p; cbn [hex_loop]; [lia|].
  case_match; [cbn; lia|]. etrans; [apply IH|]. cbn. lia.
Qed.
Lemma hex_loop_nonempty hex fuel ui p : p <> [] \/ (0 < fuel)%nat -> hex_loop hex fuel ui p <> [].
Proof.
  revert ui p. induction fuel as [|fuel IH]; intros ui p Hp; cbn [hex_loop]; [by destruct Hp as [|]; [|lia]|].
  case_match; [done|]. apply IH. by left.
Qed.

(** The digits fit the buffer they are written to. *)
Lemma num_digits_length ui h : (length (num_digits ui h) <= NGX_INT64_LEN)%nat.
Proof.
  unfold num_digits. repeat case_match; (etrans; [apply dec_loop_length || apply hex_loop_length | unfold NGX_INT64_LEN; cbn [length]; lia]).
Qed.

Lemma num_digits_nonempty ui h : num_digits ui h <> [].
Proof.
  unfold num_digits. repeat case_match; (apply dec_loop_nonempty || apply hex_loop_nonempty); right; unfold NGX_INT64_LEN; lia.
Qed.

Lemma num_digits_decimal ui : 0 <= ui < 2 ^ 64 -> num_digits ui 0 = dec_loop NGX_INT64_LEN ui [].
Proof.
  intros Hui. unfold num_digits. cbn [Z.eqb]. case_match; [|done]. unfold u32, wrapU.
  rewrite Z.mod_small; [done|]. rewrite Z.leb_le in *. unfold NGX_MAX_UINT32_VALUE in *. lia.
Qed.

(** With room for the padding and the digits nothing is cut off. *)
Lemma sprintf_num_fits room ui zero h width :
  Z.of_nat NGX_INT64_LEN <= room -> width <= room ->
  ngx_sprintf_num room ui zero h width
    = replicate (Z.to_nat width - length (num_digits ui h)) zero ++ num_digits ui h.
Proof.
  intros Hr Hw. unfold ngx_sprintf_num. pose proof (num_digits_length ui h). cbv zeta.
  rewrite take_ge by lia. f_equal. f_equal. lia.
Qed.

(** * Base64 *)

(** Turn a goal about bit operations on bytes into one about arithmetic. *)
Ltac divmod := Z.to_euclidean_division_equations; lia.

Lemma sextet_1 s0 : is_byte s0 -> Z.land (Z.shiftr s0 2) 0x3f = s0 / 4.
Proof. intros []. change 0x3f with (Z.ones 6). rewrite land_low, shiftr_div by lia. apply Z.mod_small. divmod. Qed.
Lemma sextet_2 s0 s1 :
  is_byte s0 -> is_byte s1 -> Z.lor (Z.shiftl (Z.land s0 3) 4) (Z.shiftr s1 4) = s0 mod 4 * 16 + s1 / 16.
Proof.
  intros [] []. change 3 with (Z.ones 2). rewrite land_low, shiftl_mul, shiftr_div by lia. apply lor_add; [lia|].
  divmod.
Qed.
Lemma sextet_3 s1 s2 :
  is_byte s1 -> is_byte s2 -> Z.lor (Z.shiftl (Z.land s1 0x0f) 2) (Z.shiftr s2 6) = s1 mod 16 * 4 + s2 / 64.
Proof.
  intros [] []. change 0x0f with (Z.ones 4). rewrite land_low, shiftl_mul, shiftr_div by lia. apply lor_add; [lia|].
  divmod.
Qed.
Lemma sextet_4 s2 : is_byte s2 -> Z.land s2 0x3f = s2 mod 64.
Proof. intros []. change 0x3f with (Z.ones 6). by rewrite land_low by lia. Qed.

Definition is_sextet (i : Z) : Prop := 0 <= i < 64.

Lemma octet_1 i0 i1 :
  is_sextet i0 -> is_sextet i1 -> u8 (Z.lor (Z.shiftl i0 2) (Z.shiftr i1 4)) = i0 * 4 + i1 / 16.
Proof.
  intros [] []. rewrite shiftl_mul, shiftr_div by lia. rewrite lor_add by divmod. unfold u8, wrapU.
  apply Z.mod_small. divmod.
Qed.
Lemma octet_2 i1 i2 :
  is_sextet i1 -> is_sextet i2 -> u8 (Z.lor (Z.shiftl i1 4) (Z.shiftr i2 2)) = i1 mod 16 * 16 + i2 / 4.
Proof.
  intros [] []. rewrite shiftl_mul, shiftr_div by lia. rewrite lor_add by divmod. unfold u8, wrapU. divmod.
Qed.
Lemma octet_3 i2 i3 :
  is_sextet i2 -> is_sextet i3 -> u8 (Z.lor (Z.shiftl i2 6) i3) = i2 mod 4 * 64 + i3.
Proof.
  intros [] []. rewrite shiftl_mul by lia. rewrite lor_add by divmod. unfold u8, wrapU. divmod.
Qed.

(** The decoder's table inverts the encoder's alphabet. *)
Lemma alphabet i :
  is_sextet i -> entry basis64_decode (entry basis64_encode i) = i /\ entry basis64_encode i <> 61.
Proof.
  intros Hi. assert (Forall (fun i => entry basis64_decode (entry basis64_encode i) = i /\
    entry basis64_encode i <> 61) (seqZ 0 64)) as Hall.
  { apply (bool_decide_unpack _). vm_compute. done. }
  rewrite Forall_forall in Hall. apply Hall, elem_of_seqZ. unfold is_sextet in Hi. lia.
Qed.

Lemma scan_char i src :
  is_sextet i ->
  base64_scan basis64_decode (entry basis64_encode i :: src)
    = cons (entry basis64_encode i) <$> base64_scan basis64_decode src.
Proof.
  intros Hi. destruct (alphabet i Hi) as [Hd He]. cbn [base64_scan].
  destruct (Z.eqb_spec (entry basis64_encode i) 61); [done|]. rewrite Hd.
  destruct (Z.eqb_spec i 77); [unfold is_sextet in Hi; lia | done].
Qed.

(** What the decoder finds in the encoder's output. *)
Lemma scan_encode s :
  are_bytes s -> exists t, base64_scan basis64_decode (ngx_encode_base64 s) = Some t /\
    (length t mod 4 <> 1)%nat /\ base64_groups basis64_decode t = s.
Proof.
  revert s. fix IH 1. intros [|s0 [|s1 [|s2 s]]] Hs.
  - by exists [].
  - apply Forall_cons in Hs as [H0 _]. cbn [ngx_encode_base64].
    rewrite sextet_1 by done. change 3 with (Z.ones 2). rewrite land_low, shiftl_mul by lia.
    assert (is_sextet (s0 / 4) /\ is_sextet (s0 mod 2 ^ 2 * 2 ^ 4)) as [Hi0 Hi1] by (unfold is_sextet, is_byte in *; divmod).
    rewrite !scan_char by done. eexists. split; [reflexivity|]. split; [done|]. cbn [base64_groups].
    destruct (alphabet _ Hi0) as [-> _], (alphabet _ Hi1) as [-> _]. rewrite octet_1 by done. f_equal.
    unfold is_byte in *. divmod.
  - apply Forall_cons in Hs as [H0 [H1 _]%Forall_cons]. cbn [ngx_encode_base64].
    rewrite sextet_1, sextet_2 by done. change 0x0f with (Z.ones 4). rewrite land_low, shiftl_mul by lia.
    assert (is_sextet (s0 / 4) /\ is_sextet (s0 mod 4 * 16 + s1 / 16) /\ is_sextet (s1 mod 2 ^ 4 * 2 ^ 2))
      as (Hi0 & Hi1 & Hi2) by (unfold is_sextet, is_byte in *; divmod).
    rewrite !scan_char by done. eexists. split; [reflexivity|]. split; [done|]. cbn [base64_groups].
    destruct (alphabet _ Hi0) as [-> _], (alphabet _ Hi1) as [-> _], (alphabet _ Hi2) as [-> _].
    rewrite octet_1, octet_2 by done. unfold is_byte in *. f_equal; [|f_equal]; divmod.
  - apply Forall_cons in Hs as [H0 [H1 [H2 Hs]%Forall_cons]%Forall_cons]. cbn [ngx_encode_base64].
    destruct (IH s Hs) as (t & Hscan & Hlen & Hgroups).
    rewrite sextet_1, sextet_2, sextet_3, sextet_4 by done.
    assert (is_sextet (s0 / 4) /\ is_sextet (s0 mod 4 * 16 + s1 / 16) /\ is_sextet (s1 mod 16 * 4 + s2 / 64) /\
            is_sextet (s2 mod 64)) as (Hi0 & Hi1 & Hi2 & Hi3) by (unfold is_sextet, is_byte in *; divmod).
    rewrite !scan_char, Hscan by done. eexists. split; [reflexivity|]. split.
    { cbn [length]. replace (S (S (S (S (length t))))) with (length t + 1 * 4)%nat by lia. by rewrite Nat.Div0.mod_add. }
    cbn [base64_groups].
    destruct (alphabet _ Hi0) as [-> _], (alphabet _ Hi1) as [-> _], (alphabet _ Hi2) as [-> _], (alphabet _ Hi3) as [-> _].
    rewrite octet_1, octet_2, octet_3, Hgroups by done. unfold is_byte in *. f_equal; [|f_equal; [|f_equal]]; divmod.
Qed.

(** * UTF-8 *)

(** The encoding of RFC 3629 for characters of two and more bytes. *)
Definition utf8_encode (cp : Z) : list Z :=
  if cp <? 0x800 then [0xc0 + cp / 64; 0x80 + cp mod 64]
  else if cp <? 0x10000 then [0xe0 + cp / 4096; 0x80 + cp / 64 mod 64; 0x80 + cp mod 64]
  else [0xf0 + cp / 262144; 0x80 + cp / 4096 mod 64; 0x80 + cp / 64 mod 64; 0x80 + cp mod 64].

Lemma utf8_loop_cont len u valid d p :
  0 <= d < 64 -> 0 <= u < 2 ^ 20 ->
  utf8_loop (S len) u valid (0x80 + d :: p) = utf8_loop len (u * 64 + d) valid p.
Proof.
  intros Hd Hu. cbn [utf8_loop]. destruct (Z.ltb_spec (0x80 + d) 0x80); [lia|].
  change 0x3f with (Z.ones 6). rewrite land_low, shiftl_mul by lia.
  replace ((0x80 + d) mod 2 ^ 6) with d by divmod. rewrite lor_add by lia. unfold u32, wrapU.
  by rewrite Z.mod_small by lia.
Qed.

Lemma utf8_enough n len : Z.of_nat len < n < 2 ^ 64 -> (u64 (n - 1) <? Z.of_nat len) = false.
Proof. intros H. unfold u64, wrapU. rewrite Z.mod_small by lia. apply Z.ltb_ge. lia. Qed.

Lemma utf8_lead_2 u p n :
  0xc0 < u <= 0xe0 -> 1 < n < 2 ^ 64 -> ngx_utf8_decode (u :: p) n = utf8_loop 1 (u mod 32) 0x7f p.
Proof.
  intros Hu Hn. cbn [ngx_utf8_decode]. destruct (Z.ltb_spec 0xf0 u); [lia|]. destruct (Z.ltb_spec 0xe0 u); [lia|].
  destruct (Z.ltb_spec 0xc0 u); [|lia]. rewrite utf8_enough by lia. change 0x1f with (Z.ones 5). by rewrite land_low by lia.
Qed.
Lemma utf8_lead_3 u p n :
  0xe0 < u <= 0xf0 -> 2 < n < 2 ^ 64 -> ngx_utf8_decode (u :: p) n = utf8_loop 2 (u mod 16) 0x7ff p.
Proof.
  intros Hu Hn. cbn [ngx_utf8_decode]. destruct (Z.ltb_spec 0xf0 u); [lia|]. destruct (Z.ltb_spec 0xe0 u); [|lia].
  rewrite utf8_enough by lia. change 0x0f with (Z.ones 4). by rewrite land_low by lia.
Qed.
Lemma utf8_lead_4 u p n :
  0xf0 < u < 0xf8 -> 3 < n < 2 ^ 64 -> ngx_utf8_decode (u :: p) n = utf8_loop 3 (u mod 8) 0xffff p.
Proof.
  intros Hu Hn. cbn [ngx_utf8_decode]. destruct (Z.ltb_spec 0xf0 u); [|lia].
  rewrite utf8_enough by lia. change 0x07 with (Z.ones 3). by rewrite land_low by lia.
Qed.

(** * The theorems *)

(** Base64: decoding what [ngx_encode_base64] wrote gives back the bytes. *)
Lemma base64_read s : are_bytes s -> ngx_decode_base64 (ngx_encode_base64 s) = Some s.
Proof.
  intros Hs. destruct (scan_encode s Hs) as (t & Hscan & Hlen & Hgroups).
  unfold ngx_decode_base64, ngx_decode_base64_internal. rewrite Hscan. cbn [mbind option_bind].
  destruct (Nat.eqb_spec (length t mod 4) 1); [done|]. by rewrite Hgroups.
Qed.

(** Numbers: what [ngx_sprintf_num] printed is read back, with zeros in front of
    it or not, in any base. *)
Lemma number_read room ui width :
  Z.of_nat NGX_INT64_LEN <= room -> width <= room -> 0 <= ui < 2 ^ 63 ->
  ngx_atoi (ngx_sprintf_num room ui 48 0 width) = ui /\
  ngx_hextoi (ngx_sprintf_num room ui 48 1 width) = ui /\
  ngx_hextoi (ngx_sprintf_num room ui 48 2 width) = ui /\
  (forall h, length (num_digits ui h) <= NGX_INT64_LEN)%nat.
Proof.
  intros Hroom Hwidth Hui.
  assert (Hne : forall n h, replicate n 48 ++ num_digits ui h <> []).
  { intros n h [_ H]%app_eq_nil. by apply (num_digits_nonempty ui h). }
  assert (Hhex : forall h, h = 1 \/ h = 2 -> hextoi_loop (num_digits ui h) 0 = Some ui).
  { intros h [-> | ->]; unfold num_digits; cbn [Z.eqb Pos.eqb];
      (rewrite hex_loop_read; [done | tauto | unfold NGX_INT64_LEN; cbn; lia | lia]). }
  split_and!; [| | |intros; apply num_digits_length]; rewrite sprintf_num_fits by done.
  - unfold ngx_atoi. pose proof (Hne (Z.to_nat width - length (num_digits ui 0))%nat 0) as Hn.
    destruct (replicate _ 48 ++ _) as [|c l] eqn:E; [done|]. rewrite <- E, atoi_zeros, num_digits_decimal by lia.
    rewrite (dec_loop_read atoi_loop (2 ^ 63) atoi_digit) by (unfold NGX_INT64_LEN; cbn; lia).
    cbn [atoi_loop]. by destruct (Z.ltb_spec ui 0); [lia|].
  - unfold ngx_hextoi. pose proof (Hne (Z.to_nat width - length (num_digits ui 1))%nat 1) as Hn.
    destruct (replicate _ 48 ++ _) as [|c l] eqn:E; [done|]. rewrite <- E, hextoi_zeros, Hhex by tauto.
    by destruct (Z.ltb_spec ui 0); [lia|].
  - unfold ngx_hextoi. pose proof (Hne (Z.to_nat width - length (num_digits ui 2))%nat 2) as Hn.
    destruct (replicate _ 48 ++ _) as [|c l] eqn:E; [done|]. rewrite <- E, hextoi_zeros, Hhex by tauto.
    by destruct (Z.ltb_spec ui 0); [lia|].
Qed.

(** C37.  UTF-8: [ngx_utf8_decode] gives back a character encoded as RFC 3629
    says, and the text after it, unless its first byte is 0xE0 or 0xF0: the
    characters U+0800 to U+0FFF are always taken for an error, and U+10000 to
    U+3FFFF for an error or another character. *)
Theorem utf8_decode_encoded cp rest n :
  0x80 <= cp < 0x110000 -> Z.of_nat (length (utf8_encode cp)) <= n < 2 ^ 64 ->
  (cp < 0x800 \/ 0x1000 <= cp < 0x10000 \/ 0x40000 <= cp ->
     ngx_utf8_decode (utf8_encode cp ++ rest) n = Some (cp, rest)) /\
  (0x800 <= cp < 0x1000 -> exists rest', ngx_utf8_decode (utf8_encode cp ++ rest) n = Some (0xffffffff, rest')) /\
  (0x10000 <= cp < 0x40000 ->
     exists u rest', ngx_utf8_decode (utf8_encode cp ++ rest) n = Some (u, rest') /\ u <> cp).
Proof.
  intros Hcp. unfold utf8_encode.
  destruct (Z.ltb_spec cp 0x800); [|destruct (Z.ltb_spec cp 0x10000)]; cbn [length app]; intros Hn.
  - split_and!; [intros _ | lia | lia]. rewrite utf8_lead_2 by divmod.
    rewrite utf8_loop_cont by divmod. cbn [utf8_loop].
    replace ((0xc0 + cp / 64) mod 32 * 64 + cp mod 64) with cp by divmod.
    by destruct (Z.ltb_spec 0x7f cp); [|lia].
  - split_and!; [| |lia].
    + intros Hr. rewrite utf8_lead_3 by divmod. rewrite !utf8_loop_cont by divmod. cbn [utf8_loop].
      replace (((0xe0 + cp / 4096) mod 16 * 64 + cp / 64 mod 64) * 64 + cp mod 64) with cp by divmod.
      by destruct (Z.ltb_spec 0x7ff cp); [|lia].
    + intros Hr. replace (cp / 4096) with 0 by divmod. rewrite utf8_lead_2 by lia. rewrite utf8_loop_cont by divmod.
      cbn [utf8_loop]. eexists. destruct (Z.ltb_spec 0x7f ((0xe0 + 0) mod 32 * 64 + cp / 64 mod 64)); [divmod | done].
  - split_and!; [|lia|].
    + intros Hr. rewrite utf8_lead_4 by divmod. rewrite !utf8_loop_cont by divmod. cbn [utf8_loop].
      replace ((((0xf0 + cp / 262144) mod 8 * 64 + cp / 4096 mod 64) * 64 + cp / 64 mod 64) * 64 + cp mod 64) with cp by divmod.
      by destruct (Z.ltb_spec 0xffff cp); [|lia].
    + intros Hr. replace (cp / 262144) with 0 by divmod. rewrite utf8_lead_3 by lia. rewrite !utf8_loop_cont by divmod.
      cbn [utf8_loop]. eexists _, _. split; [reflexivity|]. case_match; [divmod | lia].
Qed.

(** [ngx_utf8_length] gives [ngx_utf8_decode] the length of the whole text, not
    of what is left, so a truncated last character makes it read past the
    end. *)
Example utf8_length_reads_past_the_end : ngx_utf8_length [0x41; 0xd0] 2 = None.
Proof. reflexivity. Qed.

(** The sign is all that [ngx_atoi] tests: a number of 21 digits is accepted as
    another one. *)
Example atoi_overflow_accepted : ngx_atoi (bytes "18446744073709551617") = 1.
Proof. reflexivity. Qed.

(** * Witnesses *)

Lemma utf8_decode_encoded_witness :
  (0x20ac < 0x800 \/ 0x1000 <= 0x20ac < 0x10000 \/ 0x40000 <= 0x20ac ->
     ngx_utf8_decode (utf8_encode 0x20ac ++ []) 3 = Some (0x20ac, [])) /\
  (0x800 <= 0x20ac < 0x1000 -> exists rest', ngx_utf8_decode (utf8_encode 0x20ac ++ []) 3 = Some (0xffffffff, rest')) /\
  (0x10000 <= 0x20ac < 0x40000 ->
     exists u rest', ngx_utf8_decode (utf8_encode 0x20ac ++ []) 3 = Some (u, rest') /\ u <> 0x20ac).
Proof. apply (utf8_decode_encoded 0x20ac [] 3); [lia | split; reflexivity || (cbn; lia)]. Defined.

End Str.
