(* ===== verification/Search.v ===== *)
(** Comparing, searching and sorting: the functions of nginx/src/core/ngx_string.c
    on strings whose end is a zero byte, a length or a pointer, and
    [ngx_sort].

    A string is what can be read from its pointer on; the result [None] is a
    read behind it. *)
From stdpp Require Import base list numbers strings sets sorting.
From S2P Require Import Prelude Str.
Import Str.
Local Open Scope Z_scope.

Module Search.

(** * Comparing *)

(** [(c >= 'A' && c <= 'Z') ? (c | 0x20) : c] *)
Definition ngx_tolower (c : Z) : Z := if (65 <=? c) && (c <=? 90) then Z.lor c 0x20 else c.
(** [if (c >= 'a' && c <= 'z') c -= 'a' - 'A'] *)
Definition to_upper (c : Z) : Z := if (97 <=? c) && (c <=? 122) then c - (97 - 65) else c.

Fixpoint ngx_strcasecmp (s1 s2 : list Z) : option Z :=
  match s1, s2 with
  | c1 :: s1, c2 :: s2 =>
      let c1 := ngx_tolower c1 in
      let c2 := ngx_tolower c2 in
      if c1 =? c2 then
        if negb (c1 =? 0) then ngx_strcasecmp s1 s2 else Some 0
      else Some (s64 (u64 (c1 - c2)))
  | _, _ => None
  end.

(** [ngx_strncasecmp], and the C library's [strncmp], which reads bytes as they
    are; of its result only the sign is used. *)
Fixpoint strncmp_by (f : Z -> Z) (s1 s2 : list Z) (n : nat) {struct n} : option Z :=
  match n with
  | O => Some 0
  | S n =>
      match s1, s2 with
      | c1 :: s1, c2 :: s2 =>
          let c1 := f c1 in
          let c2 := f c2 in
          if c1 =? c2 then
            if negb (c1 =? 0) then strncmp_by f s1 s2 n else Some 0
          else Some (s64 (u64 (c1 - c2)))
      | _, _ => None
      end
  end.
Definition ngx_strncasecmp : list Z -> list Z -> nat -> option Z := strncmp_by ngx_tolower.
Definition ngx_strncmp : list Z -> list Z -> nat -> option Z := strncmp_by id.

(** The loops of [ngx_rstrncmp] and [ngx_rstrncasecmp], from index [n] down. *)
Fixpoint rstrncmp_loop (f : Z -> Z) (s1 s2 : list Z) (n : nat) : option Z :=
  match s1 !! n, s2 !! n with
  | Some c1, Some c2 =>
      let c1 := f c1 in
      let c2 := f c2 in
      if negb (c1 =? c2) then Some (c1 - c2)
      else match n with O => Some 0 | S n => rstrncmp_loop f s1 s2 n end
  | _, _ => None
  end.
Definition ngx_rstrncmp (s1 s2 : list Z) (n : nat) : option Z :=
  match n with O => Some 0 | S n => rstrncmp_loop id s1 s2 n end.
Definition ngx_rstrncasecmp (s1 s2 : list Z) (n : nat) : option Z :=
  match n with O => Some 0 | S n => rstrncmp_loop to_upper s1 s2 n end.

(** The C library's [memcmp]. *)
Fixpoint ngx_memcmp (s1 s2 : list Z) (n : nat) {struct n} : option Z :=
  match n with
  | O => Some 0
  | S n =>
      match s1, s2 with
      | c1 :: s1, c2 :: s2 => if c1 =? c2 then ngx_memcmp s1 s2 n else Some (c1 - c2)
      | _, _ => None
      end
  end.
Definition ngx_memn2cmp (s1 s2 : list Z) (n1 n2 : nat) : option Z :=
  let '(n, z) := if (n1 <=? n2)%nat then (n1, -1) else (n2, 1) in
  match ngx_memcmp s1 s2 n with
  | Some m => if negb (m =? 0) || (n1 =? n2)%nat then Some m else Some z
  | None => None
  end.

Fixpoint ngx_dns_strcmp (s1 s2 : list Z) : option Z :=
  match s1, s2 with
  | c1 :: s1, c2 :: s2 =>
      let c1 := ngx_tolower c1 in
      let c2 := ngx_tolower c2 in
      if c1 =? c2 then
        if negb (c1 =? 0) then ngx_dns_strcmp s1 s2 else Some 0
      else
        let c1 := if c1 =? 46 then 32 else c1 in
        let c2 := if c2 =? 46 then 32 else c2 in
        Some (s64 (u64 (c1 - c2)))
  | _, _ => None
  end.

(** * Searching

    The result is the place of the first match, as an offset from [s1]. *)

(** The C library's [strlen]. *)
Fixpoint ngx_strlen (s : list Z) : option nat :=
  match s with
  | [] => None
  | c :: s => if c =? 0 then Some O else S <$> ngx_strlen s
  end.

Fixpoint strnstr_loop (c2 : Z) (s2 : list Z) (n : nat) (s1 : list Z) (len pos : nat) {struct len} : option (option nat) :=
  match len with
  | O => Some None
  | S len =>
      match s1 with
      | [] => None
      | c1 :: s1 =>
          if c1 =? 0 then Some None
          else if negb (c1 =? c2) then strnstr_loop c2 s2 n s1 len (S pos)
          else if (len <? n)%nat then Some None
          else match ngx_strncmp s1 s2 n with
               | None => None
               | Some r => if negb (r =? 0) then strnstr_loop c2 s2 n s1 len (S pos) else Some (Some pos)
               end
      end
  end.
Definition ngx_strnstr (s1 s2 : list Z) (len : nat) : option (option nat) :=
  match s2 with
  | [] => None
  | c2 :: s2 =>
      match ngx_strlen s2 with
      | None => None
      | Some n => strnstr_loop c2 s2 n s1 len O
      end
  end.

(** The loops of [ngx_strstrn] and [ngx_strcasestrn]: the second one folds the
    letters. *)
Fixpoint strstrn_loop (f : Z -> Z) (c2 : Z) (s2 : list Z) (n : nat) (s1 : list Z) (pos : nat) : option (option nat) :=
  match s1 with
  | [] => None
  | c1 :: s1 =>
      if c1 =? 0 then Some None
      else if negb (f c1 =? c2) then strstrn_loop f c2 s2 n s1 (S pos)
      else match strncmp_by f s1 s2 n with
           | None => None
           | Some r => if negb (r =? 0) then strstrn_loop f c2 s2 n s1 (S pos) else Some (Some pos)
           end
  end.
Definition ngx_strstrn (s1 s2 : list Z) (n : nat) : option (option nat) :=
  match s2 with
  | [] => None
  | c2 :: s2 => strstrn_loop id c2 s2 n s1 O
  end.

(** [s2] is a [char *]: a byte above 0x7f is a negative number and a huge one
    as an [ngx_uint_t]. *)
Definition ngx_strcasestrn (s1 s2 : list Z) (n : nat) : option (option nat) :=
  match s2 with
  | [] => None
  | c2 :: s2 => strstrn_loop ngx_tolower (ngx_tolower (u64 (wrapS 8 c2))) s2 n s1 O
  end.

(** [last] is an offset from the start of [s1], [pos] the place reached. *)
Fixpoint strlcasestrn_loop (c2 : Z) (s2 : list Z) (n : nat) (last : Z) (s1 : list Z) (pos : nat) : option (option nat) :=
  if last <=? Z.of_nat pos then Some None
  else match s1 with
       | [] => None
       | c1 :: s1 =>
           if negb (ngx_tolower c1 =? c2) then strlcasestrn_loop c2 s2 n last s1 (S pos)
           else match ngx_strncasecmp s1 s2 n with
                | None => None
                | Some r => if negb (r =? 0) then strlcasestrn_loop c2 s2 n last s1 (S pos) else Some (Some pos)
                end
       end.
Definition ngx_strlcasestrn (s1 : list Z) (last : Z) (s2 : list Z) (n : nat) : option (option nat) :=
  match s2 with
  | [] => None
  | c2 :: s2 => strlcasestrn_loop (ngx_tolower c2) s2 n (last - Z.of_nat n) s1 O
  end.

(** * Sorting

    The array is a list of its elements; [ngx_sort] returns without sorting
    when the memory for one element cannot be had ([alloc] is false). *)
Section Sort.
Context {A : Type} (cmp : A -> A -> Z).

(** The inner loop: [p2] goes down while the element before it is greater than
    the saved one, and each of those moves up by one. *)
Fixpoint sort_shift (p : A) (base : list A) (p2 : nat) : nat * list A :=
  match p2 with
  | O => (O, base)
  | S i =>
      match base !! i with
      | Some x => if 0 <? cmp x p then sort_shift p (<[S i := x]> base) i else (S i, base)
      | None => (S i, base)
      end
  end.
(** The outer loop over [p1], for the [k] elements left. *)
Fixpoint sort_loop (base : list A) (p1 k : nat) : list A :=
  match k with
  | O => base
  | S k =>
      match base !! p1 with
      | Some p => let '(p2, base) := sort_shift p base p1 in sort_loop (<[p2 := p]> base) (S p1) k
      | None => base
      end
  end.
Definition ngx_sort (alloc : bool) (base : list A) : list A :=
  if alloc then sort_loop base 1 (length base - 1) else base.
End Sort.

(** * What comparing means

    The reference: the difference of the first elements that differ, an end
    being 0.  On lists of positive numbers it is a total order. *)
Fixpoint lexcmp (a b : list Z) : Z :=
  match a, b with
  | [], [] => 0
  | [], c2 :: _ => - c2
  | c1 :: _, [] => c1
  | c1 :: a, c2 :: b => if c1 =? c2 then lexcmp a b else c1 - c2
  end.

Abbreviation positive := (Forall (fun c => 0 < c)).

Lemma lexcmp_anti a b : lexcmp b a = - lexcmp a b.
Proof. revert b. induction a as [|x a IH]; intros [|y b]; cbn; try lia. rewrite (Z.eqb_sym y x), IH. destruct (x =? y); lia. Qed.

Lemma lexcmp_trans a b c : positive a -> positive b -> positive c ->
  lexcmp a b <= 0 -> lexcmp b c <= 0 -> lexcmp a c <= 0.
Proof.
  revert b c. induction a as [|x a IH]; intros [|y b] [|z c] Ha Hb Hc; cbn; decompose_Forall_hyps; try lia.
  destruct (Z.eqb_spec x y), (Z.eqb_spec y z), (Z.eqb_spec x z); subst; try lia. eauto.
Qed.

(** A comparison of the elements that satisfy [P]: what [ngx_sort] and the
    trees keyed by strings expect of theirs. *)
Class Comparison {A} (P : A -> Prop) (cmp : A -> A -> Z) : Prop := {
  cmp_anti x y : P x -> P y -> (0 < cmp x y <-> cmp y x < 0);
  cmp_trans x y z : P x -> P y -> P z -> cmp x y <= 0 -> cmp y z <= 0 -> cmp x z <= 0
}.

(** A comparison by keys. *)
Lemma comparison_by_key {A} (P : A -> Prop) (cmp : A -> A -> Z) (key : A -> list Z) :
  (forall x, P x -> positive (key x)) ->
  (forall x y, P x -> P y -> Z.sgn (cmp x y) = Z.sgn (lexcmp (key x) (key y))) ->
  Comparison P cmp.
Proof.
  intros Hpos Hsgn. split.
  - intros x y Hx Hy. generalize (Hsgn x y Hx Hy), (Hsgn y x Hy Hx). rewrite (lexcmp_anti (key x)). lia.
  - intros x y z Hx Hy Hz. generalize (Hsgn x y Hx Hy), (Hsgn y z Hy Hz), (Hsgn x z Hx Hz).
    generalize (lexcmp_trans (key x) (key y) (key z) (Hpos x Hx) (Hpos y Hy) (Hpos z Hz)). lia.
Qed.

(** Text: bytes that are not zero; [cstr] is what can be read of it in memory. *)
Definition is_text (s : list Z) : Prop := Forall (fun c => 0 < c < 256) s.
Definition cstr (s : list Z) : list Z := s ++ [0].

Lemma tolower_cases c : ngx_tolower c = if (65 <=? c) && (c <=? 90) then c + 32 else c.
Proof.
  unfold ngx_tolower. destruct ((65 <=? c) && (c <=? 90)) eqn:E; [|done].
  assert (forall n, (65 <= n <= 90)%nat -> Z.lor (Z.of_nat n) 32 = Z.of_nat n + 32) as Hn.
  { intros n Hn. do 65 (destruct n as [|n]; [lia|]). do 26 (destruct n as [|n]; [reflexivity|]). lia. }
  specialize (Hn (Z.to_nat c)). rewrite Z2Nat.id in Hn by lia. apply Hn. lia.
Qed.
Lemma tolower_range c : 0 < c < 256 -> 0 < ngx_tolower c < 256.
Proof. rewrite tolower_cases. destruct (_ && _) eqn:E; lia. Qed.
Lemma tolower_text s : is_text s -> is_text (ngx_tolower <$> s).
Proof. intros Hs. apply Forall_fmap. eapply Forall_impl; [exact Hs|]. intros c. apply tolower_range. Qed.
Lemma is_text_positive s : is_text s -> positive s.
Proof. intros Hs. eapply Forall_impl; [exact Hs|]. intros c Hc. cbn in *. lia. Qed.
Lemma byte_difference a b : 0 <= a < 256 -> 0 <= b < 256 -> s64 (u64 (a - b)) = a - b.
Proof. intros Ha Hb. unfold s64, u64, wrapS, wrapU. rewrite Z.add_mod_idemp_l by done. rewrite Z.mod_small; cbn; lia. Qed.

(** [ngx_strcasecmp] is the reference on the folded texts. *)
Lemma strcasecmp_lexcmp a b x y : is_text a -> is_text b ->
  ngx_strcasecmp (a ++ 0 :: x) (b ++ 0 :: y) = Some (lexcmp (ngx_tolower <$> a) (ngx_tolower <$> b)).
Proof.
  revert b. induction a as [|c1 a IH]; intros [|c2 b] Ha Hb; cbn [app fmap list_fmap lexcmp ngx_strcasecmp]; [done|..];
    repeat match goal with H : is_text (?c :: _) |- _ => apply Forall_cons in H as [?%tolower_range H] end.
  - change (ngx_tolower 0) with 0. rewrite (proj2 (Z.eqb_neq _ _)), byte_difference by lia. f_equal; lia.
  - change (ngx_tolower 0) with 0. rewrite (proj2 (Z.eqb_neq _ _)), byte_difference by lia. f_equal; lia.
  - destruct (Z.eqb_spec (ngx_tolower c1) (ngx_tolower c2)) as [->|].
    + rewrite (proj2 (Z.eqb_neq _ _)) by lia. cbn. by apply IH.
    + by rewrite byte_difference by lia.
Qed.

(** [ngx_dns_strcmp] is the reference on the texts in which a dot is a space,
    when they have no spaces of their own. *)
Definition dns_fold (c : Z) : Z := if ngx_tolower c =? 46 then 32 else ngx_tolower c.
Definition is_name (s : list Z) : Prop := is_text s /\ 32 ∉ s.
#[export] Instance is_name_dec s : Decision (is_name s).
Proof. unfold is_name, is_text. apply _. Defined.

Lemma tolower_space c : ngx_tolower c = 32 -> c = 32.
Proof. rewrite tolower_cases. destruct (_ && _) eqn:E; lia. Qed.

Lemma is_name_cons c s : is_name (c :: s) -> 0 < ngx_tolower c < 256 /\ ngx_tolower c <> 32 /\ is_name s.
Proof.
  intros [[Hc Hs]%Forall_cons Hsp]. repeat split; [by apply tolower_range..| |done|set_solver].
  intros ->%tolower_space. set_solver.
Qed.
Lemma dns_fold_range c : 0 < c < 256 -> 0 < dns_fold c < 256.
Proof. intros Hc%tolower_range. unfold dns_fold. destruct (_ =? _); lia. Qed.

Lemma dns_strcmp_lexcmp a b x y : is_name a -> is_name b ->
  ngx_dns_strcmp (a ++ 0 :: x) (b ++ 0 :: y) = Some (lexcmp (dns_fold <$> a) (dns_fold <$> b)).
Proof.
  revert b. induction a as [|c1 a IH]; intros [|c2 b] Ha Hb; cbn [app fmap list_fmap lexcmp ngx_dns_strcmp]; [done|..];
    repeat match goal with H : is_name (?c :: _) |- _ => apply is_name_cons in H as (? & ? & H) end;
    change (ngx_tolower 0) with 0; unfold dns_fold.
  1, 2: rewrite (proj2 (Z.eqb_neq _ _)) by lia; cbn [Z.eqb]; rewrite byte_difference by (repeat case_match; lia); f_equal; lia.
  destruct (Z.eqb_spec (ngx_tolower c1) (ngx_tolower c2)) as [->|].
  - rewrite (proj2 (Z.eqb_neq _ 0)), Z.eqb_refl by lia. cbn. by apply IH.
  - rewrite byte_difference by (repeat case_match; lia).
    destruct (Z.eqb_spec (ngx_tolower c1) 46), (Z.eqb_spec (ngx_tolower c2) 46); rewrite (proj2 (Z.eqb_neq _ _)) by lia; done.
Qed.

(** [ngx_memn2cmp] has the sign of the reference on the bytes plus one, so that
    an end is before every byte. *)
Lemma memn2cmp_cons c s1 s2 n1 n2 : ngx_memn2cmp (c :: s1) (c :: s2) (S n1) (S n2) = ngx_memn2cmp s1 s2 n1 n2.
Proof. unfold ngx_memn2cmp. cbn. destruct (n1 <=? n2)%nat; cbn; by rewrite Z.eqb_refl. Qed.

Lemma memn2cmp_lexcmp a b : are_bytes a -> are_bytes b ->
  exists r, ngx_memn2cmp a b (length a) (length b) = Some r /\
    Z.sgn r = Z.sgn (lexcmp (Z.succ <$> a) (Z.succ <$> b)).
Proof.
  revert b. induction a as [|c1 a IH]; intros [|c2 b] Ha Hb; cbn [length fmap list_fmap lexcmp];
    unfold is_byte in *; decompose_Forall_hyps; [by exists 0|exists (-1); split; [done|lia]|exists 1; split; [done|lia]|].
  destruct (Z.eqb_spec (Z.succ c1) (Z.succ c2)) as [E|].
  - replace c2 with c1 by lia. rewrite memn2cmp_cons. by apply IH.
  - exists (c1 - c2). split; [|f_equal; lia].
    unfold ngx_memn2cmp. destruct (_ <=? _)%nat; cbn; rewrite (proj2 (Z.eqb_neq c1 c2)), (proj2 (Z.eqb_neq (c1 - c2) 0)) by lia; done.
Qed.

(** The three as comparisons of strings. *)
Definition casecmp (a b : list Z) : Z := default 0 (ngx_strcasecmp (cstr a) (cstr b)).
Definition dnscmp (a b : list Z) : Z := default 0 (ngx_dns_strcmp (cstr a) (cstr b)).
Definition memn2cmp (a b : list Z) : Z := default 0 (ngx_memn2cmp a b (length a) (length b)).

#[export] Instance casecmp_comparison : Comparison is_text casecmp.
Proof.
  apply (comparison_by_key _ _ (fmap ngx_tolower)).
  - intros x Hx. by apply is_text_positive, tolower_text.
  - intros x y Hx Hy. unfold casecmp, cstr. by rewrite strcasecmp_lexcmp.
Qed.
#[export] Instance dnscmp_comparison : Comparison is_name dnscmp.
Proof.
  apply (comparison_by_key _ _ (fmap dns_fold)).
  - intros x [Hx _]. apply Forall_fmap. eapply Forall_impl; [exact Hx|]. intros c Hc. apply dns_fold_range. done.
  - intros x y Hx Hy. unfold dnscmp, cstr. by rewrite dns_strcmp_lexcmp.
Qed.
#[export] Instance memn2cmp_comparison : Comparison are_bytes memn2cmp.
Proof.
  apply (comparison_by_key _ _ (fmap Z.succ)).
  - intros x Hx. apply Forall_fmap. eapply Forall_impl; [exact Hx|]. unfold is_byte. cbn. lia.
  - intros x y Hx Hy. unfold memn2cmp. by destruct (memn2cmp_lexcmp x y Hx Hy) as (r & -> & Hr).
Qed.

(** * What searching means *)

(** [needle] is at the start of [hay], seen through [f]; the first place in
    [hay] where it is. *)
Definition match_at (f : Z -> Z) (needle hay : list Z) : Prop := (f <$> needle) `prefix_of` (f <$> hay).
Definition first_match (f : Z -> Z) (needle hay : list Z) (r : option nat) : Prop :=
  match r with
  | Some i => match_at f needle (drop i hay) /\ forall j, (j < i)%nat -> ~ match_at f needle (drop j hay)
  | None => forall j, ~ match_at f needle (drop j hay)
  end.

Lemma match_at_cons f x needle y hay : match_at f (x :: needle) (y :: hay) <-> f x = f y /\ match_at f needle hay.
Proof. unfold match_at. cbn. split; [intros H; split; [by apply prefix_cons_inv_1 in H | by apply prefix_cons_inv_2 in H]|]. intros [-> H]. by apply prefix_cons. Qed.
Lemma match_at_length f needle hay : match_at f needle hay -> (length needle <= length hay)%nat.
Proof. intros H%prefix_length. by rewrite !length_fmap in H. Qed.
Lemma match_at_nil f x needle : ~ match_at f (x :: needle) [].
Proof. intros H%match_at_length. cbn in H. lia. Qed.
Lemma match_at_app f needle hay junk : (length needle <= length hay)%nat ->
  match_at f needle (hay ++ junk) <-> match_at f needle hay.
Proof.
  revert hay. induction needle as [|x needle IH]; intros [|y hay]; cbn [length app]; intros Hl; [..|lia|].
  1, 2: split; intros _; apply prefix_nil.
  rewrite !match_at_cons, IH by lia. done.
Qed.

Lemma first_match_here f needle hay : match_at f needle hay -> first_match f needle hay (Some O).
Proof. intros H. split; [done|]. lia. Qed.
Lemma first_match_next f needle c hay r : ~ match_at f needle (c :: hay) ->
  first_match f needle hay r -> first_match f needle (c :: hay) (S <$> r).
Proof.
  intros Hn. destruct r as [i|]; cbn.
  - intros [Hi Hj]. split; [done|]. intros [|j] Hlt; [done|]. apply Hj. lia.
  - intros Hj [|j]; [done|]. apply Hj.
Qed.
Lemma first_match_short f needle hay : (length hay < length needle)%nat -> first_match f needle hay None.
Proof. intros Hl j H%match_at_length. rewrite length_drop in H. lia. Qed.

(** The result of a loop that has reached [pos]. *)
Definition from (pos : nat) (r : option nat) : option nat := Nat.add pos <$> r.
Lemma from_next pos r : from (S pos) r = from pos (S <$> r).
Proof. destruct r; cbn; [f_equal; lia|done]. Qed.
Lemma from_here pos : from pos (Some O) = Some pos.
Proof. cbn. f_equal. lia. Qed.

(** The two ways a loop goes on at [c :: hay]. *)
Lemma result_next f needle c hay pos r : ~ match_at f needle (c :: hay) -> first_match f needle hay r ->
  exists r', Some (from (S pos) r) = Some (from pos r') /\ first_match f needle (c :: hay) r'.
Proof. intros Hn Hr. exists (S <$> r). rewrite from_next. split; [done|]. by apply first_match_next. Qed.
Lemma result_here f needle hay pos : match_at f needle hay ->
  exists r', Some (Some pos) = Some (from pos r') /\ first_match f needle hay r'.
Proof. intros Hm. exists (Some O). rewrite from_here. split; [done|]. by apply first_match_here. Qed.

Lemma bytes_text s : is_text s -> are_bytes s.
Proof. intros Hs. eapply Forall_impl; [exact Hs|]. unfold is_byte. cbn. lia. Qed.

Section Searching.
(** A fold keeps the zero byte apart. *)
Context (f : Z -> Z) (Hf : forall c, 0 < c < 256 -> 0 < f c < 256) (Hf0 : f 0 = 0).

Lemma fold_byte c : is_byte c -> 0 <= f c < 256.
Proof using All. intros [Hc ?]. destruct (decide (c = 0)) as [->|]; [lia|]. specialize (Hf c). lia. Qed.

Lemma match_text hay junk needle : is_text needle -> match_at f needle (hay ++ 0 :: junk) <-> match_at f needle hay.
Proof using All.
  revert hay. induction needle as [|x needle IH]; intros hay Hn; [split; intros _; apply prefix_nil|].
  apply Forall_cons in Hn as [Hx Hn]. destruct hay as [|y hay]; cbn [app].
  - rewrite match_at_cons, Hf0. specialize (Hf x). split; [lia|]. intros []%match_at_nil.
  - by rewrite !match_at_cons, IH.
Qed.

(** [strncmp] tells whether the text is there, reading no further than it must. *)
Lemma strncmp_match t rest s : is_text t -> are_bytes s -> (length t <= length s)%nat \/ 0 ∈ s ->
  exists r, strncmp_by f s (t ++ rest) (length t) = Some r /\ (r = 0 <-> match_at f t s).
Proof using All.
  revert s. induction t as [|c2 t IH]; intros s Ht Hs Hl; cbn [length strncmp_by app].
  { exists 0. split; [done|]. split; intros _; [apply prefix_nil|done]. }
  destruct s as [|c1 s]; cbn [length] in Hl; [destruct Hl as [|[]%not_elem_of_nil]; lia|].
  apply Forall_cons in Ht as [Hc2 Ht], Hs as [Hc1 Hs].
  pose proof (fold_byte c1 Hc1). pose proof (Hf c2 Hc2). setoid_rewrite match_at_cons.
  destruct (Z.eqb_spec (f c1) (f c2)) as [E|Hne].
  - rewrite (proj2 (Z.eqb_neq (f c1) 0)) by lia. cbn [negb].
    destruct (IH s Ht Hs) as (r & -> & Hr); [|exists r; split; [done|]; rewrite Hr; naive_solver].
    destruct Hl as [?|[<-|?]%elem_of_cons]; [left; lia|lia|by right].
  - rewrite byte_difference by lia. eexists; split; [done|]. lia.
Qed.

Lemma strstrn_loop_ok c2 t rest hay junk pos : 0 < c2 < 256 -> is_text t -> is_text hay -> are_bytes junk ->
  exists r, strstrn_loop f (f c2) (t ++ rest) (length t) (hay ++ 0 :: junk) pos = Some (from pos r) /\
    first_match f (c2 :: t) hay r.
Proof using All.
  intros Hc2 Ht. revert pos. induction hay as [|c1 hay IH]; intros pos Hh Hj; cbn [app strstrn_loop].
  { exists None. split; [done|]. apply first_match_short. cbn. lia. }
  apply Forall_cons in Hh as [Hc1 Hh]. rewrite (proj2 (Z.eqb_neq c1 0)) by lia.
  destruct (IH (S pos) Hh Hj) as (r & Hr & Hm).
  rewrite Hr. destruct (Z.eqb_spec (f c1) (f c2)) as [E|]; cbn [negb]; [|apply result_next; [rewrite match_at_cons; naive_solver|done]].
  destruct (strncmp_match t rest (hay ++ 0 :: junk) Ht) as (d & -> & Hd).
  { apply Forall_app; split; [by apply bytes_text|]. constructor; [done|done]. }
  { right. set_solver. }
  rewrite match_text in Hd by done.
  destruct (Z.eqb_spec d 0) as [->|]; cbn [negb]; [|apply result_next; [rewrite match_at_cons; naive_solver|done]].
  apply result_here, match_at_cons. naive_solver.
Qed.
End Searching.

(** The text ends at [len], or before it with a zero byte. *)
Definition limited (len : nat) (hay junk : list Z) : Prop :=
  length hay = len \/ (length hay < len)%nat /\ exists junk', junk = 0 :: junk'.

Lemma id_range c : 0 < c < 256 -> 0 < id c < 256.
Proof. done. Qed.

Lemma strlen_text t rest : is_text t -> ngx_strlen (t ++ 0 :: rest) = Some (length t).
Proof.
  induction t as [|c t IH]; intros Ht; [done|]. apply Forall_cons in Ht as [Hc Ht]. cbn.
  rewrite (proj2 (Z.eqb_neq c 0)) by lia. by rewrite IH.
Qed.

Lemma strnstr_loop_ok c2 t rest hay junk len pos : 0 < c2 < 256 -> is_text t -> is_text hay -> are_bytes junk ->
  limited len hay junk ->
  exists r, strnstr_loop c2 (t ++ rest) (length t) (hay ++ junk) len pos = Some (from pos r) /\
    first_match id (c2 :: t) hay r.
Proof.
  intros Hc2 Ht. revert len pos. induction hay as [|c1 hay IH]; intros len pos Hh Hj Hlen; cbn [app strnstr_loop].
  { exists None. split; [|apply first_match_short; cbn; lia].
    destruct Hlen as [<-|[Hlen [junk' ->]]]; [done|]. destruct len; [lia|done]. }
  apply Forall_cons in Hh as [Hc1 Hh]. destruct len as [|len]; [destruct Hlen as [Hlen|[Hlen _]]; cbn in Hlen; lia|].
  assert (limited len hay junk) as Hlen'.
  { destruct Hlen as [Hlen|[Hlen Hz]]; cbn in Hlen; [left; lia | right; split; [lia|done]]. }
  destruct (IH len (S pos) Hh Hj Hlen') as (r & Hr & Hm). cbn [strnstr_loop].
  rewrite (proj2 (Z.eqb_neq c1 0)) by lia.
  rewrite Hr. destruct (Z.eqb_spec c1 c2) as [E|]; cbn [negb]; [|apply result_next; [rewrite match_at_cons; naive_solver|done]].
  destruct (Nat.ltb_spec len (length t)) as [Hs|Hs].
  { exists None. split; [done|]. apply first_match_short. cbn. destruct Hlen' as [|[]]; lia. }
  destruct (strncmp_match id id_range eq_refl t rest (hay ++ junk) Ht) as (d & Hcmp & Hd).
  { apply Forall_app; split; [by apply bytes_text|done]. }
  { rewrite length_app. destruct Hlen' as [|(? & ? & ->)]; [left; lia|right; set_solver]. }
  fold ngx_strncmp in Hcmp. rewrite Hcmp.
  assert (match_at id t (hay ++ junk) <-> match_at id t hay) as Hin.
  { destruct Hlen' as [<-|(? & ? & ->)]; [by apply match_at_app|by apply match_text]. }
  rewrite Hin in Hd. destruct (Z.eqb_spec d 0) as [->|]; cbn [negb]; [|apply result_next; [rewrite match_at_cons; naive_solver|done]].
  apply result_here, match_at_cons. naive_solver.
Qed.

Lemma strlcasestrn_loop_ok c2 t rest hay junk pos last : 0 < c2 < 256 -> is_text t -> are_bytes hay -> are_bytes junk ->
  last = Z.of_nat pos + Z.of_nat (length hay) - Z.of_nat (length t) ->
  exists r, strlcasestrn_loop (ngx_tolower c2) (t ++ rest) (length t) last (hay ++ junk) pos = Some (from pos r) /\
    first_match ngx_tolower (c2 :: t) hay r.
Proof.
  intros Hc2 Ht. revert pos. induction hay as [|c1 hay IH]; intros pos Hh Hj Hlast.
  - exists None. split; [|apply first_match_short; cbn; lia].
    destruct junk; cbn [app strlcasestrn_loop]; rewrite (proj2 (Z.leb_le _ _)) by (cbn in Hlast; lia); done.
  - cbn [app strlcasestrn_loop length] in *. destruct (Z.leb_spec last (Z.of_nat pos)) as [Hs|Hs].
    { exists None. split; [done|]. apply first_match_short. cbn. lia. }
    apply Forall_cons in Hh as [Hc1 Hh].
    destruct (IH (S pos) Hh Hj) as (r & Hr & Hm); [lia|].
    rewrite Hr. destruct (Z.eqb_spec (ngx_tolower c1) (ngx_tolower c2)) as [E|]; cbn [negb]; [|apply result_next; [rewrite match_at_cons; naive_solver|done]].
    destruct (strncmp_match ngx_tolower tolower_range eq_refl t rest (hay ++ junk) Ht) as (d & Hcmp & Hd).
    { by apply Forall_app. }
    { rewrite length_app. left. lia. }
    fold ngx_strncasecmp in Hcmp. rewrite Hcmp. rewrite match_at_app in Hd by lia.
    destruct (Z.eqb_spec d 0) as [->|]; cbn [negb]; [|apply result_next; [rewrite match_at_cons; naive_solver|done]].
    apply result_here, match_at_cons. naive_solver.
Qed.

(** A byte above 0x7f, sign-extended, equals no folded byte. *)
Lemma strstrn_loop_never c2 t hay junk n pos : (forall c, 0 < c < 256 -> ngx_tolower c <> c2) -> is_text hay ->
  strstrn_loop ngx_tolower c2 t n (hay ++ 0 :: junk) pos = Some None.
Proof.
  intros Hc2. revert pos. induction hay as [|c1 hay IH]; intros pos Hh; [done|]. apply Forall_cons in Hh as [Hc1 Hh]. cbn.
  rewrite (proj2 (Z.eqb_neq c1 0)), (proj2 (Z.eqb_neq _ _)) by (first [lia | by apply Hc2]). by apply IH.
Qed.

(** C14. The searches find the first place: for a text [needle] that is not
    empty (its length less one is [n]), [ngx_strnstr] finds the first match in
    a text that ends at a zero byte or at the limit, [ngx_strstrn] and
    [ngx_strcasestrn] in one that ends at a zero byte, [ngx_strlcasestrn] in
    the bytes before [last], the last two without regard to the case of
    letters; they return NULL when there is none, and read nothing behind the end.
    [ngx_strcasestrn] alone never finds a needle whose first byte is above 0x7f. *)
Theorem search_correct c2 t rest hay junk :
  is_text (c2 :: t) -> is_text hay -> are_bytes junk ->
  (forall len, limited len hay junk ->
    exists r, ngx_strnstr (hay ++ junk) (c2 :: t ++ 0 :: rest) len = Some r /\ first_match id (c2 :: t) hay r) /\
  (exists r, ngx_strstrn (hay ++ 0 :: junk) (c2 :: t ++ rest) (length t) = Some r /\ first_match id (c2 :: t) hay r) /\
  (exists r, ngx_strcasestrn (hay ++ 0 :: junk) (c2 :: t ++ rest) (length t) = Some r /\
    (if c2 <? 128 then first_match ngx_tolower (c2 :: t) hay r else r = None)) /\
  (forall mem, are_bytes mem ->
    exists r, ngx_strlcasestrn (mem ++ junk) (Z.of_nat (length mem)) (c2 :: t ++ rest) (length t) = Some r /\
      first_match ngx_tolower (c2 :: t) mem r).
Proof.
  intros [Hc2 Ht]%Forall_cons Hh Hj. split_and!.
  - intros len Hlen. destruct (strnstr_loop_ok c2 t (0 :: rest) hay junk len O Hc2 Ht Hh Hj Hlen) as (r & Hr & Hm).
    exists r. split; [|done]. unfold ngx_strnstr. rewrite strlen_text, Hr by done. by destruct r.
  - destruct (strstrn_loop_ok id id_range eq_refl c2 t rest hay junk O Hc2 Ht Hh Hj) as (r & Hr & Hm).
    exists r. split; [|done]. unfold ngx_strstrn. change (id c2) with c2 in Hr. rewrite Hr. by destruct r.
  - cbn -[strstrn_loop first_match]. destruct (Z.ltb_spec c2 128).
    + destruct (strstrn_loop_ok ngx_tolower tolower_range eq_refl c2 t rest hay junk O Hc2 Ht Hh Hj) as (r & Hr & Hm).
      exists r. split; [|done]. replace (u64 (wrapS 8 c2)) with c2; [rewrite Hr; by destruct r|].
      unfold wrapS. rewrite Z.mod_small by (cbn; lia). cbn. rewrite u64_small; lia.
    + exists None. split; [|done]. apply strstrn_loop_never; [|done]. intros c Hc%tolower_range.
      assert (u64 (wrapS 8 c2) = c2 - 256 + 2 ^ 64) as ->.
      { unfold u64, wrapS, wrapU. rewrite <- (Z.mod_unique (c2 + 2 ^ (8 - 1)) (2 ^ 8) 1 (c2 - 128)) by (cbn; lia).
        symmetry. apply (Z.mod_unique _ _ (-1)); cbn; lia. }
      rewrite (tolower_cases (c2 - _ + _)). destruct (_ && _) eqn:E; cbn in *; lia.
  - intros mem Hmem. destruct (strlcasestrn_loop_ok c2 t rest mem junk O (Z.of_nat (length mem) - Z.of_nat (length t)) Hc2 Ht Hmem Hj) as (r & Hr & Hm); [lia|].
    exists r. split; [|done]. cbn -[strlcasestrn_loop]. rewrite Hr. by destruct r.
Qed.

(** * Comparing from the end *)
Lemma rstrncmp_loop_ok f s1 s2 n : (n < length s1)%nat -> (n < length s2)%nat ->
  rstrncmp_loop f s1 s2 n = Some (lexcmp (f <$> reverse (take (S n) s1)) (f <$> reverse (take (S n) s2))).
Proof.
  revert s1 s2. induction n as [|n IH]; intros s1 s2 H1 H2; cbn [rstrncmp_loop];
    destruct (lookup_lt_is_Some_2 _ _ H1) as [c1 E1], (lookup_lt_is_Some_2 _ _ H2) as [c2 E2]; rewrite E1, E2;
    rewrite (take_S_r _ _ _ E1), (take_S_r _ _ _ E2), !reverse_snoc; cbn [fmap list_fmap lexcmp].
  - destruct (f c1 =? f c2); cbn; done.
  - destruct (f c1 =? f c2); cbn [negb]; [|done]. apply IH; lia.
Qed.

(** * Sorting *)
Section SortOk.
Context {A : Type} (P : A -> Prop) (cmp : A -> A -> Z) {Hcmp : Comparison P cmp}.

(** In order: no element before a smaller one. *)
Abbreviation ordered := (StronglySorted (fun x y => cmp x y <= 0)).
(** The elements that compare equal to [a]. *)
Definition equals (a : A) (l : list A) : list A := filter (fun y => cmp a y = 0) l.

(** The inner loop finds the place of the saved element and makes room there. *)
Lemma sort_shift_ok p l hole r :
  exists l1 l2 x, l = l1 ++ l2 /\ sort_shift cmp p (l ++ hole :: r) (length l) = (length l1, l1 ++ x :: l2 ++ r) /\
    Forall (fun y => 0 < cmp y p) l2 /\ (forall y, last l1 = Some y -> cmp y p <= 0).
Proof using Type.
  revert hole r. induction l as [|y l IH] using rev_ind; intros hole r.
  { exists [], [], hole. done. }
  rewrite length_app, Nat.add_comm. cbn [length Nat.add sort_shift].
  rewrite <- app_assoc. cbn [app]. rewrite list_lookup_middle by done. destruct (Z.ltb_spec 0 (cmp y p)).
  - rewrite insert_app_r_alt by lia. replace (S (length l) - length l)%nat with 1%nat by lia. cbn [insert list_insert].
    destruct (IH y (y :: r)) as (l1 & l2 & x & -> & -> & Hl2 & Hl1).
    exists l1, (l2 ++ [y]), x. rewrite <- !app_assoc. split_and!; [done..| |done].
    apply Forall_app. split; [done|]. by constructor.
  - exists (l ++ [y]), [], hole. rewrite app_nil_r, length_app, Nat.add_comm, <- app_assoc. split_and!; [done..|].
    intros y'. rewrite last_snoc. by intros [= <-].
Qed.

(** The place is right: what stays before it is not greater. *)
Lemma sort_place_le p l1 : Forall P l1 -> P p -> ordered l1 -> (forall y, last l1 = Some y -> cmp y p <= 0) ->
  Forall (fun x => cmp x p <= 0) l1.
Proof using Hcmp.
  destruct l1 as [|y l _] using rev_ind; [done|]. rewrite last_snoc. intros HP Hp Hs Hy.
  specialize (Hy y eq_refl). apply StronglySorted_app in Hs as (Hs & _ & _).
  rewrite Forall_forall in HP |- *. intros x [Hx| ->%list_elem_of_singleton]%elem_of_app; [|done].
  apply (cmp_trans x y p); [apply HP; set_solver | apply HP; set_solver | done | apply Hs; set_solver | done].
Qed.

Lemma sort_step_ok p l hole r : Forall P l -> P p -> ordered l ->
  exists l', (let '(p2, base) := sort_shift cmp p (l ++ hole :: r) (length l) in <[p2 := p]> base) = l' ++ r /\
    ordered l' /\ l' ≡ₚ l ++ [p] /\ (forall a, P a -> equals a l' = equals a (l ++ [p])).
Proof using Hcmp.
  intros HP Hp Hs. destruct (sort_shift_ok p l hole r) as (l1 & l2 & x & -> & -> & Hl2 & Hl1).
  apply Forall_app in HP as [HP1 HP2]. apply StronglySorted_app in Hs as (H12 & Hs1 & Hs2).
  pose proof (sort_place_le p l1 HP1 Hp Hs1 Hl1) as Hle. rewrite Forall_forall in Hl2, Hle, HP1, HP2.
  exists (l1 ++ p :: l2). split_and!.
  - rewrite insert_app_r_alt, Nat.sub_diag by done. cbn. by rewrite <- app_assoc.
  - apply StronglySorted_app. split_and!; [|done|constructor; [done|]].
    + intros y z Hy [->|Hz]%elem_of_cons; [by apply Hle|by apply H12].
    + apply Forall_forall. intros z Hz. apply Z.lt_le_incl, cmp_anti; [by apply HP2|done|by apply Hl2].
  - rewrite <- app_assoc. apply Permutation_app; [done|]. apply Permutation_cons_append.
  - intros a Ha. unfold equals. rewrite <- app_assoc, !filter_app. f_equal. rewrite filter_cons.
    destruct (decide (cmp a p = 0)) as [E|E].
    + rewrite (filter_none _ l2); [by rewrite filter_cons, decide_True by done|].
      intros y Hy Hay. specialize (Hl2 y Hy). specialize (HP2 y Hy).
      pose proof (cmp_anti y a HP2 Ha). pose proof (cmp_trans y a p HP2 Ha Hp). lia.
    + by rewrite filter_cons, decide_False, app_nil_r by done.
Qed.

Lemma sort_loop_ok l r : Forall P (l ++ r) -> ordered l ->
  exists s, sort_loop cmp (l ++ r) (length l) (length r) = s /\ ordered s /\ s ≡ₚ l ++ r /\
    (forall a, P a -> equals a s = equals a (l ++ r)).
Proof using Hcmp.
  revert l. induction r as [|p r IH]; intros l HP Hs; cbn [length sort_loop].
  { exists l. rewrite app_nil_r. done. }
  rewrite list_lookup_middle by done. apply Forall_app in HP as [HPl [Hp HPr]%Forall_cons].
  destruct (sort_step_ok p l p r HPl Hp Hs) as (l' & Hstep & Hs' & Hperm & Heq).
  destruct (sort_shift cmp p (l ++ p :: r) (length l)) as [p2 base]. rewrite Hstep.
  assert (length l' = S (length l)) as Hlen by (rewrite Hperm, length_app; cbn; lia). rewrite <- Hlen.
  destruct (IH l') as (s & -> & Hss & Hsp & Hseq); [|done|].
  { apply Forall_app. split; [|done]. rewrite Hperm. apply Forall_app. by split; [|constructor]. }
  exists s. split_and!; [done..| |].
  - rewrite Hsp, Hperm, <- app_assoc. done.
  - intros a Ha. rewrite Hseq by done. specialize (Heq a Ha). unfold equals in *. rewrite filter_app, Heq.
    rewrite <- filter_app, <- app_assoc. done.
Qed.

(** [ngx_sort] sorts, and it is stable. *)
Lemma ngx_sort_ok base : Forall P base ->
  let sorted := ngx_sort cmp true base in
  sorted ≡ₚ base /\ ordered sorted /\ (forall a, P a -> equals a sorted = equals a base).
Proof using Hcmp.
  intros HP. cbn zeta. unfold ngx_sort. destruct base as [|x r]; [by repeat constructor|].
  cbn [length Nat.sub]. rewrite Nat.sub_0_r.
  destruct (sort_loop_ok [x] r) as (s & Hs & ? & ? & ?); [done|by repeat constructor|].
  cbn [app length] in *. rewrite Hs. done.
Qed.
End SortOk.

(** C36. Comparing and sorting.  [ngx_strcasecmp], [ngx_dns_strcmp] (on names
    without spaces) and [ngx_memn2cmp] order their strings totally: they agree with
    the order of the folded strings, in which the dot is the lowest character
    of a name, and are antisymmetric and transitive; [ngx_rstrncmp] and [ngx_rstrncasecmp]
    compare the reversed strings.  With any such comparison [ngx_sort] returns the
    elements in order, and those that compare equal in the order they had; when
    it gets no memory it leaves the array as it was. *)
Theorem sort_correct {A} (P : A -> Prop) (cmp : A -> A -> Z) (base : list A) :
  (Comparison is_text casecmp /\ Comparison is_name dnscmp /\ Comparison are_bytes memn2cmp) /\
  (forall a b, is_text a -> is_text b ->
    ngx_strcasecmp (cstr a) (cstr b) = Some (lexcmp (ngx_tolower <$> a) (ngx_tolower <$> b))) /\
  (forall a b, is_name a -> is_name b ->
    ngx_dns_strcmp (cstr a) (cstr b) = Some (lexcmp (dns_fold <$> a) (dns_fold <$> b))) /\
  (forall a b, are_bytes a -> are_bytes b ->
    exists r, ngx_memn2cmp a b (length a) (length b) = Some r /\
      Z.sgn r = Z.sgn (lexcmp (Z.succ <$> a) (Z.succ <$> b))) /\
  (forall s1 s2 n, (n <= length s1)%nat -> (n <= length s2)%nat ->
    ngx_rstrncmp s1 s2 n = Some (lexcmp (reverse (take n s1)) (reverse (take n s2))) /\
    ngx_rstrncasecmp s1 s2 n = Some (lexcmp (to_upper <$> reverse (take n s1)) (to_upper <$> reverse (take n s2)))) /\
  (Comparison P cmp -> Forall P base ->
    let sorted := ngx_sort cmp true base in
    sorted ≡ₚ base /\ StronglySorted (fun x y => cmp x y <= 0) sorted /\
    (forall a, P a -> equals cmp a sorted = equals cmp a base)) /\
  ngx_sort cmp false base = base.
Proof.
  split_and!; [apply _..| | | | | |done].
  - intros a b. apply strcasecmp_lexcmp.
  - intros a b. apply dns_strcmp_lexcmp.
  - apply memn2cmp_lexcmp.
  - intros s1 s2 [|n] H1 H2; cbn [ngx_rstrncmp ngx_rstrncasecmp]; [done|]. rewrite !rstrncmp_loop_ok by lia.
    by rewrite !list_fmap_id.
  - intros Hcmp HP. by apply (ngx_sort_ok P).
Qed.

(** * Witnesses *)

Lemma search_correct_witness :
  ngx_strcasestrn (bytes "Host: Perl.Org" ++ 0 :: []) (112 :: bytes "erl" ++ []) 3 = Some (Some 6%nat) /\
  first_match ngx_tolower (bytes "perl") (bytes "Host: Perl.Org") (Some 6%nat).
Proof.
  destruct (search_correct 112 (bytes "erl") [] (bytes "Host: Perl.Org") []) as (_ & _ & (r & Hr & Hm) & _);
    [by repeat constructor..|].
  split; [by vm_compute|]. vm_compute in Hr. injection Hr as <-. exact Hm.
Defined.

(** Names of servers in the order of [ngx_dns_strcmp]: the two that differ in case
    keep their order. *)
Definition some_names : list (list Z) := [bytes "a-b"; bytes "B"; bytes "a.b"; bytes "b"].
Lemma sort_correct_witness :
  ngx_sort dnscmp true some_names = [bytes "a.b"; bytes "a-b"; bytes "B"; bytes "b"] /\
  equals dnscmp (bytes "b") (ngx_sort dnscmp true some_names) = [bytes "B"; bytes "b"].
Proof.
  destruct (sort_correct is_name dnscmp some_names) as ((_ & Hdns & _) & _ & _ & _ & _ & Hsort & _).
  destruct (Hsort Hdns) as (_ & _ & Hst).
  { by apply (bool_decide_unpack _); vm_compute. }
  split; [by vm_compute|]. rewrite Hst; [by vm_compute|]. by apply (bool_decide_unpack _); vm_compute.
Defined.
End Search.
