(* ===== verification/StrTree.v ===== *)
(** Red-black trees keyed by a hash and a string: [ngx_str_rbtree_insert_value] and
    [ngx_str_rbtree_lookup] of nginx/src/core/ngx_string.c, and the resolver's own
    pair of nginx/src/core/ngx_resolver.c.

    The nodes are those of [Rbtree]; [str p] is the string of the node at [p],
    which no function changes. *)
From stdpp Require Import base gmap list numbers sets sorting.
From S2P Require Import Prelude Rbtree RbtreeRep RbtreeInsert RbtreeCorrect RbtreeTheorems Str Search.
Import Rbtree RbtreeRep RbtreeInsert RbtreeTheorems Str Search.
Local Open Scope Z_scope.

Module StrTree.
Local Open Scope prog_scope.

Section Trees.
Context (str : ptr -> list Z).

(** The bytes of [n->str] and [t->str], of the same length. *)
Definition memcmp_strs (a b : list Z) : Z := default 0 (ngx_memcmp a b (length a)).

(** [p = &temp->left] in [ngx_str_rbtree_insert_value]. *)
Definition less_str (n t : ptr * Z) : bool :=
  if negb (n.2 =? t.2) then n.2 <? t.2
  else if negb (length (str n.1) =? length (str t.1))%nat then (length (str n.1) <? length (str t.1))%nat
  else memcmp_strs (str n.1) (str t.1) <? 0.
Definition ngx_str_rbtree_insert_value (temp node sentinel : ptr) : P unit :=
  with_fuel (fun fuel => insert_loop less_str fuel temp node sentinel).

Fixpoint str_lookup_loop (fuel : nat) (val : list Z) (hash : Z) (node sentinel : ptr) : P ptr :=
  if node =? sentinel then ret NULL
  else
    match fuel with
    | O => fault
    | S fuel =>
        let! k := rd key node in
        if negb (hash =? k) then
          let! node := (if hash <? k then rd left node else rd right node) in
          str_lookup_loop fuel val hash node sentinel
        else if negb (length val =? length (str node))%nat then
          let! node := (if (length val <? length (str node))%nat then rd left node else rd right node) in
          str_lookup_loop fuel val hash node sentinel
        else
          let rc := memcmp_strs val (str node) in
          if rc <? 0 then let! node := rd left node in str_lookup_loop fuel val hash node sentinel
          else if 0 <? rc then let! node := rd right node in str_lookup_loop fuel val hash node sentinel
          else ret node
    end.
Definition ngx_str_rbtree_lookup (sentinel : ptr) (val : list Z) (hash : Z) : P ptr :=
  let! node := rd_root in with_fuel (fun fuel => str_lookup_loop fuel val hash node sentinel).

(** [p = &temp->left] in [ngx_resolver_rbtree_insert_value]. *)
Definition less_name (n t : ptr * Z) : bool :=
  if n.2 <? t.2 then true
  else if t.2 <? n.2 then false
  else memn2cmp (str n.1) (str t.1) <? 0.
Definition ngx_resolver_rbtree_insert_value (temp node sentinel : ptr) : P unit :=
  with_fuel (fun fuel => insert_loop less_name fuel temp node sentinel).

(** The loop over the nodes whose key is the hash. *)
Fixpoint lookup_same (fuel : nat) (name : list Z) (hash : Z) (node sentinel : ptr) : P ptr :=
  match fuel with
  | O => fault
  | S fuel =>
      let rc := memn2cmp name (str node) in
      if rc =? 0 then ret node
      else
        let! node := (if rc <? 0 then rd left node else rd right node) in
        if node =? sentinel then ret NULL
        else
          let! k := rd key node in
          if hash =? k then lookup_same fuel name hash node sentinel else ret NULL
  end.
Fixpoint lookup_name_loop (fuel : nat) (name : list Z) (hash : Z) (node sentinel : ptr) : P ptr :=
  if node =? sentinel then ret NULL
  else
    match fuel with
    | O => fault
    | S fuel =>
        let! k := rd key node in
        if hash <? k then let! node := rd left node in lookup_name_loop fuel name hash node sentinel
        else if k <? hash then let! node := rd right node in lookup_name_loop fuel name hash node sentinel
        else lookup_same (S fuel) name hash node sentinel
    end.
Definition ngx_resolver_lookup_name (sentinel : ptr) (name : list Z) (hash : Z) : P ptr :=
  let! node := rd_root in with_fuel (fun fuel => lookup_name_loop fuel name hash node sentinel).

(** The tree of addresses, whose keys are the addresses. *)
Fixpoint lookup_addr_loop (fuel : nat) (addr : Z) (node sentinel : ptr) : P ptr :=
  if node =? sentinel then ret NULL
  else
    match fuel with
    | O => fault
    | S fuel =>
        let! k := rd key node in
        if addr <? k then let! node := rd left node in lookup_addr_loop fuel addr node sentinel
        else if k <? addr then let! node := rd right node in lookup_addr_loop fuel addr node sentinel
        else ret node
    end.
Definition ngx_resolver_lookup_addr (sentinel : ptr) (addr : Z) : P ptr :=
  let! node := rd_root in with_fuel (fun fuel => lookup_addr_loop fuel addr node sentinel).
End Trees.

(** * Order *)

(** The comparison of [ngx_str_rbtree_lookup]: hash, length, bytes. *)
Definition cmp3 (x y : Z * list Z) : Z :=
  if negb (x.1 =? y.1) then if x.1 <? y.1 then -1 else 1
  else if negb (length x.2 =? length y.2)%nat then if (length x.2 <? length y.2)%nat then -1 else 1
  else memcmp_strs x.2 y.2.
(** The comparison of the resolver: hash, string. *)
Definition cmp2 (x y : Z * list Z) : Z :=
  if negb (x.1 =? y.1) then if x.1 <? y.1 then -1 else 1 else memn2cmp x.2 y.2.
Definition hashed (x : Z * list Z) : Prop := 0 <= x.1 /\ are_bytes x.2.

Lemma memcmp_lexcmp a b : are_bytes a -> are_bytes b -> length a = length b ->
  Z.sgn (memcmp_strs a b) = Z.sgn (lexcmp (Z.succ <$> a) (Z.succ <$> b)).
Proof.
  unfold memcmp_strs. revert b. induction a as [|x a IH]; intros [|y b] Ha Hb Hl; try done.
  apply Forall_cons in Ha as [Hx Ha], Hb as [Hy Hb]. cbn. destruct (Z.eqb_spec x y) as [->|Hne].
  - rewrite Z.eqb_refl. apply IH; [done|done|]. by injection Hl.
  - rewrite (proj2 (Z.eqb_neq (Z.succ x) (Z.succ y))) by lia. cbn. f_equal. lia.
Qed.

Lemma bytes_lexcmp_zero a b : are_bytes a -> are_bytes b -> lexcmp (Z.succ <$> a) (Z.succ <$> b) = 0 <-> a = b.
Proof.
  revert b. induction a as [|x a IH]; intros [|y b] Ha Hb; cbn; [done|..].
  - apply Forall_cons in Hb as [[Hy _] _]. split; [lia|done].
  - apply Forall_cons in Ha as [[Hx _] _]. split; [lia|done].
  - apply Forall_cons in Ha as [Hx Ha], Hb as [Hy Hb]. destruct (Z.eqb_spec (Z.succ x) (Z.succ y)) as [E|E].
    + rewrite IH by done. split; [intros ->; f_equal; lia | by intros [= _ ->]].
    + split; [lia | intros [= -> _]; lia].
Qed.

#[export] Instance cmp3_comparison : Comparison hashed cmp3.
Proof.
  apply (comparison_by_key _ _ (fun x => Z.succ x.1 :: Z.succ (Z.of_nat (length x.2)) :: (Z.succ <$> x.2))).
  - intros [h s] [Hh Hs]. cbn in *. repeat constructor; [lia | lia |]. apply Forall_fmap. eapply Forall_impl; [exact Hs|]. unfold is_byte. cbn. lia.
  - intros [h s] [h' s'] [Hh Hs] [Hh' Hs']. unfold cmp3. cbn [fst snd lexcmp] in *.
    destruct (Z.eqb_spec h h') as [->|Hne]; cbn [negb].
    + rewrite Z.eqb_refl. destruct (Nat.eqb_spec (length s) (length s')) as [E|E]; cbn [negb].
      * rewrite E, Z.eqb_refl. by apply memcmp_lexcmp.
      * rewrite (proj2 (Z.eqb_neq _ _)) by lia. destruct (Nat.ltb_spec (length s) (length s')); lia.
    + rewrite (proj2 (Z.eqb_neq _ _)) by lia. destruct (Z.ltb_spec h h'); lia.
Qed.
#[export] Instance cmp2_comparison : Comparison hashed cmp2.
Proof.
  apply (comparison_by_key _ _ (fun x => Z.succ x.1 :: (Z.succ <$> x.2))).
  - intros [h s] [Hh Hs]. cbn in *. repeat constructor; [lia |]. apply Forall_fmap. eapply Forall_impl; [exact Hs|]. unfold is_byte. cbn. lia.
  - intros [h s] [h' s'] [Hh Hs] [Hh' Hs']. unfold cmp2. cbn [fst snd lexcmp] in *.
    destruct (Z.eqb_spec h h') as [->|Hne]; cbn [negb].
    + rewrite Z.eqb_refl. unfold memn2cmp. by destruct (memn2cmp_lexcmp s s' Hs Hs') as (r & -> & Hr).
    + rewrite (proj2 (Z.eqb_neq _ _)) by lia. destruct (Z.ltb_spec h h'); lia.
Qed.

(** A comparison of what nodes hold is an order of nodes. *)
Section Comparing.
Context {A : Type} (Q : A -> Prop) (cmp : A -> A -> Z) {Hcmp : Comparison Q cmp} (f : ptr * Z -> A).

Lemma comparison_swo less : (forall a b, less a b = (cmp (f a) (f b) <? 0)) -> StrictWeakOrder less (fun a => Q (f a)).
Proof using Hcmp.
  intros Hless. split; intros; rewrite !Hless in *.
  - pose proof (cmp_anti (f x) (f x) H H). lia.
  - pose proof (cmp_trans (f x) (f y) (f z) H H0 H1). pose proof (cmp_trans (f z) (f x) (f y) H1 H H0).
    pose proof (cmp_anti (f x) (f z) H H1). pose proof (cmp_anti (f z) (f x) H1 H). pose proof (cmp_anti (f z) (f y) H1 H0).
    pose proof (cmp_anti (f y) (f z) H0 H1). lia.
  - pose proof (cmp_trans (f z) (f y) (f x) H1 H0 H). pose proof (cmp_anti (f x) (f y) H H0).
    pose proof (cmp_anti (f y) (f z) H0 H1). pose proof (cmp_anti (f x) (f z) H H1).
    pose proof (cmp_anti (f y) (f x) H0 H). pose proof (cmp_anti (f z) (f y) H1 H0). pose proof (cmp_anti (f z) (f x) H1 H). lia.
Qed.

(** Compared with a value, the nodes in order give signs that never increase. *)
Definition falling (c : ptr * Z -> Z) (L : list (ptr * Z)) : Prop := StronglySorted (fun a b => Z.sgn (c b) <= Z.sgn (c a)) L.
Lemma ordered_falling less L v : (forall a b, less a b = (cmp (f a) (f b) <? 0)) -> Q v -> (forall x, x ∈ L -> Q (f x)) ->
  ordered_by less L -> falling (fun x => cmp v (f x)) L.
Proof using Hcmp.
  intros Hless Hv HQ. unfold ordered_by, falling. induction 1 as [|a L Hs IH Ha]; constructor; [apply IH; set_solver|].
  rewrite Forall_forall in Ha |- *. intros b Hb. specialize (Ha b Hb). rewrite Hless in Ha.
  pose proof (HQ a ltac:(set_solver)) as Qa. pose proof (HQ b ltac:(set_solver)) as Qb.
  pose proof (cmp_anti (f a) (f b) Qa Qb). pose proof (cmp_anti (f b) (f a) Qb Qa).
  pose proof (cmp_anti v (f b) Hv Qb). pose proof (cmp_anti v (f a) Hv Qa). pose proof (cmp_anti (f a) v Qa Hv). pose proof (cmp_anti (f b) v Qb Hv).
  pose proof (cmp_trans v (f a) (f b) Hv Qa Qb). pose proof (cmp_trans (f a) (f b) v Qa Qb Hv). lia.
Qed.
End Comparing.

(** * Searching *)

(** The search on a tree as a value. *)
Fixpoint find (c : ptr * Z -> Z) (t : tree) : ptr :=
  match t with
  | E => NULL
  | T _ l p k r => if c (p, k) <? 0 then find c l else if 0 <? c (p, k) then find c r else p
  end.

Lemma find_spec c t : falling c (inorder t) ->
  (exists k, (find c t, k) ∈ inorder t /\ c (find c t, k) = 0) \/ (find c t = NULL /\ forall x, x ∈ inorder t -> c x <> 0).
Proof.
  induction t as [|col l IHl p k r IHr]; cbn [find inorder]; intros Hs; [right; split; [done|set_solver]|].
  apply StronglySorted_app in Hs as (Hlr & Hl & Hr). apply StronglySorted_inv in Hr as [Hr Hp]. rewrite Forall_forall in Hp.
  destruct (Z.ltb_spec (c (p, k)) 0) as [Hlt|Hge]; [|destruct (Z.ltb_spec 0 (c (p, k))) as [Hgt|Hle]].
  - destruct (IHl Hl) as [(k' & Hin & Hc)|[Hn Hall]]; [left; exists k'; split; [set_solver|done]|right]. split; [done|].
    intros x [Hx|[->|Hx]%elem_of_cons]%elem_of_app; [by apply Hall | lia |]. specialize (Hp x Hx). lia.
  - destruct (IHr Hr) as [(k' & Hin & Hc)|[Hn Hall]]; [left; exists k'; split; [set_solver|done]|right]. split; [done|].
    intros x [Hx|[->|Hx]%elem_of_cons]%elem_of_app; [|lia|by apply Hall].
    specialize (Hlr x (p, k) Hx ltac:(set_solver)). cbn in Hlr. lia.
  - left. exists k. split; [set_solver|lia].
Qed.

(** Steps of a search in a represented tree. *)
Lemma read_node_run g p n st : nodes st !! p = Some n -> rd g p st = Some (g n, st).
Proof. intros H. unfold rd. by rewrite H. Qed.
Lemma not_in_sides s c l p k r : (s ∉ ptrs (T c l p k r)) -> (s ∉ ptrs l) /\ p <> s /\ s ∉ ptrs r.
Proof. rewrite ptrs_T. set_solver. Qed.

Section Lookups.
Context (str : ptr -> list Z) (s : ptr) (st : rbstate).

(** A step of a search goes on with [go] at a child. *)
Ltac search_step H1 :=
  match goal with |- context [bind (rd ?g _) _ _] => rewrite (bind_run _ _ _ _ _ (read_node_run g _ _ _ H1)) end.

Lemma str_lookup_find val hash t : forall fuel par, tree_rep s (nodes st) par t -> s ∉ ptrs t -> (height t <= fuel)%nat ->
  str_lookup_loop str fuel val hash (root_ptr s t) s st = Some (find (fun x => cmp3 (hash, val) (x.2, str x.1)) t, st).
Proof using Type.
  induction t as [|c l IHl p k r IHr]; intros fuel par Ht Hs Hh.
  { destruct fuel; cbn; by rewrite Z.eqb_refl. }
  destruct fuel as [|fuel]; [cbn in Hh; lia|]. cbn [height] in Hh. destruct Ht as (Hp & Hl & Hr).
  apply not_in_sides in Hs as (Hsl & Hps & Hsr). cbn [root_ptr str_lookup_loop find]. rewrite (proj2 (Z.eqb_neq p s)) by done.
  search_step Hp. unfold cmp3. cbn [fst snd key].
  destruct (hash =? k); cbn [negb].
  - destruct (length val =? length (str p))%nat; cbn [negb].
    + destruct (memcmp_strs val (str p) <? 0); [search_step Hp; apply (IHl fuel p); [done|done|lia]|].
      destruct (0 <? memcmp_strs val (str p)); [search_step Hp; apply (IHr fuel p); [done|done|lia]|done].
    + destruct (length val <? length (str p))%nat; search_step Hp; cbn; [apply (IHl fuel p) | apply (IHr fuel p)]; (done || lia).
  - destruct (hash <? k); search_step Hp; cbn; [apply (IHl fuel p) | apply (IHr fuel p)]; (done || lia).
Qed.

Lemma addr_lookup_find addr t : forall fuel par, tree_rep s (nodes st) par t -> s ∉ ptrs t -> (height t <= fuel)%nat ->
  lookup_addr_loop fuel addr (root_ptr s t) s st = Some (find (fun x => addr - x.2) t, st).
Proof using Type.
  induction t as [|c l IHl p k r IHr]; intros fuel par Ht Hs Hh.
  { destruct fuel; cbn; by rewrite Z.eqb_refl. }
  destruct fuel as [|fuel]; [cbn in Hh; lia|]. cbn [height] in Hh. destruct Ht as (Hp & Hl & Hr).
  apply not_in_sides in Hs as (Hsl & Hps & Hsr). cbn [root_ptr lookup_addr_loop find]. rewrite (proj2 (Z.eqb_neq p s)) by done.
  search_step Hp. cbn [fst snd key].
  destruct (Z.ltb_spec addr k), (Z.ltb_spec (addr - k) 0); try lia; [search_step Hp; apply (IHl fuel p); [done|done|lia]|].
  destruct (Z.ltb_spec k addr), (Z.ltb_spec 0 (addr - k)); try lia; [search_step Hp; apply (IHr fuel p); [done|done|lia]|done].
Qed.

(** The resolver's search, when no two nodes have the same hash. *)
Definition found (name : list Z) (hash : Z) (L : list (ptr * Z)) (p : ptr) : Prop :=
  ((p, hash) ∈ L /\ str p = name) \/ (p = NULL /\ forall q, (q, hash) ∈ L -> str q <> name).

Lemma name_lookup_found name hash t : are_bytes name -> (forall x, x ∈ inorder t -> are_bytes (str x.1)) ->
  forall fuel par, tree_rep s (nodes st) par t -> s ∉ ptrs t -> (height t <= fuel)%nat ->
  StronglySorted (fun a b => a.2 < b.2) (inorder t) ->
  exists p, lookup_name_loop str fuel name hash (root_ptr s t) s st = Some (p, st) /\ found name hash (inorder t) p.
Proof using Type.
  intros Hname. induction t as [|c l IHl p k r IHr]; intros Hb fuel par Ht Hs Hh Hsort.
  { exists NULL. split; [destruct fuel; cbn; by rewrite Z.eqb_refl|]. right. split; [done|set_solver]. }
  destruct fuel as [|fuel]; [cbn in Hh; lia|]. cbn [height] in Hh. destruct Ht as (Hp & Hl & Hr).
  apply not_in_sides in Hs as (Hsl & Hps & Hsr). cbn [root_ptr lookup_name_loop inorder] in *. rewrite (proj2 (Z.eqb_neq p s)) by done.
  apply StronglySorted_app in Hsort as (Hlr & Hsl' & [Hsr' Hpr]%StronglySorted_inv). rewrite Forall_forall in Hpr.
  assert (forall x, x ∈ inorder l -> x.2 < k) as Hltk by (intros x Hx; by apply (Hlr x (p, k) Hx); set_solver).
  search_step Hp. cbn [key].
  destruct (Z.ltb_spec hash k) as [Hlt|Hge]; [|destruct (Z.ltb_spec k hash) as [Hgt|Hle]].
  - search_step Hp. destruct (IHl ltac:(set_solver) fuel p) as (q & Hrun & Hq); [done|done|lia|done|]. exists q. split; [exact Hrun|].
    destruct Hq as [[Hin Hstr]|[-> Hno]]; [left; split; [set_solver|done]|right; split; [done|]].
    intros q' [Hq'|[Hq'|Hq']%elem_of_cons]%elem_of_app; [by apply Hno | injection Hq' as _ E; lia |]. apply Hpr in Hq'. cbn in Hq'. lia.
  - search_step Hp. destruct (IHr ltac:(set_solver) fuel p) as (q & Hrun & Hq); [done|done|lia|done|]. exists q. split; [exact Hrun|].
    destruct Hq as [[Hin Hstr]|[-> Hno]]; [left; split; [set_solver|done]|right; split; [done|]].
    intros q' [Hq'|[Hq'|Hq']%elem_of_cons]%elem_of_app; [apply Hltk in Hq'; cbn in Hq'; lia | injection Hq' as _ E; lia | by apply Hno].
  - assert (k = hash) as -> by lia. cbn [lookup_same].
    assert (memn2cmp name (str p) = 0 <-> name = str p) as Hz.
    { specialize (Hb (p, hash) ltac:(set_solver)). cbn in Hb. unfold memn2cmp.
      destruct (memn2cmp_lexcmp name (str p) Hname Hb) as (rc & -> & Hrc). cbn.
      rewrite <- (bytes_lexcmp_zero name (str p) Hname Hb). lia. }
    destruct (Z.eqb_spec (memn2cmp name (str p)) 0) as [E|E].
    { exists p. split; [done|]. left. split; [set_solver|]. symmetry. by apply Hz. }
    exists NULL. split.
    2: { right. split; [done|]. intros q [Hq|[Hq|Hq]%elem_of_cons]%elem_of_app; [apply Hltk in Hq; cbn in Hq; lia | | apply Hpr in Hq; cbn in Hq; lia].
         injection Hq as ->. intros Heq. apply E, Hz. by symmetry. }
    assert (forall t', (t' = l \/ t' = r) -> (if root_ptr s t' =? s then ret NULL else
       let! k := rd key (root_ptr s t') in if hash =? k then lookup_same str fuel name hash (root_ptr s t') s else ret NULL) st = Some (NULL, st)) as Hchild.
    { intros t' Ht'. destruct t' as [|c' l' p' k' r']; cbn [root_ptr]; [by rewrite Z.eqb_refl|].
      assert (k' <> hash /\ p' <> s /\ exists n, nodes st !! p' = Some n /\ key n = k') as (Hk' & Hp' & n & Hn & <-).
      { destruct Ht' as [<-|<-].
        - specialize (Hltk (p', k') ltac:(cbn; set_solver)). cbn in Hltk. rewrite ptrs_T in Hsl. destruct Hl as (? & _).
          split_and!; [lia | set_solver | by eexists].
        - specialize (Hpr (p', k') ltac:(cbn; set_solver)). cbn in Hpr. rewrite ptrs_T in Hsr. destruct Hr as (? & _).
          split_and!; [lia | set_solver | by eexists]. }
      rewrite (proj2 (Z.eqb_neq p' s)) by done. search_step Hn. by rewrite (proj2 (Z.eqb_neq _ _)) by lia. }
    destruct (memn2cmp name (str p) <? 0); search_step Hp; apply Hchild; [by left|by right].
Qed.
End Lookups.

(** The root, the fuel and the order of a tree in memory. *)
Lemma holds_tree s st L : holds s st L ->
  exists t par, root st = root_ptr s t /\ tree_rep s (nodes st) par t /\ (s ∉ ptrs t) /\ (height t <= fuel_of st)%nat /\ inorder t = L.
Proof.
  intros (sn & gp & t & m & Hrep & _ & HL). exists t, gp. pose proof (rep_size _ _ _ _ _ Hrep). pose proof (height_ptrs t).
  destruct Hrep as [Hr Ht Hn _]. apply list.NoDup_cons in Hn as [Hn _]. split_and!; try done. unfold fuel_of. lia.
Qed.

(** The nodes of [L] have hashes and strings of bytes. *)
Definition nodes_ok (str : ptr -> list Z) (L : list (ptr * Z)) : Prop := forall x, x ∈ L -> hashed (x.2, str x.1).

Lemma less_str_cmp str a b : less_str str a b = (cmp3 (a.2, str a.1) (b.2, str b.1) <? 0).
Proof. unfold less_str, cmp3. cbn [fst snd]. repeat case_match; done. Qed.
Lemma less_name_cmp str a b : less_name str a b = (cmp2 (a.2, str a.1) (b.2, str b.1) <? 0).
Proof. unfold less_name, cmp2. cbn [fst snd]. destruct (Z.ltb_spec a.2 b.2), (Z.ltb_spec b.2 a.2), (Z.eqb_spec a.2 b.2); cbn; try done; lia. Qed.
Lemma less_str_swo str : StrictWeakOrder (less_str str) (fun x => hashed (x.2, str x.1)).
Proof. apply (comparison_swo hashed cmp3 (fun x => (x.2, str x.1))), less_str_cmp. Qed.
Lemma less_name_swo str : StrictWeakOrder (less_name str) (fun x => hashed (x.2, str x.1)).
Proof. apply (comparison_swo hashed cmp2 (fun x => (x.2, str x.1))), less_name_cmp. Qed.

Lemma cmp3_zero x y : hashed x -> hashed y -> cmp3 x y = 0 -> x = y.
Proof.
  destruct x as [h a], y as [h' b]. intros [Hh Ha] [Hh' Hb]. unfold cmp3. cbn [fst snd] in *.
  destruct (Z.eqb_spec h h') as [->|]; cbn [negb]; [|destruct (_ <? _); lia].
  destruct (Nat.eqb_spec (length a) (length b)) as [E|]; cbn [negb]; [|destruct (_ <? _)%nat; lia].
  unfold memcmp_strs. intros H. f_equal. revert b Hb E H. induction Ha as [|x a Hx Ha IH]; intros [|y b] Hb E H; try done.
  apply Forall_cons in Hb as [Hy Hb]. cbn in H. destruct (Z.eqb_spec x y) as [->|]; [|cbn in H; lia]. f_equal. apply IH; [done| |done]. by injection E.
Qed.
Lemma memcmp_refl a : memcmp_strs a a = 0.
Proof. unfold memcmp_strs. induction a as [|x a IH]; [done|]. cbn. by rewrite Z.eqb_refl. Qed.
Lemma cmp3_refl x : cmp3 x x = 0.
Proof. unfold cmp3. by rewrite Z.eqb_refl, Nat.eqb_refl, memcmp_refl. Qed.

Lemma str_lookup_ok str s st L val hash : holds s st L -> ordered_by (less_str str) L -> nodes_ok str L -> hashed (hash, val) ->
  exists p, ngx_str_rbtree_lookup str s val hash st = Some (p, st) /\ found str val hash L p.
Proof.
  intros Hh Hord Hok Hv. destruct (holds_tree s st L Hh) as (t & par & Hroot & Ht & Hs & Hf & <-).
  eexists. split.
  { unfold ngx_str_rbtree_lookup. rewrite (bind_run rd_root _ st (root st) st) by done. rewrite Hroot. unfold with_fuel. by eapply str_lookup_find. }
  pose proof (ordered_falling hashed cmp3 (fun x => (x.2, str x.1)) _ _ (hash, val) (less_str_cmp str) Hv Hok Hord) as Hfall.
  destruct (find_spec _ _ Hfall) as [(k & Hin & Hc)|[-> Hno]].
  - pose proof (cmp3_zero _ _ Hv (Hok _ Hin) Hc) as [= Hk Hval]. left. cbn in Hk, Hval. subst k. split; [exact Hin | by symmetry].
  - right. split; [done|]. intros q Hq Hstr. apply (Hno _ Hq). cbn. rewrite Hstr. apply cmp3_refl.
Qed.

Lemma addr_lookup_ok s st L addr : holds s st L -> ordered less_value L ->
  exists p, ngx_resolver_lookup_addr s addr st = Some (p, st) /\ ((p, addr) ∈ L \/ (p = NULL /\ addr ∉ L.*2)).
Proof.
  intros Hh Hord. destruct (holds_tree s st L Hh) as (t & par & Hroot & Ht & Hs & Hf & <-). eexists. split.
  { unfold ngx_resolver_lookup_addr. rewrite (bind_run rd_root _ st (root st) st) by done. rewrite Hroot. unfold with_fuel. by eapply addr_lookup_find. }
  assert (falling (fun x => addr - x.2) (inorder t)) as Hfall.
  { unfold falling. revert Hord. unfold ordered_by. generalize (inorder t). induction 1 as [|a L Hl IH Ha]; constructor; [done|].
    eapply Forall_impl; [exact Ha|]. unfold by_key, less_value. cbn. lia. }
  destruct (find_spec _ _ Hfall) as [(k & Hin & Hc)|[-> Hno]].
  - left. cbn in Hc. assert (k = addr) as -> by lia. exact Hin.
  - right. split; [done|]. intros (x & -> & Hx)%list_elem_of_fmap. specialize (Hno x Hx). lia.
Qed.

Lemma name_lookup_ok str s st L name hash : holds s st L -> ordered_by (less_name str) L -> nodes_ok str L -> NoDup L.*2 -> are_bytes name ->
  exists p, ngx_resolver_lookup_name str s name hash st = Some (p, st) /\ found str name hash L p.
Proof.
  intros Hh Hord Hok Hnd Hname. destruct (holds_tree s st L Hh) as (t & par & Hroot & Ht & Hs & Hf & <-).
  unfold ngx_resolver_lookup_name. rewrite (bind_run rd_root _ st (root st) st) by done. rewrite Hroot. unfold with_fuel.
  apply (name_lookup_found str s st name hash t Hname) with (par := par); try done.
  { intros x Hx. by apply Hok. }
  revert Hord Hnd. unfold ordered_by. generalize (inorder t). induction 1 as [|a L Hl IH Ha]; intros Hnd; constructor.
  - cbn in Hnd. apply list.NoDup_cons in Hnd as [_ Hnd]. by apply IH.
  - cbn in Hnd. apply list.NoDup_cons in Hnd as [Hnin _]. rewrite Forall_forall in Ha |- *. intros b Hb. specialize (Ha b Hb).
    unfold less_name in Ha. destruct (Z.ltb_spec b.2 a.2); [done|]. destruct (Z.eq_dec a.2 b.2) as [E|]; [|lia].
    destruct Hnin. rewrite E. apply list_elem_of_fmap. by exists b.
Qed.

(** ** A collision *)

(** Four nodes, at 16, 24, 32 and 40, inserted in this order: the first and the last have the
    same hash. *)
Definition collision_str (p : ptr) : list Z := if p =? 16 then [109] else if p =? 40 then [122] else [97].
Definition collision_st : rbstate :=
  mk_rb (list_to_map [(8, mk_node 0 0 0 0 0); (16, mk_node 5 24 32 0 0); (24, mk_node 3 8 8 16 0);
                      (32, mk_node 7 40 8 16 0); (40, mk_node 5 8 8 32 1)]) 16.
Definition collision_tree : tree := T 0 (T 0 E 24 3 E) 16 5 (T 0 (T 1 E 40 5 E) 32 7 E).
(** The tree is what the insertions make of four loose nodes. *)
Definition loose_nodes : rbstate :=
  mk_rb (list_to_map [(8, mk_node 0 0 0 0 0); (16, mk_node 5 0 0 0 0); (24, mk_node 3 0 0 0 0);
                      (32, mk_node 7 0 0 0 0); (40, mk_node 5 0 0 0 0)]) 8.
Definition insert_four : P unit :=
  let ins p := ngx_rbtree_insert (ngx_resolver_rbtree_insert_value collision_str) 8 p in
  ins 16 ;; ins 24 ;; ins 32 ;; ins 40.
Lemma collision_inserted : insert_four loose_nodes = Some (tt, collision_st).
Proof. by vm_compute. Qed.
Lemma collision_holds : holds 8 collision_st (inorder collision_tree).
Proof.
  exists (mk_node 0 0 0 0 0), 0, collision_tree, 2%nat. split_and!; [|unfold collision_tree; eauto 10 using rb|done].
  constructor; [done | | | done].
  - cbn. split_and!; done.
  - apply (bool_decide_unpack _). by vm_compute.
Qed.

(** * The theorem *)

(** C27.  Trees keyed by strings.  From a tree in order,
    [ngx_rbtree_insert] with [ngx_str_rbtree_insert_value] or the resolver's
    [ngx_resolver_rbtree_insert_value] links a node in and keeps the tree well-formed
    and in order (by hash, length and bytes, or by hash and bytes), and
    [ngx_str_rbtree_lookup] returns a node with the given hash and string if there is
    one and NULL otherwise, whatever hashes collide;
    [ngx_resolver_lookup_addr] finds the address.  [ngx_resolver_lookup_name] does as
    well when all hashes differ.  When two collide it may miss a name that is in
    the tree: it gives up at the first node with another hash, behind which there
    may be more with this one. *)
Theorem str_rbtree_correct str s st L :
  holds s st L ->
  (forall node n, nodes st !! node = Some n -> node ∉ s :: L.*1 -> nodes_ok str ((node, key n) :: L) ->
    (ordered_by (less_str str) L -> exists st' L1 L2,
      ngx_rbtree_insert (ngx_str_rbtree_insert_value str) s node st = Some (tt, st') /\
      L = L1 ++ L2 /\ holds s st' (L1 ++ (node, key n) :: L2) /\ ordered_by (less_str str) (L1 ++ (node, key n) :: L2)) /\
    (ordered_by (less_name str) L -> exists st' L1 L2,
      ngx_rbtree_insert (ngx_resolver_rbtree_insert_value str) s node st = Some (tt, st') /\
      L = L1 ++ L2 /\ holds s st' (L1 ++ (node, key n) :: L2) /\ ordered_by (less_name str) (L1 ++ (node, key n) :: L2))) /\
  (forall val hash, ordered_by (less_str str) L -> nodes_ok str L -> hashed (hash, val) ->
    exists p, ngx_str_rbtree_lookup str s val hash st = Some (p, st) /\ found str val hash L p) /\
  (forall addr, ordered less_value L ->
    exists p, ngx_resolver_lookup_addr s addr st = Some (p, st) /\ ((p, addr) ∈ L \/ (p = NULL /\ addr ∉ L.*2))) /\
  (forall name hash, ordered_by (less_name str) L -> nodes_ok str L -> NoDup L.*2 -> are_bytes name ->
    exists p, ngx_resolver_lookup_name str s name hash st = Some (p, st) /\ found str name hash L p) /\
  (exists str s st L p hash, holds s st L /\ ordered_by (less_name str) L /\ (p, hash) ∈ L /\
    ngx_resolver_lookup_name str s (str p) hash st = Some (NULL, st)).
Proof.
  intros Hh. split_and!.
  - intros node n Hnode Hnin Hok. pose proof (less_str_swo str). pose proof (less_name_swo str). split; intros Hord.
    + destruct (insert_by_spec (less_str str) (fun x => hashed (x.2, str x.1)) s st L node n) as (st' & L1 & L2 & Hrun & HL & Hh' & Hord' & _);
        [done | done | intros x Hx; apply Hok; set_solver | apply (Hok (node, key n)); set_solver | done | done |]. by exists st', L1, L2.
    + destruct (insert_by_spec (less_name str) (fun x => hashed (x.2, str x.1)) s st L node n) as (st' & L1 & L2 & Hrun & HL & Hh' & Hord' & _);
        [done | done | intros x Hx; apply Hok; set_solver | apply (Hok (node, key n)); set_solver | done | done |]. by exists st', L1, L2.
  - intros val hash. by apply str_lookup_ok.
  - intros addr. by apply addr_lookup_ok.
  - intros name hash. by apply name_lookup_ok.
  - exists collision_str, 8, collision_st, (inorder collision_tree), 40, 5. split_and!; [apply collision_holds | | set_solver | by vm_compute].
    cbn. repeat constructor.
Qed.

(** The tree of the collision holds its four nodes; the search by hash, length and bytes
    finds the string z among them. *)
Lemma str_rbtree_correct_witness :
  exists p, ngx_str_rbtree_lookup collision_str 8 [122] 5 collision_st = Some (p, collision_st) /\
    found collision_str [122] 5 (inorder collision_tree) p.
Proof.
  destruct (str_rbtree_correct collision_str 8 collision_st (inorder collision_tree) collision_holds) as (_ & Hl & _).
  apply Hl; [cbn; repeat constructor | | split; [done | by repeat constructor]].
  intros x Hx. cbn in Hx. repeat setoid_rewrite elem_of_cons in Hx.
  destruct Hx as [->|[->|[->|[->|[]%not_elem_of_nil]]]]; (split; [done | by repeat constructor]).
Defined.
End StrTree.
