(* ===== verification/Queue.v ===== *)
(** Doubly linked queues: the macros of nginx/src/core/ngx_queue.h and
    [ngx_queue_middle] and [ngx_queue_sort] of nginx/src/core/ngx_queue.c.

    A queue is a ring of links through a sentinel; the links are in memory and the
    operations write through them.  The theorem says which sequence each operation
    makes of the one the ring holds. *)
From stdpp Require Import base gmap list numbers sets sorting.
From S2P Require Import Prelude Search.
Import Search.
Local Open Scope Z_scope.

Module Queue.

(** * Data *)
Record ngx_queue_t := mk_queue { prev : ptr; next : ptr }.
#[export] Instance eta_queue : Eta ngx_queue_t := fun x => mk_queue (prev x) (next x).
Abbreviation qstate := (gmap ptr ngx_queue_t).
Abbreviation Q := (M qstate).

(** * Operations *)
Section Operations.
Local Open Scope prog_scope.

Definition rd (g : ngx_queue_t -> ptr) (p : ptr) : Q ptr :=
  fun st => match st !! p with Some n => Some (g n, st) | None => None end.
Definition upd (f : ngx_queue_t -> ngx_queue_t) (p : ptr) : Q unit :=
  fun st => match st !! p with Some n => Some (tt, <[p := f n]> st) | None => None end.
Definition set_prev (p v : ptr) : Q unit := upd (fun n => n <| prev := v |>) p.
Definition set_next (p v : ptr) : Q unit := upd (fun n => n <| next := v |>) p.

Definition ngx_queue_init (q : ptr) : Q unit := set_prev q q ;; set_next q q.
Definition ngx_queue_empty (h : ptr) : Q bool := let! p := rd prev h in ret (h =? p).
Definition ngx_queue_head (h : ptr) : Q ptr := rd next h.
Definition ngx_queue_last (h : ptr) : Q ptr := rd prev h.

Definition ngx_queue_insert_head (h x : ptr) : Q unit :=
  let! n := rd next h in set_next x n ;;
  let! n := rd next x in set_prev n x ;;
  set_prev x h ;;
  set_next h x.
Definition ngx_queue_insert_after := ngx_queue_insert_head.
Definition ngx_queue_insert_tail (h x : ptr) : Q unit :=
  let! p := rd prev h in set_prev x p ;;
  let! p := rd prev x in set_next p x ;;
  set_next x h ;;
  set_prev h x.

(** Without [NGX_DEBUG]: the removed element keeps its links. *)
Definition ngx_queue_remove (x : ptr) : Q unit :=
  let! n := rd next x in let! p := rd prev x in set_prev n p ;;
  let! p := rd prev x in let! n := rd next x in set_next p n.

Definition ngx_queue_split (h q n : ptr) : Q unit :=
  let! p := rd prev h in set_prev n p ;;
  let! p := rd prev n in set_next p n ;;
  set_next n q ;;
  let! p := rd prev q in set_prev h p ;;
  let! p := rd prev h in set_next p h ;;
  set_prev q n.
Definition ngx_queue_add (h n : ptr) : Q unit :=
  let! p := rd prev h in let! x := rd next n in set_next p x ;;
  let! x := rd next n in let! p := rd prev h in set_prev x p ;;
  let! p := rd prev n in set_prev h p ;;
  let! p := rd prev h in set_next p h.

(** A loop visits each element at most once. *)
Definition with_fuel {A} (f : nat -> Q A) : Q A := fun st => f (S (size st)) st.

Fixpoint middle_loop (fuel : nat) (queue middle next_ : ptr) : Q ptr :=
  match fuel with
  | O => fault
  | S fuel =>
      let! middle := rd next middle in
      let! next_ := rd next next_ in
      let! last := ngx_queue_last queue in
      if next_ =? last then ret middle
      else
        let! next_ := rd next next_ in
        let! last := ngx_queue_last queue in
        if next_ =? last then ret middle else middle_loop fuel queue middle next_
  end.
Definition ngx_queue_middle (queue : ptr) : Q ptr :=
  let! middle := ngx_queue_head queue in
  let! last := ngx_queue_last queue in
  if middle =? last then ret middle
  else
    let! next_ := ngx_queue_head queue in
    with_fuel (fun fuel => middle_loop fuel queue middle next_).

Section Sort.
Context (cmp : ptr -> ptr -> Z).
(** The [do] loop back from [prev_]. *)
Fixpoint sort_scan (fuel : nat) (queue prev_ q : ptr) : Q ptr :=
  match fuel with
  | O => fault
  | S fuel =>
      if cmp prev_ q <=? 0 then ret prev_
      else
        let! prev_ := rd prev prev_ in
        if prev_ =? queue then ret prev_ else sort_scan fuel queue prev_ q
  end.
Fixpoint sort_queue_loop (fuel : nat) (queue q : ptr) : Q unit :=
  if q =? queue then ret tt
  else
    match fuel with
    | O => fault
    | S fuel =>
        let! prev_ := rd prev q in
        let! next_ := rd next q in
        ngx_queue_remove q ;;
        let! prev_ := with_fuel (fun fuel => sort_scan fuel queue prev_ q) in
        ngx_queue_insert_after prev_ q ;;
        sort_queue_loop fuel queue next_
    end.
Definition ngx_queue_sort (queue : ptr) : Q unit :=
  let! q := ngx_queue_head queue in
  let! last := ngx_queue_last queue in
  if q =? last then ret tt
  else
    let! q := rd next q in
    with_fuel (fun fuel => sort_queue_loop fuel queue q).
End Sort.
End Operations.

(** * Rings *)

Definition nx (st : qstate) (p : ptr) : option ptr := next <$> st !! p.
Definition pv (st : qstate) (p : ptr) : option ptr := prev <$> st !! p.
Definition link (st : qstate) (a b : ptr) : Prop := nx st a = Some b /\ pv st b = Some a.
(** From [a] through [L] to [b]. *)
Fixpoint chain (st : qstate) (a : ptr) (L : list ptr) (b : ptr) : Prop :=
  match L with
  | [] => link st a b
  | x :: L => link st a x /\ chain st x L b
  end.
(** The queue with the sentinel [h] holds [L]. *)
Definition queue (st : qstate) (h : ptr) (L : list ptr) : Prop := NoDup (h :: L) /\ chain st h L h.

(** Memory off [X] is as it was. *)
Definition same_off (X : list ptr) (st st' : qstate) : Prop :=
  (forall p, p ∉ X -> st' !! p = st !! p) /\ (forall p, is_Some (st' !! p) <-> is_Some (st !! p)).

(** The element before [L2] and the one after [L1], in [a], [L1], [L2], [b]. *)
Definition last_or (a : ptr) (L : list ptr) : ptr := default a (last L).
Definition first_or (b : ptr) (L : list ptr) : ptr := default b (head L).

Lemma last_or_cons a x L : last_or a (x :: L) = last_or x L.
Proof. unfold last_or. rewrite last_cons. by destruct (last L). Qed.
Lemma last_or_in a L : last_or a L ∈ a :: L.
Proof. unfold last_or. destruct (last L) as [x|] eqn:E; cbn; [|set_solver]. apply last_Some in E as (? & ->). set_solver. Qed.
Lemma first_or_in b L : first_or b L ∈ L ++ [b].
Proof. destruct L; cbn; set_solver. Qed.

Lemma chain_app st a L1 x L2 b : chain st a (L1 ++ x :: L2) b <-> chain st a L1 x /\ chain st x L2 b.
Proof. revert a. induction L1 as [|y L1 IH]; intros a; cbn; [done|]. rewrite IH. tauto. Qed.
Lemma chain_link st a L1 L2 b : chain st a (L1 ++ L2) b -> link st (last_or a L1) (first_or b L2).
Proof.
  revert a. induction L1 as [|y L1 IH]; intros a; cbn [app chain].
  - destruct L2; [done|]. by intros [? _].
  - intros [_ H]. rewrite last_or_cons. by apply IH.
Qed.
Lemma ring_frame st st' a L b : chain st a L b -> (forall q, q ∈ a :: L -> nx st' q = nx st q) ->
  (forall q, q ∈ L ++ [b] -> pv st' q = pv st q) -> chain st' a L b.
Proof.
  revert a. induction L as [|x L IH]; intros a; cbn [chain app]; unfold link.
  - intros [? ?] Hn Hp. by rewrite Hn, Hp by set_solver.
  - intros [[? ?] ?] Hn Hp. rewrite Hn, Hp by set_solver. split; [done|]. apply IH; [done|..]; intros q Hq; [apply Hn | apply Hp]; set_solver.
Qed.

(** A part of a chain is replaced by another: what is left only needs its links. *)
Lemma chain_splice st st' a L1 K N L2 b : chain st a (L1 ++ K ++ L2) b -> NoDup (a :: L1 ++ L2) -> NoDup (L1 ++ L2 ++ [b]) ->
  (forall q, q ∈ a :: L1 ++ L2 -> q <> last_or a L1 -> nx st' q = nx st q) ->
  (forall q, q ∈ L1 ++ L2 ++ [b] -> q <> first_or b L2 -> pv st' q = pv st q) ->
  chain st' (last_or a L1) N (first_or b L2) -> chain st' a (L1 ++ N ++ L2) b.
Proof.
  revert a. induction L1 as [|c L1 IH]; intros a Hc Hs Ht Hn Hp HN; cbn [app chain] in *.
  - destruct L2 as [|y L2]; [by rewrite app_nil_r|]. unfold last_or, first_or in *. cbn in Hn, Hp, HN.
    apply chain_app in Hc as [_ Hc]. apply chain_app. split; [done|]. apply list.NoDup_cons in Hs as [Ha _]. apply list.NoDup_cons in Ht as [Hy _].
    apply (ring_frame st); [done|..]; intros q Hq; [apply Hn | apply Hp]; set_solver.
  - destruct Hc as [[H1 H2] Hc]. rewrite last_or_cons in *. apply list.NoDup_cons in Hs as [Ha Hs]. apply list.NoDup_cons in Ht as [Hc' Ht].
    pose proof (last_or_in c L1). pose proof (first_or_in b L2). split.
    + split; [rewrite Hn | rewrite Hp]; set_solver.
    + apply IH; [done..| | |done]; intros q Hq; [apply Hn | apply Hp]; set_solver.
Qed.

(** * Runs *)

(** A write as a function of memory. *)
Definition put_next (p v : ptr) (st : qstate) : qstate := alter (fun n => n <| next := v |>) p st.
Definition put_prev (p v : ptr) (st : qstate) : qstate := alter (fun n => n <| prev := v |>) p st.

Lemma nx_put_next_eq p v st : is_Some (st !! p) -> nx (put_next p v st) p = Some v.
Proof. intros [n Hn]. unfold nx, put_next. by rewrite lookup_alter_eq, Hn. Qed.
Lemma nx_put_next_ne p v q st : p <> q -> nx (put_next p v st) q = nx st q.
Proof. intros Hpq. unfold nx, put_next. by rewrite lookup_alter_ne. Qed.
Lemma pv_put_prev_eq p v st : is_Some (st !! p) -> pv (put_prev p v st) p = Some v.
Proof. intros [n Hn]. unfold pv, put_prev. by rewrite lookup_alter_eq, Hn. Qed.
Lemma pv_put_prev_ne p v q st : p <> q -> pv (put_prev p v st) q = pv st q.
Proof. intros Hpq. unfold pv, put_prev. by rewrite lookup_alter_ne. Qed.
Lemma pv_put_next p v q st : pv (put_next p v st) q = pv st q.
Proof. unfold pv, put_next. destruct (decide (p = q)) as [->|]; [rewrite lookup_alter_eq | by rewrite lookup_alter_ne]. by destruct (st !! q). Qed.
Lemma nx_put_prev p v q st : nx (put_prev p v st) q = nx st q.
Proof. unfold nx, put_prev. destruct (decide (p = q)) as [->|]; [rewrite lookup_alter_eq | by rewrite lookup_alter_ne]. by destruct (st !! q). Qed.

Lemma nx_live st p v : nx st p = Some v -> is_Some (st !! p).
Proof. unfold nx. by intros (? & -> & _)%fmap_Some. Qed.
Lemma pv_live st p v : pv st p = Some v -> is_Some (st !! p).
Proof. unfold pv. by intros (? & -> & _)%fmap_Some. Qed.
Lemma live_put_next p v q st : is_Some (put_next p v st !! q) <-> is_Some (st !! q).
Proof. unfold put_next. destruct (decide (p = q)) as [->|]; [rewrite lookup_alter_eq | by rewrite lookup_alter_ne]. by rewrite fmap_is_Some. Qed.
Lemma live_put_prev p v q st : is_Some (put_prev p v st !! q) <-> is_Some (st !! q).
Proof. unfold put_prev. destruct (decide (p = q)) as [->|]; [rewrite lookup_alter_eq | by rewrite lookup_alter_ne]. by rewrite fmap_is_Some. Qed.

Lemma insert_as_alter (f : ngx_queue_t -> ngx_queue_t) p n (st : qstate) : st !! p = Some n -> <[p := f n]> st = alter f p st.
Proof.
  intros Hn. apply map_eq. intros q. destruct (decide (p = q)) as [->|].
  - by rewrite lookup_insert_eq, lookup_alter_eq, Hn.
  - by rewrite lookup_insert_ne, lookup_alter_ne.
Qed.

Section Runs.
Context {A : Type} (st : qstate).
Lemma run_next p v (k : ptr -> Q A) : nx st p = Some v -> bind (rd next p) k st = k v st.
Proof using Type. unfold nx. intros (n & Hn & ->)%fmap_Some. unfold bind, rd. by rewrite Hn. Qed.
Lemma run_prev p v (k : ptr -> Q A) : pv st p = Some v -> bind (rd prev p) k st = k v st.
Proof using Type. unfold pv. intros (n & Hn & ->)%fmap_Some. unfold bind, rd. by rewrite Hn. Qed.
Lemma run_set_next p v (k : unit -> Q A) : is_Some (st !! p) -> bind (set_next p v) k st = k tt (put_next p v st).
Proof using Type. intros [n Hn]. unfold bind, set_next, upd, put_next. rewrite Hn. by rewrite <- (insert_as_alter _ _ _ _ Hn). Qed.
Lemma run_set_prev p v (k : unit -> Q A) : is_Some (st !! p) -> bind (set_prev p v) k st = k tt (put_prev p v st).
Proof using Type. intros [n Hn]. unfold bind, set_prev, upd, put_prev. rewrite Hn. by rewrite <- (insert_as_alter _ _ _ _ Hn). Qed.
End Runs.
Lemma run_set_next_last st p v : is_Some (st !! p) -> set_next p v st = Some (tt, put_next p v st).
Proof. intros [n Hn]. unfold set_next, upd, put_next. by rewrite Hn, <- (insert_as_alter _ _ _ _ Hn). Qed.
Lemma run_set_prev_last st p v : is_Some (st !! p) -> set_prev p v st = Some (tt, put_prev p v st).
Proof. intros [n Hn]. unfold set_prev, upd, put_prev. by rewrite Hn, <- (insert_as_alter _ _ _ _ Hn). Qed.

Lemma same_off_next X st st' p v : same_off X st st' -> p ∈ X -> same_off X st (put_next p v st').
Proof.
  intros [H1 H2] Hp. split; intros q; [intros Hq|rewrite live_put_next; apply H2].
  unfold put_next. rewrite lookup_alter_ne by set_solver. by apply H1.
Qed.
Lemma same_off_prev X st st' p v : same_off X st st' -> p ∈ X -> same_off X st (put_prev p v st').
Proof.
  intros [H1 H2] Hp. split; intros q; [intros Hq|rewrite live_put_prev; apply H2].
  unfold put_prev. rewrite lookup_alter_ne by set_solver. by apply H1.
Qed.
Lemma same_off_refl X st : same_off X st st.
Proof. done. Qed.
Lemma same_off_trans X st st1 st2 : same_off X st st1 -> same_off X st1 st2 -> same_off X st st2.
Proof. intros [H1 H2] [H3 H4]. split; intros p; [intros Hp; by rewrite H3, H1|by rewrite H4]. Qed.
Lemma same_off_weaken X Y st st' : X ⊆ Y -> same_off X st st' -> same_off Y st st'.
Proof. intros HXY [H1 H2]. split; [|done]. intros p Hp. apply H1. set_solver. Qed.

#[local] Hint Resolve nx_live pv_live : core.
(** Reads of memory after writes. *)
Ltac live := repeat first [rewrite live_put_next | rewrite live_put_prev]; eauto.
Ltac peek_step :=
  first [rewrite pv_put_next | rewrite nx_put_prev | rewrite nx_put_next_ne by congruence | rewrite pv_put_prev_ne by congruence
        | rewrite nx_put_next_eq by (live; fail) | rewrite pv_put_prev_eq by (live; fail)
        | match goal with
          | |- context [nx (put_next ?p _ _) ?q] => destruct (decide (p = q)); [subst|]
          | |- context [pv (put_prev ?p _ _) ?q] => destruct (decide (p = q)); [subst|]
          end].
Ltac peek := repeat peek_step; try congruence; eauto.
Ltac qstep :=
  first [rewrite run_set_next by (live; fail) | rewrite run_set_prev by (live; fail)
        | rewrite run_set_next_last by (live; fail) | rewrite run_set_prev_last by (live; fail)].
Ltac same := repeat first [apply same_off_next | apply same_off_prev]; [apply same_off_refl | set_solver..].

(** ** Insertion and removal *)

Lemma queue_targets st h L : queue st h L -> NoDup (L ++ [h]).
Proof. intros [Hn _]. rewrite <- Permutation_cons_append. done. Qed.

Lemma insert_run st p b x : link st p b -> is_Some (st !! x) -> p <> x -> b <> x ->
  exists st', ngx_queue_insert_head p x st = Some (tt, st') /\ chain st' p [x] b /\ same_off [p; x; b] st st' /\
    (forall q, q <> p -> q <> x -> nx st' q = nx st q) /\ (forall q, q <> b -> q <> x -> pv st' q = pv st q).
Proof.
  intros [Hn Hp] Hx Hpx Hbx. unfold ngx_queue_insert_head. rewrite (run_next _ _ _ _ Hn). qstep.
  rewrite (run_next _ _ b) by peek.
  assert (is_Some (st !! p)) by eauto. assert (is_Some (st !! b)) by eauto.
  do 3 qstep. eexists. split; [reflexivity|]. unfold chain, link. split_and!; try (intros q ? ?); try (peek; fail); same.
Qed.
Lemma insert_tail_run st a h x : link st a h -> is_Some (st !! x) -> a <> x -> h <> x ->
  exists st', ngx_queue_insert_tail h x st = Some (tt, st') /\ chain st' a [x] h /\ same_off [a; x; h] st st' /\
    (forall q, q <> a -> q <> x -> nx st' q = nx st q) /\ (forall q, q <> h -> q <> x -> pv st' q = pv st q).
Proof.
  intros [Hn Hp] Hx Hax Hhx. unfold ngx_queue_insert_tail. rewrite (run_prev _ _ _ _ Hp). qstep.
  rewrite (run_prev _ _ a) by peek. assert (is_Some (st !! a)) by eauto. assert (is_Some (st !! h)) by eauto.
  do 3 qstep. eexists. split; [reflexivity|]. unfold chain, link. split_and!; try (intros q ? ?); try (peek; fail); same.
Qed.

Lemma remove_run st a x b : chain st a [x] b -> a <> x -> b <> x ->
  exists st', ngx_queue_remove x st = Some (tt, st') /\ link st' a b /\ same_off [a; b] st st' /\
    (forall q, q <> a -> nx st' q = nx st q) /\ (forall q, q <> b -> pv st' q = pv st q).
Proof.
  intros [[H1 H2] [H3 H4]] Hax Hbx. unfold ngx_queue_remove. rewrite (run_next _ _ _ _ H3), (run_prev _ _ _ _ H2).
  assert (is_Some (st !! a)) by eauto. assert (is_Some (st !! b)) by eauto. qstep.
  rewrite (run_prev _ _ a) by peek. rewrite (run_next _ _ b) by peek. qstep.
  eexists. split; [reflexivity|]. unfold link. split_and!; try (intros q ?); try (peek; fail); same.
Qed.

Section Sequences.
Context (st : qstate) (h : ptr).

Lemma queue_splice st' L1 K N L2 : queue st h (L1 ++ K ++ L2) -> NoDup (h :: L1 ++ N ++ L2) ->
  (forall q, q ∈ h :: L1 ++ L2 -> q <> last_or h L1 -> nx st' q = nx st q) ->
  (forall q, q ∈ L1 ++ L2 ++ [h] -> q <> first_or h L2 -> pv st' q = pv st q) ->
  chain st' (last_or h L1) N (first_or h L2) -> queue st' h (L1 ++ N ++ L2).
Proof using Type.
  intros [Hn Hc] Hn' Hnx Hpv HN. split; [done|]. assert (NoDup (h :: L1 ++ L2)) as Hd.
  { revert Hn'. rewrite !list.NoDup_cons, !list.NoDup_app. set_solver. }
  eapply chain_splice; try done. rewrite app_assoc, <- Permutation_cons_append. done.
Qed.

Lemma queue_ends L1 L2 : queue st h (L1 ++ L2) -> link st (last_or h L1) (first_or h L2).
Proof using Type. intros [_ Hc]. by apply chain_link. Qed.
Lemma last_or_mem L1 L2 : last_or h L1 ∈ h :: L1 ++ L2.
Proof using Type. pose proof (last_or_in h L1). set_solver. Qed.
Lemma first_or_mem L1 L2 : first_or h L2 ∈ h :: L1 ++ L2.
Proof using Type. pose proof (first_or_in h L2). set_solver. Qed.
Lemma nodup_grow x L1 L2 : NoDup (h :: L1 ++ L2) -> (x ∉ h :: L1 ++ L2) -> NoDup (h :: L1 ++ [x] ++ L2).
Proof using Type. rewrite !list.NoDup_cons, !list.NoDup_app. intros. split_and!; try set_solver. apply NoDup_singleton. Qed.

Lemma insert_after_ok L1 L2 x : queue st h (L1 ++ L2) -> is_Some (st !! x) -> (x ∉ h :: L1 ++ L2) ->
  exists st', ngx_queue_insert_after (last_or h L1) x st = Some (tt, st') /\ queue st' h (L1 ++ x :: L2) /\ same_off (h :: x :: L1 ++ L2) st st'.
Proof using Type.
  intros Hq Hx Hnin. pose proof (last_or_mem L1 L2). pose proof (first_or_mem L1 L2).
  destruct (insert_run st _ _ x (queue_ends _ _ Hq) Hx) as (st' & Hrun & Hc & Hs & Hn & Hp); [set_solver..|].
  exists st'. split_and!; [done| |eapply same_off_weaken; [|exact Hs]; set_solver].
  apply (queue_splice st' L1 [] [x] L2); [done|by apply nodup_grow; [apply Hq|]|..|done]; intros q Hq1 Hq2; [apply Hn | apply Hp]; set_solver.
Qed.

Lemma insert_tail_ok L x : queue st h L -> is_Some (st !! x) -> (x ∉ h :: L) ->
  exists st', ngx_queue_insert_tail h x st = Some (tt, st') /\ queue st' h (L ++ [x]) /\ same_off (h :: x :: L) st st'.
Proof using Type.
  intros Hq Hx Hnin. pose proof (last_or_mem L []) as H. rewrite app_nil_r in H. rewrite <- (app_nil_r L) in Hq.
  destruct (insert_tail_run st _ _ x (queue_ends _ _ Hq) Hx) as (st' & Hrun & Hc & Hs & Hn & Hp); [set_solver..|].
  exists st'. split_and!; [done| |eapply same_off_weaken; [|exact Hs]; set_solver].
  apply (queue_splice st' L [] [x] []); [done|apply nodup_grow; [apply Hq|by rewrite app_nil_r]|..|done]; intros q Hq1 Hq2; [apply Hn | apply Hp]; set_solver.
Qed.

Lemma remove_ok L1 x L2 : queue st h (L1 ++ x :: L2) ->
  exists st', ngx_queue_remove x st = Some (tt, st') /\ queue st' h (L1 ++ L2) /\ same_off (h :: L1 ++ L2) st st'.
Proof using Type.
  intros Hq. pose proof (last_or_mem L1 L2). pose proof (first_or_mem L1 L2).
  assert (NoDup (h :: L1 ++ L2) /\ x ∉ h :: L1 ++ L2) as [Hd Hx].
  { destruct Hq as [Hq _]. revert Hq. rewrite !list.NoDup_cons, !list.NoDup_app, list.NoDup_cons. set_solver. }
  destruct (remove_run st (last_or h L1) x (first_or h L2)) as (st' & Hrun & Hc & Hs & Hn & Hp); [|set_solver..|].
  { split; [apply (queue_ends L1 (x :: L2) Hq)|]. replace x with (last_or h (L1 ++ [x])) at 1 by (unfold last_or; by rewrite last_snoc).
    apply queue_ends. by rewrite <- app_assoc. }
  exists st'. split_and!; [done| |eapply same_off_weaken; [|exact Hs]; set_solver].
  apply (queue_splice st' L1 [x] [] L2); [done..| | |done]; intros q Hq1 Hq2; [apply Hn | apply Hp]; set_solver.
Qed.
End Sequences.

(** ** Cutting and joining *)

Lemma last_or_snoc a L x : last_or a (L ++ [x]) = x.
Proof. unfold last_or. by rewrite last_snoc. Qed.
(** A chain led elsewhere at its end. *)
Lemma chain_redirect st st' a L b b' : chain st a L b -> NoDup (a :: L) -> link st' (last_or a L) b' ->
  (forall q, q ∈ a :: L -> q <> last_or a L -> nx st' q = nx st q) -> (forall q, q ∈ L -> pv st' q = pv st q) -> chain st' a L b'.
Proof.
  destruct L as [|l L _] using rev_ind; [done|]. rewrite last_or_snoc. intros [Hc _]%chain_app Hd Hl Hn Hp. apply chain_app. split; [|done].
  apply (ring_frame st); [done| |by intros q Hq; apply Hp]. intros q Hq. apply Hn; [set_solver|]. intros ->.
  revert Hd Hq. rewrite list.NoDup_cons, list.NoDup_app. set_solver.
Qed.

Lemma split_run st h q n p l : link st p q -> link st l h -> is_Some (st !! n) -> p <> l -> n <> h -> n <> q -> n <> p -> n <> l -> q <> h ->
  exists st', ngx_queue_split h q n st = Some (tt, st') /\ same_off [h; q; n; p; l] st st' /\
    link st' p h /\ link st' n q /\ link st' l n /\
    (forall x, x <> p -> x <> n -> x <> l -> nx st' x = nx st x) /\ (forall x, x <> h -> x <> q -> x <> n -> pv st' x = pv st x).
Proof.
  intros [H1 H2] [H3 H4] Hn Hpl Hnh Hnq Hnp Hnl Hqh. unfold ngx_queue_split. rewrite (run_prev _ _ _ _ H4).
  assert (is_Some (st !! p)) by eauto. assert (is_Some (st !! q)) by eauto. assert (is_Some (st !! l)) by eauto. assert (is_Some (st !! h)) by eauto.
  qstep. rewrite (run_prev _ _ l) by peek. do 2 qstep. rewrite (run_prev _ _ p) by peek. qstep. rewrite (run_prev _ _ p) by peek. do 2 qstep.
  eexists. split; [reflexivity|]. unfold link. split_and!; try (intros x ? ? ?); try (peek; fail); same.
Qed.

Lemma split_ok st h L1 q L2 n : queue st h (L1 ++ q :: L2) -> is_Some (st !! n) -> (n ∉ h :: L1 ++ q :: L2) ->
  exists st', ngx_queue_split h q n st = Some (tt, st') /\ queue st' h L1 /\ queue st' n (q :: L2) /\ same_off (h :: n :: L1 ++ q :: L2) st st'.
Proof.
  intros Hq Hn Hnin. pose proof (last_or_in h L1) as Hp. pose proof (last_or_in q L2) as Hl.
  assert (link st (last_or q L2) h) as Hlast.
  { pose proof (queue_ends st h (L1 ++ q :: L2) []) as He. rewrite app_nil_r in He. specialize (He Hq).
    replace (last_or h (L1 ++ q :: L2)) with (last_or q L2) in He; [done|]. unfold last_or. rewrite last_app, last_cons. by destruct (last L2). }
  pose proof (queue_ends st h L1 (q :: L2) Hq) as Hpq. destruct Hq as [Hd Hc].
  assert (NoDup (h :: L1) /\ NoDup (q :: L2) /\ forall x, x ∈ h :: L1 -> x ∉ q :: L2) as (Hd1 & Hd2 & Hdis).
  { revert Hd. rewrite !list.NoDup_cons, list.NoDup_app, list.NoDup_cons. set_solver. }
  assert (last_or h L1 <> last_or q L2) as Hpl by (intros E; apply (Hdis _ Hp); by rewrite E).
  assert (forall x, x ∈ h :: L1 -> n <> x) as Hn1 by set_solver. assert (forall x, x ∈ q :: L2 -> n <> x) as Hn2 by set_solver.
  destruct (split_run st h q n _ _ Hpq Hlast Hn Hpl) as (st' & Hrun & Hs & Hph & Hnq & Hln & Hnx & Hpv);
    [apply Hn1; set_solver | apply Hn2; set_solver | by apply Hn1 | by apply Hn2 | intros ->; apply (Hdis h); set_solver |].
  apply chain_app in Hc as [Hc1 Hc2]. exists st'. split_and!; [done|split; [done|]|split|eapply same_off_weaken; [|exact Hs]; set_solver].
  - apply (chain_redirect st _ _ _ q); [done..| |]; intros x Hx.
    + intros Hx'. apply Hnx; [done | by apply not_eq_sym, Hn1 | intros ->; by apply (Hdis _ Hx)].
    + apply Hpv; [intros -> | intros ->; apply (Hdis q); set_solver | intros ->; by apply (Hn1 n); [apply elem_of_cons; right|]].
      by apply list.NoDup_cons in Hd1 as [Hd1 _].
  - apply list.NoDup_cons. split; [|done]. intros Hx. by apply (Hn2 n).
  - split; [done|]. apply (chain_redirect st _ _ _ h); [done..| |]; intros x Hx.
    + intros Hx'. apply Hnx; [intros ->; by apply (Hdis _ Hp) | by apply not_eq_sym, Hn2 | done].
    + apply Hpv; [intros -> | intros -> | intros ->; by apply (Hn2 n); [apply elem_of_cons; right|]].
      * apply (Hdis h); [set_solver|by apply elem_of_cons; right].
      * by apply list.NoDup_cons in Hd2 as [Hd2 _].
Qed.

Lemma add_run st h n l1 f2 l2 : link st l1 h -> link st n f2 -> link st l2 n -> h <> n -> l1 <> n -> l1 <> l2 -> f2 <> h -> f2 <> n ->
  exists st', ngx_queue_add h n st = Some (tt, st') /\ same_off [h; n; l1; f2; l2] st st' /\ link st' l1 f2 /\ link st' l2 h /\
    (forall x, x <> l1 -> x <> l2 -> nx st' x = nx st x) /\ (forall x, x <> h -> x <> f2 -> pv st' x = pv st x).
Proof.
  intros [H1 H2] [H3 H4] [H5 H6] Hhn Hl1n Hl12 Hf2 Hf2n. unfold ngx_queue_add. rewrite (run_prev _ _ _ _ H2), (run_next _ _ _ _ H3).
  assert (is_Some (st !! l1)) by eauto. assert (is_Some (st !! f2)) by eauto. assert (is_Some (st !! h)) by eauto. assert (is_Some (st !! l2)) by eauto.
  qstep. rewrite (run_next _ _ f2) by peek. rewrite (run_prev _ _ l1) by peek. qstep.
  rewrite (run_prev _ _ l2) by peek. qstep. rewrite (run_prev _ _ l2) by peek. qstep.
  eexists. split; [reflexivity|]. unfold link. split_and!; try (intros x ? ?); try (peek; fail); same.
Qed.
(** Adding an empty queue. *)
Lemma add_empty_run st h n l1 : link st l1 h -> link st n n -> h <> n -> l1 <> n ->
  exists st', ngx_queue_add h n st = Some (tt, st') /\ same_off [h; n; l1] st st' /\ link st' l1 h /\
    (forall x, x <> l1 -> nx st' x = nx st x) /\ (forall x, x <> h -> x <> n -> pv st' x = pv st x).
Proof.
  intros [H1 H2] [H3 H4] Hhn Hl1n. unfold ngx_queue_add. rewrite (run_prev _ _ _ _ H2), (run_next _ _ _ _ H3).
  assert (is_Some (st !! l1)) by eauto. assert (is_Some (st !! n)) by eauto. assert (is_Some (st !! h)) by eauto.
  qstep. rewrite (run_next _ _ n) by peek. rewrite (run_prev _ _ l1) by peek. qstep.
  rewrite (run_prev _ _ l1) by peek. qstep. rewrite (run_prev _ _ l1) by peek. qstep.
  eexists. split; [reflexivity|]. unfold link. split_and!; try (intros x ? ?); try (intros x ?); try (peek; fail); same.
Qed.

Lemma queue_ring st h L : queue st h L -> link st (last_or h L) h.
Proof. intros Hq. apply (queue_ends st h L []). by rewrite app_nil_r. Qed.

Lemma add_ok st h L1 n L2 : queue st h L1 -> queue st n L2 -> (forall x, x ∈ h :: L1 -> x ∉ n :: L2) ->
  exists st', ngx_queue_add h n st = Some (tt, st') /\ queue st' h (L1 ++ L2) /\ same_off (h :: n :: L1 ++ L2) st st'.
Proof.
  intros Hq1 Hq2 Hdis. pose proof (queue_ring _ _ _ Hq1) as E1. pose proof (queue_ring _ _ _ Hq2) as E2.
  pose proof (last_or_in h L1) as Hl1. rewrite <- (app_nil_r L1) in Hq1. destruct L2 as [|f2 L2].
  - destruct (add_empty_run st h n _ E1 (proj2 Hq2)) as (st' & Hrun & Hs & Hl & Hnx & Hpv); [set_solver..|].
    exists st'. split_and!; [done| |eapply same_off_weaken; [|exact Hs]; set_solver].
    apply (queue_splice st h st' L1 [] [] []); [done|apply Hq1|..|done]; intros q Hq Hq'; [apply Hnx|apply Hpv]; set_solver.
  - destruct Hq2 as [Hd2 [Hf Hc]]. rewrite last_or_cons in E2. pose proof (last_or_in f2 L2) as Hl2.
    apply list.NoDup_cons in Hd2 as [Hn Hd2].
    assert (forall x, x ∈ h :: L1 -> (x ∉ f2 :: L2)) as Hdis' by (intros x Hx Hx'; apply (Hdis x Hx); by apply elem_of_cons; right).
    assert (forall x, x ∈ h :: L1 -> x <> n) as Hn1 by (intros x Hx ->; apply (Hdis n Hx); set_solver).
    destruct (add_run st h n _ f2 _ E1 Hf E2) as (st' & Hrun & Hs & Hl & Hl' & Hnx & Hpv).
    { apply Hn1. set_solver. }
    { by apply Hn1. }
    { intros E. apply (Hdis' _ Hl1). by rewrite E. }
    { intros ->. apply (Hdis' h); set_solver. }
    { intros ->. set_solver. }
    exists st'. split_and!; [done| |eapply same_off_weaken; [|exact Hs]; set_solver].
    rewrite <- (app_nil_r (f2 :: L2)). apply (queue_splice st h st' L1 [] (f2 :: L2) []); [done| |..].
    + rewrite app_nil_r. destruct Hq1 as [Hd1 _]. rewrite !app_nil_r in Hd1. change (NoDup ((h :: L1) ++ f2 :: L2)). by apply list.NoDup_app.
    + rewrite app_nil_r. intros q Hq Hq'. apply Hnx; [done|]. intros ->. by apply (Hdis' _ Hq).
    + rewrite app_nil_l. intros q Hq Hq'. apply Hpv; [done|]. intros ->. apply (Hdis' f2); set_solver.
    + split; [done|]. apply (chain_redirect st _ _ _ n); [done..| |]; intros x Hx.
      * intros Hx'. apply Hnx; [intros ->; by apply (Hdis' _ Hl1) | done].
      * apply Hpv; intros ->; [apply (Hdis' h); [set_solver | by apply elem_of_cons; right] | by apply list.NoDup_cons in Hd2 as [Hd2 _]].
Qed.

(** ** The middle *)

Lemma chain_live st a L b x : chain st a L b -> x ∈ a :: L -> is_Some (st !! x).
Proof.
  revert a. induction L as [|y L IH]; intros a; cbn [chain].
  - intros [Hn _] ->%list_elem_of_singleton. eauto.
  - intros [[Hn _] Hc] [->|Hx]%elem_of_cons; eauto.
Qed.
Lemma queue_size st h L : queue st h L -> (length (h :: L) <= size st)%nat.
Proof.
  intros [Hd Hc]. rewrite <- size_dom, <- (size_list_to_set (C := gset ptr)) by done. apply subseteq_size.
  intros x Hx%elem_of_list_to_set. apply elem_of_dom. by eapply chain_live.
Qed.

Section Middle.
Context (st : qstate) (h : ptr) (L : list ptr) (Hq : queue st h L).

Lemma queue_nth i a b : L !! i = Some a -> L !! S i = Some b -> link st a b.
Proof using Hq.
  intros Ha Hb. assert (L = take (S i) L ++ drop (S i) L) as E by (symmetry; apply take_drop).
  pose proof Hq as Hq'. rewrite E in Hq'. apply queue_ends in Hq'.
  rewrite (take_S_r _ _ _ Ha), last_or_snoc, (drop_S _ _ _ Hb) in Hq'. done.
Qed.
Lemma queue_last_nth n l : L !! n = Some l -> length L = S n -> pv st h = Some l.
Proof using Hq.
  intros Hl Hn. pose proof (queue_ring _ _ _ Hq) as [_ Hp]. rewrite Hp. f_equal. unfold last_or. rewrite last_lookup, Hn. cbn. by rewrite Hl.
Qed.
Lemma queue_index i j x y : L !! i = Some x -> L !! j = Some y -> (x =? y) = bool_decide (i = j).
Proof using Hq.
  intros Hx Hy. destruct Hq as [[_ Hd]%list.NoDup_cons _]. destruct (Z.eqb_spec x y) as [->|Hne]; symmetry.
  - apply bool_decide_eq_true. by eapply NoDup_lookup.
  - apply bool_decide_eq_false. intros ->. congruence.
Qed.

Lemma middle_loop_ok i : forall fuel a b, L !! i = Some a -> L !! (2 * i)%nat = Some b -> (S (2 * i) < length L)%nat -> (length L <= i + fuel)%nat ->
  exists m, middle_loop fuel h a b st = Some (m, st) /\ L !! (length L / 2)%nat = Some m.
Proof using Hq.
  remember (length L - i)%nat as k eqn:Ek. revert i Ek. induction (lt_wf k) as [k _ IH]. intros i -> fuel a b Ha Hb Hi Hf.
  destruct fuel as [|fuel]; [lia|]. cbn [middle_loop]. destruct (lookup_lt_is_Some_2 L (S i)) as [a' Ha']; [lia|].
  destruct (lookup_lt_is_Some_2 L (S (2 * i))) as [b' Hb']; [lia|]. destruct (lookup_lt_is_Some_2 L (length L - 1)) as [l Hl]; [lia|].
  rewrite (run_next _ _ _ _ (proj1 (queue_nth _ _ _ Ha Ha'))), (run_next _ _ _ _ (proj1 (queue_nth _ _ _ Hb Hb'))).
  unfold ngx_queue_last. assert (pv st h = Some l) as Hlast by (apply (queue_last_nth _ _ Hl); lia). rewrite !(run_prev _ _ _ _ Hlast).
  rewrite (queue_index _ _ _ _ Hb' Hl). case_bool_decide as E1.
  { exists a'. split; [done|]. rewrite <- Ha'. f_equal. symmetry. apply (Nat.div_unique _ 2 _ 0); lia. }
  destruct (lookup_lt_is_Some_2 L (S (S (2 * i)))) as [b'' Hb'']; [lia|]. rewrite (run_next _ _ _ _ (proj1 (queue_nth _ _ _ Hb' Hb''))).
  rewrite !(run_prev _ _ _ _ Hlast). rewrite (queue_index _ _ _ _ Hb'' Hl). case_bool_decide as E2.
  { exists a'. split; [done|]. rewrite <- Ha'. f_equal. symmetry. apply (Nat.div_unique _ 2 _ 1); lia. }
  apply (IH (length L - S i)%nat ltac:(lia) (S i)); [done | done | by replace (2 * S i)%nat with (S (S (2 * i))) by lia | lia | lia].
Qed.

End Middle.

Lemma middle_ok st h L : queue st h L -> ngx_queue_middle h st = Some (default h (L !! (length L / 2)%nat), st).
Proof.
  intros Hq. unfold ngx_queue_middle, ngx_queue_head, ngx_queue_last. pose proof (queue_ring _ _ _ Hq) as [_ Hp]. pose proof (queue_ends st h [] L Hq) as [Hn _].
  change (last_or h []) with h in Hn. rewrite (run_next _ _ _ _ Hn), (run_prev _ _ _ _ Hp). pose proof Hq as Hq'. pose proof (queue_size _ _ _ Hq) as Hsz.
  destruct (decide (2 <= length L)%nat) as [Hlen|Hlen].
  2: { destruct L as [|x [|y K]]; [..|cbn in Hlen; lia]; cbn; by rewrite Z.eqb_refl. }
  destruct (lookup_lt_is_Some_2 L 0) as [x H0]; [lia|]. destruct (lookup_lt_is_Some_2 L (length L - 1)) as [l Hl]; [lia|].
  assert (first_or h L = x) as Hx by (unfold first_or; by rewrite head_lookup, H0). rewrite Hx in *.
  assert (pv st h = Some l) as Hpl by (apply (queue_last_nth _ _ _ Hq _ _ Hl); lia). replace (last_or h L) with l in * by congruence.
  rewrite (queue_index _ _ _ Hq _ _ _ _ H0 Hl), bool_decide_eq_false_2 by lia. rewrite (run_next _ _ _ _ Hn). unfold with_fuel.
  destruct (middle_loop_ok _ _ _ Hq 0 (S (size st)) x x H0 H0) as (m & -> & ->); [lia | cbn in Hsz; lia | done].
Qed.

(** ** Sorting *)
Section SortOk.
Context (cmp : ptr -> ptr -> Z) (h : ptr).

(** The search for the place of [q], back through the elements in order, ends where the
    one of [ngx_sort] over an array does. *)
Lemma sort_scan_shift st q b l : forall fuel, chain st h l b -> (h ∉ l) -> l <> [] -> (length l <= fuel)%nat -> forall hole r,
  exists l1 l2 x, l = l1 ++ l2 /\ sort_shift cmp q (l ++ hole :: r) (length l) = (length l1, l1 ++ x :: l2 ++ r) /\
    sort_scan cmp fuel h (last_or h l) q st = Some (last_or h l1, st).
Proof using Type.
  revert b. induction l as [|y l IH] using rev_ind; [done|]. intros b fuel Hc Hh _ Hf hole r. rewrite last_or_snoc.
  destruct fuel as [|fuel]; [rewrite length_app in Hf; cbn in Hf; lia|]. rewrite length_app, Nat.add_comm in Hf |- *.
  cbn [length Nat.add sort_shift sort_scan] in *.
  rewrite <- app_assoc. cbn [app]. rewrite list_lookup_middle by done. rewrite Z.ltb_antisym. destruct (cmp y q <=? 0); cbn [negb].
  { exists (l ++ [y]), [], hole. rewrite app_nil_r, length_app, Nat.add_comm, <- app_assoc, last_or_snoc. done. }
  rewrite insert_app_r_alt by lia. replace (S (length l) - length l)%nat with 1%nat by lia. cbn [insert list_insert].
  apply chain_app in Hc as [Hc _]. pose proof Hc as Hlink. rewrite <- (app_nil_r l) in Hlink. apply chain_link in Hlink as [_ Hp]. cbn in Hp.
  rewrite (run_prev _ _ _ _ Hp). destruct (decide (l = [])) as [->|Hl].
  { exists [], [y], y. cbn. by rewrite Z.eqb_refl. }
  rewrite (proj2 (Z.eqb_neq (last_or h l) h)).
  - destruct (IH y fuel Hc ltac:(set_solver) Hl ltac:(lia) y (y :: r)) as (l1 & l2 & x & -> & -> & Hrun).
    exists l1, (l2 ++ [y]), x. rewrite <- !app_assoc. done.
  - unfold last_or. destruct (last l) as [z|] eqn:E; [|by apply last_None in E]. apply last_Some in E as (? & ->). cbn. set_solver.
Qed.

Lemma chain_prefix st a L1 L2 b : chain st a (L1 ++ L2) b -> chain st a L1 (first_or b L2).
Proof using Type. destruct L2 as [|y L2]; [by rewrite app_nil_r|]. by intros [? _]%chain_app. Qed.

Lemma sort_queue_loop_ok r : forall st l fuel, queue st h (l ++ r) -> l <> [] -> (length r <= fuel)%nat ->
  exists st', sort_queue_loop cmp fuel h (first_or h r) st = Some (tt, st') /\
    queue st' h (sort_loop cmp (l ++ r) (length l) (length r)) /\ same_off (h :: l ++ r) st st'.
Proof using Type.
  induction r as [|q r IH]; intros st l fuel Hq Hl Hf.
  { exists st. unfold first_or. split_and!; [destruct fuel; cbn; by rewrite Z.eqb_refl | done | apply same_off_refl]. }
  destruct fuel as [|fuel]; [cbn in Hf; lia|]. cbn [length sort_queue_loop sort_loop]. change (first_or h (q :: r)) with q.
  rewrite list_lookup_middle by done. destruct Hq as [Hd Hc].
  assert (NoDup (h :: l ++ r) /\ (q ∉ h :: l ++ r) /\ (h ∉ l)) as (Hd' & Hqn & Hhl).
  { revert Hd. rewrite !list.NoDup_cons, !list.NoDup_app, list.NoDup_cons. set_solver. }
  pose proof (chain_link st h l (q :: r) h Hc) as [_ Hp]. cbn [first_or head default] in Hp. change (default h (Some q)) with q in Hp.
  pose proof Hc as [_ Hcr]%chain_app. pose proof (chain_link st q [] r h Hcr) as [Hn _]. change (last_or q []) with q in Hn.
  rewrite (proj2 (Z.eqb_neq q h)) by set_solver. rewrite (run_prev _ _ _ _ Hp), (run_next _ _ _ _ Hn).
  destruct (remove_ok st h l q r (conj Hd Hc)) as (st1 & Hrun1 & Hq1 & Hs1). rewrite (bind_run _ _ _ _ _ Hrun1).
  pose proof (queue_size _ _ _ Hq1) as Hsz. cbn in Hsz. rewrite length_app in Hsz.
  destruct (sort_scan_shift st1 q _ l (S (size st1)) (chain_prefix _ _ _ _ _ (proj2 Hq1)) Hhl Hl ltac:(lia) q r) as (l1 & l2 & x & -> & -> & Hrun2).
  rewrite (bind_run _ _ _ _ _ (Hrun2 : with_fuel _ st1 = _)). rewrite <- app_assoc in Hq1, Hqn.
  destruct (insert_after_ok st1 h l1 (l2 ++ r) q Hq1) as (st2 & Hrun3 & Hq2 & Hs2); [|done|].
  { apply Hs1. eauto using pv_live. }
  rewrite (bind_run _ _ _ _ _ Hrun3). rewrite insert_app_r_alt, Nat.sub_diag by done. cbn [insert list_insert].
  replace (l1 ++ q :: l2 ++ r) with ((l1 ++ q :: l2) ++ r) in Hq2 |- * by (by rewrite <- app_assoc).
  destruct (IH st2 (l1 ++ q :: l2) fuel Hq2) as (st' & Hrun & Hqq & Hs); [by destruct l1 | cbn in Hf; lia |].
  exists st'. split_and!; [done| |].
  - replace (S (length (l1 ++ l2))) with (length (l1 ++ q :: l2)) by (rewrite !length_app; cbn; lia). done.
  - eapply same_off_trans; [eapply same_off_weaken; [|exact Hs1]; set_solver|]. eapply same_off_trans; eapply same_off_weaken; [|exact Hs2| |exact Hs]; set_solver.
Qed.

Lemma queue_sort_ok st L : queue st h L ->
  exists st', ngx_queue_sort cmp h st = Some (tt, st') /\ queue st' h (ngx_sort cmp true L) /\ same_off (h :: L) st st'.
Proof using Type.
  intros Hq. unfold ngx_queue_sort, ngx_queue_head, ngx_queue_last. pose proof (queue_ring _ _ _ Hq) as [_ Hp]. pose proof (queue_ends st h [] L Hq) as [Hn _].
  change (last_or h []) with h in Hn. rewrite (run_next _ _ _ _ Hn), (run_prev _ _ _ _ Hp). pose proof (queue_size _ _ _ Hq) as Hsz.
  destruct L as [|x [|y K]]; [exists st; cbn; rewrite Z.eqb_refl; split_and!; done | exists st; cbn; rewrite Z.eqb_refl; split_and!; done|].
  rewrite (proj2 (Z.eqb_neq _ _)).
  - pose proof Hq as [_ [_ [[Hn' _] _]]]. change (first_or h (x :: y :: K)) with x. rewrite (run_next _ _ _ _ Hn'). unfold with_fuel.
    destruct (sort_queue_loop_ok (y :: K) st [x] (S (size st)) ) as (st' & Hrun & Hq' & Hs); [done|done|cbn in *; lia|].
    by exists st'.
  - rewrite last_or_cons, last_or_cons. pose proof (last_or_in y K). destruct Hq as [[_ [Hd _]%list.NoDup_cons]%list.NoDup_cons _]. cbn. intros E. set_solver.
Qed.
End SortOk.

Lemma init_ok st h : is_Some (st !! h) ->
  exists st', ngx_queue_init h st = Some (tt, st') /\ queue st' h [] /\ same_off [h] st st'.
Proof.
  intros Hh. unfold ngx_queue_init. do 2 qstep. eexists. split; [reflexivity|]. split_and!; [|same].
  split; [apply NoDup_singleton|]. split; peek.
Qed.
Lemma empty_ok st h L : queue st h L -> ngx_queue_empty h st = Some (bool_decide (L = []), st).
Proof.
  intros Hq. unfold ngx_queue_empty. rewrite (run_prev _ _ _ _ (proj2 (queue_ring _ _ _ Hq))). unfold ret. do 2 f_equal.
  destruct L as [|x L]; [by rewrite Z.eqb_refl|]. rewrite bool_decide_eq_false_2 by done. apply Z.eqb_neq.
  rewrite last_or_cons. pose proof (last_or_in x L). destruct Hq as [[Hn _]%list.NoDup_cons _]. intros E. by rewrite E in Hn.
Qed.

(** * The theorem *)

(** C29.  Queues.  A ring of links in memory holds a sequence, and every operation does to
    it what its name says, faults on no pointer and writes to no link outside the
    elements it is given: [ngx_queue_init] makes the empty sequence,
    [ngx_queue_empty] tells it; [ngx_queue_insert_head], [ngx_queue_insert_after] (an element)
    and [ngx_queue_insert_tail] put an element in its place; [ngx_queue_remove]
    takes one out; [ngx_queue_split] cuts the sequence before an element and leaves the rest
    to another sentinel; [ngx_queue_add] appends a queue, empty or not.
    [ngx_queue_middle] returns the element in the middle, the first of
    the second half when there are two, and the sentinel of an empty queue.
    [ngx_queue_sort] makes the sequence [ngx_sort] makes of an array with the same elements, with
    any comparison; so it is sorted, and equal elements keep their order. *)
Theorem queue_correct (cmp : ptr -> ptr -> Z) (P : ptr -> Prop) st h L :
  (is_Some (st !! h) -> exists st', ngx_queue_init h st = Some (tt, st') /\ queue st' h [] /\ same_off [h] st st') /\
  (queue st h L ->
    ngx_queue_empty h st = Some (bool_decide (L = []), st) /\
    ngx_queue_middle h st = Some (default h (L !! (length L / 2)%nat), st) /\
    (forall x, is_Some (st !! x) -> (x ∉ h :: L) ->
      (exists st', ngx_queue_insert_head h x st = Some (tt, st') /\ queue st' h (x :: L) /\ same_off (h :: x :: L) st st') /\
      (exists st', ngx_queue_insert_tail h x st = Some (tt, st') /\ queue st' h (L ++ [x]) /\ same_off (h :: x :: L) st st') /\
      (forall L1 p L2, L = L1 ++ p :: L2 ->
        (exists st', ngx_queue_insert_after p x st = Some (tt, st') /\ queue st' h (L1 ++ p :: x :: L2) /\ same_off (h :: x :: L) st st') /\
        (exists st', ngx_queue_split h p x st = Some (tt, st') /\ queue st' h L1 /\ queue st' x (p :: L2) /\ same_off (h :: x :: L) st st'))) /\
    (forall L1 x L2, L = L1 ++ x :: L2 ->
      exists st', ngx_queue_remove x st = Some (tt, st') /\ queue st' h (L1 ++ L2) /\ same_off (h :: L1 ++ L2) st st') /\
    (forall n N, queue st n N -> (forall x, x ∈ h :: L -> x ∉ n :: N) ->
      exists st', ngx_queue_add h n st = Some (tt, st') /\ queue st' h (L ++ N) /\ same_off (h :: n :: L ++ N) st st') /\
    (exists st', ngx_queue_sort cmp h st = Some (tt, st') /\ same_off (h :: L) st st' /\
      let sorted := ngx_sort cmp true L in
      queue st' h sorted /\
      (Comparison P cmp -> Forall P L -> sorted ≡ₚ L /\ StronglySorted (fun x y => cmp x y <= 0) sorted /\
        (forall a, P a -> equals cmp a sorted = equals cmp a L)))).
Proof.
  split; [apply init_ok|]. intros Hq. split_and!.
  - by apply empty_ok.
  - by apply middle_ok.
  - intros x Hx Hnin. split_and!.
    + by apply (insert_after_ok st h [] L).
    + by apply insert_tail_ok.
    + intros L1 p L2 ->. split.
      * destruct (insert_after_ok st h (L1 ++ [p]) L2 x) as (st' & Hrun & Hq' & Hs); rewrite <- ?app_assoc; [done..|].
        rewrite last_or_snoc in Hrun. rewrite <- app_assoc in Hq', Hs. by exists st'.
      * by apply split_ok.
  - intros L1 x L2 ->. by apply remove_ok.
  - intros n N Hn Hdis. by apply add_ok.
  - destruct (queue_sort_ok cmp h st L Hq) as (st' & Hrun & Hq' & Hs). exists st'. split; [done|]. split; [done|]. cbn zeta. split; [done|].
    intros Hcmp HP. by apply (ngx_sort_ok P).
Qed.

(** A queue of four elements, ordered by their last bit. *)
Definition four : qstate :=
  list_to_map [(8, mk_queue 15 13); (13, mk_queue 8 12); (12, mk_queue 13 14); (14, mk_queue 12 15); (15, mk_queue 14 8)].
Lemma queue_correct_witness :
  queue four 8 [13; 12; 14; 15] /\
  exists st', ngx_queue_sort (fun a b => a mod 2 - b mod 2) 8 four = Some (tt, st') /\ queue st' 8 [12; 14; 13; 15].
Proof.
  assert (queue four 8 [13; 12; 14; 15]) as Hq.
  { split; [by apply (bool_decide_unpack _); vm_compute|]. repeat split. }
  split; [exact Hq|].
  destruct (queue_correct (fun a b => a mod 2 - b mod 2) (fun _ => True) four 8 [13; 12; 14; 15]) as [_ H].
  destruct (H Hq) as (_ & _ & _ & _ & _ & st' & Hrun & _ & Hs & _). by exists st'.
Defined.
End Queue.
