(* ===== verification/Conf.v ===== *)
(** Values of directives: the sizes and times of nginx/src/core/ngx_parse.c, and the
    handlers of nginx/src/core/ngx_conf_file.c that put them into slots.

    A slot is the number at an offset of a module's configuration, [NGX_CONF_UNSET]
    until a directive sets it. *)
From stdpp Require Import base list numbers sets strings.
From S2P Require Import Prelude Str Search.
Import Str Search.
Local Open Scope Z_scope.

Module Conf.

Definition NGX_ERROR : Z := -1.
Definition NGX_PARSE_LARGE_TIME : Z := -2.

(** * Sizes

    [None] is the read of the byte before an empty line. *)

(** [ssize_t] and [off_t] have 64 bits, as [ngx_int_t]: the functions have the same body. *)
Definition ngx_atosz : list Z -> Z := ngx_atoi.
Definition ngx_atoof : list Z -> Z := ngx_atoi.

Definition ngx_parse_size (line : list Z) : option Z :=
  match last line with
  | None => None
  | Some unit =>
      let len := length line in
      let '(len, scale) :=
        if (unit =? 75) || (unit =? 107) then ((len - 1)%nat, 1024)
        else if (unit =? 77) || (unit =? 109) then ((len - 1)%nat, 1024 * 1024)
        else (len, 1) in
      let size := ngx_atosz (take len line) in
      Some (if size =? NGX_ERROR then NGX_ERROR else s64 (size * scale))
  end.

Definition ngx_parse_offset (line : list Z) : option Z :=
  match last line with
  | None => None
  | Some unit =>
      let len := length line in
      let '(len, scale) :=
        if (unit =? 75) || (unit =? 107) then ((len - 1)%nat, 1024)
        else if (unit =? 77) || (unit =? 109) then ((len - 1)%nat, 1024 * 1024)
        else if (unit =? 71) || (unit =? 103) then ((len - 1)%nat, 1024 * 1024 * 1024)
        else (len, 1) in
      let offset := ngx_atoof (take len line) in
      Some (if offset =? NGX_ERROR then NGX_ERROR else s64 (offset * scale))
  end.

(** * Times

    The bytes of the line and, after them, those of the memory behind it, which the
    test for [ms] may read; [None] is a read behind both. *)

Definition st_start : Z := 0.
Definition st_year : Z := 1.
Definition st_month : Z := 2.
Definition st_week : Z := 3.
Definition st_day : Z := 4.
Definition st_hour : Z := 5.
Definition st_min : Z := 6.
Definition st_sec : Z := 7.
Definition st_msec : Z := 8.
Definition st_last : Z := 9.

(** The [switch]: an error, or the rest of the line, the step, the largest value and the scale. *)
Definition time_unit (sec : bool) (after : list Z) (c : Z) (p : list Z) (step : Z) : option (option (list Z * Z * Z * Z)) :=
  let unit limit st max scale := Some (if limit <? step then None else Some (p, st, max, scale)) in
  if c =? 121 then unit st_start st_year 68 (60 * 60 * 24 * 365)
  else if c =? 77 then unit st_year st_month 828 (60 * 60 * 24 * 30)
  else if c =? 119 then unit st_month st_week 3550 (60 * 60 * 24 * 7)
  else if c =? 100 then unit st_week st_day 24855 (60 * 60 * 24)
  else if c =? 104 then unit st_day st_hour 596523 (60 * 60)
  else if c =? 109 then
    match p ++ after with
    | [] => None
    | c' :: _ =>
        if c' =? 115 then
          Some (if sec || (st_sec <? step) then None else Some (tail p, st_msec, 2147483647, 1))
        else unit st_hour st_min 35791394 60
    end
  else if c =? 115 then unit st_min st_sec 2147483647 1
  else if c =? 32 then unit st_min st_last 2147483647 1
  else Some None.

(** [while (p < last && *p == ' ')]. *)
Fixpoint skip_spaces (p : list Z) : list Z :=
  match p with
  | c :: p' => if c =? 32 then skip_spaces p' else p
  | [] => []
  end.

Definition is_digit (c : Z) : bool := (48 <=? c) && (c <=? 57).

Fixpoint parse_time_loop (fuel : nat) (sec : bool) (after p : list Z) (value total step : Z) (valid : bool) : option Z :=
  let scale := if sec then 1 else 1000 in
  match p with
  | [] => Some (if valid then s64 (total + s64 (value * scale)) else NGX_ERROR)
  | c :: p =>
      match fuel with
      | O => None
      | S fuel =>
          if is_digit c then parse_time_loop fuel sec after p (s64 (value * 10 + (c - 48))) total step true
          else
            match time_unit sec after c p step with
            | None => None
            | Some None => Some NGX_ERROR
            | Some (Some (p, step, max, scale)) =>
                let '(scale, max) := if negb (step =? st_msec) && negb sec then (scale * 1000, max / 1000) else (scale, max) in
                if max <? u64 value then Some NGX_ERROR
                else
                  let total := s64 (total + s64 (value * scale)) in
                  if 2147483647 <? u64 total then Some NGX_ERROR
                  else parse_time_loop fuel sec after (skip_spaces p) 0 total step valid
            end
      end
  end.
Definition ngx_parse_time (sec : bool) (line after : list Z) : option Z :=
  parse_time_loop (length line) sec after line 0 0 (if sec then st_start else st_month) false.

(** * Slots

    What a handler returns, and the slot after it.  A post handler gets the slot
    and may change it.  The arguments of a directive are strings that end in a zero byte. *)

Definition NGX_CONF_UNSET : Z := -1.
Definition NGX_CONF_UNSET_UINT : Z := 2 ^ 64 - 1.
Definition NGX_CONF_UNSET_SIZE : Z := 2 ^ 64 - 1.
Definition NGX_CONF_UNSET_MSEC : Z := 2 ^ 64 - 1.
Inductive conf_result := NGX_CONF_OK | NGX_CONF_ERROR | conf_message (m : string).

Section Slots.
Context (post : option (Z -> conf_result * Z)).

Definition post_handler (slot : Z) : conf_result * Z :=
  match post with Some handler => handler slot | None => (NGX_CONF_OK, slot) end.

Definition ngx_conf_set_flag_slot (value : list Z) (fp : Z) : option (conf_result * Z) :=
  if negb (fp =? NGX_CONF_UNSET) then Some (conf_message "is duplicate", fp)
  else
    match ngx_strcasecmp (cstr value) (cstr (bytes "on")) with
    | None => None
    | Some rc =>
        if rc =? 0 then Some (post_handler 1)
        else
          match ngx_strcasecmp (cstr value) (cstr (bytes "off")) with
          | None => None
          | Some rc => if rc =? 0 then Some (post_handler 0) else Some (NGX_CONF_ERROR, fp)
          end
    end.

Definition ngx_conf_set_num_slot (value : list Z) (np : Z) : option (conf_result * Z) :=
  if negb (np =? NGX_CONF_UNSET) then Some (conf_message "is duplicate", np)
  else
    let np := ngx_atoi value in
    if np =? NGX_ERROR then Some (conf_message "invalid number", np) else Some (post_handler np).

Definition ngx_conf_set_size_slot (value : list Z) (sp : Z) : option (conf_result * Z) :=
  if negb (sp =? NGX_CONF_UNSET_SIZE) then Some (conf_message "is duplicate", sp)
  else
    match ngx_parse_size value with
    | None => None
    | Some size =>
        let sp := u64 size in
        if sp =? u64 NGX_ERROR then Some (conf_message "invalid value", sp) else Some (post_handler sp)
    end.

Definition ngx_conf_set_off_slot (value : list Z) (op : Z) : option (conf_result * Z) :=
  if negb (op =? NGX_CONF_UNSET) then Some (conf_message "is duplicate", op)
  else
    match ngx_parse_offset value with
    | None => None
    | Some op => if op =? NGX_ERROR then Some (conf_message "invalid value", op) else Some (post_handler op)
    end.

Definition ngx_conf_set_msec_slot (value : list Z) (msp : Z) : option (conf_result * Z) :=
  if negb (msp =? NGX_CONF_UNSET_MSEC) then Some (conf_message "is duplicate", msp)
  else
    match ngx_parse_time false value [0] with
    | None => None
    | Some time =>
        let msp := u64 time in
        if msp =? u64 NGX_ERROR then Some (conf_message "invalid value", msp)
        else if msp =? u64 NGX_PARSE_LARGE_TIME then Some (conf_message "value must be less than 597 hours", msp)
        else Some (post_handler msp)
    end.

Definition ngx_conf_set_sec_slot (value : list Z) (sp : Z) : option (conf_result * Z) :=
  if negb (sp =? NGX_CONF_UNSET) then Some (conf_message "is duplicate", sp)
  else
    match ngx_parse_time true value [0] with
    | None => None
    | Some sp =>
        if sp =? NGX_ERROR then Some (conf_message "invalid value", sp)
        else if sp =? NGX_PARSE_LARGE_TIME then Some (conf_message "value must be less than 68 years", sp)
        else Some (post_handler sp)
    end.
End Slots.

(** [bufs->num] and [bufs->size]. *)
Definition ngx_conf_set_bufs_slot (value1 value2 : list Z) (bufs : Z * Z) : option (conf_result * (Z * Z)) :=
  let '(num, size) := bufs in
  if negb (num =? 0) then Some (conf_message "is duplicate", bufs)
  else
    let num := ngx_atoi value1 in
    if (num =? NGX_ERROR) || (num =? 0) then Some (conf_message "invalid value", (num, size))
    else
      match ngx_parse_size value2 with
      | None => None
      | Some size =>
          let size := u64 size in
          if (size =? u64 NGX_ERROR) || (size =? 0) then Some (conf_message "invalid value", (num, size))
          else Some (NGX_CONF_OK, (num, size))
      end.

(** The entries of an enumeration or a bit mask, up to the one with an empty name, and the search for
    a name among them. *)
Fixpoint find_name (e : list (list Z * Z)) (value : list Z) : option (option Z) :=
  match e with
  | [] => Some None
  | (name, v) :: e =>
      if negb (length name =? length value)%nat then find_name e value
      else
        match ngx_strcasecmp (cstr name) (cstr value) with
        | None => None
        | Some rc => if negb (rc =? 0) then find_name e value else Some (Some v)
        end
  end.
Definition ngx_conf_set_enum_slot (e : list (list Z * Z)) (value : list Z) (np : Z) : option (conf_result * Z) :=
  if negb (np =? NGX_CONF_UNSET_UINT) then Some (conf_message "is duplicate", np)
  else
    match find_name e value with
    | None => None
    | Some (Some v) => Some (NGX_CONF_OK, v)
    | Some None => Some (NGX_CONF_ERROR, np)
    end.
Fixpoint ngx_conf_set_bitmask_slot (mask : list (list Z * Z)) (values : list (list Z)) (np : Z) : option (conf_result * Z) :=
  match values with
  | [] => Some (NGX_CONF_OK, np)
  | value :: values =>
      match find_name mask value with
      | None => None
      | Some None => Some (NGX_CONF_ERROR, np)
      | Some (Some m) =>
          ngx_conf_set_bitmask_slot mask values (if negb (Z.land np m =? 0) then np else Z.lor np m)
      end
  end.

(** A post handler. *)
Definition ngx_conf_check_num_bounds (low high : Z) (np : Z) : conf_result * Z :=
  if high =? -1 then if low <=? np then (NGX_CONF_OK, np) else (NGX_CONF_ERROR, np)
  else if (low <=? np) && (np <=? high) then (NGX_CONF_OK, np) else (NGX_CONF_ERROR, np).

(** * What a time means *)

Inductive unit_t := Year | Month | Week | Day | Hour | Min | Sec | Msec | Blank.
#[export] Instance unit_eq_dec : EqDecision unit_t.
Proof. solve_decision. Defined.
Definition rank (u : unit_t) : Z :=
  match u with Year => 1 | Month => 2 | Week => 3 | Day => 4 | Hour => 5 | Min => 6 | Sec => 7 | Msec => 8 | Blank => 7 end.
Definition seconds (u : unit_t) : Z :=
  match u with
  | Year => 365 * 86400 | Month => 30 * 86400 | Week => 7 * 86400 | Day => 86400 | Hour => 3600 | Min => 60
  | Sec | Msec | Blank => 1
  end.
(** One of a unit, in seconds or in milliseconds. *)
Definition amount (sec : bool) (u : unit_t) : Z :=
  if sec then seconds u else if decide (u = Msec) then 1 else seconds u * 1000.

(** A line as numbers with units and a last number without; [None] if it has another character. *)
Fixpoint lex_number (line : list Z) (v : Z) (any : bool) : Z * bool * list Z :=
  match line with
  | c :: line' => if is_digit c then lex_number line' (v * 10 + (c - 48)) true else (v, any, line)
  | [] => (v, any, [])
  end.
Definition lex_unit (line : list Z) : option (unit_t * list Z) :=
  match line with
  | c :: r =>
      if c =? 121 then Some (Year, r) else if c =? 77 then Some (Month, r) else if c =? 119 then Some (Week, r)
      else if c =? 100 then Some (Day, r) else if c =? 104 then Some (Hour, r)
      else if c =? 109 then match r with c' :: r' => if c' =? 115 then Some (Msec, r') else Some (Min, r) | [] => Some (Min, r) end
      else if c =? 115 then Some (Sec, r) else if c =? 32 then Some (Blank, r) else None
  | [] => None
  end.
Fixpoint lex (fuel : nat) (line : list Z) (any : bool) : option (list (Z * unit_t) * Z * bool) :=
  let '(v, any, rest) := lex_number line 0 any in
  match rest, fuel with
  | [], _ => Some ([], v, any)
  | _, O => None
  | _, S fuel =>
      match lex_unit rest with
      | None => None
      | Some (u, rest) =>
          match lex fuel (skip_spaces rest) any with
          | Some (items, last, any) => Some ((v, u) :: items, last, any)
          | None => None
          end
      end
  end.

(** The units go down, the one without a name is the last, and no sum is over 2^31 - 1. *)
Fixpoint time_sum (sec : bool) (step total : Z) (items : list (Z * unit_t)) : option Z :=
  match items with
  | [] => Some total
  | (v, u) :: items =>
      let total := total + v * amount sec u in
      if (step <? rank u) && negb (sec && bool_decide (u = Msec)) && (total <=? 2147483647)
      then time_sum sec (if decide (u = Blank) then 9 else rank u) total items
      else None
  end.
Definition time_of (sec : bool) (line : list Z) : Z :=
  match lex (length line) line false with
  | Some (items, last, true) =>
      match time_sum sec (if sec then 0 else 2) 0 items with
      | Some total => total + last * (if sec then 1 else 1000)
      | None => NGX_ERROR
      end
  | _ => NGX_ERROR
  end.
Definition numbers_fit (line : list Z) : Prop :=
  match lex (length line) line false with
  | Some (items, last, _) => Forall (fun x => x.1 < 2 ^ 63) items /\ last < 2 ^ 63
  | None => True
  end.

(** ** The parser reads what the line means *)

Lemma s64_plus_s64 a b : s64 (a + s64 b) = s64 (a + b).
Proof.
  unfold s64, wrapS. change (64 - 1) with 63. f_equal. rewrite (Z.mod_eq (b + 2 ^ 63)) by lia. set (q := (b + 2 ^ 63) / 2 ^ 64).
  replace (a + (b + 2 ^ 63 - 2 ^ 64 * q - 2 ^ 63) + 2 ^ 63) with (a + b + 2 ^ 63 + (- q) * 2 ^ 64) by lia. by rewrite Z_mod_plus_full.
Qed.

Section Times.
Context (sec : bool) (after : list Z).
Abbreviation loop n p v total step valid := (parse_time_loop n sec (0 :: after) p v total step valid).

Lemma skip_spaces_length p : (length (skip_spaces p) <= length p)%nat.
Proof using Type. induction p as [|c p IH]; cbn; [done|]. case_match; cbn; lia. Qed.
Lemma lex_number_length p v any : (length (lex_number p v any).2 <= length p)%nat.
Proof using Type. revert v any. induction p as [|c p IH]; intros v any; cbn; [done|]. case_match; [|done]. etrans; [apply IH|lia]. Qed.
Lemma lex_number_head p v any : match (lex_number p v any).2 with c :: _ => is_digit c = false | [] => True end.
Proof using Type. revert v any. induction p as [|c p IH]; intros v any; cbn; [done|]. destruct (is_digit c) eqn:E; [apply IH|by cbn]. Qed.
Lemma lex_number_ge p v any : 0 <= v -> v <= (lex_number p v any).1.1.
Proof using Type.
  revert v any. induction p as [|c p IH]; intros v any Hv; cbn; [done|]. destruct (is_digit c) eqn:E; [|done].
  unfold is_digit in E. etrans; [|apply IH]; lia.
Qed.
Lemma lex_number_rest p v any v' any' : (lex_number p v any).2 = (lex_number p v' any').2.
Proof using Type. revert v any v' any'. induction p as [|c p IH]; intros v any v' any'; cbn; [done|]. case_match; [apply IH|done]. Qed.

(** The digits of a number. *)
Lemma loop_number p total step : forall n v valid, (length p <= n)%nat -> 0 <= v -> (lex_number p v valid).1.1 < 2 ^ 63 ->
  exists n', (length (lex_number p v valid).2 <= n')%nat /\
    loop n p v total step valid = loop n' (lex_number p v valid).2 (lex_number p v valid).1.1 total step (lex_number p v valid).1.2.
Proof using Type.
  induction p as [|c p IH]; intros n v valid Hn Hv Hb; cbn [lex_number] in *; [by exists n; split; [cbn; lia|]|].
  destruct (is_digit c) eqn:E; [|by exists n]. destruct n as [|n]; [cbn in Hn; lia|]. cbn [parse_time_loop]. rewrite E.
  unfold is_digit in E. pose proof (lex_number_ge p (v * 10 + (c - 48)) true ltac:(lia)). rewrite s64_small by lia.
  apply IH; [cbn in Hn; lia | lia | done].
Qed.
Lemma loop_digits p w any total step : forall n v valid, (length p <= n)%nat ->
  exists n' v' valid', (length (lex_number p w any).2 <= n')%nat /\
    loop n p v total step valid = loop n' (lex_number p w any).2 v' total step valid'.
Proof using Type.
  revert w any. induction p as [|c p IH]; intros w any n v valid Hn; cbn [lex_number]; [by exists n, v, valid|].
  destruct (is_digit c) eqn:E; [|by exists n, v, valid]. destruct n as [|n]; [cbn in Hn; lia|]. cbn [parse_time_loop]. rewrite E.
  apply IH. cbn in Hn. lia.
Qed.

(** The [switch] and the units; the largest values of the table are those whose amount is at most
    2^31 - 1. *)
Definition unit_step (u : unit_t) : Z := if decide (u = Blank) then 9 else rank u.
Definition unit_max (u : unit_t) : Z :=
  match u with Year => 68 | Month => 828 | Week => 3550 | Day => 24855 | Hour => 596523 | Min => 35791394 | _ => 2147483647 end.
Definition allowed (step : Z) (u : unit_t) : bool := (step <? rank u) && negb (sec && bool_decide (u = Msec)).

Lemma unit_allowed u limit st (p : list Z) step : limit + 1 = rank u -> st = unit_step u -> u <> Msec ->
  Some (if limit <? step then None else Some (p, st, unit_max u, seconds u)) =
  Some (if allowed step u then Some (p, unit_step u, unit_max u, seconds u) else None).
Proof using Type.
  intros Hl -> Hu. unfold allowed. rewrite bool_decide_eq_false_2, andb_false_r, andb_true_r by done.
  by destruct (Z.ltb_spec limit step), (Z.ltb_spec step (rank u)); try lia.
Qed.
Lemma time_unit_lex c p step : is_digit c = false ->
  time_unit sec (0 :: after) c p step =
    match lex_unit (c :: p) with
    | None => Some None
    | Some (u, r) => Some (if allowed step u then Some (r, unit_step u, unit_max u, seconds u) else None)
    end.
Proof using Type.
  intros _. unfold time_unit, lex_unit.
  destruct (c =? 121); [by apply (unit_allowed Year)|]. destruct (c =? 77); [by apply (unit_allowed Month)|]. destruct (c =? 119); [by apply (unit_allowed Week)|].
  destruct (c =? 100); [by apply (unit_allowed Day)|]. destruct (c =? 104); [by apply (unit_allowed Hour)|]. destruct (c =? 109).
  - destruct p as [|c' p]; cbn [app]; [by apply (unit_allowed Min)|]. destruct (c' =? 115); [|by apply (unit_allowed Min)].
    unfold allowed, st_sec. cbn [tail rank]. destruct sec; cbn [orb andb negb]; [by rewrite andb_false_r|].
    rewrite andb_true_r. by destruct (Z.ltb_spec 7 step), (Z.ltb_spec step 8); try lia.
  - destruct (c =? 115); [by apply (unit_allowed Sec)|]. destruct (c =? 32); [by apply (unit_allowed Blank)|done].
Qed.
Lemma unit_bound u : negb (sec && bool_decide (u = Msec)) = true ->
  let '(scale, max) := if negb (unit_step u =? st_msec) && negb sec then (seconds u * 1000, unit_max u / 1000) else (seconds u, unit_max u) in
  scale = amount sec u /\ 0 < scale /\ max * scale <= 2147483647 < (max + 1) * scale.
Proof using Type. destruct sec, u; try done; intros _; by vm_compute. Qed.

Lemma amount_pos u : 0 < amount sec u.
Proof using Type. by destruct sec, u. Qed.

(** One number with its unit. *)
Lemma loop_unit n c p v total step valid : is_digit c = false -> (length p <= n)%nat -> 0 <= v < 2 ^ 63 -> 0 <= total <= 2147483647 ->
  loop (S n) (c :: p) v total step valid =
    match lex_unit (c :: p) with
    | None => Some NGX_ERROR
    | Some (u, r) =>
        if allowed step u && (total + v * amount sec u <=? 2147483647)
        then loop n (skip_spaces r) 0 (total + v * amount sec u) (unit_step u) valid else Some NGX_ERROR
    end.
Proof using Type.
  intros Hc Hn Hv Ht. cbn [parse_time_loop]. rewrite Hc, time_unit_lex by done. destruct (lex_unit (c :: p)) as [[u r]|]; [|done].
  destruct (allowed step u) eqn:Ha; [|done]. cbn [andb]. apply andb_true_iff in Ha as [_ Ha].
  pose proof (unit_bound u Ha) as Hb. destruct (if _ : bool then _ else _) as [scale max]. destruct Hb as (-> & Hs & H1 & H2).
  rewrite u64_small by lia. destruct (Z.ltb_spec max v) as [Hm|Hm].
  - assert (2147483647 < v * amount sec u) by nia. by rewrite (proj2 (Z.leb_gt _ _)) by lia.
  - assert (0 <= v * amount sec u <= 2147483647) by nia. rewrite (s64_small (v * _)), s64_small, u64_small by lia.
    by destruct (Z.ltb_spec 2147483647 (total + v * amount sec u)), (Z.leb_spec (total + v * amount sec u) 2147483647); try lia.
Qed.
Lemma loop_unit_any n c p v total step valid : is_digit c = false ->
  loop (S n) (c :: p) v total step valid = Some NGX_ERROR \/
  exists u r total', lex_unit (c :: p) = Some (u, r) /\ loop (S n) (c :: p) v total step valid = loop n (skip_spaces r) 0 total' (unit_step u) valid.
Proof using Type.
  intros Hc. cbn [parse_time_loop]. rewrite Hc, time_unit_lex by done. destruct (lex_unit (c :: p)) as [[u r]|]; [|by left].
  destruct (allowed step u); [|by left]. destruct (if _ : bool then _ else _) as [scale max].
  destruct (max <? u64 v); [by left|]. destruct (2147483647 <? _); [by left|]. right. by eexists _, _, _.
Qed.

Lemma lex_unit_length line u r : lex_unit line = Some (u, r) -> (length r < length line)%nat.
Proof using Type. unfold lex_unit. intros H. repeat case_match; simplify_eq; cbn; lia. Qed.

(** A line of numbers and units. *)
Lemma loop_lex fuel : forall line n total step valid items v any, (length line <= fuel)%nat -> (length line <= n)%nat ->
  0 <= total <= 2147483647 -> lex fuel line valid = Some (items, v, any) -> Forall (fun x => x.1 < 2 ^ 63) items -> v < 2 ^ 63 ->
  loop n line 0 total step valid =
    Some (if any then match time_sum sec step total items with
                      | Some total => s64 (total + s64 (v * (if sec then 1 else 1000)))
                      | None => NGX_ERROR
                      end else NGX_ERROR).
Proof using Type.
  induction fuel as [|fuel IH]; intros line n total step valid items v any Hf Hn Ht Hlex Hitems Hv.
  { destruct line; [|cbn in Hf; lia]. cbn in Hlex. simplify_eq. destruct n; by destruct any. }
  cbn [lex] in Hlex. pose proof (loop_number line total step n 0 valid Hn ltac:(lia)) as Hnum.
  pose proof (lex_number_head line 0 valid) as Hh. pose proof (lex_number_length line 0 valid) as Hl. pose proof (lex_number_ge line 0 valid ltac:(lia)) as Hge.
  destruct (lex_number line 0 valid) as [[w any'] rest]. cbn [fst snd] in *. destruct rest as [|c rest].
  { simplify_eq. destruct (Hnum Hv) as (n' & _ & ->). by destruct n', any. }
  destruct (lex_unit (c :: rest)) as [[u r]|] eqn:Hu; [|done]. destruct (lex fuel (skip_spaces r) any') as [[[items' last] any'']|] eqn:Hlex'; [|done].
  simplify_eq. apply Forall_cons in Hitems as [Hw Hitems]. cbn in Hw. destruct (Hnum Hw) as (n' & Hn' & ->).
  destruct n' as [|n']; [cbn in Hn'; lia|]. rewrite loop_unit by (done || lia || (cbn in Hn'; lia)). rewrite Hu. cbn [time_sum].
  fold (allowed step u). destruct (allowed step u) eqn:Ha; cbn [andb]; [|by destruct any].
  destruct (Z.leb_spec (total + w * amount sec u) 2147483647) as [Hle|]; [|by destruct any].
  apply lex_unit_length in Hu. pose proof (skip_spaces_length r). cbn [length] in *.
  apply (IH (skip_spaces r) n' (total + w * amount sec u) (unit_step u) any' items' v any); try done; [lia | lia |].
  pose proof (amount_pos u). split; [nia|lia].
Qed.

(** A line with another character. *)
Lemma loop_foreign fuel : forall line n v total step valid any, (length line <= fuel)%nat -> (length line <= n)%nat ->
  lex fuel line any = None -> loop n line v total step valid = Some NGX_ERROR.
Proof using Type.
  induction fuel as [|fuel IH]; intros line n v total step valid any Hf Hn Hlex; [by destruct line; [|cbn in Hf; lia]|].
  cbn [lex] in Hlex. destruct (loop_digits line 0 any total step n v valid Hn) as (n' & v' & valid' & Hn' & ->).
  pose proof (lex_number_head line 0 any) as Hh. pose proof (lex_number_length line 0 any) as Hl.
  destruct (lex_number line 0 any) as [[w any'] rest]. cbn [fst snd] in *. destruct rest as [|c rest]; [done|].
  destruct n' as [|n']; [cbn in Hn'; lia|]. destruct (loop_unit_any n' c rest v' total step valid' Hh) as [->|(u & r & total' & Hu & ->)]; [done|].
  rewrite Hu in Hlex. apply lex_unit_length in Hu. pose proof (skip_spaces_length r). cbn [length] in *.
  destruct (lex fuel (skip_spaces r) any') as [[[? ?] ?]|] eqn:E; [done|]. eapply IH; [lia | lia | exact E].
Qed.

Lemma lex_nonneg fuel : forall line valid items v any, lex fuel line valid = Some (items, v, any) -> Forall (fun x => 0 <= x.1) items /\ 0 <= v.
Proof using Type.
  induction fuel as [|fuel IH]; intros line valid items v any; cbn [lex]; pose proof (lex_number_ge line 0 valid ltac:(lia)) as Hge;
    destruct (lex_number line 0 valid) as [[w any'] rest]; cbn [fst] in Hge; (destruct rest as [|c rest]; [by intros [= <- <- <-]|]); [done|].
  destruct (lex_unit (c :: rest)) as [[u r]|]; [|done]. destruct (lex fuel (skip_spaces r) any') as [[[items' v'] any'']|] eqn:E; [|done].
  intros [= <- <- <-]. apply IH in E as [Hi Hv]. split; [by constructor|done].
Qed.
Lemma time_sum_range items : forall step total t, Forall (fun x => 0 <= x.1) items -> 0 <= total <= 2147483647 ->
  time_sum sec step total items = Some t -> 0 <= t <= 2147483647.
Proof using Type.
  induction items as [|[v u] items IH]; intros step total t Hi Ht; cbn [time_sum]; [by intros [= <-]|].
  apply Forall_cons in Hi as [Hv Hi]. cbn in Hv. pose proof (amount_pos u).
  destruct (Z.leb_spec (total + v * amount sec u) 2147483647); [|by rewrite andb_false_r]. case_match; [|done]. apply IH; [done|]. split; [nia|done].
Qed.

(** The parser agrees with the meaning, but for the wrap-around of a last number without a unit. *)
Lemma parse_time_ok line : numbers_fit line -> ngx_parse_time sec line (0 :: after) = Some (s64 (time_of sec line)).
Proof using Type.
  unfold numbers_fit, time_of, ngx_parse_time. destruct (lex (length line) line false) as [[[items v] any]|] eqn:E.
  - intros [Hi Hv]. rewrite (loop_lex (length line) line (length line) 0 _ _ _ _ _ ltac:(lia) ltac:(lia) ltac:(lia) E Hi Hv).
    unfold st_start, st_month. destruct any; [|done]. destruct (time_sum _ _ _ _) as [t|]; [|done]. by rewrite s64_plus_s64.
  - intros _. by rewrite (loop_foreign (length line) line (length line) 0 _ _ _ _ ltac:(lia) ltac:(lia) E).
Qed.
End Times.

(** ** Durations in print *)

Definition unit_text (u : unit_t) : list Z :=
  bytes match u with
        | Year => "y" | Month => "M" | Week => "w" | Day => "d" | Hour => "h" | Min => "m" | Sec => "s" | Msec => "ms" | Blank => " "
        end.
Definition duration_text (items : list (Z * unit_t)) : list Z := concat (map (fun '(v, u) => num_digits v 0 ++ unit_text u) items).
(** Numbers of smaller and smaller units. *)
Fixpoint duration (sec : bool) (step : Z) (items : list (Z * unit_t)) : Prop :=
  match items with
  | [] => True
  | (v, u) :: items => 0 <= v /\ step < rank u /\ u <> Blank /\ (sec = true -> u <> Msec) /\ duration sec (rank u) items
  end.
Definition total_of (sec : bool) (items : list (Z * unit_t)) : Z := foldr (fun '(v, u) t => v * amount sec u + t) 0 items.

Lemma lex_number_any p v any : lex_number p v any = let '(w, b, rest) := lex_number p v false in (w, any || b, rest).
Proof.
  revert v any. induction p as [|c p IH]; intros v any; cbn [lex_number]; [by rewrite orb_false_r|].
  destruct (is_digit c); [|by rewrite orb_false_r]. rewrite (IH _ true). destruct (lex_number p _ false) as [[w b] rest]. by rewrite orb_true_r.
Qed.
Lemma digit_48 d : 0 <= d < 10 -> is_digit (d + 48) = true.
Proof. unfold is_digit. lia. Qed.
Lemma dec_loop_head fuel ui p : (0 < fuel)%nat -> exists d l, 0 <= d < 10 /\ dec_loop fuel ui p = (d + 48) :: l.
Proof.
  revert ui p. induction fuel as [|fuel IH]; intros ui p Hf; [lia|]. cbn [dec_loop]. pose proof (Z.mod_pos_bound ui 10 ltac:(lia)).
  case_match; [by eexists _, _|]. destruct fuel as [|fuel]; [by eexists _, _|]. apply IH. lia.
Qed.
Lemma lex_number_dec v any c r : 0 <= v < 2 ^ 63 -> is_digit c = false -> lex_number (num_digits v 0 ++ c :: r) 0 any = (v, true, c :: r).
Proof.
  intros Hv Hc. rewrite num_digits_decimal by lia. destruct (dec_loop_head NGX_INT64_LEN v []) as (d & l & Hd & El); [unfold NGX_INT64_LEN; lia|].
  assert (lex_number (dec_loop NGX_INT64_LEN v [] ++ c :: r) 0 true = (v, true, c :: r)) as Ht.
  { rewrite (dec_loop_read (fun l v => lex_number (l ++ c :: r) v true) (2 ^ 63)); [cbn [app lex_number]; by rewrite Hc| |unfold NGX_INT64_LEN; lia|lia].
    intros d' l' v' Hd' _ _. cbn [app lex_number]. rewrite digit_48 by done. f_equal. lia. }
  rewrite El in *. cbn [app lex_number] in *. by rewrite digit_48 in * by done.
Qed.
Lemma duration_head items : match duration_text items with [] => True | c :: _ => is_digit c = true end.
Proof.
  destruct items as [|[v u] items]; [done|]. cbn [duration_text map concat]. 
  assert (exists d l, 0 <= d < 10 /\ num_digits v 0 = (d + 48) :: l) as (d & l & Hd & ->).
  { unfold num_digits. cbn [Z.eqb]. case_match; apply dec_loop_head; unfold NGX_INT64_LEN; lia. }
  cbn [app]. by apply digit_48.
Qed.

Lemma lex_duration sec items : forall step any fuel, duration sec step items -> Forall (fun x => x.1 < 2 ^ 63) items -> (length items <= fuel)%nat ->
  lex fuel (duration_text items) any = Some (items, 0, any || negb (bool_decide (items = []))).
Proof.
  induction items as [|[v u] items IH]; intros step any fuel Hd Hv Hf.
  { destruct fuel; cbn; by rewrite orb_false_r. }
  destruct fuel as [|fuel]; [cbn in Hf; lia|]. apply Forall_cons in Hv as [Hv Hvs]. destruct Hd as (H0 & _ & Hu & _ & Hd). cbn in Hv.
  unfold duration_text. cbn [map concat lex]. fold (duration_text items). rewrite <- app_assoc.
  assert (exists c w, unit_text u = c :: w /\ is_digit c = false /\ lex_unit (unit_text u ++ duration_text items) = Some (u, duration_text items)) as (c & w & Hc & Hdig & Hlex).
  { pose proof (duration_head items) as Hh. exists (List.hd 0 (unit_text u)), (tail (unit_text u)). destruct u; try done.
    split_and!; [done..|]. cbn. destruct (duration_text items) as [|c r]; [done|].
    destruct (Z.eqb_spec c 115) as [->|]; [done|done]. }
  rewrite Hc in *. cbn [app] in *. rewrite lex_number_dec by (done || lia). rewrite Hlex.
  assert (skip_spaces (duration_text items) = duration_text items) as ->.
  { pose proof (duration_head items) as Hh. destruct (duration_text items) as [|c' r]; [done|]. cbn. by destruct (Z.eqb_spec c' 32) as [->|]. }
  rewrite (IH (rank u)) by (done || (cbn in Hf; lia)). by rewrite orb_true_r.
Qed.

Lemma total_cons sec v u items : total_of sec ((v, u) :: items) = v * amount sec u + total_of sec items.
Proof. done. Qed.
Lemma total_nonneg sec step items : duration sec step items -> 0 <= total_of sec items.
Proof.
  revert step. induction items as [|[v u] items IH]; intros step; [done|]. intros (Hv & _ & _ & _ & Hd). specialize (IH _ Hd).
  pose proof (amount_pos sec u). rewrite total_cons. nia.
Qed.
Lemma time_sum_duration sec items : forall step t, duration sec step items -> t + total_of sec items <= 2147483647 ->
  time_sum sec step t items = Some (t + total_of sec items).
Proof.
  induction items as [|[v u] items IH]; intros step t Hd Ht; cbn [time_sum]; [unfold total_of; cbn; by rewrite Z.add_0_r|].
  destruct Hd as (Hv & Hs & Hu & Hm & Hd). rewrite total_cons in Ht |- *. pose proof (total_nonneg _ _ _ Hd) as Hn.
  rewrite (proj2 (Z.ltb_lt step (rank u))), (proj2 (Z.leb_le (t + v * amount sec u) 2147483647)) by lia. rewrite andb_true_r.
  assert (negb (sec && bool_decide (u = Msec)) = true) as ->.
  { destruct sec; cbn; [|done]. rewrite bool_decide_eq_false_2; [done|]. by apply Hm. }
  cbn [andb]. rewrite decide_False by done. rewrite IH by (done || lia). f_equal. lia.
Qed.

Lemma num_digits_pos v : (0 < length (num_digits v 0))%nat.
Proof. pose proof (num_digits_nonempty v 0). destruct (num_digits v 0); [done|cbn; lia]. Qed.
Lemma duration_length items : (length items <= length (duration_text items))%nat.
Proof.
  induction items as [|[v u] items IH]; [done|]. unfold duration_text. cbn [map concat]. fold (duration_text items).
  rewrite !length_app. pose proof (num_digits_pos v). cbn [length]. lia.
Qed.

Lemma duration_ok sec items : items <> [] -> duration sec (if sec then 0 else 2) items -> total_of sec items <= 2147483647 ->
  Forall (fun x => x.1 < 2 ^ 63) items -> time_of sec (duration_text items) = total_of sec items /\ numbers_fit (duration_text items).
Proof.
  intros Hne Hd Ht Hv. unfold time_of, numbers_fit. rewrite (lex_duration sec items _ false _ Hd Hv (duration_length items)).
  rewrite bool_decide_eq_false_2 by done. cbn [orb negb]. rewrite time_sum_duration by (done || lia). split; [|done]. lia.
Qed.

(** * Sizes in print *)

Lemma num_digits_atoi v : 0 <= v < 2 ^ 63 -> ngx_atoi (num_digits v 0) = v.
Proof.
  intros Hv. unfold ngx_atoi. pose proof (num_digits_nonempty v 0). destruct (num_digits v 0) as [|c l] eqn:E; [done|]. rewrite <- E, num_digits_decimal by lia.
  rewrite (dec_loop_read atoi_loop (2 ^ 63) atoi_digit) by (unfold NGX_INT64_LEN; lia). cbn [atoi_loop]. by destruct (Z.ltb_spec v 0); [lia|].
Qed.
Lemma dec_loop_snoc fuel ui c p : exists l, dec_loop fuel ui (c :: p) = l ++ c :: p.
Proof.
  revert ui c p. induction fuel as [|fuel IH]; intros ui c p; cbn [dec_loop]; [by exists []|]. case_match; [by exists [ui mod 10 + 48]|].
  destruct (IH (ui / 10) (ui mod 10 + 48) (c :: p)) as [l ->]. exists (l ++ [ui mod 10 + 48]). by rewrite <- app_assoc.
Qed.
Lemma num_digits_last v : exists c, last (num_digits v 0) = Some c /\ 48 <= c <= 57.
Proof.
  assert (forall fuel ui, exists c, last (dec_loop (S fuel) ui []) = Some c /\ 48 <= c <= 57) as H.
  { intros fuel ui. cbn [dec_loop]. pose proof (Z.mod_pos_bound ui 10 ltac:(lia)). exists (ui mod 10 + 48). split; [|lia].
    case_match; [done|]. destruct (dec_loop_snoc fuel (ui / 10) (ui mod 10 + 48) []) as [l ->]. apply last_snoc. }
  unfold num_digits. cbn [Z.eqb]. case_match; apply H.
Qed.

(** The units of sizes and offsets. *)
Definition size_unit (c scale : Z) : Prop := (c, scale) ∈ [(75, 1024); (107, 1024); (77, 1048576); (109, 1048576)].
Definition offset_unit (c scale : Z) : Prop := size_unit c scale \/ (c, scale) ∈ [(71, 1073741824); (103, 1073741824)].

Section Sizes.
Context (v : Z) (Hv : 0 <= v < 2 ^ 63).
Lemma take_unit c : take (length (num_digits v 0 ++ [c]) - 1) (num_digits v 0 ++ [c]) = num_digits v 0.
Proof using Type. rewrite length_app. replace (length _ + length [c] - 1)%nat with (length (num_digits v 0)) by (cbn [length]; lia). apply take_app_length. Qed.

Lemma parse_plain : ngx_parse_size (num_digits v 0) = Some v /\ ngx_parse_offset (num_digits v 0) = Some v.
Proof using Hv.
  destruct (num_digits_last v) as (c & Hc & Hr). unfold ngx_parse_size, ngx_parse_offset. rewrite Hc.
  repeat rewrite (proj2 (Z.eqb_neq c _)) by lia. cbn [orb]. rewrite firstn_all. unfold ngx_atosz, ngx_atoof. rewrite num_digits_atoi by done.
  unfold NGX_ERROR. rewrite (proj2 (Z.eqb_neq v (-1))), Z.mul_1_r, s64_small by lia. done.
Qed.
Lemma parse_unit c scale : (size_unit c scale -> ngx_parse_size (num_digits v 0 ++ [c]) = Some (s64 (v * scale))) /\
  (offset_unit c scale -> ngx_parse_offset (num_digits v 0 ++ [c]) = Some (s64 (v * scale))).
Proof using Hv.
  assert ((v =? NGX_ERROR) = false) as Hne by (unfold NGX_ERROR; lia).
  unfold ngx_parse_size, ngx_parse_offset, ngx_atosz, ngx_atoof. rewrite last_snoc. split.
  - unfold size_unit. rewrite !elem_of_cons. intros [[= -> ->]|[[= -> ->]|[[= -> ->]|[[= -> ->]|[]%not_elem_of_nil]]]]; cbn [Z.eqb Pos.eqb orb];
      by rewrite take_unit, num_digits_atoi, Hne.
  - unfold offset_unit, size_unit. rewrite !elem_of_cons.
    intros [[[= -> ->]|[[= -> ->]|[[= -> ->]|[[= -> ->]|[]%not_elem_of_nil]]]]|[[= -> ->]|[[= -> ->]|[]%not_elem_of_nil]]]; cbn [Z.eqb Pos.eqb orb];
      by rewrite take_unit, num_digits_atoi, Hne.
Qed.
End Sizes.

(** ** Numbers and sizes of directives *)

(** The number a text of digits means, and that of a text with a unit. *)
Definition decimal (t : list Z) : option Z :=
  if negb (bool_decide (t = [])) && forallb is_digit t then Some (foldl (fun v c => v * 10 + (c - 48)) 0 t) else None.
Definition unit_scale (big : bool) (c : Z) : option Z :=
  if (c =? 75) || (c =? 107) then Some 1024 else if (c =? 77) || (c =? 109) then Some 1048576
  else if big && ((c =? 71) || (c =? 103)) then Some 1073741824 else None.
(** The digits and the scale. *)
Definition split_size (big : bool) (t : list Z) : list Z * Z :=
  match last t ≫= unit_scale big with Some scale => (take (length t - 1) t, scale) | None => (t, 1) end.
Definition measure (big : bool) (t : list Z) : option Z :=
  let '(digits, scale) := split_size big t in (fun v => v * scale) <$> decimal digits.
Definition number_fits (t : list Z) : Prop := forall v, decimal t = Some v -> v < 2 ^ 63.

Lemma digits_nonneg t : forall v, forallb is_digit t = true -> 0 <= v -> v <= foldl (fun v c => v * 10 + (c - 48)) v t.
Proof.
  induction t as [|c t IH]; intros v Hd Hv; cbn [foldl]; [lia|]. cbn [forallb] in Hd.
  apply andb_prop in Hd as [[H1%Z.leb_le H2%Z.leb_le]%andb_prop Hd]. specialize (IH (v * 10 + (c - 48)) Hd ltac:(lia)). lia.
Qed.
Lemma atoi_loop_ok t : forall v, 0 <= v -> (forallb is_digit t = true -> foldl (fun v c => v * 10 + (c - 48)) v t < 2 ^ 63) ->
  atoi_loop t v = if forallb is_digit t then Some (foldl (fun v c => v * 10 + (c - 48)) v t) else None.
Proof.
  assert (forall t v, forallb is_digit t = false -> atoi_loop t v = None) as Hbad.
  { clear t. induction t as [|c t IH]; intros v Hd; [done|]. cbn [forallb] in Hd. cbn [atoi_loop]. destruct (is_digit c) eqn:Hc.
    - destruct (_ || _); [done|]. by apply IH.
    - unfold is_digit in Hc. by destruct (Z.ltb_spec c 48), (Z.ltb_spec 57 c), (Z.leb_spec 48 c), (Z.leb_spec c 57); try lia. }
  induction t as [|c t IH]; intros v Hv Hlt; [done|]. destruct (forallb is_digit (c :: t)) eqn:Hd; [|by apply Hbad].
  specialize (Hlt eq_refl). cbn [forallb foldl atoi_loop] in *. apply andb_prop in Hd as [Hc Hd].
  pose proof Hc as [H1%Z.leb_le H2%Z.leb_le]%andb_prop. destruct (Z.ltb_spec c 48), (Z.ltb_spec 57 c); try lia. cbn [orb].
  pose proof (digits_nonneg t (v * 10 + (c - 48)) Hd ltac:(lia)). rewrite s64_small by lia. rewrite IH by (done || lia). by rewrite Hd.
Qed.
Lemma atoi_decimal t : number_fits t -> ngx_atoi t = default (-1) (decimal t) /\ (forall v, decimal t = Some v -> 0 <= v).
Proof.
  unfold number_fits, decimal, ngx_atoi. intros Hf. destruct t as [|c t]; [done|]. cbn [bool_decide] in *.
  rewrite bool_decide_eq_false_2 in * by done. cbn [negb andb] in *. rewrite atoi_loop_ok by (lia || by intros Hd; rewrite Hd in Hf; apply Hf).
  destruct (forallb is_digit (c :: t)) eqn:Hd; [|done]. pose proof (digits_nonneg (c :: t) 0 Hd ltac:(lia)) as Hn.
  rewrite (proj2 (Z.ltb_ge _ 0)) by lia. split; [done|]. by intros v [= <-].
Qed.

Lemma measure_ok big t scale :
  (split_size big t).2 = scale -> number_fits (split_size big t).1 ->
  scale ∈ [1; 1024; 1048576; 1073741824] /\
  forall v, decimal (split_size big t).1 = Some v -> (v =? NGX_ERROR) = false /\ s64 (v * scale) <> NGX_ERROR.
Proof.
  intros Hs Hf. assert (scale ∈ [1; 1024; 1048576; 1073741824]) as Hin.
  { subst scale. unfold split_size, unit_scale. destruct (last t); cbn [mbind option_bind]; repeat case_match; set_solver. }
  split; [done|]. intros v Hv. destruct (atoi_decimal _ Hf) as [_ Hn]. specialize (Hn v Hv). specialize (Hf v Hv).
  unfold NGX_ERROR. split; [lia|]. rewrite !elem_of_cons in Hin.
  destruct Hin as [->|[->|[->|[->|[]%not_elem_of_nil]]]]; [rewrite Z.mul_1_r, s64_small; lia | ..];
    unfold s64, wrapS; Z.to_euclidean_division_equations; lia.
Qed.

Lemma parse_size_ok t : t <> [] -> number_fits (split_size false t).1 ->
  ngx_parse_size t = Some (match measure false t with Some n => s64 n | None => NGX_ERROR end).
Proof.
  intros Ht Hf. destruct (measure_ok false t _ eq_refl Hf) as [_ Hok]. destruct (atoi_decimal _ Hf) as [Ha _].
  unfold ngx_parse_size, measure, split_size, unit_scale, ngx_atosz in *. destruct (last t) as [c|] eqn:El; [|by apply last_None in El].
  cbn [mbind option_bind andb] in *.
  destruct ((c =? 75) || (c =? 107)); [|destruct ((c =? 77) || (c =? 109))]; cbn [fst snd] in *; rewrite ?firstn_all, Ha;
    (destruct (decimal _) as [v|] eqn:Ev; cbn [from_option fmap option_fmap option_map] in *; unfold id; [|done]; destruct (Hok v eq_refl) as [-> _]; done).
Qed.
Lemma parse_offset_ok t : t <> [] -> number_fits (split_size true t).1 ->
  ngx_parse_offset t = Some (match measure true t with Some n => s64 n | None => NGX_ERROR end).
Proof.
  intros Ht Hf. destruct (measure_ok true t _ eq_refl Hf) as [_ Hok]. destruct (atoi_decimal _ Hf) as [Ha _].
  unfold ngx_parse_offset, measure, split_size, unit_scale, ngx_atoof in *. destruct (last t) as [c|] eqn:El; [|by apply last_None in El].
  cbn [mbind option_bind andb] in *.
  destruct ((c =? 75) || (c =? 107)); [|destruct ((c =? 77) || (c =? 109)); [|destruct ((c =? 71) || (c =? 103))]]; cbn [fst snd] in *; rewrite ?firstn_all, Ha;
    (destruct (decimal _) as [v|] eqn:Ev; cbn [from_option fmap option_fmap option_map] in *; unfold id; [|done]; destruct (Hok v eq_refl) as [-> _]; done).
Qed.
Lemma measure_error big t n : number_fits (split_size big t).1 -> measure big t = Some n -> s64 n <> NGX_ERROR.
Proof.
  intros Hf Hm. unfold measure in Hm. destruct (measure_ok big t _ eq_refl Hf) as [_ Hok]. destruct (split_size big t) as [digits scale].
  cbn [fst snd] in *. destruct (decimal digits) as [v|] eqn:Ev; [|done]. injection Hm as <-. by apply (Hok v).
Qed.

(** * Names *)

Abbreviation lower := (fmap ngx_tolower).
Lemma lexcmp_zero a b : Forall (fun c => 0 < c) a -> Forall (fun c => 0 < c) b -> lexcmp a b = 0 <-> a = b.
Proof.
  revert b. induction a as [|x a IH]; intros [|y b] Ha Hb; cbn; decompose_Forall_hyps; [done|split; [lia|done]|split; [lia|done]|].
  destruct (Z.eqb_spec x y) as [->|]; [rewrite IH by done; by split; [intros ->|intros [= ->]]|]. split; [lia|]. intros [= -> _]. lia.
Qed.
Lemma lower_positive s : is_text s -> Forall (fun c => 0 < c) (lower s).
Proof. intros Hs. apply Forall_fmap. eapply Forall_impl; [exact Hs|]. cbn. intros c Hc. rewrite tolower_cases. case_match; lia. Qed.
Lemma strcasecmp_eq a b : is_text a -> is_text b ->
  exists rc, ngx_strcasecmp (cstr a) (cstr b) = Some rc /\ (rc =? 0) = bool_decide (lower a = lower b).
Proof.
  intros Ha Hb. eexists. split; [by apply strcasecmp_lexcmp|]. apply eq_true_iff_eq. rewrite Z.eqb_eq, bool_decide_eq_true.
  apply lexcmp_zero; by apply lower_positive.
Qed.

(** The first entry with the name, in either case. *)
Definition entry_of (e : list (list Z * Z)) (value : list Z) : option Z :=
  snd <$> List.find (fun x => bool_decide (lower x.1 = lower value)) e.
Lemma find_name_ok e value : Forall (fun x => is_text x.1) e -> is_text value -> find_name e value = Some (entry_of e value).
Proof.
  intros He Hv. induction He as [|[name v] e Hn He IH]; [done|]. cbn [find_name]. unfold entry_of. cbn [List.find fst].
  destruct (Nat.eqb_spec (length name) (length value)) as [El|El]; cbn [negb].
  - destruct (strcasecmp_eq name value Hn Hv) as (rc & -> & ->). by destruct (bool_decide (lower name = lower value)).
  - rewrite bool_decide_eq_false_2; [exact IH|]. intros E. apply El. by rewrite <- (length_fmap ngx_tolower name), E, length_fmap.
Qed.

(** The masks of the names, if each is one bit. *)
Lemma bitmask_ok mask values np : Forall (fun x => is_text x.1 /\ exists k, 0 <= k /\ x.2 = 2 ^ k) mask -> Forall is_text values ->
  (forall value, value ∈ values -> is_Some (entry_of mask value)) ->
  ngx_conf_set_bitmask_slot mask values np = Some (NGX_CONF_OK, foldl (fun n value => Z.lor n (default 0 (entry_of mask value))) np values).
Proof.
  intros Hm Hv. revert np. induction Hv as [|value values Hval Hv IH]; intros np Hin; [done|]. cbn [ngx_conf_set_bitmask_slot foldl].
  rewrite find_name_ok by (done || (eapply Forall_impl; [exact Hm|]; by intros x [? _])).
  destruct (Hin value ltac:(set_solver)) as [m Em]. rewrite Em. change (default 0 (Some m)) with m. rewrite IH by set_solver. do 3 f_equal.
  assert (exists k, 0 <= k /\ m = 2 ^ k) as (k & Hk & ->).
  { unfold entry_of in Em. apply fmap_Some in Em as (x & Hx & ->). apply List.find_some in Hx as [Hx _]. rewrite Forall_forall in Hm.
    by apply Hm, list_elem_of_In. }
  destruct (Z.eqb_spec (Z.land np (2 ^ k)) 0) as [E|E]; cbn [negb]; [done|]. apply Z.bits_inj'. intros i Hi. rewrite Z.lor_spec.
  destruct (decide (i = k)) as [->|Hne].
  - destruct (Z.testbit np k) eqn:Et; [done|]. destruct E. apply Z.bits_inj'. intros j Hj. rewrite Z.land_spec, Z.bits_0.
    destruct (decide (j = k)) as [->|]; [by rewrite Et|]. rewrite Z.pow2_bits_false by done. by rewrite andb_false_r.
  - rewrite Z.pow2_bits_false by done. by rewrite orb_false_r.
Qed.

(** * The theorem *)

Lemma amount_ge sec u v : 0 <= v -> v <= v * amount sec u.
Proof. pose proof (amount_pos sec u). nia. Qed.
Lemma duration_fit sec step items : duration sec step items -> total_of sec items < 2 ^ 63 -> Forall (fun x => x.1 < 2 ^ 63) items.
Proof.
  revert step. induction items as [|[v u] items IH]; intros step; [done|]. rewrite total_cons. intros (Hv & _ & _ & _ & Hd) Ht.
  pose proof (total_nonneg _ _ _ Hd). pose proof (amount_ge sec u v Hv). constructor; [cbn; lia|]. eapply IH; [exact Hd|lia].
Qed.
Lemma time_sum_over sec items : forall step t, duration sec step items -> t <= 2147483647 < t + total_of sec items -> time_sum sec step t items = None.
Proof.
  induction items as [|[v u] items IH]; intros step t Hd Ht; [unfold total_of in Ht; cbn in Ht; lia|]. rewrite total_cons in Ht. cbn [time_sum].
  destruct Hd as (Hv & Hs & Hu & Hm & Hd). destruct (Z.leb_spec (t + v * amount sec u) 2147483647); [|by rewrite andb_false_r].
  case_match; [|done]. rewrite decide_False by done. apply IH; [done|lia].
Qed.
Lemma duration_over sec items : duration sec (if sec then 0 else 2) items -> 2147483647 < total_of sec items ->
  Forall (fun x => x.1 < 2 ^ 63) items -> time_of sec (duration_text items) = NGX_ERROR /\ numbers_fit (duration_text items).
Proof.
  intros Hd Ht Hv. unfold time_of, numbers_fit. rewrite (lex_duration sec items _ false _ Hd Hv (duration_length items)).
  split; [|done]. rewrite time_sum_over by (done || lia). by destruct (_ || _).
Qed.
Lemma lex_plain v fuel : 0 <= v < 2 ^ 63 -> lex fuel (num_digits v 0) false = Some ([], v, true).
Proof.
  intros Hv. assert (lex_number (num_digits v 0) 0 false = (v, true, [])) as E.
  { rewrite num_digits_decimal by lia. destruct (dec_loop_head NGX_INT64_LEN v []) as (d & l & Hd & El); [unfold NGX_INT64_LEN; lia|].
    assert (lex_number (dec_loop NGX_INT64_LEN v []) 0 true = (v, true, [])) as Ht.
    { rewrite (dec_loop_read (fun l v => lex_number l v true) (2 ^ 63)); [done| |unfold NGX_INT64_LEN; lia|lia].
      intros d' l' v' Hd' _ _. cbn [lex_number]. rewrite digit_48 by done. f_equal. lia. }
    rewrite El in *. cbn [lex_number] in *. by rewrite digit_48 in * by done. }
  destruct fuel; cbn [lex]; by rewrite E.
Qed.
Lemma time_of_range sec line : -1 <= time_of sec line.
Proof.
  unfold time_of, NGX_ERROR. destruct (lex _ line false) as [[[items v] []]|] eqn:E; try lia. apply lex_nonneg in E as [Hi Hv].
  destruct (time_sum _ _ _ items) as [t|] eqn:Et; [|lia]. apply time_sum_range in Et; [|done|lia]. destruct sec; lia.
Qed.

(** A name that is not among the masks ends the directive; the ones before it count. *)
Lemma bitmask_unknown mask values value rest np :
  Forall (fun x => is_text x.1 /\ exists k, 0 <= k /\ x.2 = 2 ^ k) mask -> Forall is_text (values ++ value :: rest) ->
  (forall value, value ∈ values -> is_Some (entry_of mask value)) -> entry_of mask value = None ->
  ngx_conf_set_bitmask_slot mask (values ++ value :: rest) np =
    Some (NGX_CONF_ERROR, foldl (fun n value => Z.lor n (default 0 (entry_of mask value))) np values).
Proof.
  intros Hm Hv Hin Hnone. apply Forall_app in Hv as [Hv Hv2]. apply Forall_cons in Hv2 as [Hval _].
  assert (Forall (fun x => is_text x.1) mask) as Hm1 by (eapply Forall_impl; [exact Hm|]; by intros x [? _]).
  pose proof (bitmask_ok mask values np Hm Hv Hin) as Hok. revert np Hok. induction Hv as [|v values Hv1 Hv IH]; intros np Hok; cbn [app ngx_conf_set_bitmask_slot foldl] in *.
  - by rewrite find_name_ok, Hnone.
  - rewrite find_name_ok in * by done. destruct (entry_of mask v) as [m|]; [|done]. change (default 0 (Some m)) with m in *.
    pose proof (bitmask_ok mask values (if negb (Z.land np m =? 0) then np else Z.lor np m) Hm Hv ltac:(set_solver)) as Hok'.
    rewrite IH by (done || set_solver). rewrite Hok' in Hok. injection Hok as Heq. by rewrite Heq.
Qed.
Lemma u64_s64 z : u64 (s64 z) = u64 z.
Proof. unfold u64, s64, wrapU, wrapS. Z.to_euclidean_division_equations; lia. Qed.

(** ** Slots *)

Section SlotsOk.
Context (post : option (Z -> conf_result * Z)).

Lemma num_slot_ok value : number_fits value ->
  ngx_conf_set_num_slot post value NGX_CONF_UNSET =
    Some (match decimal value with Some n => post_handler post n | None => (conf_message "invalid number", NGX_CONF_UNSET) end).
Proof.
  intros Hf. destruct (atoi_decimal value Hf) as [Ha Hn]. unfold ngx_conf_set_num_slot. cbn [negb Z.eqb Pos.eqb NGX_CONF_UNSET].
  rewrite Ha. destruct (decimal value) as [n|]; [|done]. specialize (Hn n eq_refl). cbn [from_option]. unfold id.
  by rewrite (proj2 (Z.eqb_neq n NGX_ERROR)) by (unfold NGX_ERROR; lia).
Qed.
Lemma s64_error_u64 n : s64 n <> NGX_ERROR -> (u64 (s64 n) =? u64 NGX_ERROR) = false.
Proof. unfold NGX_ERROR. intros Hn. apply Z.eqb_neq. revert Hn. unfold u64, s64, wrapU, wrapS. Z.to_euclidean_division_equations; lia. Qed.
Lemma size_slot_ok value : value <> [] -> number_fits (split_size false value).1 ->
  ngx_conf_set_size_slot post value NGX_CONF_UNSET_SIZE =
    Some (match measure false value with Some n => post_handler post (u64 n) | None => (conf_message "invalid value", NGX_CONF_UNSET_SIZE) end).
Proof.
  intros Hne Hf. unfold ngx_conf_set_size_slot. rewrite Z.eqb_refl. cbn [negb]. rewrite parse_size_ok by done.
  destruct (measure false value) as [n|] eqn:Em; [|done]. rewrite s64_error_u64, u64_s64; [done|]. by eapply measure_error.
Qed.
Lemma off_slot_ok value : value <> [] -> number_fits (split_size true value).1 ->
  ngx_conf_set_off_slot post value NGX_CONF_UNSET =
    Some (match measure true value with Some n => post_handler post (s64 n) | None => (conf_message "invalid value", NGX_CONF_UNSET) end).
Proof.
  intros Hne Hf. unfold ngx_conf_set_off_slot. rewrite Z.eqb_refl. cbn [negb]. rewrite parse_offset_ok by done.
  destruct (measure true value) as [n|] eqn:Em; [|done]. rewrite (proj2 (Z.eqb_neq _ _)); [done|]. by eapply measure_error.
Qed.
Lemma sec_slot_ok value : numbers_fit value -> time_of true value < 2 ^ 63 ->
  let t := time_of true value in
  ngx_conf_set_sec_slot post value NGX_CONF_UNSET =
    Some (if t =? NGX_ERROR then (conf_message "invalid value", NGX_CONF_UNSET) else post_handler post t).
Proof.
  intros Hf Hb. cbn zeta. unfold ngx_conf_set_sec_slot. cbn [negb Z.eqb Pos.eqb NGX_CONF_UNSET]. rewrite parse_time_ok by done.
  pose proof (time_of_range true value). unfold NGX_ERROR, NGX_PARSE_LARGE_TIME. destruct (Z.eqb_spec (time_of true value) (-1)) as [->|Hne]; [done|].
  rewrite s64_small by lia. rewrite !(proj2 (Z.eqb_neq (time_of true value) _)) by lia. done.
Qed.
Lemma msec_slot_ok value : numbers_fit value -> time_of false value < 2 ^ 63 ->
  let t := time_of false value in
  ngx_conf_set_msec_slot post value NGX_CONF_UNSET_MSEC =
    Some (if t =? NGX_ERROR then (conf_message "invalid value", NGX_CONF_UNSET_MSEC) else post_handler post t).
Proof.
  intros Hf Hb. cbn zeta. unfold ngx_conf_set_msec_slot, NGX_CONF_UNSET_MSEC. rewrite Z.eqb_refl. cbn [negb]. rewrite parse_time_ok by done.
  pose proof (time_of_range false value). unfold NGX_ERROR, NGX_PARSE_LARGE_TIME. destruct (Z.eqb_spec (time_of false value) (-1)) as [->|Hne]; [done|].
  rewrite s64_small, u64_small by lia. change (u64 (-1)) with (2 ^ 64 - 1). change (u64 (-2)) with (2 ^ 64 - 2).
  rewrite !(proj2 (Z.eqb_neq (time_of false value) _)) by lia. done.
Qed.
End SlotsOk.

Lemma bufs_slot_ok value1 value2 size : number_fits value1 -> value2 <> [] -> number_fits (split_size false value2).1 ->
  ngx_conf_set_bufs_slot value1 value2 (0, size) =
    Some (match decimal value1, measure false value2 with
          | None, _ => (conf_message "invalid value", (NGX_ERROR, size))
          | Some n, m =>
              if n =? 0 then (conf_message "invalid value", (0, size))
              else match m with
                   | None => (conf_message "invalid value", (n, 2 ^ 64 - 1))
                   | Some m => if u64 m =? 0 then (conf_message "invalid value", (n, 0)) else (NGX_CONF_OK, (n, u64 m))
                   end
          end).
Proof.
  intros Hf1 Hne Hf2. destruct (atoi_decimal value1 Hf1) as [Ha Hn]. unfold ngx_conf_set_bufs_slot. cbn [Z.eqb negb]. rewrite Ha.
  destruct (decimal value1) as [n|]; [|done]. specialize (Hn n eq_refl). cbn [from_option]. unfold id.
  rewrite (proj2 (Z.eqb_neq n NGX_ERROR)) by (unfold NGX_ERROR; lia). cbn [orb]. destruct (Z.eqb_spec n 0) as [->|Hn0]; [done|].
  rewrite parse_size_ok by done. destruct (measure false value2) as [m|] eqn:Em; [|done].
  rewrite s64_error_u64, u64_s64 by (by eapply measure_error). cbn [orb]. by destruct (Z.eqb_spec (u64 m) 0) as [->|].
Qed.

(** C31.  Values of directives.  Times: for every line that ends at a zero byte, with numbers below 2^63,
    [ngx_parse_time] returns what the line means: its numbers are counted in their
    units, which must go down, a number without unit counts seconds and ends the list, and a sum
    over 2^31 - 1 or another character is an error (the tables of largest values and
    steps do just this); a duration printed with units, largest first, is read back, or refused when
    it is over the limit.  But a last number without a unit is not limited, and a
    line that ends in [m] is read as milliseconds when an [s] lies behind it in memory.
    Sizes and offsets with or without a unit are read back, wrapped to 64 bits.
    Slots: a flag, a number, a size, an offset, a time in seconds or milliseconds, an entry of an
    enumeration and a number of buffers that are set stay as they are, and the directive is a duplicate.
    Otherwise a slot gets the value of the text, when the numbers in it, and the time, are below 2^63, and the post handler (the
    enumeration has none) sees it; or it stays unset with an error when the text is none of a flag, digits, digits with a unit, a time
    or a name of the enumeration.  No time is ever called too large.  The number and the size of
    buffers are set when neither is zero; a refused directive leaves what it read in them.
    Names are compared in either case and the first entry counts.  A bit mask has no test
    for duplicates: it becomes the union of itself and the names' masks when every mask is one bit; a name
    that is not known is an error, after the ones before it are added. *)
Theorem conf_values (post : option (Z -> conf_result * Z)) :
  (forall sec line after, numbers_fit line -> ngx_parse_time sec line (0 :: after) = Some (s64 (time_of sec line))) /\
  (forall sec items after, items <> [] -> duration sec (if sec then 0 else 2) items -> total_of sec items < 2 ^ 63 ->
    ngx_parse_time sec (duration_text items) (0 :: after) = Some (if total_of sec items <=? 2147483647 then total_of sec items else NGX_ERROR)) /\
  (forall v after, 0 <= v < 2 ^ 63 -> ngx_parse_time true (num_digits v 0) (0 :: after) = Some v) /\
  (forall after, ngx_parse_time false (bytes "1m") (0 :: after) = Some 60000 /\ ngx_parse_time false (bytes "1m") (115 :: after) = Some 1) /\
  (forall v, 0 <= v < 2 ^ 63 -> ngx_parse_size (num_digits v 0) = Some v /\ ngx_parse_offset (num_digits v 0) = Some v /\
    (forall c scale, size_unit c scale -> ngx_parse_size (num_digits v 0 ++ [c]) = Some (s64 (v * scale))) /\
    (forall c scale, offset_unit c scale -> ngx_parse_offset (num_digits v 0 ++ [c]) = Some (s64 (v * scale)))) /\
  (forall value slot, let duplicate := Some (conf_message "is duplicate", slot) in
    (slot <> NGX_CONF_UNSET ->
      ngx_conf_set_flag_slot post value slot = duplicate /\ ngx_conf_set_num_slot post value slot = duplicate /\
      ngx_conf_set_off_slot post value slot = duplicate /\ ngx_conf_set_sec_slot post value slot = duplicate) /\
    (slot <> NGX_CONF_UNSET_SIZE -> ngx_conf_set_size_slot post value slot = duplicate) /\
    (slot <> NGX_CONF_UNSET_MSEC -> ngx_conf_set_msec_slot post value slot = duplicate) /\
    (slot <> NGX_CONF_UNSET_UINT -> forall e, ngx_conf_set_enum_slot e value slot = duplicate)) /\
  (forall value, number_fits value ->
    ngx_conf_set_num_slot post value NGX_CONF_UNSET =
      Some (match decimal value with Some n => post_handler post n | None => (conf_message "invalid number", NGX_CONF_UNSET) end)) /\
  (forall value, value <> [] -> number_fits (split_size false value).1 ->
    ngx_conf_set_size_slot post value NGX_CONF_UNSET_SIZE =
      Some (match measure false value with Some n => post_handler post (u64 n) | None => (conf_message "invalid value", NGX_CONF_UNSET_SIZE) end)) /\
  (forall value, value <> [] -> number_fits (split_size true value).1 ->
    ngx_conf_set_off_slot post value NGX_CONF_UNSET =
      Some (match measure true value with Some n => post_handler post (s64 n) | None => (conf_message "invalid value", NGX_CONF_UNSET) end)) /\
  (forall value, numbers_fit value -> time_of true value < 2 ^ 63 ->
    let t := time_of true value in
    ngx_conf_set_sec_slot post value NGX_CONF_UNSET =
      Some (if t =? NGX_ERROR then (conf_message "invalid value", NGX_CONF_UNSET) else post_handler post t)) /\
  (forall value, numbers_fit value -> time_of false value < 2 ^ 63 ->
    let t := time_of false value in
    ngx_conf_set_msec_slot post value NGX_CONF_UNSET_MSEC =
      Some (if t =? NGX_ERROR then (conf_message "invalid value", NGX_CONF_UNSET_MSEC) else post_handler post t)) /\
  (forall value, is_text value ->
    ngx_conf_set_flag_slot post value NGX_CONF_UNSET =
      Some (if bool_decide (lower value = bytes "on") then post_handler post 1
            else if bool_decide (lower value = bytes "off") then post_handler post 0
            else (NGX_CONF_ERROR, NGX_CONF_UNSET))) /\
  (forall e value, Forall (fun x => is_text x.1) e -> is_text value ->
    ngx_conf_set_enum_slot e value NGX_CONF_UNSET_UINT =
      Some (match entry_of e value with Some v => (NGX_CONF_OK, v) | None => (NGX_CONF_ERROR, NGX_CONF_UNSET_UINT) end)) /\
  (forall value1 value2 num size, num <> 0 ->
    ngx_conf_set_bufs_slot value1 value2 (num, size) = Some (conf_message "is duplicate", (num, size))) /\
  (forall value1 value2 size, number_fits value1 -> value2 <> [] -> number_fits (split_size false value2).1 ->
    ngx_conf_set_bufs_slot value1 value2 (0, size) =
      Some (match decimal value1, measure false value2 with
            | None, _ => (conf_message "invalid value", (NGX_ERROR, size))
            | Some n, m =>
                if n =? 0 then (conf_message "invalid value", (0, size))
                else match m with
                     | None => (conf_message "invalid value", (n, 2 ^ 64 - 1))
                     | Some m => if u64 m =? 0 then (conf_message "invalid value", (n, 0)) else (NGX_CONF_OK, (n, u64 m))
                     end
            end)) /\
  (forall mask values np, Forall (fun x => is_text x.1 /\ exists k, 0 <= k /\ x.2 = 2 ^ k) mask ->
    (forall value, value ∈ values -> is_Some (entry_of mask value)) ->
    let added := foldl (fun n value => Z.lor n (default 0 (entry_of mask value))) np values in
    (Forall is_text values -> ngx_conf_set_bitmask_slot mask values np = Some (NGX_CONF_OK, added)) /\
    (forall value rest, Forall is_text (values ++ value :: rest) -> entry_of mask value = None ->
      ngx_conf_set_bitmask_slot mask (values ++ value :: rest) np = Some (NGX_CONF_ERROR, added))).
Proof.
  split_and!.
  - intros sec line after. apply parse_time_ok.
  - intros sec items after Hne Hd Ht. pose proof (duration_fit _ _ _ Hd Ht) as Hfit. destruct (Z.leb_spec (total_of sec items) 2147483647) as [Hle|Hgt].
    + destruct (duration_ok sec items Hne Hd Hle Hfit) as [Hv Hn]. rewrite parse_time_ok, Hv by done. pose proof (total_nonneg _ _ _ Hd). by rewrite s64_small by lia.
    + destruct (duration_over sec items Hd Hgt Hfit) as [Hv Hn]. by rewrite parse_time_ok, Hv by done.
  - intros v after Hv. rewrite parse_time_ok; [unfold time_of | unfold numbers_fit]; rewrite lex_plain by done; [|by split; [|lia]].
    cbn [time_sum]. by rewrite Z.add_0_l, Z.mul_1_r, s64_small by lia.
  - intros after. by vm_compute.
  - intros v Hv. destruct (parse_plain v Hv). split_and!; [done|done|..]; intros c scale; apply parse_unit; done.
  - intros value slot duplicate. split_and!; intros Hs; try intros e;
      unfold ngx_conf_set_flag_slot, ngx_conf_set_num_slot, ngx_conf_set_off_slot, ngx_conf_set_sec_slot, ngx_conf_set_size_slot, ngx_conf_set_msec_slot, ngx_conf_set_enum_slot;
      by rewrite (proj2 (Z.eqb_neq slot _) Hs).
  - intros value Hf. apply num_slot_ok, Hf.
  - intros value. apply size_slot_ok.
  - intros value. apply off_slot_ok.
  - intros value. apply sec_slot_ok.
  - intros value. apply msec_slot_ok.
  - intros value Hv. unfold ngx_conf_set_flag_slot. cbn [negb Z.eqb Pos.eqb NGX_CONF_UNSET].
    destruct (strcasecmp_eq value (bytes "on")) as (rc & -> & ->); [done|by repeat constructor|].
    destruct (strcasecmp_eq value (bytes "off")) as (rc' & -> & ->); [done|by repeat constructor|].
    change (lower (bytes "on")) with (bytes "on"). change (lower (bytes "off")) with (bytes "off"). by repeat case_match.
  - intros e value He Hv. unfold ngx_conf_set_enum_slot, NGX_CONF_UNSET_UINT. rewrite Z.eqb_refl. cbn [negb]. rewrite find_name_ok by done. by destruct (entry_of e value).
  - intros value1 value2 num size Hn. unfold ngx_conf_set_bufs_slot. by rewrite (proj2 (Z.eqb_neq num 0) Hn).
  - intros value1 value2 size. apply bufs_slot_ok.
  - intros mask values np Hm Hin added. split; [intros Hv; by apply bitmask_ok | intros value rest Hv Hn; by apply bitmask_unknown].
Qed.

(** A duration of three units, one of two in a slot, and slots that are set or get no number. *)
Definition limit_methods : list (list Z * Z) := [(bytes "get", 1); (bytes "put", 4)].
Lemma limit_masks : Forall (fun x => is_text x.1 /\ exists k, 0 <= k /\ x.2 = 2 ^ k) limit_methods.
Proof. repeat constructor; cbn [snd]; first [lia | by exists 0 | by exists 2]. Qed.
Lemma conf_values_witness :
  ngx_parse_time true (bytes "1d12h30m") [0] = Some 131400 /\
  ngx_conf_set_sec_slot None (bytes "1h 30m") NGX_CONF_UNSET = Some (NGX_CONF_OK, 5400) /\
  ngx_conf_set_msec_slot None (bytes "10") 500 = Some (conf_message "is duplicate", 500) /\
  ngx_conf_set_num_slot None (bytes "0042") NGX_CONF_UNSET = Some (NGX_CONF_OK, 42) /\
  ngx_conf_set_off_slot None (bytes "2x") NGX_CONF_UNSET = Some (conf_message "invalid value", NGX_CONF_UNSET) /\
  ngx_conf_set_bufs_slot (bytes "4") (bytes "8k") (0, 0) = Some (NGX_CONF_OK, (4, 8192)) /\
  ngx_conf_set_bitmask_slot limit_methods [bytes "PUT"; bytes "head"; bytes "get"] 1 = Some (NGX_CONF_ERROR, 5).
Proof.
  destruct (conf_values None) as (_ & Hd & _ & _ & _ & Hdup & Hnum & _ & Hoff & Hs & _ & _ & _ & _ & Hbufs & Hmask). split_and!.
  - assert (bytes "1d12h30m" = duration_text [(1, Day); (12, Hour); (30, Min)]) as -> by (by vm_compute). rewrite Hd; [by vm_compute | done | by repeat split | by vm_compute].
  - assert (lex 6 (bytes "1h 30m") false = Some ([(1, Hour); (30, Min)], 0, true)) as E by (by vm_compute).
    rewrite Hs; [by vm_compute | | by vm_compute]. unfold numbers_fit. change (length (bytes "1h 30m")) with 6%nat. rewrite E.
    split; [by repeat constructor | done].
  - by apply (Hdup (bytes "10") 500).
  - rewrite Hnum; [by vm_compute|]. intros v Hv. vm_compute in Hv. by injection Hv as <-.
  - rewrite Hoff; [by vm_compute | done |]. intros v Hv. vm_compute in Hv. discriminate Hv.
  - rewrite Hbufs; [by vm_compute | | done |]; intros v Hv; vm_compute in Hv; by injection Hv as <-.
  - apply (proj2 (Hmask limit_methods [bytes "PUT"] 1 limit_masks ltac:(intros value ->%list_elem_of_singleton; by exists 4))
      (bytes "head") [bytes "get"]); [|by vm_compute].
    repeat constructor; apply (bool_decide_unpack _); by vm_compute.
Defined.
End Conf.
