(* ===== verification/ConfToken.v ===== *)
(** Reading directives: [ngx_conf_read_token] of nginx/src/core/ngx_conf_file.c.

    The function reads the file through a buffer; what it has to keep, from the start of the
    current word on, it moves to the front when it reads more.  The theorem says that the words it
    returns do not depend on where the buffer ends. *)
From stdpp Require Import base list numbers sets strings.
From S2P Require Import Prelude Str.
Import Str.
Local Open Scope Z_scope.

Module ConfToken.

Inductive token :=
| NGX_OK
| NGX_ERROR (err : string)
| NGX_CONF_BLOCK_START
| NGX_CONF_BLOCK_DONE
| NGX_CONF_FILE_DONE.

(** * A character *)

Record flags := mk_flags {
  need_space : bool; last_space : bool; sharp_comment : bool; variable : bool;
  quoted : bool; s_quoted : bool; d_quoted : bool
}.
#[export] Instance eta_flags : Eta flags := fun x =>
  mk_flags (need_space x) (last_space x) (sharp_comment x) (variable x) (quoted x) (s_quoted x) (d_quoted x).
Definition flags0 : flags := mk_flags false true false false false false false.

(** What a character does: nothing, set [start] to it or (1) behind it, end a word, or end the call. *)
Inductive action := Go | Mark (n : nat) | Found | Return (t : token).

Definition is_space (ch : Z) : bool := (ch =? 32) || (ch =? 9) || (ch =? 13) || (ch =? 10).

(** From [if (last_space)] on. *)
Definition word_char (nelts : nat) (f : flags) (ch : Z) : flags * action :=
  if last_space f then
    if is_space ch then (f, Go)
    else if (ch =? 59) || (ch =? 123) then
      if (nelts =? 0)%nat then (f, Return (NGX_ERROR "unexpected character"))
      else if ch =? 123 then (f, Return NGX_CONF_BLOCK_START) else (f, Return NGX_OK)
    else if ch =? 125 then
      if negb (nelts =? 0)%nat then (f, Return (NGX_ERROR "unexpected }")) else (f, Return NGX_CONF_BLOCK_DONE)
    else if ch =? 35 then (f <| sharp_comment := true |>, Mark 0)
    else if ch =? 92 then (f <| quoted := true |> <| last_space := false |>, Mark 0)
    else if ch =? 34 then (f <| d_quoted := true |> <| last_space := false |>, Mark 1)
    else if ch =? 39 then (f <| s_quoted := true |> <| last_space := false |>, Mark 1)
    else (f <| last_space := false |>, Mark 0)
  else if (ch =? 123) && variable f then (f, Go)
  else
    let f := f <| variable := false |> in
    if ch =? 92 then (f <| quoted := true |>, Go)
    else if ch =? 36 then (f <| variable := true |>, Go)
    else if d_quoted f then
      if ch =? 34 then (f <| d_quoted := false |> <| need_space := true |>, Found) else (f, Go)
    else if s_quoted f then
      if ch =? 39 then (f <| s_quoted := false |> <| need_space := true |>, Found) else (f, Go)
    else if is_space ch || (ch =? 59) || (ch =? 123) then (f <| last_space := true |>, Found)
    else (f, Go).

Definition conf_char (nelts : nat) (f : flags) (ch : Z) : flags * action :=
  let f := if (ch =? 10) && sharp_comment f then f <| sharp_comment := false |> else f in
  if sharp_comment f then (f, Go)
  else if quoted f then (f <| quoted := false |>, Go)
  else if need_space f then
    if is_space ch then (f <| last_space := true |> <| need_space := false |>, Go)
    else if ch =? 59 then (f, Return NGX_OK)
    else if ch =? 123 then (f, Return NGX_CONF_BLOCK_START)
    else if ch =? 41 then word_char nelts (f <| last_space := true |> <| need_space := false |>) ch
    else (f, Return (NGX_ERROR "unexpected character"))
  else word_char nelts f ch.

(** The copy of a word, from [start] to before the character [ch] that ended it. *)
Definition escape_char (c : Z) : option Z :=
  if (c =? 34) || (c =? 39) || (c =? 92) then Some c
  else if c =? 116 then Some 9 else if c =? 114 then Some 13 else if c =? 110 then Some 10 else None.
Fixpoint copy_word (src : list Z) (ch : Z) : list Z :=
  match src with
  | [] => []
  | c :: rest =>
      if c =? 92 then
        match rest with
        | [] => match escape_char ch with Some e => [e] | None => [c] end
        | c1 :: rest' => match escape_char c1 with Some e => e :: copy_word rest' ch | None => c :: copy_word rest ch end
        end
      else c :: copy_word rest ch
  end.

(** * The buffer *)

(** The bytes between [b->start] and [b->last], [b->pos], the offset in the file, the line. *)
Record conf_file := mk_conf { b_data : list Z; b_pos : nat; f_offset : nat; f_line : Z }.
#[export] Instance eta_conf : Eta conf_file := fun x => mk_conf (b_data x) (b_pos x) (f_offset x) (f_line x).

Section Reading.
(** [NGX_CONF_BUFFER], which is 4096; the size of the file; [ngx_read_file] at an offset; whether there is
    memory for a word; and whether [ngx_memcpy] copies areas that overlap, which C leaves open. *)
Context (NGX_CONF_BUFFER file_size : nat) (read : nat -> nat -> option (list Z)) (alloc : nat -> bool) (overlap : bool).

(** [n] bytes from [i] on. *)
Definition slice (l : list Z) (i n : nat) : list Z := take n (drop i l).

Definition too_long (f : flags) : token :=
  NGX_ERROR (if d_quoted f || s_quoted f then "too long parameter, probably missing terminating character" else "too long parameter").

(** [if (b->pos >= b->last)]: the end of the call, or the new [start]. *)
Definition refill (f : flags) (start : nat) (start_line : Z) (nelts : nat) : R conf_file (token + nat) :=
  fun b =>
    if (file_size <=? f_offset b)%nat then
      Done (inl (if (0 <? nelts)%nat then NGX_ERROR "unexpected end of file" else NGX_CONF_FILE_DONE)) b
    else
      let len := (b_pos b - start)%nat in
      if (len =? NGX_CONF_BUFFER)%nat then
        Done (inl (too_long f)) (b <| f_line := start_line |>)
      else if negb overlap && (0 <? start)%nat && (start <? len)%nat then Fault
      else
        let kept := slice (b_data b) start len in
        let size := Nat.min (file_size - f_offset b) (NGX_CONF_BUFFER - len) in
        match read (f_offset b) size with
        | None => Done (inl (NGX_ERROR "read failed")) (b <| b_data := kept ++ drop len (b_data b) |>)
        | Some bytes =>
            let n := length bytes in
            let b := b <| f_offset := (f_offset b + n)%nat |> in
            if negb (n =? size)%nat then
              Done (inl (NGX_ERROR "short read")) (b <| b_data := kept ++ bytes ++ drop (len + n) (b_data b) |>)
            else Done (inr 0%nat) (b <| b_data := kept ++ bytes |> <| b_pos := len |>)
        end.

Fixpoint token_loop (fuel : nat) (f : flags) (start : nat) (start_line : Z) (args : list (list Z)) : R conf_file (token * list (list Z)) :=
  fun b =>
    match fuel with
    | O => NoFuel
    | S fuel =>
        match (if (length (b_data b) <=? b_pos b)%nat then refill f start start_line (length args) b else Done (inr start) b) with
        | Fault => Fault
        | NoFuel => NoFuel
        | Done (inl t) b => Done (t, args) b
        | Done (inr start) b =>
            match b_data b !! b_pos b with
            | None => Fault
            | Some ch =>
                let b := b <| b_pos := S (b_pos b) |> <| f_line := if ch =? 10 then f_line b + 1 else f_line b |> in
                let '(f, a) := conf_char (length args) f ch in
                match a with
                | Return t => Done (t, args) b
                | Go => token_loop fuel f start start_line args b
                | Mark n => token_loop fuel f (b_pos b - 1 + n) (f_line b) args b
                | Found =>
                    if negb (alloc (length args)) then Done (NGX_ERROR "no memory", args) b
                    else
                      let args := args ++ [copy_word (slice (b_data b) start (b_pos b - 1 - start)) ch] in
                      if ch =? 59 then Done (NGX_OK, args) b
                      else if ch =? 123 then Done (NGX_CONF_BLOCK_START, args) b
                      else token_loop fuel f start start_line args b
                end
            end
        end
    end.

(** A turn of the loop reads a character. *)
Definition ngx_conf_read_token : R conf_file (token * list (list Z)) :=
  fun b => token_loop (S (length (b_data b) - b_pos b + (file_size - f_offset b))) flags0 (b_pos b) (f_line b) [] b.

(** * The text

    The same with the text that is left at once: [raw] is what was read from the start of the
    word on.  The result is the token, the words, the rest of the text and the line. *)
Fixpoint read_text (f : flags) (raw : list Z) (start_line line : Z) (args : list (list Z)) (text : list Z) : token * list (list Z) * list Z * Z :=
  match text with
  | [] => ((if (0 <? length args)%nat then NGX_ERROR "unexpected end of file" else NGX_CONF_FILE_DONE), args, [], line)
  | ch :: rest =>
      if (length raw =? NGX_CONF_BUFFER)%nat then (too_long f, args, text, start_line)
      else
        let line := if ch =? 10 then line + 1 else line in
        let '(f, a) := conf_char (length args) f ch in
        match a with
        | Return t => (t, args, rest, line)
        | Go => read_text f (raw ++ [ch]) start_line line args rest
        | Mark n => read_text f (drop n [ch]) line line args rest
        | Found =>
            if negb (alloc (length args)) then (NGX_ERROR "no memory", args, rest, line)
            else
              let args := args ++ [copy_word raw ch] in
              if ch =? 59 then (NGX_OK, args, rest, line)
              else if ch =? 123 then (NGX_CONF_BLOCK_START, args, rest, line)
              else read_text f (raw ++ [ch]) start_line line args rest
        end
  end.
End Reading.

(** * The buffer does not matter *)

(** Every byte of the file can be read. *)
Definition reads (file : list Z) (read : nat -> nat -> option (list Z)) : Prop :=
  forall i n, (i + n <= length file)%nat -> read i n = Some (slice file i n).

Lemma slice_length (l : list Z) i n : (i + n <= length l)%nat -> length (slice l i n) = n.
Proof. intros H. unfold slice. rewrite length_take, length_drop. lia. Qed.
Lemma slice_snoc (l : list Z) i j c : (i <= j)%nat -> l !! j = Some c -> slice l i (S j - i) = slice l i (j - i) ++ [c].
Proof.
  intros Hij Hc. unfold slice. replace (S j - i)%nat with (S (j - i)) by lia. apply take_S_r. rewrite lookup_drop. by replace (i + (j - i))%nat with j by lia.
Qed.

Lemma mark_small nelts f ch f' n : conf_char nelts f ch = (f', Mark n) -> (n <= 1)%nat.
Proof. unfold conf_char, word_char. intros H. repeat (case_match; simplify_eq; try lia). Qed.

Section Buffer.
Context (B : nat) (file : list Z) (read : nat -> nat -> option (list Z)) (alloc : nat -> bool).
Context (HB : (0 < B)%nat) (Hread : reads file read).
Abbreviation loop := (token_loop B (length file) read alloc true).

(** What is left of the text. *)
Definition left_over (b : conf_file) : list Z := drop (b_pos b) (b_data b) ++ drop (f_offset b) file.
Definition conf_ok (b : conf_file) : Prop :=
  (length (b_data b) <= B)%nat /\ (b_pos b <= length (b_data b))%nat /\ (f_offset b <= length file)%nat.

(** Reading more moves the kept bytes to the front. *)
Lemma refill_ok f start sl nelts b : conf_ok b -> (start <= b_pos b)%nat -> b_pos b = length (b_data b) -> (f_offset b < length file)%nat ->
  (b_pos b - start <> B)%nat ->
  exists b', refill B (length file) read true f start sl nelts b = Done (inr 0%nat) b' /\ conf_ok b' /\ left_over b' = left_over b /\
    f_line b' = f_line b /\ slice (b_data b') 0 (b_pos b') = slice (b_data b) start (b_pos b - start) /\ (b_pos b' < length (b_data b'))%nat.
Proof using HB Hread.
  intros (H1 & H2 & H3) Hs Hp Ho Hl. unfold refill. rewrite (proj2 (Nat.leb_gt _ _)) by lia. rewrite (proj2 (Nat.eqb_neq _ _) Hl). cbn [negb andb].
  set (len := (b_pos b - start)%nat) in *. set (size := Nat.min _ _).
  assert (0 < size)%nat by (unfold size; lia). assert (f_offset b + size <= length file)%nat by (unfold size; lia).
  rewrite Hread by done. rewrite slice_length by done. rewrite Nat.eqb_refl. cbn [negb]. eexists. split; [reflexivity|].
  assert (length (slice (b_data b) start len) = len) as Hk by (apply slice_length; unfold len; lia).
  unfold conf_ok, left_over. rsimpl. rewrite length_app, Hk, slice_length by done. split_and!; try lia; try (unfold size; lia).
  - rewrite drop_app_length' by done. rewrite (drop_ge (b_data b)) by lia. cbn [app]. unfold slice. rewrite <- drop_drop. apply take_drop.
  - unfold slice at 1. rewrite drop_0. by rewrite take_app_length'.
Qed.

(** The next character, if there is one and room for it. *)
Lemma fetch_ok f start sl nelts b : conf_ok b -> (start <= b_pos b)%nat ->
  let r := if (length (b_data b) <=? b_pos b)%nat then refill B (length file) read true f start sl nelts b else Done (inr start) b in
  (left_over b = [] /\ r = Done (inl (if (0 <? nelts)%nat then NGX_ERROR "unexpected end of file" else NGX_CONF_FILE_DONE)) b) \/
  (exists ch rest, left_over b = ch :: rest /\ (b_pos b - start = B)%nat /\ r = Done (inl (too_long f)) (b <| f_line := sl |>)) \/
  (exists ch rest b1 start1, left_over b = ch :: rest /\ (b_pos b - start <> B)%nat /\ r = Done (inr start1) b1 /\ conf_ok b1 /\
    (start1 <= b_pos b1)%nat /\ b_data b1 !! b_pos b1 = Some ch /\ left_over (b1 <| b_pos := S (b_pos b1) |>) = rest /\
    f_line b1 = f_line b /\ slice (b_data b1) start1 (b_pos b1 - start1) = slice (b_data b) start (b_pos b - start)).
Proof using HB Hread.
  intros Hok Hs r.
  assert (forall b1, conf_ok b1 -> (b_pos b1 < length (b_data b1))%nat -> exists ch, b_data b1 !! b_pos b1 = Some ch /\
    left_over b1 = ch :: left_over (b1 <| b_pos := S (b_pos b1) |>)) as Hnext.
  { intros b1 _ Hlt. destruct (lookup_lt_is_Some_2 _ _ Hlt) as [ch Hch]. exists ch. split; [done|]. unfold left_over. rsimpl. by rewrite (drop_S _ _ _ Hch). }
  unfold r. destruct (Nat.leb_spec (length (b_data b)) (b_pos b)) as [Hge|Hlt].
  - pose proof Hok as (H1 & H2 & H3). destruct (decide (length file <= f_offset b)%nat) as [Ho|Ho].
    { left. split; [unfold left_over; by rewrite !drop_ge by lia|]. unfold refill. by rewrite (proj2 (Nat.leb_le _ _)) by lia. }
    right. destruct (decide (b_pos b - start = B)%nat) as [E|E]; [left|right].
    + assert (left_over b <> []) as Hne by (intros Hn; apply (f_equal length) in Hn; unfold left_over in Hn; rewrite length_app, !length_drop in Hn; cbn in Hn; lia).
      destruct (left_over b) as [|ch rest]; [done|]. exists ch, rest. split_and!; [done..|]. unfold refill. rewrite (proj2 (Nat.leb_gt _ _)) by lia.
      by rewrite E, Nat.eqb_refl.
    + destruct (refill_ok f start sl nelts b Hok Hs ltac:(lia) ltac:(lia) E) as (b1 & Hr & Hok1 & Hl & Hline & Hraw & Hlt1).
      destruct (Hnext b1 Hok1 Hlt1) as (ch & Hch & Hl1). exists ch, (left_over (b1 <| b_pos := S (b_pos b1) |>)), b1, 0%nat.
      rewrite Nat.sub_0_r. rewrite <- Hl. split_and!; (done || lia).
  - right. right. destruct (Hnext b Hok Hlt) as (ch & Hch & Hl). exists ch, (left_over (b <| b_pos := S (b_pos b) |>)), b, start.
    destruct Hok as (H1 & H2 & H3). split_and!; try done; lia.
Qed.

(** The buffer after a character. *)
Lemma advance_ok b1 start1 ch line : conf_ok b1 -> (start1 <= b_pos b1)%nat -> b_data b1 !! b_pos b1 = Some ch ->
  let b2 := b1 <| b_pos := S (b_pos b1) |> <| f_line := line |> in
  conf_ok b2 /\ left_over b2 = left_over (b1 <| b_pos := S (b_pos b1) |>) /\
  slice (b_data b2) start1 (b_pos b2 - start1) = slice (b_data b1) start1 (b_pos b1 - start1) ++ [ch] /\
  (forall n, (n <= 1)%nat -> slice (b_data b2) (b_pos b2 - 1 + n) (b_pos b2 - (b_pos b2 - 1 + n)) = drop n [ch]).
Proof using HB.
  intros (H1 & H2 & H3) Hs Hch b2. pose proof (lookup_lt_Some _ _ _ Hch). unfold b2, conf_ok, left_over. rsimpl. split_and!; try (done || lia).
  - by apply slice_snoc.
  - intros n Hn. unfold slice. replace (S (b_pos b1) - 1 + n)%nat with (b_pos b1 + n)%nat by lia. destruct n as [|[|]]; [|by rewrite Nat.add_comm, Nat.sub_diag|lia].
    rewrite Nat.add_0_r, (drop_S _ _ _ Hch). by replace (S (b_pos b1) - b_pos b1)%nat with 1%nat by lia.
Qed.

Lemma token_loop_ok fuel : forall f start sl args b, conf_ok b -> (start <= b_pos b)%nat -> (length (left_over b) < fuel)%nat ->
  exists t args' b', read_text B alloc f (slice (b_data b) start (b_pos b - start)) sl (f_line b) args (left_over b) = (t, args', left_over b', f_line b') /\
    loop fuel f start sl args b = Done (t, args') b' /\ conf_ok b'.
Proof using HB Hread.
  induction fuel as [|fuel IH]; intros f start sl args b Hok Hs Hf; [lia|]. cbn [token_loop].
  assert (length (slice (b_data b) start (b_pos b - start)) = (b_pos b - start)%nat) as Hlen by (destruct Hok as (? & ? & ?); apply slice_length; lia).
  destruct (fetch_ok f start sl (length args) b Hok Hs) as [[Hl ->]|[(ch & rest & Hl & HB' & ->)|(ch & rest & b1 & start1 & Hl & HB' & -> & Hok1 & Hs1 & Hch & Hrest & Hline & Hraw)]];
    rewrite Hl in *; cbn [read_text].
  - eexists _, _, b. split_and!; [by rewrite Hl | done | done].
  - rewrite Hlen, HB', Nat.eqb_refl. eexists _, _, _. split_and!; [|reflexivity|done]. change (left_over (b <| f_line := sl |>)) with (left_over b). by rewrite Hl.
  - rewrite Hlen, (proj2 (Nat.eqb_neq _ _) HB'), Hch, Hline. cbn [length] in Hf.
    destruct (advance_ok b1 start1 ch (if ch =? 10 then f_line b + 1 else f_line b) Hok1 Hs1 Hch) as (Hok2 & Hleft2 & Hslice2 & Hmark2).
    set (b2 := b1 <| b_pos := S (b_pos b1) |> <| f_line := if ch =? 10 then f_line b + 1 else f_line b |>) in *.
    rewrite Hrest in Hleft2. rewrite Hraw in Hslice2.
    assert (f_line b2 = if ch =? 10 then f_line b + 1 else f_line b) as Hline2 by done. rewrite <- Hline2.
    assert (b_pos b2 - 1 = b_pos b1)%nat as Hp2 by (unfold b2; rsimpl; lia).
    destruct (conf_char (length args) f ch) as [f' a] eqn:Ec. destruct a as [|n| |t].
    + rewrite <- Hslice2, <- Hleft2. apply IH; [done | unfold b2; rsimpl; lia | rewrite Hleft2; lia].
    + apply mark_small in Ec. rewrite <- (Hmark2 n Ec), <- Hleft2. apply IH; [done | unfold b2; rsimpl; lia | rewrite Hleft2; lia].
    + destruct (alloc (length args)); cbn [negb]; [|by eexists _, _, b2; rewrite Hleft2].
      assert (slice (b_data b2) start1 (b_pos b2 - 1 - start1) = slice (b_data b) start (b_pos b - start)) as Hw by (rewrite Hp2; exact Hraw).
      rewrite Hw. destruct (ch =? 59); [by eexists _, _, b2; rewrite Hleft2|]. destruct (ch =? 123); [by eexists _, _, b2; rewrite Hleft2|].
      rewrite <- Hslice2, <- Hleft2. apply IH; [done | unfold b2; rsimpl; lia | rewrite Hleft2; lia].
    + by eexists _, _, b2; rewrite Hleft2.
Qed.

Lemma read_token_ok b : conf_ok b ->
  exists t args b', read_text B alloc flags0 [] (f_line b) (f_line b) [] (left_over b) = (t, args, left_over b', f_line b') /\
    ngx_conf_read_token B (length file) read alloc true b = Done (t, args) b' /\ conf_ok b'.
Proof using HB Hread.
  intros Hok. pose proof (token_loop_ok (S (length (b_data b) - b_pos b + (length file - f_offset b))) flags0 (b_pos b) (f_line b) [] b Hok) as H.
  rewrite Nat.sub_diag in H. apply H; [lia|]. unfold left_over. rewrite length_app, !length_drop. lia.
Qed.
End Buffer.

(** * Words in print *)

Definition quote_char (c : Z) : list Z := if (c =? 34) || (c =? 92) then [92; c] else [c].
Definition quote_body (w : list Z) : list Z := concat (map quote_char w).
(** The words in double quotes, each with a space behind it, and a semicolon. *)
Fixpoint directive_text (ws : list (list Z)) : list Z :=
  match ws with
  | [] => [59]
  | w :: ws => 34 :: quote_body w ++ 34 :: 32 :: directive_text ws
  end.

Lemma copy_quoted w ch : copy_word (quote_body w) ch = w.
Proof.
  induction w as [|c w IH]; [done|]. unfold quote_body in *. cbn [map concat]. unfold quote_char at 1.
  destruct ((c =? 34) || (c =? 92)) eqn:E; cbn [app copy_word].
  - unfold escape_char. assert ((c =? 34) || (c =? 39) || (c =? 92) = true) as -> by lia. by rewrite IH.
  - rewrite (proj2 (Z.eqb_neq c 92)) by lia. by rewrite IH.
Qed.

Section Print.
Context (B : nat) (alloc : nat -> bool) (Halloc : forall n, alloc n = true).
Abbreviation text := (read_text B alloc).

Definition lf (ch line : Z) : Z := if ch =? 10 then line + 1 else line.
Lemma text_go f f' raw sl line args ch rest : conf_char (length args) f ch = (f', Go) -> (length raw < B)%nat ->
  text f raw sl line args (ch :: rest) = text f' (raw ++ [ch]) sl (lf ch line) args rest.
Proof using Type. intros Hc Hr. cbn [read_text]. rewrite (proj2 (Nat.eqb_neq _ _)) by lia. by rewrite Hc. Qed.

Lemma text_mark f f' n raw sl line args ch rest : conf_char (length args) f ch = (f', Mark n) -> (length raw < B)%nat ->
  text f raw sl line args (ch :: rest) = text f' (drop n [ch]) (lf ch line) (lf ch line) args rest.
Proof using Type. intros Hc Hr. cbn [read_text]. rewrite (proj2 (Nat.eqb_neq _ _)) by lia. by rewrite Hc. Qed.
Lemma text_found f f' raw sl line args ch rest : conf_char (length args) f ch = (f', Found) -> (length raw < B)%nat -> ch <> 59 -> ch <> 123 ->
  text f raw sl line args (ch :: rest) = text f' (raw ++ [ch]) sl (lf ch line) (args ++ [copy_word raw ch]) rest.
Proof using Halloc.
  intros Hc Hr H1 H2. cbn [read_text]. rewrite (proj2 (Nat.eqb_neq _ _)) by lia. rewrite Hc, Halloc. cbn [negb].
  by rewrite (proj2 (Z.eqb_neq _ _) H1), (proj2 (Z.eqb_neq _ _) H2).
Qed.

(** Inside the quotes. *)
Abbreviation dq v := (mk_flags false false false v false false true).
Lemma text_body w : forall raw sl line args rest v, (length raw + length (quote_body w) < B)%nat ->
  exists line' v', text (dq v) raw sl line args (quote_body w ++ rest) = text (dq v') (raw ++ quote_body w) sl line' args rest.
Proof using Type.
  induction w as [|c w IH]; intros raw sl line args rest v Hr; [exists line, v; by rewrite app_nil_r|].
  change (quote_body (c :: w)) with (quote_char c ++ quote_body w) in *. rewrite length_app in Hr.
  unfold quote_char in *. destruct ((c =? 34) || (c =? 92)) eqn:E; cbn [app length] in Hr |- *.
  - rewrite (text_go _ (mk_flags false false false false true false true)) by (done || lia).
    rewrite (text_go _ (dq false)); [|unfold conf_char; cbn -[Z.eqb]; by rewrite andb_false_r|rewrite length_app; cbn; lia].
    destruct (IH ((raw ++ [92]) ++ [c]) sl (lf c (lf 92 line)) args rest false) as (line' & v' & ->); [rewrite !length_app; cbn [length]; lia|].
    exists line', v'. by rewrite <- !app_assoc.
  - assert (exists v', conf_char (length args) (dq v) c = (dq v', Go)) as [v' Hv'].
    { unfold conf_char. cbn -[Z.eqb word_char]. rewrite andb_false_r. cbn -[Z.eqb word_char]. unfold word_char. cbn -[Z.eqb].
      destruct ((c =? 123) && v) eqn:E1; [by exists v|]. rewrite (proj2 (Z.eqb_neq c 92)) by lia. destruct (c =? 36); [by exists true|].
      rewrite (proj2 (Z.eqb_neq c 34)) by lia. by exists false. }
    rewrite (text_go _ _ _ _ _ _ _ _ Hv') by lia.
    destruct (IH (raw ++ [c]) sl (lf c line) args rest v') as (line' & v'' & ->); [rewrite !length_app; cbn [length]; lia|].
    exists line', v''. by rewrite <- !app_assoc.
Qed.

Lemma text_directive ws : forall raw sl line args rest, (length raw < B)%nat -> Forall (fun w => length (quote_body w) + 2 < B)%nat ws -> args ++ ws <> [] ->
  exists line', text flags0 raw sl line args (directive_text ws ++ rest) = (NGX_OK, args ++ ws, rest, line').
Proof using Halloc.
  induction ws as [|w ws IH]; intros raw sl line args rest Hr Hws Hne.
  - rewrite app_nil_r in *. cbn [directive_text app read_text]. rewrite (proj2 (Nat.eqb_neq _ _)) by lia.
    destruct args as [|a args]; [done|]. cbn. by eexists.
  - apply Forall_cons in Hws as [Hw Hws]. cbn [directive_text app]. rewrite <- app_assoc. cbn [app].
    rewrite (text_mark _ (dq false) 1) by done. cbn [drop].
    destruct (text_body w [] (lf 34 line) (lf 34 line) args (34 :: 32 :: directive_text ws ++ rest) false) as (line1 & v & ->); [cbn [length]; lia|].
    rewrite (text_found _ (mk_flags true false false false false false false)); [|by destruct v|cbn [app]; lia|done|done].
    rewrite (text_go _ flags0) by (done || (rewrite !length_app; cbn [length]; lia)). cbn [app]. rewrite copy_quoted.
    destruct (IH ((quote_body w ++ [34]) ++ [32]) (lf 34 line) (lf 32 (lf 34 line1)) (args ++ [w]) rest) as (line' & ->);
      [rewrite !length_app; cbn [length]; lia | done | by destruct args |]. exists line'. by rewrite <- app_assoc.
Qed.

(** The line counts the line ends that were read. *)
Definition line_ends (s : list Z) : Z := Z.of_nat (length (filter (fun c => c = 10) s)).
Lemma text_lines s : forall f raw sl line args t args' rest line', text f raw sl line args s = (t, args', rest, line') ->
  (exists f', t = too_long f') \/ exists read, s = read ++ rest /\ line' = line + line_ends read.
Proof using Type.
  induction s as [|ch s IH]; intros f raw sl line args t args' rest line'; cbn [read_text].
  { intros [= <- <- <- <-]. right. exists []. split; [done|]. unfold line_ends. cbn. lia. }
  destruct (length raw =? B)%nat; [intros [= <- <- <- <-]; left; by eexists|].
  assert (forall read, line + line_ends (ch :: read) = (if ch =? 10 then line + 1 else line) + line_ends read) as Hl.
  { intros read. unfold line_ends. rewrite filter_cons. destruct (Z.eqb_spec ch 10), (decide (ch = 10)); try done; cbn [length]; lia. }
  assert (forall f' raw' sl' args1, text f' raw' sl' (if ch =? 10 then line + 1 else line) args1 s = (t, args', rest, line') ->
    (exists f', t = too_long f') \/ exists read, ch :: s = read ++ rest /\ line' = line + line_ends read) as Hgo.
  { intros f' raw' sl' args1 H. destruct (IH _ _ _ _ _ _ _ _ _ H) as [?|(read & -> & ->)]; [by left|right]. exists (ch :: read). by rewrite Hl. }
  assert (forall x, (t, args', rest, line') = (t, args', s, x) -> x = (if ch =? 10 then line + 1 else line) ->
    (exists f', t = too_long f') \/ exists read, ch :: s = read ++ rest /\ line' = line + line_ends read) as Hend.
  { intros x [= -> ->] ->. right. exists [ch]. split; [done|]. rewrite Hl. unfold line_ends. cbn. lia. }
  destruct (conf_char (length args) f ch) as [f' a]. destruct a as [|n| |t']; [apply Hgo | apply Hgo | |by intros [= <- <- <- <-]; eapply Hend].
  destruct (negb (alloc (length args))); [by intros [= <- <- <- <-]; eapply Hend|].
  destruct (ch =? 59); [by intros [= <- <- <- <-]; eapply Hend|]. destruct (ch =? 123); [by intros [= <- <- <- <-]; eapply Hend|]. apply Hgo.
Qed.
End Print.

(** Blanks before a directive are kept, too. *)
Lemma text_blanks B alloc n : forall raw sl line ch rest, (length raw + n = B)%nat ->
  read_text B alloc flags0 raw sl line [] (replicate n 32 ++ ch :: rest) = (too_long flags0, [], ch :: rest, sl).
Proof.
  induction n as [|n IH]; intros raw sl line ch rest Hr; cbn [replicate app].
  - cbn [read_text]. by rewrite (proj2 (Nat.eqb_eq _ _)) by lia.
  - rewrite (text_go _ _ _ flags0) by (done || lia). apply IH. rewrite length_app. cbn [length]. lia.
Qed.

(** ** Areas that overlap *)

(** A character that means nothing but itself. *)
Definition plain (c : Z) : Prop :=
  is_space c = false /\ (c ∉ [59; 123; 125; 35; 92; 34; 39; 36]).
Definition in_word : flags := flags0 <| last_space := false |>.
Lemma plain_char c : plain c ->
  conf_char 0 flags0 c = (in_word, Mark 0) /\ conf_char 0 in_word c = (in_word, Go) /\ (c =? 10) = false.
Proof.
  intros [Hs Hc]. rewrite !not_elem_of_cons in Hc. destruct Hc as (H1 & H2 & H3 & H4 & H5 & H6 & H7 & H8 & _).
  assert ((c =? 10) = false) as H10 by (unfold is_space in Hs; by destruct (c =? 10); [rewrite !orb_true_r in Hs|]).
  unfold conf_char, word_char. rewrite H10. cbn [andb flags0 in_word sharp_comment quoted need_space last_space]. rewrite Hs.
  apply Z.eqb_neq in H1, H2, H3, H4, H5, H6, H7, H8. rewrite ?H1, ?H2, ?H3, ?H4, ?H5, ?H6, ?H7, ?H8. done.
Qed.

Section Overlap.
Context (B file_size : nat) (read : nat -> nat -> option (list Z)) (alloc : nat -> bool) (overlap : bool).

(** One character of the buffer that does nothing. *)
Lemma loop_go fuel f start sl data pos off line ch rest :
  drop pos data = ch :: rest -> conf_char 0 f ch = (f, Go) -> (ch =? 10) = false ->
  token_loop B file_size read alloc overlap (S fuel) f start sl [] (mk_conf data pos off line) =
    token_loop B file_size read alloc overlap fuel f start sl [] (mk_conf data (S pos) off line).
Proof.
  intros Hd Hc Hn. assert (data !! pos = Some ch) as Hl by (by rewrite <- (Nat.add_0_r pos), <- lookup_drop, Hd).
  pose proof (lookup_lt_Some _ _ _ Hl). cbn [token_loop b_data b_pos length]. rewrite (proj2 (Nat.leb_gt _ _)) by lia.
  cbv iota. cbn [b_data b_pos]. rewrite Hl. cbv zeta. rsimpl. rewrite Hc, Hn. done.
Qed.
Lemma drop_cons pos (data : list Z) ch rest : drop pos data = ch :: rest -> drop (S pos) data = rest.
Proof. intros H. by rewrite <- Nat.add_1_r, <- drop_drop, H. Qed.

Lemma loop_gos f w : forall fuel start sl data pos off line rest,
  Forall (fun ch => conf_char 0 f ch = (f, Go) /\ (ch =? 10) = false) w -> drop pos data = w ++ rest ->
  token_loop B file_size read alloc overlap (length w + fuel) f start sl [] (mk_conf data pos off line) =
    token_loop B file_size read alloc overlap fuel f start sl [] (mk_conf data (pos + length w) off line).
Proof.
  induction w as [|ch w IH]; intros fuel start sl data pos off line rest Hw Hd; cbn [length Nat.add].
  - by rewrite Nat.add_0_r.
  - apply Forall_cons in Hw as [[Hc Hn] Hw]. cbn [app] in Hd. rewrite (loop_go _ _ _ _ _ _ _ _ _ _ Hd Hc Hn).
    rewrite (IH _ _ _ _ _ _ _ rest Hw) by (by eapply drop_cons). do 2 f_equal. lia.
Qed.
End Overlap.

Lemma overlap_faults B file_size read alloc b n w :
  length (b_data b) = B -> (f_offset b < file_size)%nat ->
  drop (b_pos b) (b_data b) = replicate n 32 ++ w -> Forall plain w -> (0 < b_pos b + n)%nat -> (2 * (b_pos b + n) < B)%nat ->
  ngx_conf_read_token B file_size read alloc false b = Fault.
Proof.
  intros HB Ho Hd Hw Hp Hhalf. unfold ngx_conf_read_token. destruct b as [data pos off line]. cbn [b_data b_pos f_offset f_line] in *.
  assert (length data - pos = n + length w)%nat as Hlen by (by rewrite <- length_drop, Hd, length_app, length_replicate).
  destruct w as [|ch w]; [cbn in Hlen; lia|]. apply Forall_cons in Hw as [Hch Hw]. destruct (plain_char ch Hch) as (Hmark & _ & Hnl).
  cbn [length] in Hlen. set (rest := (file_size - off)%nat).
  replace (S (length data - pos + rest)) with (length (replicate n (32 : Z)) + S (length w + S rest))%nat by (rewrite length_replicate; lia).
  rewrite (loop_gos B file_size read alloc false flags0 _ _ _ _ _ _ _ _ (ch :: w)) by (done || by apply Forall_replicate). rewrite length_replicate.
  assert (drop (pos + n) data = ch :: w) as Hd' by (by rewrite <- drop_drop, Hd, drop_app_length' by (by rewrite length_replicate)).
  assert (data !! (pos + n)%nat = Some ch) as Hl by (by rewrite <- (Nat.add_0_r (pos + n)), <- lookup_drop, Hd').
  cbn [token_loop b_data b_pos length]. rewrite (proj2 (Nat.leb_gt _ _)) by lia. cbv iota. cbn [b_data b_pos]. rewrite Hl. cbv zeta. rsimpl. rewrite Hmark, Hnl.
  change (token_loop B file_size read alloc false (length w + S rest) in_word (S (pos + n) - 1 + 0) line [] (mk_conf data (S (pos + n)) off line) = Fault).
  rewrite (loop_gos B file_size read alloc false in_word w _ _ _ _ _ _ _ []).
  2: { eapply Forall_impl; [exact Hw|]. intros c Hc. by destruct (plain_char c Hc) as (_ & ? & ?). }
  2: { rewrite app_nil_r. by eapply drop_cons. }
  cbn [token_loop b_data b_pos length]. rewrite (proj2 (Nat.leb_le _ _)) by lia. unfold refill. cbn [b_data b_pos f_offset].
  rewrite (proj2 (Nat.leb_gt _ _)) by lia. rewrite (proj2 (Nat.eqb_neq _ _)) by lia.
  rewrite (proj2 (Nat.ltb_lt 0 _)), (proj2 (Nat.ltb_lt _ (_ - _))) by lia. done.
Qed.

(** * The theorem *)

(** C35.  Reading directives.  For any size of the buffer and any way it is filled (where
    [ngx_memcpy] may copy areas that overlap) from a file that can be read, [ngx_conf_read_token] returns, without
    a fault, and what it returns is a function of the text that is left: the token and the
    words are those of [read_text], which has the whole text at once; the text that is left after it
    is the rest, and the line has counted the line ends between, unless a parameter is too long.
    Words printed in double quotes, with quotes and backslashes escaped, are read back, whatever bytes
    they have, when there is memory for them and each, as it is printed with both quotes, is
    shorter than the buffer.  But the
    bytes since the last word count as a parameter: as many blanks as the buffer has bytes are
    a parameter that is too long.  And where areas that overlap may not be copied, a word without special
    characters that begins, not at its first byte, in the first half of the full buffer and
    goes on to its end makes a fault, if there is more of the file. *)
Theorem conf_token_correct B file read alloc b : (0 < B)%nat -> reads file read -> conf_ok B file b ->
  (exists t args b', ngx_conf_read_token B (length file) read alloc true b = Done (t, args) b' /\ conf_ok B file b' /\
    read_text B alloc flags0 [] (f_line b) (f_line b) [] (left_over file b) = (t, args, left_over file b', f_line b') /\
    ((exists f, t = too_long f) \/
     exists text, left_over file b = text ++ left_over file b' /\ f_line b' = f_line b + line_ends text)) /\
  (forall ws rest, (forall n, alloc n = true) -> ws <> [] -> Forall (fun w => length (quote_body w) + 2 < B)%nat ws ->
    left_over file b = directive_text ws ++ rest ->
    exists b', ngx_conf_read_token B (length file) read alloc true b = Done (NGX_OK, ws) b' /\ conf_ok B file b' /\ left_over file b' = rest) /\
  (forall ch rest, left_over file b = replicate B 32 ++ ch :: rest ->
    exists b', ngx_conf_read_token B (length file) read alloc true b = Done (NGX_ERROR "too long parameter", []) b') /\
  (forall n w, length (b_data b) = B -> (f_offset b < length file)%nat ->
    drop (b_pos b) (b_data b) = replicate n 32 ++ w -> Forall plain w -> (0 < b_pos b + n)%nat -> (2 * (b_pos b + n) < B)%nat ->
    ngx_conf_read_token B (length file) read alloc false b = Fault).
Proof.
  intros HB Hread Hok. destruct (read_token_ok B file read alloc HB Hread b Hok) as (t & args & b' & Htext & Hrun & Hok'). split_and!.
  - exists t, args, b'. split_and!; [done..|]. by apply text_lines in Htext.
  - intros ws rest Ha Hne Hws Hleft. rewrite Hleft in Htext.
    destruct (text_directive B alloc Ha ws [] (f_line b) (f_line b) [] rest) as (line' & E); [cbn [length]; lia | done | done |].
    rewrite E in Htext. injection Htext as <- <- Hrest _. by exists b'.
  - intros ch rest Hleft. rewrite Hleft in Htext. rewrite text_blanks in Htext by done. injection Htext as <- <- _ _. by exists b'.
  - intros n w. apply overlap_faults.
Qed.

Definition empty_buffer : conf_file := mk_conf [] 0 0 1.
(** Two words, through a buffer of 16 bytes, and one that is longer. *)
Definition long_word : list Z := replicate 4 32 ++ replicate 20 97.
Definition some_directive : list Z := directive_text [bytes "error_log"; bytes "a b;"].
Lemma conf_token_correct_witness :
  exists b', ngx_conf_read_token 16 (length some_directive) (fun i n => Some (slice some_directive i n)) (fun _ => true) true empty_buffer
    = Done (NGX_OK, [bytes "error_log"; bytes "a b;"]) b' /\
  ngx_conf_read_token 16 (length long_word) (fun i n => Some (slice long_word i n)) (fun _ => true) false (mk_conf (take 16 long_word) 0 16 1) = Fault.
Proof.
  destruct (conf_token_correct 16 some_directive (fun i n => Some (slice some_directive i n)) (fun _ => true) empty_buffer) as (_ & H & _);
    [lia | done | by repeat split; cbn; lia |].
  destruct (H [bytes "error_log"; bytes "a b;"] []) as (b' & Hb & _); [done | done | by repeat constructor; vm_compute; lia | by rewrite app_nil_r |].
  exists b'. split; [exact Hb|]. clear Hb.
  destruct (conf_token_correct 16 long_word (fun i n => Some (slice long_word i n)) (fun _ => true) (mk_conf (take 16 long_word) 0 16 1)) as (_ & _ & _ & Hf);
    [lia | by intros i n _ | split_and!; cbn; lia |].
  apply (Hf 4%nat (replicate 12 97)); [reflexivity | cbn; lia | reflexivity | | cbn; lia | cbn; lia].
  apply Forall_replicate. split; [done|]. apply (bool_decide_unpack _). by vm_compute.
Defined.
End ConfToken.
