(* ===== verification/Escape.v ===== *)
(** Escaping for URIs and HTML: [ngx_escape_uri], [ngx_unescape_uri] and
    [ngx_escape_html] of nginx/src/core/ngx_string.c, on lists of bytes. *)
From stdpp Require Import base list numbers strings sets.
From S2P Require Import Prelude Str.
Import Str.
Local Open Scope Z_scope.

Module Escape.

(** * URIs *)

(** The sets of bytes to escape, as eight words of 32 bits. *)
Definition high_words : list Z := [0xffffffff; 0xffffffff; 0xffffffff; 0xffffffff].
Definition uri : list Z := [0xffffffff; 0x80000029; 0x00000000; 0x80000000] ++ high_words.
Definition args : list Z := [0xffffffff; 0x88000869; 0x00000000; 0x80000000] ++ high_words.
Definition html : list Z := [0xffffffff; 0x000000ad; 0x00000000; 0x80000000] ++ high_words.
Definition refresh : list Z := [0xffffffff; 0x00000085; 0x00000000; 0x80000000] ++ high_words.
Definition memcached : list Z := [0xffffffff; 0x00000021; 0x00000000; 0x00000000; 0; 0; 0; 0].

(** The argument [type] and the table [map]. *)
Inductive escape_type : Type :=
| NGX_ESCAPE_URI
| NGX_ESCAPE_ARGS
| NGX_ESCAPE_HTML
| NGX_ESCAPE_REFRESH
| NGX_ESCAPE_MEMCACHED
| NGX_ESCAPE_MAIL_AUTH.
Definition escape_map (type : escape_type) : list Z :=
  match type with
  | NGX_ESCAPE_URI => uri
  | NGX_ESCAPE_ARGS => args
  | NGX_ESCAPE_HTML => html
  | NGX_ESCAPE_REFRESH => refresh
  | NGX_ESCAPE_MEMCACHED | NGX_ESCAPE_MAIL_AUTH => memcached
  end.

(** [escape[*src >> 5] & (1 << ( *src & 0x1f))] *)
Definition escaped (escape : list Z) (c : Z) : bool :=
  negb (Z.land (entry escape (Z.shiftr c 5)) (Z.shiftl 1 (Z.land c 0x1f)) =? 0).

(** The number of bytes to escape, which is the result when [dst] is NULL. *)
Fixpoint escape_count (escape : Z -> bool) (src : list Z) : Z :=
  match src with
  | [] => 0
  | c :: src => (if escape c then 1 else 0) + escape_count escape src
  end.
(** What is written when it is not. *)
Fixpoint escape_write (escape : Z -> bool) (src : list Z) : list Z :=
  match src with
  | [] => []
  | c :: src =>
      if escape c then
        37 :: entry hex_lower (Z.shiftr c 4) :: entry hex_lower (Z.land c 0xf) :: escape_write escape src
      else c :: escape_write escape src
  end.
Definition ngx_escape_uri (dst_is_null : bool) (src : list Z) (type : escape_type) : Z + list Z :=
  let escape := escaped (escape_map type) in
  if dst_is_null then inl (escape_count escape src) else inr (escape_write escape src).

(** The flags of [type]. *)
Definition NGX_UNESCAPE_URI : Z := 1.
Definition NGX_UNESCAPE_REDIRECT : Z := 2.
Definition flag (type f : Z) : bool := negb (Z.land type f =? 0).

Inductive unescape_state : Type :=
| sw_usual
| sw_quoted
| sw_quoted_second.

(** [if (ch > '%' && ch < 0x7f) *d++ = ch; else *d++ = '%', *d++ = s[-2],
    *d++ = s[-1];] *)
Definition redirect_write (ch s2 s1 : Z) : list Z :=
  if (37 <? ch) && (ch <? 0x7f) then [ch] else [37; s2; s1].

(** The loop: what is written and what is left of [s].  [s2] is the byte read
    before, [*(s - 2)] once [ch] is read. *)
Fixpoint unescape_loop (type : Z) (state : unescape_state) (decoded s2 : Z) (s : list Z) : list Z * list Z :=
  match s with
  | [] => ([], [])
  | ch :: s =>
      let write w r := (w ++ fst r, snd r) in
      let go state decoded := unescape_loop type state decoded ch s in
      match state with
      | sw_usual =>
          if (ch =? 63) && flag type (Z.lor NGX_UNESCAPE_URI NGX_UNESCAPE_REDIRECT) then ([ch], s)
          else if ch =? 37 then go sw_quoted decoded
          else write [ch] (go sw_usual decoded)
      | sw_quoted =>
          if (48 <=? ch) && (ch <=? 57) then go sw_quoted_second (u8 (ch - 48))
          else
            let c := u8 (Z.lor ch 0x20) in
            if (97 <=? c) && (c <=? 102) then go sw_quoted_second (u8 (c - 97 + 10))
            else write [ch] (go sw_usual decoded)
      | sw_quoted_second =>
          if (48 <=? ch) && (ch <=? 57) then
            let ch' := u8 (Z.shiftl decoded 4 + ch - 48) in
            if flag type NGX_UNESCAPE_REDIRECT then write (redirect_write ch' s2 ch) (go sw_usual decoded)
            else write [ch'] (go sw_usual decoded)
          else
            let c := u8 (Z.lor ch 0x20) in
            if (97 <=? c) && (c <=? 102) then
              let ch' := u8 (Z.shiftl decoded 4 + c - 97 + 10) in
              if flag type NGX_UNESCAPE_URI then
                if ch' =? 63 then ([ch'], s) else write [ch'] (go sw_usual decoded)
              else if flag type NGX_UNESCAPE_REDIRECT then
                if ch' =? 63 then ([ch'], s) else write (redirect_write ch' s2 ch) (go sw_usual decoded)
              else write [ch'] (go sw_usual decoded)
            else go sw_usual decoded
      end
  end.
Definition ngx_unescape_uri (src : list Z) (type : Z) : list Z * list Z := unescape_loop type sw_usual 0 0 src.

(** * HTML *)

Fixpoint html_count (src : list Z) : Z :=
  match src with
  | [] => 0
  | c :: src =>
      (if c =? 60 then 5 - 2 else if c =? 62 then 5 - 2 else if c =? 38 then 6 - 2 else 0) + html_count src
  end.
Fixpoint html_write (src : list Z) : list Z :=
  match src with
  | [] => []
  | ch :: src =>
      (if ch =? 60 then [38; 108; 116; 59]
       else if ch =? 62 then [38; 103; 116; 59]
       else if ch =? 38 then [38; 97; 109; 112; 59]
       else [ch]) ++ html_write src
  end.
Definition ngx_escape_html (dst_is_null : bool) (src : list Z) : Z + list Z :=
  if dst_is_null then inl (html_count src) else inr (html_write src).

(** * Reading what was escaped *)

Abbreviation usual type := (unescape_loop type sw_usual 0 0).
Definition write (w : list Z) (r : list Z * list Z) : list Z * list Z := (w ++ fst r, snd r).

(** Outside an escape the loop does not depend on what it read before. *)
Lemma unescape_usual type d s2 s : unescape_loop type sw_usual d s2 s = usual type s.
Proof.
  assert (forall st, st <> sw_quoted_second -> forall d s2, unescape_loop type st d s2 s = unescape_loop type st 0 0 s) as H; [|by apply H].
  clear d s2. induction s as [|ch s IH]; intros st Hst d s2; [done|]. destruct st; [assert (sw_quoted <> sw_quoted_second) as Hst' by done|assert (sw_usual <> sw_quoted_second) as Hst' by done|done]; cbn [unescape_loop].
  - rewrite (IH sw_quoted Hst' d ch), (IH sw_quoted Hst' 0 ch), (IH sw_usual Hst d ch), (IH sw_usual Hst 0 ch). done.
  - rewrite (IH sw_usual Hst' d ch), (IH sw_usual Hst' 0 ch). done.
Qed.

Lemma byte_forall (p : Z -> bool) c : forallb p (seqZ 0 256) = true -> is_byte c -> p c = true.
Proof. intros Hall Hc. rewrite forallb_forall in Hall. apply Hall, list_elem_of_In, elem_of_seqZ. unfold is_byte in Hc. lia. Qed.

(** The value of a hexadecimal digit, as the two states of the loop read it. *)
Definition hex_value (ch : Z) : option (bool * Z) :=
  if (48 <=? ch) && (ch <=? 57) then Some (false, u8 (ch - 48))
  else
    let c := u8 (Z.lor ch 0x20) in
    if (97 <=? c) && (c <=? 102) then Some (true, u8 (c - 97 + 10)) else None.

(** The digits [h] and [l] read as [c], and a question mark ends in a letter. *)
Definition hex_pair (c h l : Z) : bool :=
  match hex_value h, hex_value l with
  | Some (_, a), Some (false, b) => bool_decide (u8 (Z.shiftl a 4 + l - 48) = c) && negb (c =? 63)
  | Some (_, a), Some (true, b) => bool_decide (u8 (Z.shiftl a 4 + u8 (Z.lor l 32) - 97 + 10) = c)
  | _, _ => false
  end.

(** What is written for the escape [%hl] of the byte [c]. *)
Definition unescape_byte (type c h l : Z) : list Z :=
  if flag type NGX_UNESCAPE_REDIRECT then redirect_write c h l else [c].

Lemma unescape_hex type c s : type = 0 \/ type = NGX_UNESCAPE_URI \/ type = NGX_UNESCAPE_REDIRECT -> is_byte c ->
  let h := entry hex_lower (Z.shiftr c 4) in
  let l := entry hex_lower (Z.land c 0xf) in
  usual type (37 :: h :: l :: s) =
    if (c =? 63) && negb (type =? 0) then ([c], s) else write (unescape_byte type c h l) (usual type s).
Proof.
  intros Htype Hc h l.
  assert (hex_pair c h l = true) as Hv.
  { refine (byte_forall (fun c => hex_pair c (entry hex_lower (Z.shiftr c 4)) (entry hex_lower (Z.land c 0xf))) c _ Hc). by vm_compute. }
  revert Hv. unfold hex_pair, hex_value. cbn [unescape_loop Z.eqb Pos.eqb andb].
  change (flag type (Z.lor NGX_UNESCAPE_URI NGX_UNESCAPE_REDIRECT)) with (flag type 3).
  destruct ((48 <=? h) && (h <=? 57)), ((48 <=? l) && (l <=? 57));
    [| destruct ((97 <=? u8 (Z.lor l 32)) && (u8 (Z.lor l 32) <=? 102))
     | destruct ((97 <=? u8 (Z.lor h 32)) && (u8 (Z.lor h 32) <=? 102))
     | destruct ((97 <=? u8 (Z.lor h 32)) && (u8 (Z.lor h 32) <=? 102)), ((97 <=? u8 (Z.lor l 32)) && (u8 (Z.lor l 32) <=? 102))];
    try done; intros Hv; rewrite ?andb_true_iff, ?bool_decide_eq_true in Hv;
    [destruct Hv as [-> Hv%negb_true_iff] | rewrite Hv | destruct Hv as [-> Hv%negb_true_iff] | rewrite Hv];
    rewrite unescape_usual; destruct Htype as [->|[->| ->]]; cbn; rewrite ?Hv; try done; by destruct (c =? 63).
Qed.

(** What a redirect leaves escaped; the other types decode every byte. *)
Definition kept (type : Z) (escape : Z -> bool) (c : Z) : bool :=
  (type =? NGX_UNESCAPE_REDIRECT) && escape c && negb ((37 <? c) && (c <? 0x7f)).

(** The percent sign itself is escaped, or does not occur. *)
Definition percent_ok (escape : Z -> bool) (src : list Z) : Prop := escape 37 = true \/ 37 ∉ src.
Lemma percent_ok_cons escape c src : percent_ok escape (c :: src) -> (escape c = false -> c <> 37) /\ percent_ok escape src.
Proof. intros [H|H]; (split; [intros E ->; first [congruence | set_solver]|]); [by left|right; set_solver]. Qed.

Section Reading.
Context (type : Z) (Htype : type = 0 \/ type = NGX_UNESCAPE_URI \/ type = NGX_UNESCAPE_REDIRECT).
Context (escape : Z -> bool).
(** The first byte: a question mark ends the reading of a URI. *)
Lemma unescape_cons c src : is_byte c -> (escape c = false -> c <> 37) ->
  usual type (escape_write escape (c :: src)) =
    if (c =? 63) && negb (type =? 0) then ([c], escape_write escape src)
    else write (escape_write (kept type escape) [c]) (usual type (escape_write escape src)).
Proof using All.
  intros Hc Hpc. cbn [escape_write]. unfold kept. destruct (escape c) eqn:He.
  - rewrite unescape_hex by done. destruct (_ && _); [done|]. unfold unescape_byte, redirect_write.
    destruct Htype as [->|[->| ->]]; cbn; [done..|]. by destruct (_ && _).
  - specialize (Hpc eq_refl). cbn [unescape_loop]. rewrite (proj2 (Z.eqb_neq c 37)), unescape_usual, andb_false_r by done.
    destruct Htype as [->|[->| ->]]; cbn; by destruct (c =? 63).
Qed.

Lemma unescape_all src : are_bytes src -> percent_ok escape src -> type = 0 \/ 63 ∉ src ->
  usual type (escape_write escape src) = (escape_write (kept type escape) src, []).
Proof using All.
  induction src as [|c src IH]; intros Hs Hp Hq; [done|]. apply Forall_cons in Hs as [Hc Hs]. apply percent_ok_cons in Hp as [Hpc Hp].
  rewrite unescape_cons, IH by (first [done | destruct Hq; [by left | right; set_solver]]).
  destruct ((c =? 63) && negb (type =? 0)) eqn:E; [|unfold write; cbn [escape_write fst snd]; by destruct (kept type escape c)].
  exfalso. destruct Hq as [->|Hq]; [lia|]. apply Hq. replace c with 63 by lia. set_solver.
Qed.

Lemma unescape_question a b : are_bytes a -> percent_ok escape a -> type <> 0 -> 63 ∉ a ->
  usual type (escape_write escape (a ++ 63 :: b)) = (escape_write (kept type escape) a ++ [63], escape_write escape b).
Proof using All.
  intros Ha Hp Ht. induction a as [|c a IH]; intros Hq; cbn [app].
  - rewrite unescape_cons by done. rewrite (proj2 (Z.eqb_neq type 0)) by done. done.
  - apply Forall_cons in Ha as [Hc Ha]. apply percent_ok_cons in Hp as [Hpc Hp]. rewrite unescape_cons, IH by (first [done | set_solver]).
    rewrite (proj2 (Z.eqb_neq c 63)) by set_solver. unfold write. cbn [escape_write fst snd]. by destruct (kept type escape c).
Qed.
End Reading.

Lemma escape_write_ext f g src : (forall c, f c = g c) -> escape_write f src = escape_write g src.
Proof. intros H. induction src as [|c src IH]; [done|]. cbn. by rewrite H, IH. Qed.
Lemma escape_write_none f src : (forall c, f c = false) -> escape_write f src = src.
Proof. intros H. induction src as [|c src IH]; [done|]. cbn. by rewrite H, IH. Qed.
Lemma escape_write_length f src : Z.of_nat (length (escape_write f src)) = Z.of_nat (length src) + 2 * escape_count f src.
Proof. induction src as [|c src IH]; [done|]. cbn. destruct (f c); cbn; lia. Qed.

(** Every table but [refresh] has the percent sign in it; none has a hexadecimal
    digit. *)
Lemma escape_map_percent type src : (type = NGX_ESCAPE_REFRESH -> 37 ∉ src) -> percent_ok (escaped (escape_map type)) src.
Proof. intros H. destruct type; first [by left | right; by apply H]. Qed.
Lemma kept_percent escape src : percent_ok escape src -> percent_ok (kept NGX_UNESCAPE_REDIRECT escape) src.
Proof. intros [H|H]; [left; unfold kept; by rewrite H|by right]. Qed.
Lemma escape_map_hex type i : 0 <= i < 16 -> escaped (escape_map type) (entry hex_lower i) = false.
Proof.
  intros Hi. assert (forallb (fun i => negb (escaped (escape_map type) (entry hex_lower i))) (seqZ 0 16) = true) as H by (by destruct type; vm_compute).
  rewrite forallb_forall in H. apply negb_true_iff, H, list_elem_of_In, elem_of_seqZ. lia.
Qed.

Lemma escape_write_safe type src : are_bytes src ->
  Forall (fun c => c = 37 \/ escaped (escape_map type) c = false) (escape_write (escaped (escape_map type)) src).
Proof.
  induction 1 as [|c src Hc Hs IH]; cbn; [done|]. unfold is_byte in Hc. destruct (escaped (escape_map type) c) eqn:E; [|by constructor; [right|]].
  rewrite !Forall_cons. split_and!; [by left|right; apply escape_map_hex..|done].
  - rewrite shiftr_div by done. split; [apply Z.div_pos; lia|apply Z.div_lt_upper_bound; lia].
  - change 0xf with (Z.ones 4). rewrite land_low by done. apply Z.mod_pos_bound. done.
Qed.

(** The bytes the states hold back. *)
Definition pending (st : unescape_state) : nat := match st with sw_usual => 0 | sw_quoted => 1 | sw_quoted_second => 2 end.
Lemma unescape_length type st d s2 s :
  (length (fst (unescape_loop type st d s2 s)) + length (snd (unescape_loop type st d s2 s)) <= length s + pending st)%nat.
Proof.
  assert (forall a b c, (length (redirect_write a b c) <= 3)%nat) as Hw by (intros; unfold redirect_write; case_match; cbn; lia).
  revert st d s2. induction s as [|ch s IH]; intros st d s2; [cbn; lia|].
  destruct st; cbn [unescape_loop]; repeat case_match; cbn [fst snd length]; rewrite ?length_app; cbn [length pending];
    try match goal with |- context [unescape_loop ?t ?st ?d ?a ?s] => specialize (IH st d a); cbn [pending] in IH end;
    try match goal with |- context [redirect_write ?a ?b ?c] => specialize (Hw a b c) end; lia.
Qed.

(** ** HTML *)
Lemma html_write_length src : Z.of_nat (length (html_write src)) = Z.of_nat (length src) + html_count src.
Proof. induction src as [|c src IH]; [done|]. cbn. rewrite length_app. repeat case_match; cbn; lia. Qed.
Lemma html_write_safe src : (60 ∉ html_write src) /\ (62 ∉ html_write src).
Proof. induction src as [|c src IH]; [set_solver|]. cbn. rewrite !not_elem_of_app. repeat case_match; set_solver by lia. Qed.
Lemma html_write_inj a b : html_write a = html_write b -> a = b.
Proof.
  revert b. induction a as [|x a IH]; intros [|y b]; cbn; [done|repeat case_match; done..|].
  destruct (Z.eqb_spec x 60), (Z.eqb_spec y 60), (Z.eqb_spec x 62), (Z.eqb_spec y 62), (Z.eqb_spec x 38), (Z.eqb_spec y 38);
    cbn; subst; intros H; simplify_eq/=; try done; f_equal; auto.
Qed.

(** C22. Escaping can be undone.  For every kind of escaping (for refreshes, of a
    text without percent signs), the number
    [ngx_escape_uri] returns without a buffer is half of what the text grows by;
    the escaped text has no byte of the kind's set but the percent sign; and
    [ngx_unescape_uri] gives the text back: the whole of it or, when it reads a
    URI, up to the first question mark, escaped or not, with the rest left
    unread.  What it gives for a redirect unescapes to the text too.  On any input,
    valid or not, it writes no more than it reads, so that it can work in
    place.  [ngx_escape_html] grows by what it returns without a buffer, leaves no angle
    bracket, and different texts stay different.  The table for refreshes lacks the
    percent sign its comment lists: a text with one comes back changed. *)
Theorem escape_roundtrip type src : are_bytes src -> (type = NGX_ESCAPE_REFRESH -> 37 ∉ src) ->
  (exists n out, ngx_escape_uri true src type = inl n /\ ngx_escape_uri false src type = inr out /\
    Z.of_nat (length out) = Z.of_nat (length src) + 2 * n /\
    Forall (fun c => c = 37 \/ escaped (escape_map type) c = false) out /\
    ngx_unescape_uri out 0 = (src, []) /\
    (63 ∉ src -> ngx_unescape_uri out NGX_UNESCAPE_URI = (src, []) /\
      exists out', ngx_unescape_uri out NGX_UNESCAPE_REDIRECT = (out', []) /\ ngx_unescape_uri out' 0 = (src, [])) /\
    (forall a b, src = a ++ 63 :: b -> 63 ∉ a ->
      exists rest, ngx_escape_uri false b type = inr rest /\ ngx_unescape_uri out NGX_UNESCAPE_URI = (a ++ [63], rest))) /\
  (forall s t, let r := ngx_unescape_uri s t in (length (fst r) + length (snd r) <= length s)%nat) /\
  (exists n out, ngx_escape_html true src = inl n /\ ngx_escape_html false src = inr out /\
    Z.of_nat (length out) = Z.of_nat (length src) + n /\ (60 ∉ out) /\ (62 ∉ out) /\
    (forall src', ngx_escape_html false src' = inr out -> src' = src)) /\
  ngx_escape_uri false (bytes "%41") NGX_ESCAPE_REFRESH = inr (bytes "%41") /\ ngx_unescape_uri (bytes "%41") 0 = (bytes "A", []).
Proof.
  intros Hs Hp%escape_map_percent. unfold ngx_unescape_uri. split_and!; [..|done|done].
  - eexists _, _. split_and!; [done|done|apply escape_write_length|by apply escape_write_safe|..].
    + rewrite unescape_all by auto. by rewrite escape_write_none.
    + intros Hq. split; [rewrite unescape_all by auto; by rewrite escape_write_none|].
      eexists. split; [apply unescape_all; auto|].
      rewrite unescape_all by auto using kept_percent. by rewrite escape_write_none.
    + intros a b -> Hq. apply Forall_app in Hs as [Ha _]. eexists. split; [done|].
      rewrite unescape_question; [by rewrite escape_write_none|auto|done| |done|done].
      destruct Hp as [Hp|Hp]; [by left|right; set_solver].
  - intros s t. cbn zeta. pose proof (unescape_length t sw_usual 0 0 s) as Hl. cbn [pending] in Hl. lia.
  - eexists _, _. split_and!; [done|done|apply html_write_length|apply html_write_safe..|].
    intros src' [= H]. by apply html_write_inj.
Qed.

Definition some_text : list Z := bytes "a b?c&d%" ++ [200].
Lemma escape_roundtrip_witness :
  ngx_escape_uri false some_text NGX_ESCAPE_ARGS = inr (bytes "a%20b%3fc%26d%25%c8") /\
  ngx_unescape_uri (bytes "a%20b%3fc%26d%25%c8") 0 = (some_text, []).
Proof.
  destruct (escape_roundtrip NGX_ESCAPE_ARGS some_text) as [(n & out & _ & Hout & _ & _ & Hr & _) _].
  { by repeat constructor. }
  { done. }
  vm_compute in Hout. injection Hout as <-. split; [by vm_compute|exact Hr].
Defined.
End Escape.
