(* ===== verification/Sprintf.v ===== *)
(** The format interpreter [ngx_vslprintf] of nginx/src/core/ngx_string.c, and
    the functions that call it. *)
From Stdlib Require Import SpecFloat.
From stdpp Require Import base list numbers strings.
From S2P Require Import Prelude Str.
Local Open Scope Z_scope.
Import Str.

Module Sprintf.

Definition NGX_INT_T_LEN : Z := 20.
Definition NGX_ATOMIC_T_LEN : Z := 20.
Definition NGX_PTR_SIZE : Z := 8.

(** * Arguments *)

(** A variable argument: an integer of any type, a [double], a pointer to
    characters with the memory that can be read there, an [ngx_str_t *] or
    [ngx_variable_value_t *] with its length and the memory of its data. *)
Inductive arg :=
| A_int (z : Z)
| A_double (f : spec_float)
| A_ptr (mem : list Z)
| A_str (len : Z) (mem : list Z).

(** [va_arg]; an argument of another kind, or none, is not defined. *)
Definition arg_int (args : list arg) : option (Z * list arg) :=
  match args with A_int z :: args => Some (z, args) | _ => None end.
Definition arg_double (args : list arg) : option (spec_float * list arg) :=
  match args with A_double f :: args => Some (f, args) | _ => None end.
Definition arg_ptr (args : list arg) : option (list Z * list arg) :=
  match args with A_ptr m :: args => Some (m, args) | _ => None end.
Definition arg_str (args : list arg) : option (Z * list Z * list arg) :=
  match args with A_str len m :: args => Some (len, m, args) | _ => None end.

(** * Double precision *)

Definition SF_of_Z (z : Z) : spec_float := binary_normalize 53 1024 z 0 false.
Definition SF_half : spec_float := binary_normalize 53 1024 1 (-1) false.

(** The integer part, where a conversion to the integer type is defined. *)
Definition SF_trunc (lo hi : Z) (f : spec_float) : option Z :=
  match f with
  | S754_zero _ => Some 0
  | S754_finite s m e =>
      let v := if 0 <=? e then Zpos m * 2 ^ e else Zpos m / 2 ^ (- e) in
      let v := if s : bool then - v else v in
      if (lo <=? v) && (v <=? hi) then Some v else None
  | _ => None
  end.

(** * Writing

    What a statement writes when [room] bytes are left before [last]. *)

(** [len = ngx_min(last - buf, n); buf = ngx_cpymem(buf, p, len)]: reading past
    the memory is a fault. *)
Definition copy_len (room n : Z) (mem : list Z) : option (list Z) :=
  let len := Z.min room n in
  if len <=? Z.of_nat (length mem) then Some (take (Z.to_nat len) mem) else None.

(** [while ( *p && buf < last) *buf++ = *p++;] *)
Fixpoint copy_cstr (room : Z) (mem : list Z) : option (list Z) :=
  match mem with
  | [] => None
  | c :: mem =>
      if c =? 0 then Some []
      else if 0 <? room then l ← copy_cstr (room - 1) mem; Some (c :: l)
      else Some []
  end.

(** One statement after another. *)
Definition seq (f g : Z -> list Z) (room : Z) : list Z :=
  let l := f room in l ++ g (room - Z.of_nat (length l)).
(** [if (buf < last) *buf++ = c;] *)
Definition put_char (c room : Z) : list Z := if 0 <? room then [c] else [].

(** * A conversion *)

(** The local variables a conversion sets. *)
Record conv := mk_conv {
  cv_zero : Z;
  cv_width : Z;
  cv_sign : bool;
  cv_hex : Z;
  cv_max_width : bool;
  cv_frac_width : Z;
  cv_slen : Z
}.
#[export] Instance eta_conv : Eta conv := fun x =>
  mk_conv (cv_zero x) (cv_width x) (cv_sign x) (cv_hex x) (cv_max_width x) (cv_frac_width x) (cv_slen x).

(** [while ( *fmt >= '0' && *fmt <= '9') n = n * 10 + *fmt++ - '0';] *)
Fixpoint fmt_digits (fmt : list Z) (n : Z) : Z * list Z :=
  match fmt with
  | c :: rest => if (48 <=? c) && (c <=? 57) then fmt_digits rest (u64 (n * 10 + c - 48)) else (n, fmt)
  | [] => (n, fmt)
  end.

(** The loop over the modifiers. *)
Fixpoint fmt_modifiers (fmt : list Z) (cv : conv) (args : list arg) : option (conv * list Z * list arg) :=
  match fmt with
  | [] => Some (cv, fmt, args)
  | c :: rest =>
      if c =? 117 (* u *) then fmt_modifiers rest (cv <| cv_sign := false |>) args
      else if c =? 109 (* m *) then fmt_modifiers rest (cv <| cv_max_width := true |>) args
      else if c =? 88 (* X *) then fmt_modifiers rest (cv <| cv_hex := 2 |> <| cv_sign := false |>) args
      else if c =? 120 (* x *) then fmt_modifiers rest (cv <| cv_hex := 1 |> <| cv_sign := false |>) args
      else if c =? 46 (* . *) then
        let '(n, rest) := fmt_digits rest (cv_frac_width cv) in
        Some (cv <| cv_frac_width := n |>, rest, args)
      else if c =? 42 (* * *) then
        '(n, args) ← arg_int args; fmt_modifiers rest (cv <| cv_slen := u64 n |>) args
      else Some (cv, fmt, args)
  end.

(** The end of a conversion of a number: the sign and the digits. *)
Definition put_num (cv : conv) (sign : bool) (z : Z) (room : Z) : list Z :=
  if sign then
    if z <? 0 then seq (fun _ => [45]) (fun room => ngx_sprintf_num room (u64 (- z)) (cv_zero cv) (cv_hex cv) (cv_width cv)) room
    else ngx_sprintf_num room (u64 z) (cv_zero cv) (cv_hex cv) (cv_width cv) 
  else ngx_sprintf_num room z (cv_zero cv) (cv_hex cv) (cv_width cv).

(** [%f] *)
Definition put_double (cv : conv) (f : spec_float) : option (Z -> list Z) :=
  let neg := SFltb f (S754_zero false) in
  let f := if neg then SFopp f else f in
  ui64 ← SF_trunc (- 2 ^ 63) (2 ^ 63 - 1) f;
  let int := seq (fun _ => if neg then [45] else [])
                 (fun room => ngx_sprintf_num room (u64 ui64) (cv_zero cv) 0 (cv_width cv)) in
  if cv_frac_width cv =? 0 then Some int
  else
    let scale := Nat.iter (Z.to_nat (cv_frac_width cv)) (fun s => SFmul 53 1024 s (SF_of_Z 10)) (SF_of_Z 1) in
    ui64 ← SF_trunc 0 (2 ^ 64 - 1)
             (SFadd 53 1024 (SFmul 53 1024 (SFsub 53 1024 f (SF_of_Z ui64)) scale) SF_half);
    Some (seq int (seq (put_char 46) (fun room => ngx_sprintf_num room ui64 48 0 (cv_frac_width cv)))).

(** An integer argument of a signed or unsigned type of [w] bits. *)
Definition arg_num (w : Z) (cv : conv) (args : list arg) : option (Z * list arg) :=
  '(z, args) ← arg_int args; Some (if cv_sign cv then wrapS w z else wrapU w z, args).

(** The conversions of one byte, and a byte that is no conversion. *)
Definition fmt_char (c : Z) (args : list arg) : option (list Z * list arg) :=
  if c =? 99 (* c *) then
    '(d, args) ← arg_int args; Some ([Z.land d 0xff], args)
  else if c =? 90 (* Z *) then Some ([0], args)
  else if c =? 78 (* N *) then Some ([10], args)
  else Some ([c], args).

(** The switch over the conversion character [c], with [room > 0]: what is
    written, and the arguments that are left. *)
Definition fmt_conversion (c : Z) (cv : conv) (args : list arg) (room : Z) : option (list Z * list arg) :=
  if (c =? 86) (* V *) || (c =? 118) (* v *) then
    '(len, mem, args) ← arg_str args; l ← copy_len room len mem; Some (l, args)
  else if c =? 115 (* s *) then
    '(mem, args) ← arg_ptr args;
    l ← (if cv_slen cv =? u64 (-1) then copy_cstr room mem else copy_len room (cv_slen cv) mem);
    Some (l, args)
  else if (c =? 79) (* O *) || (c =? 84) (* T *) || (c =? 114) (* r *) then
    '(z, args) ← arg_int args; Some (put_num cv true (s64 z) room, args)
  else if c =? 80 (* P *) then
    '(z, args) ← arg_int args; Some (put_num cv true (s32 z) room, args)
  else if c =? 77 (* M *) then
    '(z, args) ← arg_int args;
    Some (if s64 z =? -1 then put_num cv true (-1) room else put_num cv false (u64 z) room, args)
  else if (c =? 122) (* z *) || (c =? 108) (* l *) || (c =? 76) (* L *) then
    '(z, args) ← arg_num 64 cv args; Some (put_num cv (cv_sign cv) z room, args)
  else if (c =? 105) (* i *) then
    '(z, args) ← arg_num 64 cv args;
    Some (put_num (if cv_max_width cv then cv <| cv_width := NGX_INT_T_LEN |> else cv) (cv_sign cv) z room, args)
  else if (c =? 65) (* A *) then
    '(z, args) ← arg_num 64 cv args;
    Some (put_num (if cv_max_width cv then cv <| cv_width := NGX_ATOMIC_T_LEN |> else cv) (cv_sign cv) z room, args)
  else if (c =? 100) (* d *) || (c =? 68) (* D *) then
    '(z, args) ← arg_num 32 cv args; Some (put_num cv (cv_sign cv) z room, args)
  else if c =? 102 (* f *) then
    '(f, args) ← arg_double args; put ← put_double cv f; Some (put room, args)
  else if c =? 112 (* p *) then
    '(z, args) ← arg_int args;
    Some (put_num (cv <| cv_hex := 2 |> <| cv_zero := 48 |> <| cv_width := NGX_PTR_SIZE * 2 |>) false (u64 z) room, args)
  else fmt_char c args.

(** What follows a [%]: what is written, and the rest of the format.  A format
    that ends here has its terminating zero copied, and is then read past its
    end. *)
Definition fmt_percent (fmt : list Z) (args : list arg) (room : Z) : option (list Z * list Z * list arg) :=
  let zero := match fmt with c :: _ => if c =? 48 then 48 else 32 | [] => 32 end in
  let '(width, fmt) := fmt_digits fmt 0 in
  '(cv, fmt, args) ← fmt_modifiers fmt (mk_conv zero width true 0 false 0 (u64 (-1))) args;
  match fmt with
  | [] => None
  | c :: fmt => '(l, args) ← fmt_conversion c cv args room; Some (l, fmt, args)
  end.

(** [ngx_vslprintf] with [last - buf = room]: the bytes written.  [fmt] is a C
    string, without its terminating zero; every step consumes some of it. *)
Fixpoint vslprintf_loop (fuel : nat) (fmt : list Z) (args : list arg) (room : Z) : option (list Z) :=
  match fmt with
  | [] => Some []
  | c :: rest =>
      if negb (0 <? room) then Some []
      else
        match fuel with
        | O => None
        | S fuel =>
            '(l, fmt, args) ← (if c =? 37 then fmt_percent rest args room else Some ([c], rest, args));
            l' ← vslprintf_loop fuel fmt args (room - Z.of_nat (length l));
            Some (l ++ l')
        end
  end.
Definition ngx_vslprintf (room : Z) (fmt : list Z) (args : list arg) : option (list Z) :=
  vslprintf_loop (length fmt) fmt args room.

(** [ngx_sprintf] at the address [buf], with [(void * ) -1] as [last]. *)
Definition ngx_sprintf (buf : Z) (fmt : list Z) (args : list arg) : option (list Z) :=
  ngx_vslprintf (u64 (-1) - buf) fmt args.
Definition ngx_snprintf (max : Z) (fmt : list Z) (args : list arg) : option (list Z) :=
  ngx_vslprintf max fmt args.
Definition ngx_slprintf (buf last : Z) (fmt : list Z) (args : list arg) : option (list Z) :=
  ngx_vslprintf (last - buf) fmt args.

(** * Less room gives less of the same text *)

Abbreviation cut r l := (take (Z.to_nat r) l).

Lemma cut_cut r r' (l : list Z) : r <= r' -> cut r (cut r' l) = cut r l.
Proof. intros Hr. rewrite take_take. f_equal. lia. Qed.

Lemma cut_app r (l1 l2 : list Z) : cut r (l1 ++ l2) = cut r l1 ++ cut (r - Z.of_nat (length (cut r l1))) l2.
Proof.
  rewrite take_app. f_equal. destruct (Nat.le_ge_cases (length l1) (Z.to_nat r)).
  - f_equal. rewrite take_ge by lia. lia.
  - replace (Z.to_nat r - length l1)%nat with 0%nat by lia. replace (Z.to_nat _) with 0%nat; [done|].
    rewrite length_take. lia.
Qed.

(** Everything that is written is cut off from a text that does not depend on
    the room. *)
Definition writes (f : Z -> list Z) (l : list Z) : Prop := forall r, 0 <= r -> f r = cut r l.

Lemma writes_seq f g lf lg : writes f lf -> writes g lg -> writes (seq f g) (lf ++ lg).
Proof.
  intros Hf Hg r Hr. unfold seq. rewrite Hf, Hg by (try rewrite Hf by done; rewrite ?length_take; lia). by rewrite cut_app.
Qed.

Lemma writes_char c : writes (put_char c) [c].
Proof.
  intros r Hr. unfold put_char. destruct (Z.ltb_spec 0 r); [by rewrite take_ge by (cbn; lia)|].
  by replace r with 0 by lia.
Qed.

Lemma writes_num ui zero hex width :
  exists l, writes (fun r => ngx_sprintf_num r ui zero hex width) l.
Proof.
  exists (replicate (Z.to_nat (width - Z.of_nat (length (num_digits ui hex)))) zero ++ num_digits ui hex). intros r Hr.
  unfold ngx_sprintf_num. set (d := num_digits ui hex). set (p := width - Z.of_nat (length d)). cbv zeta.
  rewrite cut_app, length_take, length_replicate, take_replicate. f_equal; [f_equal; lia|].
  destruct (Z.le_gt_cases (Z.of_nat (length d)) (r - Z.min (Z.max 0 p) r)).
  - rewrite !take_ge; [done | lia | lia].
  - f_equal. lia.
Qed.

(** With room for a byte, a byte written without a test is cut off as well. *)
Definition writes_some (f : Z -> list Z) (l : list Z) : Prop := forall r, 0 < r -> f r = cut r l.
Lemma writes_weaken f l : writes f l -> writes_some f l.
Proof. intros Hf r Hr. apply Hf. lia. Qed.
Lemma writes_byte c g l : writes g l -> writes_some (seq (fun _ => [c]) g) (c :: l).
Proof.
  intros Hg r Hr. unfold seq. cbn [length app]. rewrite Hg by lia.
  replace (Z.to_nat r) with (S (Z.to_nat (r - Z.of_nat 1))) by lia. done.
Qed.
Lemma writes_some_seq f g lf lg : writes_some f lf -> writes g lg -> writes_some (seq f g) (lf ++ lg).
Proof.
  intros Hf Hg r Hr. unfold seq. rewrite Hf by done. rewrite Hg by (rewrite length_take; lia). by rewrite cut_app.
Qed.
Lemma writes_skip g l : writes g l -> writes_some (seq (fun _ => []) g) l.
Proof. intros Hg r Hr. unfold seq. cbn [length app]. rewrite Z.sub_0_r. apply Hg. lia. Qed.

Lemma writes_put_num cv sign z : exists l, writes_some (put_num cv sign z) l.
Proof.
  unfold put_num. destruct sign; [destruct (z <? 0)|].
  - destruct (writes_num (u64 (- z)) (cv_zero cv) (cv_hex cv) (cv_width cv)) as [l Hl]. exists (45 :: l). by apply writes_byte.
  - destruct (writes_num (u64 z) (cv_zero cv) (cv_hex cv) (cv_width cv)) as [l Hl]. exists l. by apply writes_weaken.
  - destruct (writes_num z (cv_zero cv) (cv_hex cv) (cv_width cv)) as [l Hl]. exists l. by apply writes_weaken.
Qed.

Lemma writes_put_double cv f put : put_double cv f = Some put -> exists l, writes_some put l.
Proof.
  unfold put_double. cbv zeta. destruct (SF_trunc _ _ _) as [ui|]; [|done]. cbn [mbind option_bind].
  destruct (writes_num (u64 ui) (cv_zero cv) 0 (cv_width cv)) as [l Hl].
  assert (exists l', writes_some (seq (fun _ => if SFltb f (S754_zero false) then [45] else [])
    (fun room => ngx_sprintf_num room (u64 ui) (cv_zero cv) 0 (cv_width cv))) l') as [l' Hl'].
  { destruct (SFltb _ _); [exists (45 :: l); by apply writes_byte | exists l; by apply writes_skip]. }
  destruct (cv_frac_width cv =? 0); [intros [= <-]; eauto|]. destruct (SF_trunc _ _ _) as [ui'|]; [|done].
  intros [= <-]. destruct (writes_num ui' 48 0 (cv_frac_width cv)) as [l2 Hl2].
  eexists. eapply writes_some_seq; [done|]. eapply writes_seq; [apply writes_char | done].
Qed.

Lemma copy_len_cut r r' n mem l : 0 <= r <= r' -> copy_len r' n mem = Some l -> copy_len r n mem = Some (cut r l).
Proof.
  intros Hr. unfold copy_len. destruct (Z.leb_spec (Z.min r' n) (Z.of_nat (length mem))); [|done]. intros [= <-].
  destruct (Z.leb_spec (Z.min r n) (Z.of_nat (length mem))); [|lia]. rewrite take_take. f_equal. f_equal. lia.
Qed.

Lemma copy_cstr_cut mem : forall r r' l, 0 <= r <= r' -> copy_cstr r' mem = Some l -> copy_cstr r mem = Some (cut r l).
Proof.
  induction mem as [|c mem IH]; intros r r' l Hr; cbn [copy_cstr]; [done|]. destruct (c =? 0).
  { intros [= <-]. by rewrite take_nil. }
  destruct (Z.ltb_spec 0 r'), (Z.ltb_spec 0 r); try lia.
  - destruct (copy_cstr (r' - 1) mem) as [l'|] eqn:Hc; [|done]. intros [= <-].
    rewrite (IH (r - 1) (r' - 1) _ ltac:(lia) Hc). cbn. by replace (Z.to_nat r) with (S (Z.to_nat (r - 1))) by lia.
  - destruct (copy_cstr (r' - 1) mem) as [l'|]; [|done]. intros [= <-]. by replace r with 0 by lia.
  - intros [= <-]. by rewrite take_nil.
Qed.

Lemma writes_cut f l r r' : writes_some f l -> 0 < r <= r' -> f r = cut r (f r').
Proof. intros Hf Hr. rewrite !Hf by lia. by rewrite cut_cut by lia. Qed.
Lemma put_num_cut cv sign z r r' : 0 < r <= r' -> put_num cv sign z r = cut r (put_num cv sign z r').
Proof. destruct (writes_put_num cv sign z) as [l Hl]. by apply (writes_cut _ l). Qed.
Lemma byte_cut r (c : Z) : 0 < r -> [c] = cut r [c].
Proof. intros Hr. by rewrite take_ge by (cbn; lia). Qed.

Lemma some_pair {A B} (a a' : A) (b b' : B) : Some (a, b) = Some (a', b') -> a = a' /\ b = b'.
Proof. by intros [= -> ->]. Qed.

Lemma conversion_cut c cv args r r' l args' : 0 < r <= r' ->
  fmt_conversion c cv args r' = Some (l, args') -> fmt_conversion c cv args r = Some (cut r l, args').
Proof.
  intros Hr. unfold fmt_conversion, fmt_char, arg_num, arg_int, arg_ptr, arg_str, arg_double.
  repeat match goal with |- (if ?b then _ else _) = _ -> _ => destruct b end;
    try (destruct args as [|[] ?]; [done|..]; try done); cbn [mbind option_bind]; cbv beta iota;
    try (intros [<- <-]%some_pair; do 2 f_equal; first [by apply byte_cut; lia | by apply put_num_cut | (case_match; by apply put_num_cut)]).
  - destruct (copy_len r' _ _) as [l'|] eqn:Hc; [|done]. intros [<- <-]%some_pair. by rewrite (copy_len_cut r r' _ _ _ ltac:(lia) Hc).
  - destruct (cv_slen cv =? _); [destruct (copy_cstr r' _) as [l'|] eqn:Hc | destruct (copy_len r' _ _) as [l'|] eqn:Hc]; try done;
      intros [<- <-]%some_pair; [by rewrite (copy_cstr_cut _ r r' _ ltac:(lia) Hc) | by rewrite (copy_len_cut r r' _ _ _ ltac:(lia) Hc)].
  - destruct (put_double _ _) as [put|] eqn:Hp; [|done]. cbn. intros [<- <-]%some_pair. do 2 f_equal.
    destruct (writes_put_double _ _ _ Hp) as [l Hl]. by apply (writes_cut _ l).
Qed.

Lemma percent_cut fmt args r r' l fmt' args' : 0 < r <= r' ->
  fmt_percent fmt args r' = Some (l, fmt', args') -> fmt_percent fmt args r = Some (cut r l, fmt', args').
Proof.
  intros Hr. unfold fmt_percent. destruct (fmt_digits fmt 0) as [width fmt1].
  destruct (fmt_modifiers _ _ _) as [[[cv fmt2] args2]|]; [|done]. cbn [mbind option_bind].
  destruct fmt2 as [|c fmt2]; [done|]. destruct (fmt_conversion c cv args2 r') as [[l' a]|] eqn:Hc; [|done].
  cbn [mbind option_bind]. rewrite (conversion_cut _ _ _ r r' _ _ Hr Hc). cbn [mbind option_bind]. by intros [= <- <- <-].
Qed.

Lemma loop_stops fuel fmt args r : r <= 0 -> vslprintf_loop fuel fmt args r = Some [].
Proof. intros Hr. destruct fuel, fmt; cbn [vslprintf_loop]; try done; by destruct (Z.ltb_spec 0 r); [lia|]. Qed.

Lemma loop_cut fuel : forall fmt args r r' l, 0 <= r <= r' ->
  vslprintf_loop fuel fmt args r' = Some l -> vslprintf_loop fuel fmt args r = Some (cut r l).
Proof.
  induction fuel as [|fuel IH]; intros fmt args r r' l Hr Hrun.
  { destruct fmt; cbn [vslprintf_loop] in *; [by injection Hrun as <-; rewrite take_nil|].
    destruct (Z.ltb_spec 0 r'); [done|]. injection Hrun as <-. destruct (Z.ltb_spec 0 r); [lia|]. by rewrite take_nil. }
  destruct (Z.le_gt_cases r 0) as [Hr0|Hr0].
  { rewrite loop_stops by done. by replace r with 0 by lia. }
  destruct fmt as [|c rest]; cbn [vslprintf_loop] in *; [by injection Hrun as <-; rewrite take_nil|].
  destruct (Z.ltb_spec 0 r'); [|lia]. destruct (Z.ltb_spec 0 r); [|lia]. cbn [negb] in *.
  assert (forall x, (if c =? 37 then fmt_percent rest args r' else Some ([c], rest, args)) = Some x ->
    (if c =? 37 then fmt_percent rest args r else Some ([c], rest, args)) = Some (cut r x.1.1, x.1.2, x.2)) as Hstep.
  { intros [[l1 f1] a1]. destruct (c =? 37); [apply percent_cut; lia|]. cbn. intros [= <- <- <-]. by rewrite <- byte_cut. }
  destruct (if c =? 37 then fmt_percent rest args r' else Some ([c], rest, args)) as [[[l1 f1] a1]|];
    [|cbn [mbind option_bind] in Hrun; discriminate Hrun]. rewrite (Hstep _ eq_refl). cbn [mbind option_bind fst snd] in *.
  destruct (vslprintf_loop fuel f1 a1 (r' - _)) as [l2|] eqn:Hl2; [|done]. injection Hrun as <-.
  rewrite cut_app. destruct (Z.le_gt_cases (Z.of_nat (length l1)) r) as [Hle|Hgt].
  - rewrite (take_ge l1) by lia. rewrite (IH _ _ (r - Z.of_nat (length l1)) (r' - Z.of_nat (length l1)) _ ltac:(lia) Hl2). done.
  - assert (Z.of_nat (length (cut r l1)) = r) as Hlen by (rewrite length_take; lia). rewrite Hlen, Z.sub_diag, loop_stops by done. done.
Qed.

Lemma snprintf_cut r r' fmt args l : 0 <= r <= r' -> ngx_vslprintf r' fmt args = Some l -> ngx_vslprintf r fmt args = Some (cut r l).
Proof. apply loop_cut. Qed.

Lemma loop_bounded fuel fmt args r l : 0 <= r -> vslprintf_loop fuel fmt args r = Some l -> Z.of_nat (length l) <= r.
Proof.
  intros Hr Hrun. pose proof (loop_cut _ _ _ r r l ltac:(lia) Hrun) as Hcut. rewrite Hrun in Hcut. injection Hcut as Hcut.
  rewrite Hcut, length_take. lia.
Qed.

(** The fuel: every step consumes a part of the format. *)
Lemma digits_shorter fmt : forall n, (length (fmt_digits fmt n).2 <= length fmt)%nat.
Proof. induction fmt as [|c fmt IH]; intros n; cbn [fmt_digits]; [done|]. case_match; [|done]. specialize (IH (u64 (n * 10 + c - 48))). cbn. lia. Qed.
Lemma modifiers_shorter fmt : forall cv args cv' fmt' args', fmt_modifiers fmt cv args = Some (cv', fmt', args') -> (length fmt' <= length fmt)%nat.
Proof.
  induction fmt as [|c fmt IH]; intros cv args cv' fmt' args'; cbn [fmt_modifiers]; [by intros [= <- <- <-]|].
  destruct (c =? 117); [intros Hm; apply IH in Hm; cbn; lia|]. destruct (c =? 109); [intros Hm; apply IH in Hm; cbn; lia|].
  destruct (c =? 88); [intros Hm; apply IH in Hm; cbn; lia|]. destruct (c =? 120); [intros Hm; apply IH in Hm; cbn; lia|].
  destruct (c =? 46).
  { pose proof (digits_shorter fmt (cv_frac_width cv)). destruct (fmt_digits fmt _) as [n rest]. intros [= <- <- <-]. cbn in *. lia. }
  destruct (c =? 42); [|by intros [= <- <- <-]]. destruct (arg_int args) as [[n a]|]; [|done]. cbn [mbind option_bind]. intros Hm. apply IH in Hm. cbn. lia.
Qed.
Lemma percent_shorter fmt args r l fmt' args' : fmt_percent fmt args r = Some (l, fmt', args') -> (length fmt' < length fmt)%nat.
Proof.
  unfold fmt_percent. pose proof (digits_shorter fmt 0) as Hd. destruct (fmt_digits fmt 0) as [width fmt1]. cbn in Hd.
  destruct (fmt_modifiers _ _ _) as [[[cv fmt2] args2]|] eqn:Hm; [|done]. apply modifiers_shorter in Hm. cbn [mbind option_bind].
  destruct fmt2 as [|c fmt2]; [done|]. destruct (fmt_conversion _ _ _ _) as [[l' a]|]; [|done]. intros [= <- <- <-]. cbn in *. lia.
Qed.
Lemma loop_fuel fuel : forall fmt args r, (length fmt <= fuel)%nat -> vslprintf_loop fuel fmt args r = ngx_vslprintf r fmt args.
Proof.
  unfold ngx_vslprintf. induction fuel as [fuel IH] using lt_wf_ind. intros fmt args r Hlen.
  destruct fmt as [|c rest]; [by destruct fuel|]. destruct fuel as [|fuel]; [cbn in Hlen; lia|]. cbn [length vslprintf_loop] in *.
  destruct (negb (0 <? r)); [done|]. 
  destruct (if c =? 37 then fmt_percent rest args r else Some ([c], rest, args)) as [[[l1 f1] a1]|] eqn:Hs; [|reflexivity].
  cbn [mbind option_bind]. assert (length f1 <= length rest)%nat as Hf.
  { destruct (c =? 37); [apply percent_shorter in Hs; lia | by injection Hs as _ <- _]. }
  rewrite (IH fuel) by lia. destruct (decide (length rest = fuel)) as [->|]; [by rewrite (IH fuel) by lia|]. by rewrite (IH (length rest)) by lia.
Qed.

(** ** Running a format *)

Lemma vsl_nil room args : ngx_vslprintf room [] args = Some [].
Proof. done. Qed.

Lemma vsl_char room c rest args l :
  c <> 37 -> 0 < room -> ngx_vslprintf (room - 1) rest args = Some l -> ngx_vslprintf room (c :: rest) args = Some (c :: l).
Proof.
  intros Hc Hr Hl. unfold ngx_vslprintf at 1. cbn [length vslprintf_loop]. destruct (Z.ltb_spec 0 room); [|lia].
  destruct (Z.eqb_spec c 37); [done|]. cbn [negb mbind option_bind length]. change (Z.of_nat 1) with 1. rewrite loop_fuel by done. by rewrite Hl.
Qed.

Lemma vsl_percent room rest args l fmt' args' l' :
  0 < room -> fmt_percent rest args room = Some (l, fmt', args') ->
  ngx_vslprintf (room - Z.of_nat (length l)) fmt' args' = Some l' -> ngx_vslprintf room (37 :: rest) args = Some (l ++ l').
Proof.
  intros Hr Hp Hl. unfold ngx_vslprintf at 1. cbn [length vslprintf_loop]. destruct (Z.ltb_spec 0 room); [|lia].
  cbn [negb Z.eqb Pos.eqb]. rewrite Hp. cbn [mbind option_bind]. rewrite loop_fuel by (apply percent_shorter in Hp; lia). by rewrite Hl.
Qed.

(** A number with two digits, and one of any length below 10000. *)
Definition d2 (z : Z) : list Z := [z / 10 + 48; z mod 10 + 48].
Definition dec (z : Z) : list Z := num_digits z 0.

Lemma dec_small z : 0 <= z < 10000 -> dec z = dec_loop 4 z [] /\ (length (dec z) <= 4)%nat /\ (10 <= z -> (2 <= length (dec z))%nat) /\ (1000 <= z -> length (dec z) = 4%nat).
Proof.
  intros Hz. unfold dec. rewrite num_digits_decimal by lia. unfold NGX_INT64_LEN. cbn [dec_loop].
  destruct (Z.eqb_spec (z / 10) 0) as [|H1]; [cbn; split_and!; first [done | lia | Z.to_euclidean_division_equations; lia]|].
  destruct (Z.eqb_spec (z / 10 / 10) 0) as [|H2]; [cbn; split_and!; first [done | lia | Z.to_euclidean_division_equations; lia]|].
  destruct (Z.eqb_spec (z / 10 / 10 / 10) 0) as [|H3]; [cbn; split_and!; first [done | lia | Z.to_euclidean_division_equations; lia]|].
  destruct (Z.eqb_spec (z / 10 / 10 / 10 / 10) 0) as [|H4]; [cbn; split_and!; first [done | lia]|].
  exfalso. apply H4. rewrite !Z.div_div by lia. apply Z.div_small. lia.
Qed.

Lemma num_d2 room z : 0 <= z < 100 -> 20 <= room -> ngx_sprintf_num room z 48 0 2 = d2 z.
Proof.
  intros Hz Hr. rewrite sprintf_num_fits by (unfold NGX_INT64_LEN; lia). unfold d2. rewrite num_digits_decimal by lia.
  unfold NGX_INT64_LEN. cbn [dec_loop]. destruct (Z.eqb_spec (z / 10) 0) as [H|H].
  - rewrite H. cbn. done.
  - destruct (Z.eqb_spec (z / 10 / 10) 0) as [H2|H2]; [|exfalso; apply H2; rewrite Z.div_div by lia; apply Z.div_small; lia].
    cbn. by rewrite (Z.mod_small (z / 10)) by (Z.to_euclidean_division_equations; lia).
Qed.

Lemma vsl_02d room z rest args l : 0 <= z < 100 -> 20 <= room -> ngx_vslprintf (room - 2) rest args = Some l ->
  ngx_vslprintf room (bytes "%02d" ++ rest) (A_int z :: args) = Some (d2 z ++ l).
Proof.
  intros Hz Hr Hl. eapply vsl_percent; [lia | | exact Hl]. 
  change (fmt_percent _ _ _) with (Some (put_num (mk_conv 48 2 true 0 false 0 (u64 (-1))) true (s32 z) room, rest, args)).
  unfold put_num. unfold s32. rewrite wrapS_small by lia. destruct (Z.ltb_spec z 0); [lia|]. rewrite u64_small by lia.
  cbn [cv_zero cv_hex cv_width]. by rewrite num_d2 by lia.
Qed.

(** The texts of ["%4d"] and ["%d"] for such numbers. *)
Definition d4 (z : Z) : list Z := replicate (4 - length (dec z)) 32 ++ dec z.
Lemma d4_length z : 0 <= z < 10000 -> length (d4 z) = 4%nat.
Proof. intros Hz. destruct (dec_small z Hz) as (_ & Hl & _). unfold d4. rewrite length_app, length_replicate. lia. Qed.

Lemma vsl_4d room z rest args l : 0 <= z < 10000 -> 20 <= room -> ngx_vslprintf (room - 4) rest args = Some l ->
  ngx_vslprintf room (bytes "%4d" ++ rest) (A_int z :: args) = Some (d4 z ++ l).
Proof.
  intros Hz Hr Hl. eapply vsl_percent; [lia | | rewrite d4_length by done; exact Hl].
  change (fmt_percent _ _ _) with (Some (put_num (mk_conv 32 4 true 0 false 0 (u64 (-1))) true (s32 z) room, rest, args)).
  unfold put_num. unfold s32. rewrite wrapS_small by lia. destruct (Z.ltb_spec z 0); [lia|]. rewrite u64_small by lia.
  cbn [cv_zero cv_hex cv_width]. by rewrite sprintf_num_fits by (unfold NGX_INT64_LEN; lia).
Qed.

Lemma vsl_d room z rest args l : 0 <= z < 10000 -> 20 <= room -> ngx_vslprintf (room - Z.of_nat (length (dec z))) rest args = Some l ->
  ngx_vslprintf room (bytes "%d" ++ rest) (A_int z :: args) = Some (dec z ++ l).
Proof.
  intros Hz Hr Hl. eapply vsl_percent; [lia | | exact Hl].
  change (fmt_percent _ _ _) with (Some (put_num (mk_conv 32 0 true 0 false 0 (u64 (-1))) true (s32 z) room, rest, args)).
  unfold put_num. unfold s32. rewrite wrapS_small by lia. destruct (Z.ltb_spec z 0); [lia|]. rewrite u64_small by lia.
  cbn [cv_zero cv_hex cv_width]. by rewrite sprintf_num_fits by (unfold NGX_INT64_LEN; lia).
Qed.

(** ["%s"] with a string that ends in a zero byte. *)
Lemma copy_cstr_all s : forall room, Forall (fun c => c <> 0) s -> Z.of_nat (length s) <= room -> copy_cstr room (s ++ [0]) = Some s.
Proof.
  induction s as [|c s IH]; intros room Hs Hr; [done|]. apply Forall_cons in Hs as [Hc Hs]. cbn [app copy_cstr length] in *.
  destruct (Z.eqb_spec c 0); [done|]. destruct (Z.ltb_spec 0 room); [|lia]. by rewrite IH by (done || lia).
Qed.
Lemma vsl_s room s rest args l : Forall (fun c => c <> 0) s -> Z.of_nat (length s) < room ->
  ngx_vslprintf (room - Z.of_nat (length s)) rest args = Some l ->
  ngx_vslprintf room (bytes "%s" ++ rest) (A_ptr (s ++ [0]) :: args) = Some (s ++ l).
Proof.
  intros Hs Hr Hl. eapply vsl_percent; [lia | | exact Hl].
  change (fmt_percent _ _ _) with ((l ← copy_cstr room (s ++ [0]); Some (l, args)) ≫= fun '(l, args) => Some (l, rest, args)).
  by rewrite copy_cstr_all by (done || lia).
Qed.
Lemma vsl_c room c rest args l : 0 <= c < 256 -> 0 < room -> ngx_vslprintf (room - 1) rest args = Some l ->
  ngx_vslprintf room (bytes "%c" ++ rest) (A_int c :: args) = Some (c :: l).
Proof.
  intros Hc Hr Hl. eapply (vsl_percent room _ _ [c] rest args); [done | | exact Hl].
  change (fmt_percent _ _ _) with (Some ([Z.land c (Z.ones 8)], rest, args)). rewrite Z.land_ones by lia. by rewrite Z.mod_small.
Qed.

Lemma vsl_ud room z rest args l : 0 <= z < 10000 -> 20 <= room -> ngx_vslprintf (room - Z.of_nat (length (dec z))) rest args = Some l ->
  ngx_vslprintf room (bytes "%ud" ++ rest) (A_int z :: args) = Some (dec z ++ l).
Proof.
  intros Hz Hr Hl. eapply vsl_percent; [lia | | exact Hl].
  change (fmt_percent _ _ _) with (Some (put_num (mk_conv 32 0 false 0 false 0 (u64 (-1))) false (u32 z) room, rest, args)).
  unfold put_num. rewrite u32_small by lia. cbn [cv_zero cv_hex cv_width]. by rewrite sprintf_num_fits by (unfold NGX_INT64_LEN; lia).
Qed.

(** [vsl] runs a format, piece by piece. *)
Ltac vsl_step :=
  lazymatch goal with
  | |- ngx_vslprintf _ [] _ = _ => apply vsl_nil
  | |- ngx_vslprintf ?r (37 :: 48 :: 50 :: 100 :: ?f) (A_int ?z :: ?a) = _ => eapply (vsl_02d r z f a); [lia | lia |]
  | |- ngx_vslprintf ?r (37 :: 52 :: 100 :: ?f) (A_int ?z :: ?a) = _ => eapply (vsl_4d r z f a); [lia | lia |]
  | |- ngx_vslprintf ?r (37 :: 100 :: ?f) (A_int ?z :: ?a) = _ => eapply (vsl_d r z f a); [lia | lia |]
  | |- ngx_vslprintf ?r (37 :: 117 :: 100 :: ?f) (A_int ?z :: ?a) = _ => eapply (vsl_ud r z f a); [lia | lia |]
  | |- ngx_vslprintf ?r (37 :: 115 :: ?f) (A_ptr (?s ++ [0]) :: ?a) = _ => eapply (vsl_s r s f a); [assumption | lia |]
  | |- ngx_vslprintf ?r (37 :: 99 :: ?f) (A_int ?z :: ?a) = _ => eapply (vsl_c r z f a); [first [lia | case_match; lia] | lia |]
  | |- ngx_vslprintf ?r (?c :: ?f) ?a = _ => eapply (vsl_char r c f a); [discriminate | lia |]
  end.
Ltac vsl :=
  lazymatch goal with
  | |- ngx_vslprintf _ ?f _ = _ => let f' := eval vm_compute in f in change f with f'
  end; repeat vsl_step.

(** * The theorem *)

(** C10.  The functions with a limit, [ngx_snprintf] and [ngx_slprintf], for every
    format of integers, floating-point numbers, strings and characters: they
    write no byte past the limit, and they write the beginning of what
    [ngx_sprintf] writes, which has none. *)
Theorem snprintf_prefix buf max fmt args l :
  0 <= buf -> 0 <= max -> buf + max < 2 ^ 64 -> ngx_sprintf buf fmt args = Some l ->
  ngx_snprintf max fmt args = Some (take (Z.to_nat max) l) /\
  ngx_slprintf buf (buf + max) fmt args = Some (take (Z.to_nat max) l) /\
  (forall n l', 0 <= n -> ngx_snprintf n fmt args = Some l' -> Z.of_nat (length l') <= n).
Proof.
  intros Hb Hm Hbm Hrun. unfold ngx_sprintf, ngx_snprintf, ngx_slprintf in *. change (u64 (-1)) with (2 ^ 64 - 1) in Hrun.
  replace (buf + max - buf) with max by lia. assert (ngx_vslprintf max fmt args = Some (take (Z.to_nat max) l)) as Hcut.
  { eapply loop_cut; [|exact Hrun]. lia. }
  split_and!; [done | done |]. intros n l'. apply loop_bounded.
Qed.

(** A format that ends in a percent sign is read past its end. *)
Example percent_at_the_end : ngx_snprintf 80 (bytes "100%") [] = None.
Proof. reflexivity. Qed.
Example sprintf_time : ngx_sprintf 4096 (bytes "%s, %02d %s %4d %02d") [A_ptr (bytes "Mon" ++ [0]); A_int 28; A_ptr (bytes "Sep" ++ [0]); A_int 1970; A_int 6]
  = Some (bytes "Mon, 28 Sep 1970 06").
Proof. reflexivity. Qed.
Example sprintf_double : ngx_sprintf 4096 (bytes "%.3f") [A_double (binary_normalize 53 1024 (-25) (-4) false)] = Some (bytes "-1.563").
Proof. vm_compute. reflexivity. Qed.

Lemma snprintf_prefix_witness :
  ngx_snprintf 5 (bytes "%V: %03ui") [A_str 3 (bytes "fd "); A_int 7] = Some (bytes "fd : ") /\
  ngx_slprintf 4096 4101 (bytes "%V: %03ui") [A_str 3 (bytes "fd "); A_int 7] = Some (bytes "fd : ") /\
  (forall n l', 0 <= n -> ngx_snprintf n (bytes "%V: %03ui") [A_str 3 (bytes "fd "); A_int 7] = Some l' -> Z.of_nat (length l') <= n).
Proof. apply (snprintf_prefix 4096 5 (bytes "%V: %03ui") [A_str 3 (bytes "fd "); A_int 7] (bytes "fd : 007")); [lia | lia | lia | reflexivity]. Defined.

End Sprintf.
