(* ===== verification/Times.v ===== *)
(** Time: nginx/src/core/ngx_times.c, the calendar and the cached texts of the
    current time. *)
From stdpp Require Import base list numbers strings.
From S2P Require Import Prelude Str Sprintf.
Local Open Scope Z_scope.
Import Sprintf.

Module Times.

(** * The calendar *)

(** [ngx_tm_t], a [struct tm] whose months count from 1 and years from 0. *)
Record ngx_tm_t := mk_tm {
  ngx_tm_sec : Z;
  ngx_tm_min : Z;
  ngx_tm_hour : Z;
  ngx_tm_mday : Z;
  ngx_tm_mon : Z;
  ngx_tm_year : Z;
  ngx_tm_wday : Z
}.

(** The variables are [ngx_uint_t], [yday] is an [ngx_int_t], and the fields of
    the result are [int]. *)
Definition ngx_gmtime (t : Z) : ngx_tm_t :=
  let n := u64 t in
  let days := n / 86400 in
  let wday := u64 (4 + days) mod 7 in
  let n := n mod 86400 in
  let hour := n / 3600 in
  let n := n mod 3600 in
  let min := n / 60 in
  let sec := n mod 60 in
  let days := u64 (days - (31 + 28) + 719527) in
  let year := u64 (u64 (days + 2) * 400) / (365 * 400 + 100 - 4 + 1) in
  let yday := s64 (days - u64 (365 * year + year / 4 - year / 100 + year / 400)) in
  let '(yday, year) :=
    if yday <? 0 then
      let leap := Z.b2z ((year mod 4 =? 0) && (negb (year mod 100 =? 0) || (year mod 400 =? 0))) in
      (s64 (365 + leap + yday), u64 (year - 1))
    else (yday, year) in
  let mon := u64 (Z.quot ((yday + 31) * 10) 306) in
  let mday := u64 (yday - (367 * mon / 12 - 30) + 1) in
  let '(year, mon) := if 306 <=? yday then (u64 (year + 1), u64 (mon - 10)) else (year, u64 (mon + 2)) in
  mk_tm (s32 sec) (s32 min) (s32 hour) (s32 mday) (s32 mon) (s32 year) (s32 wday).

(** * The texts of a time *)

Definition week : list (list Z) := bytes <$> ["Sun"; "Mon"; "Tue"; "Wed"; "Thu"; "Fri"; "Sat"]%string.
Definition months : list (list Z) :=
  bytes <$> ["Jan"; "Feb"; "Mar"; "Apr"; "May"; "Jun"; "Jul"; "Aug"; "Sep"; "Oct"; "Nov"; "Dec"]%string.

(** A pointer to an entry of such a table; there is none outside of it. *)
Definition name (table : list (list Z)) (i : Z) : option arg :=
  if i <? 0 then None else s ← table !! Z.to_nat i; Some (A_ptr (s ++ [0])).

(** ["%s, %02d %s %4d %02d:%02d:%02d GMT"] at the address [buf] *)
Definition sprintf_http_time (buf : Z) (tm : ngx_tm_t) : option (list Z) :=
  w ← name week (ngx_tm_wday tm);
  m ← name months (ngx_tm_mon tm - 1);
  ngx_sprintf buf (bytes "%s, %02d %s %4d %02d:%02d:%02d GMT")
    [w; A_int (ngx_tm_mday tm); m; A_int (ngx_tm_year tm);
     A_int (ngx_tm_hour tm); A_int (ngx_tm_min tm); A_int (ngx_tm_sec tm)].

Definition sprintf_err_log_time (buf : Z) (tm : ngx_tm_t) : option (list Z) :=
  ngx_sprintf buf (bytes "%4d/%02d/%02d %02d:%02d:%02d")
    [A_int (ngx_tm_year tm); A_int (ngx_tm_mon tm); A_int (ngx_tm_mday tm);
     A_int (ngx_tm_hour tm); A_int (ngx_tm_min tm); A_int (ngx_tm_sec tm)].

Definition sprintf_http_log_time (buf : Z) (tm : ngx_tm_t) (gmtoff : Z) : option (list Z) :=
  m ← name months (ngx_tm_mon tm - 1);
  ngx_sprintf buf (bytes "%02d/%s/%d:%02d:%02d:%02d %c%02d%02d")
    [A_int (ngx_tm_mday tm); m; A_int (ngx_tm_year tm);
     A_int (ngx_tm_hour tm); A_int (ngx_tm_min tm); A_int (ngx_tm_sec tm);
     A_int (if gmtoff <? 0 then 45 else 43); A_int (Z.abs (Z.quot gmtoff 60)); A_int (Z.abs (Z.rem gmtoff 60))].

Definition ngx_http_time (buf t : Z) : option (list Z) := sprintf_http_time buf (ngx_gmtime t).

Definition ngx_http_cookie_time (buf t : Z) : option (list Z) :=
  let tm := ngx_gmtime t in
  let late := 2037 <? ngx_tm_year tm in
  w ← name week (ngx_tm_wday tm);
  m ← name months (ngx_tm_mon tm - 1);
  ngx_sprintf buf (bytes (if late then "%s, %02d-%s-%d %02d:%02d:%02d GMT" else "%s, %02d-%s-%02d %02d:%02d:%02d GMT"))
    [w; A_int (ngx_tm_mday tm); m; A_int (if late then ngx_tm_year tm else Z.rem (ngx_tm_year tm) 100);
     A_int (ngx_tm_hour tm); A_int (ngx_tm_min tm); A_int (ngx_tm_sec tm)].

(** * The cached time *)

Definition NGX_TIME_SLOTS : Z := 64.
Record ngx_time_t := mk_time { sec : Z; msec : Z; gmtoff : Z }.
#[export] Instance eta_time : Eta ngx_time_t := fun x => mk_time (sec x) (msec x) (gmtoff x).

(** The static variables.  The buffers have the sizes of the examples in the
    source, with their terminating zeros; the pointers to the current time and
    texts are kept as the slots they point to. *)
Record times := mk_times {
  slot : Z;
  ngx_time_lock : Z;
  ngx_current_msec : Z;
  cached_gmtoff : Z;
  cached_time : list ngx_time_t;
  cached_err_log_time : list (list Z);
  cached_http_time : list (list Z);
  cached_http_log_time : list (list Z);
  ngx_cached_time : Z;
  ngx_cached_err_log_time : Z;
  ngx_cached_http_time : Z;
  ngx_cached_http_log_time : Z
}.
#[export] Instance eta_times : Eta times := fun x =>
  mk_times (slot x) (ngx_time_lock x) (ngx_current_msec x) (cached_gmtoff x) (cached_time x) (cached_err_log_time x)
    (cached_http_time x) (cached_http_log_time x) (ngx_cached_time x) (ngx_cached_err_log_time x)
    (ngx_cached_http_time x) (ngx_cached_http_log_time x).

Definition err_log_len : nat := 19.
Definition http_len : nat := 29.
Definition http_log_len : nat := 26.

(** The address of the buffer a text is written to: any that leaves room. *)
Definition buffer : Z := 4096.

(** [l] written to the buffer of [size] bytes of the slot [i]; more bytes than
    that destroy other memory. *)
Definition store (size : nat) (i : Z) (l : list Z) (bufs : list (list Z)) : option (list (list Z)) :=
  old ← bufs !! Z.to_nat i;
  if (length l <=? size)%nat then Some (<[Z.to_nat i := l ++ drop (length l) old]> bufs) else None.

Section Cached.
(** [localtime_r] of the C library, and [tm_gmtoff] of its result. *)
Context (localtime_r : Z -> ngx_tm_t * Z).

Definition ngx_localtime (s : Z) : ngx_tm_t * Z :=
  let '(tm, off) := localtime_r s in
  (mk_tm (ngx_tm_sec tm) (ngx_tm_min tm) (ngx_tm_hour tm) (ngx_tm_mday tm)
     (s32 (ngx_tm_mon tm + 1)) (s32 (ngx_tm_year tm + 1900)) (ngx_tm_wday tm), off).

Definition next_slot (slot : Z) : Z := if slot =? NGX_TIME_SLOTS - 1 then 0 else slot + 1.

(** [tv] is what [gettimeofday] returns; the lock is free again at the end. *)
Definition ngx_time_update (tv : Z * Z) (s : times) : option times :=
  if negb (ngx_time_lock s =? 0) then Some s
  else
    let sec_ := tv.1 in
    let msec_ := tv.2 / 1000 in
    let s := s <| ngx_current_msec := u64 (sec_ * 1000 + msec_) |> in
    tp ← cached_time s !! Z.to_nat (slot s);
    if sec tp =? sec_ then
      Some (s <| cached_time := <[Z.to_nat (slot s) := tp <| msec := msec_ |>]> (cached_time s) |>)
    else
      let slot_ := next_slot (slot s) in
      let gmt := ngx_gmtime sec_ in
      p0 ← sprintf_http_time buffer gmt;
      http ← store (S http_len) slot_ p0 (cached_http_time s);
      let '(tm, off) := ngx_localtime sec_ in
      let gmtoff_ := Z.quot off 60 in
      p1 ← sprintf_err_log_time buffer tm;
      err ← store (S err_log_len) slot_ p1 (cached_err_log_time s);
      p2 ← sprintf_http_log_time buffer tm gmtoff_;
      http_log ← store (S http_log_len) slot_ p2 (cached_http_log_time s);
      Some (s <| slot := slot_ |>
              <| cached_time := <[Z.to_nat slot_ := mk_time sec_ msec_ gmtoff_]> (cached_time s) |>
              <| cached_http_time := http |> <| cached_gmtoff := gmtoff_ |>
              <| cached_err_log_time := err |> <| cached_http_log_time := http_log |>
              <| ngx_cached_time := slot_ |> <| ngx_cached_http_time := slot_ |>
              <| ngx_cached_err_log_time := slot_ |> <| ngx_cached_http_log_time := slot_ |>).

(** The update a signal handler makes, without [localtime_r]. *)
Definition ngx_time_sigsafe_update (tv : Z * Z) (s : times) : option times :=
  if negb (ngx_time_lock s =? 0) then Some s
  else
    let sec_ := tv.1 in
    tp ← cached_time s !! Z.to_nat (slot s);
    if sec tp =? sec_ then Some s
    else
      let slot_ := next_slot (slot s) in
      p ← sprintf_err_log_time buffer (ngx_gmtime (sec_ + cached_gmtoff s * 60));
      err ← store (S err_log_len) slot_ p (cached_err_log_time s);
      Some (s <| slot := slot_ |> <| cached_err_log_time := err |> <| ngx_cached_err_log_time := slot_ |>).

(** The static variables at the start, and [ngx_time_init]. *)
Definition times0 : times :=
  mk_times 0 0 0 0 (replicate 64 (mk_time 0 0 0)) (replicate 64 (replicate (S err_log_len) 0))
    (replicate 64 (replicate (S http_len) 0)) (replicate 64 (replicate (S http_log_len) 0)) 0 0 0 0.
Definition ngx_time_init (tv : Z * Z) : option times := ngx_time_update tv times0.

(** What a reader sees: [ngx_cached_http_time] and the like. *)
Definition http_time_text (s : times) : option (list Z) := take http_len <$> cached_http_time s !! Z.to_nat (ngx_cached_http_time s).
Definition err_log_time_text (s : times) : option (list Z) := take err_log_len <$> cached_err_log_time s !! Z.to_nat (ngx_cached_err_log_time s).
Definition http_log_time_text (s : times) : option (list Z) := take http_log_len <$> cached_http_log_time s !! Z.to_nat (ngx_cached_http_log_time s).
End Cached.

Example http_time_1970 : ngx_http_time 4096 23328000 = Some (bytes "Mon, 28 Sep 1970 00:00:00 GMT").
Proof. reflexivity. Qed.
Example cookie_time_2038 : ngx_http_cookie_time 4096 2147483647 = Some (bytes "Tue, 19-Jan-2038 03:14:07 GMT").
Proof. reflexivity. Qed.

Example epoch : ngx_gmtime 0 = mk_tm 0 0 0 1 1 1970 4.
Proof. reflexivity. Qed.
Example billennium : ngx_gmtime 1000000000 = mk_tm 40 46 1 9 9 2001 0.
Proof. reflexivity. Qed.
Example leap_day : ngx_gmtime 951782400 = mk_tm 0 0 0 29 2 2000 2.
Proof. reflexivity. Qed.

(** ** The Gregorian calendar *)

Definition is_leap (y : Z) : bool := (y mod 4 =? 0) && (negb (y mod 100 =? 0) || (y mod 400 =? 0)).
Definition month_days (y m : Z) : Z :=
  if m =? 2 then (if is_leap y then 29 else 28)
  else if (m =? 4) || (m =? 6) || (m =? 9) || (m =? 11) then 30 else 31.
Definition next_day (date : Z * Z * Z) : Z * Z * Z :=
  let '(y, m, d) := date in
  if d <? month_days y m then (y, m, d + 1) else if m <? 12 then (y, m + 1, 1) else (y + 1, 1, 1).
(** The date [n] days after January 1, 1970. *)
Definition date_of (n : nat) : Z * Z * Z := Nat.iter n next_day (1970, 1, 1).

(** ** Years that start in March *)

(** The days before March 1 of the year [y], counted from the year 0; and in
    the year from that day on. *)
Definition before (y : Z) : Z := 365 * y + y / 4 - y / 100 + y / 400.
Definition year_days (y : Z) : Z := 365 + Z.b2z (is_leap (y + 1)).

Lemma div_step y k : 0 < k -> (y + 1) / k = y / k + Z.b2z ((y + 1) mod k =? 0).
Proof.
  intros Hk. pose proof (Z.div_mod y k ltac:(lia)) as H1. pose proof (Z.mod_pos_bound y k Hk) as H2.
  pose proof (Z.div_mod (y + 1) k ltac:(lia)) as H3. pose proof (Z.mod_pos_bound (y + 1) k Hk) as H4.
  destruct (Z.eqb_spec ((y + 1) mod k) 0); cbn; nia.
Qed.

Lemma before_step y : before (y + 1) = before y + year_days y.
Proof.
  unfold before, year_days, is_leap. rewrite !div_step by lia.
  destruct (Z.eqb_spec ((y + 1) mod 4) 0) as [H4|H4], (Z.eqb_spec ((y + 1) mod 100) 0) as [H100|H100],
    (Z.eqb_spec ((y + 1) mod 400) 0) as [H400|H400]; cbn [Z.b2z negb andb orb]; Z.to_euclidean_division_equations; lia.
Qed.

Lemma before_period c y : before (400 * c + y) = 146097 * c + before y.
Proof.
  unfold before. replace ((400 * c + y) / 4) with (100 * c + y / 4) by (rewrite <- (Z.div_add_l (100 * c) 4 y) by done; f_equal; lia).
  replace ((400 * c + y) / 100) with (4 * c + y / 100) by (rewrite <- (Z.div_add_l (4 * c) 100 y) by done; f_equal; lia).
  replace ((400 * c + y) / 400) with (c + y / 400) by (rewrite <- (Z.div_add_l c 400 y) by done; f_equal; lia). lia.
Qed.

Lemma year_days_bounds y : 365 <= year_days y <= 366.
Proof. unfold year_days. destruct (is_leap (y + 1)); cbn [Z.b2z]; lia. Qed.

Lemma before_mono y n : (0 <= n) -> before y + 365 * n <= before (y + n).
Proof.
  intros Hn. pattern n. apply natlike_ind; [cbv beta; replace (y + 0) with y by lia; lia | | done]. clear n Hn. intros n Hn IH.
  replace (y + Z.succ n) with (y + n + 1) by lia. rewrite before_step. pose proof (year_days_bounds (y + n)). lia.
Qed.

(** A day lies in one year only. *)
Lemma year_unique d y y' : before y <= d < before (y + 1) -> before y' <= d < before (y' + 1) -> y = y'.
Proof.
  intros H1 H2. destruct (Z.lt_trichotomy y y') as [Hlt|[|Hlt]]; [|done|].
  - pose proof (before_mono (y + 1) (y' - (y + 1)) ltac:(lia)). replace (y + 1 + (y' - (y + 1))) with y' in * by lia. lia.
  - pose proof (before_mono (y' + 1) (y - (y' + 1)) ltac:(lia)). replace (y' + 1 + (y - (y' + 1))) with y in * by lia. lia.
Qed.

(** The estimate of the year is right or one too large. *)
Definition estimate_ok (y : Z) : bool := (400 * (before y - 1) <? 146097 * y + 400 * Z.b2z (y =? 0)) && (146097 * (y + 1) <=? 400 * (before (y + 1) + 2)).
Lemma estimate_table : forallb estimate_ok (seqZ 0 401) = true.
Proof. vm_compute. reflexivity. Qed.

Lemma estimate d : 0 <= d -> let y := (d + 2) * 400 / 146097 in before y - 2 <= d < before (y + 1).
Proof.
  intros Hd y. set (c := d / 146097). set (r := d mod 146097).
  assert (d = 146097 * c + r) as Hdr by (apply Z.div_mod; done). assert (0 <= r < 146097) as Hr by (apply Z.mod_pos_bound; lia).
  assert (y = 400 * c + (r + 2) * 400 / 146097) as Hy.
  { unfold y. rewrite Hdr. replace ((146097 * c + r + 2) * 400) with ((r + 2) * 400 + (400 * c) * 146097) by lia. rewrite Z.div_add by done. lia. }
  set (e := (r + 2) * 400 / 146097) in *. assert (0 <= e <= 400) as He by (unfold e; Z.to_euclidean_division_equations; lia).
  rewrite Hy. replace (400 * c + e + 1) with (400 * c + (e + 1)) by lia. rewrite !before_period.
  pose proof estimate_table as Ht. rewrite forallb_forall in Ht. specialize (Ht e ltac:(apply list_elem_of_In, elem_of_seqZ; lia)).
  unfold estimate_ok in Ht. apply andb_prop in Ht as [H1%Z.ltb_lt H2%Z.leb_le].
  assert (146097 * e <= (r + 2) * 400 < 146097 * (e + 1)) by (unfold e; Z.to_euclidean_division_equations; lia).
  destruct (Z.eqb_spec e 0) as [->|]; cbn in H1; [change (before 0) with 0|]; lia.
Qed.

(** ** Days of the year *)

(** The date of the day [yd] of the year that starts in March of [y]. *)
Definition civil (y yd : Z) : Z * Z * Z :=
  let mon := (yd + 31) * 10 / 306 in
  let mday := yd - (367 * mon / 12 - 30) + 1 in
  if 306 <=? yd then (y + 1, mon - 10, mday) else (y, mon + 2, mday).

Definition later (y : Z) (date : Z * Z * Z) : Z * Z * Z := let '(o, m, d) := date in (y + o, m, d).
Lemma civil_later y yd : civil y yd = later y (civil 0 yd).
Proof. unfold civil, later. case_match; do 2 f_equal; lia. Qed.

(** A day that is not the end of February has the same next day in every year. *)
Definition plain_date (date : Z * Z * Z) : bool := let '(o, m, d) := date in negb (m =? 2) || (d <? 28).
Lemma next_day_later y date : plain_date date = true -> next_day (later y date) = later y (next_day date).
Proof.
  destruct date as [[o m] d]. unfold plain_date, later, next_day, month_days. destruct (Z.eqb_spec m 2) as [->|Hm]; cbn [negb orb].
  - intros Hd%Z.ltb_lt. destruct (is_leap (y + o)), (is_leap o);
      repeat match goal with |- context [d <? ?k] => destruct (Z.ltb_spec d k); [|lia] end; done.
  - intros _. repeat case_match; do 2 f_equal; lia.
Qed.

Definition date_eqb (a b : Z * Z * Z) : bool :=
  let '(y, m, d) := a in let '(y', m', d') := b in (y =? y') && (m =? m') && (d =? d').
Definition day_ok (yd : Z) : bool := date_eqb (civil 0 (yd + 1)) (next_day (civil 0 yd)) && plain_date (civil 0 yd).
Lemma day_table : forallb day_ok (seqZ 0 364) = true.
Proof. vm_compute. reflexivity. Qed.

Lemma civil_next_plain y yd : 0 <= yd < 364 -> civil y (yd + 1) = next_day (civil y yd).
Proof.
  intros Hyd. pose proof day_table as Ht. rewrite forallb_forall in Ht.
  specialize (Ht yd ltac:(apply list_elem_of_In, elem_of_seqZ; lia)). unfold day_ok in Ht. apply andb_prop in Ht as [Heq Hp].
  rewrite !(civil_later y), next_day_later by done. f_equal. unfold date_eqb in Heq.
  destruct (civil 0 (yd + 1)) as [[a b] c], (next_day _) as [[a' b'] c']. apply andb_prop in Heq as [[Ha Hb]%andb_prop Hc].
  apply Z.eqb_eq in Ha, Hb, Hc. congruence.
Qed.

Lemma civil_next y yd : 0 <= yd < year_days y ->
  next_day (civil y yd) = if yd + 1 <? year_days y then civil y (yd + 1) else civil (y + 1) 0.
Proof.
  intros Hyd. destruct (Z.lt_ge_cases yd 364) as [Hp|Hp].
  { pose proof (year_days_bounds y). destruct (Z.ltb_spec (yd + 1) (year_days y)); [|lia]. symmetry. apply civil_next_plain. lia. }
  unfold year_days in *. assert (yd = 364 \/ yd = 365) as [-> | ->] by (destruct (is_leap (y + 1)); cbn [Z.b2z] in *; lia).
  - change (civil y 364) with (y + 1, 2, 28). cbn [next_day]. unfold month_days. cbn [Z.eqb Pos.eqb].
    destruct (is_leap (y + 1)); done.
  - change (civil y 365) with (y + 1, 2, 29). cbn [next_day]. unfold month_days. cbn [Z.eqb Pos.eqb].
    destruct (is_leap (y + 1)); [done|]. cbn in Hyd. lia.
Qed.

(** The date of a day, counted from January 1, 1970. *)
Lemma date_of_civil n : forall y, let d := Z.of_nat n + 719468 in
  before y <= d < before (y + 1) -> date_of n = civil y (d - before y).
Proof.
  induction n as [|n IH]; intros y d Hy.
  - assert (y = 1969) as -> by (apply (year_unique d); [done | by vm_compute]). by vm_compute.
  - change (date_of (S n)) with (next_day (date_of n)).
    destruct (Z.le_gt_cases (before y) (Z.of_nat n + 719468)) as [Hle|Hgt].
    + rewrite (IH y) by lia. rewrite before_step in Hy. rewrite civil_next by lia.
      destruct (Z.ltb_spec (Z.of_nat n + 719468 - before y + 1) (year_days y)); [|lia]. f_equal. lia.
    + pose proof (before_step (y - 1)) as Hs. replace (y - 1 + 1) with y in Hs by lia.
      pose proof (year_days_bounds (y - 1)) as Hb. rewrite (IH (y - 1)) by (replace (y - 1 + 1) with y by lia; lia).
      rewrite civil_next by lia. destruct (Z.ltb_spec (Z.of_nat n + 719468 - before (y - 1) + 1) (year_days (y - 1))); [lia|].
      f_equal; lia.
Qed.


(** The end of [ngx_gmtime], from the year and its day on. *)
Definition gmtime_end (yday year : Z) : Z * Z * Z :=
  let mon := u64 (Z.quot ((yday + 31) * 10) 306) in
  let mday := u64 (yday - (367 * mon / 12 - 30) + 1) in
  let '(year, mon) := if 306 <=? yday then (u64 (year + 1), u64 (mon - 10)) else (year, u64 (mon + 2)) in
  (s32 year, s32 mon, s32 mday).

Lemma s32_small z : - 2 ^ 31 <= z < 2 ^ 31 -> s32 z = z.
Proof. intros Hz. apply wrapS_small; lia. Qed.

Lemma s64_signed z : - 2 ^ 63 <= z < 2 ^ 63 -> s64 z = z.
Proof. intros Hz. apply wrapS_small; lia. Qed.

Definition month_ok (yd : Z) : bool :=
  let mon := (yd + 31) * 10 / 306 in
  let mday := yd - (367 * mon / 12 - 30) + 1 in
  (0 <=? mon) && (mon <=? 12) && (1 <=? mday) && (mday <=? 31) && ((yd <? 306) || (11 <=? mon)).
Lemma month_table : forallb month_ok (seqZ 0 366) = true.
Proof. vm_compute. reflexivity. Qed.

Lemma gmtime_end_civil y yd : 0 <= yd <= 365 -> 0 <= y < 2 ^ 31 - 1 -> gmtime_end yd y = civil y yd.
Proof.
  intros Hyd Hy. unfold gmtime_end, civil. rewrite Z.quot_div_nonneg by lia.
  pose proof month_table as Ht. rewrite forallb_forall in Ht. specialize (Ht yd ltac:(apply list_elem_of_In, elem_of_seqZ; lia)).
  unfold month_ok in Ht. set (mon := (yd + 31) * 10 / 306) in *. cbv zeta in *. set (mday := yd - (367 * mon / 12 - 30) + 1) in *.
  apply andb_prop in Ht as [[[[H1%Z.leb_le H2%Z.leb_le]%andb_prop H3%Z.leb_le]%andb_prop H4%Z.leb_le]%andb_prop H5].
  rewrite (u64_small mon) by lia. fold mday. rewrite (u64_small mday) by lia.
  destruct (Z.leb_spec 306 yd); [destruct (Z.ltb_spec yd 306); [lia|]; apply Z.leb_le in H5|];
    rewrite ?(u64_small (y + 1)), ?(u64_small (mon - 10)), ?(u64_small (mon + 2)) by lia; by rewrite !s32_small by lia.
Qed.

Lemma gmtime_year e d : 0 <= e < 2 ^ 31 -> before e - 2 <= d < before (e + 1) -> 0 <= d -> before 1 <= d ->
  exists y, before y <= d < before (y + 1) /\ 0 <= y <= e /\
    (let yday := s64 (d - u64 (365 * e + e / 4 - e / 100 + e / 400)) in
     if yday <? 0 then
       let leap := Z.b2z ((e mod 4 =? 0) && (negb (e mod 100 =? 0) || (e mod 400 =? 0))) in
       (s64 (365 + leap + yday), u64 (e - 1))
     else (yday, e)) = (d - before y, y).
Proof.
  intros He Hd Hd0 Hd1. fold (before e). fold (is_leap e).
  assert (0 <= before e < 2 ^ 41) as Hb by (unfold before; Z.to_euclidean_division_equations; lia).
  pose proof (before_step e) as Hs. pose proof (year_days_bounds e) as Hyd. rewrite (u64_small (before e)) by lia.
  rewrite (s64_signed (d - before e)) by lia. cbv zeta. destruct (Z.ltb_spec (d - before e) 0).
  - assert (e <> 0) as He0 by (intros ->; change (before 0) with 0 in *; lia). exists (e - 1).
    pose proof (before_step (e - 1)) as Hs'. unfold year_days in Hs'. replace (e - 1 + 1) with e in * by lia.
    assert (0 <= Z.b2z (is_leap e) <= 1) by (destruct (is_leap e); cbn; lia).
    rewrite s64_signed, u64_small by lia. split; [lia|]. split; [lia|]. f_equal. lia.
  - exists e. split; [lia|]. split; [lia | done].
Qed.

Lemma gmtime_days t : 0 <= t < 2 ^ 55 -> let d := t / 86400 + 719468 in
  exists y, before y <= d < before (y + 1) /\
    let tm := ngx_gmtime t in (ngx_tm_year tm, ngx_tm_mon tm, ngx_tm_mday tm) = civil y (d - before y).
Proof.
  intros Ht d. assert (0 <= t / 86400 < 2 ^ 39) as Hd by (Z.to_euclidean_division_equations; lia).
  pose proof (estimate d ltac:(lia)) as He. cbv zeta in He. set (e := (d + 2) * 400 / 146097) in He.
  assert (0 <= e < 2 ^ 31 - 1) as Hem by (unfold e; Z.to_euclidean_division_equations; lia).
  destruct (gmtime_year e d) as (y & Hy & Hye & Heq); [lia | done | lia | change (before 1) with 365; lia |].
  exists y. split; [done|]. unfold ngx_gmtime. rewrite (u64_small t) by lia.
  set (n := t / 86400) in *. rewrite (u64_small (n - (31 + 28) + 719527)) by lia.
  replace (n - (31 + 28) + 719527) with d by lia. rewrite (u64_small (d + 2)), (u64_small ((d + 2) * 400)) by lia.
  change (365 * 400 + 100 - 4 + 1) with 146097. fold e. cbv zeta in Heq |- *. rewrite Heq. cbv beta iota.
  rewrite <- gmtime_end_civil; [|pose proof (before_step y); pose proof (year_days_bounds y); lia | lia].
  unfold gmtime_end. cbv zeta. destruct (306 <=? d - before y); reflexivity.
Qed.

(** ** The texts *)

Record tm_ok (tm : ngx_tm_t) : Prop := mk_tm_ok {
  ok_sec : 0 <= ngx_tm_sec tm < 100;
  ok_min : 0 <= ngx_tm_min tm < 60;
  ok_hour : 0 <= ngx_tm_hour tm < 24;
  ok_mday : 1 <= ngx_tm_mday tm <= 31;
  ok_mon : 1 <= ngx_tm_mon tm <= 12;
  ok_year : 1000 <= ngx_tm_year tm <= 9999;
  ok_wday : 0 <= ngx_tm_wday tm <= 6
}.

Definition short_name (s : list Z) : Prop := length s = 3%nat /\ Forall (fun c => c <> 0) s.
Lemma names_short : Forall short_name week /\ Forall short_name months.
Proof. apply (bool_decide_unpack _). vm_compute. reflexivity. Qed.

Lemma name_run table i : Forall short_name table -> 0 <= i < Z.of_nat (length table) ->
  exists s, table !! Z.to_nat i = Some s /\ name table i = Some (A_ptr (s ++ [0])) /\ length s = 3%nat /\ Forall (fun c => c <> 0) s.
Proof.
  intros Ht Hi. destruct (lookup_lt_is_Some_2 table (Z.to_nat i)) as [s Hs]; [lia|]. exists s. unfold name.
  destruct (Z.ltb_spec i 0); [lia|]. rewrite Hs. destruct (Forall_lookup_1 _ _ _ _ Ht Hs). done.
Qed.

(** The text of a date as HTTP has it, and the two forms of the logs. *)
Definition http_text (tm : ngx_tm_t) : list Z :=
  default [] (week !! Z.to_nat (ngx_tm_wday tm)) ++ bytes ", " ++ d2 (ngx_tm_mday tm) ++ bytes " " ++
  default [] (months !! Z.to_nat (ngx_tm_mon tm - 1)) ++ bytes " " ++ d4 (ngx_tm_year tm) ++ bytes " " ++
  d2 (ngx_tm_hour tm) ++ bytes ":" ++ d2 (ngx_tm_min tm) ++ bytes ":" ++ d2 (ngx_tm_sec tm) ++ bytes " GMT".
Definition err_log_text (tm : ngx_tm_t) : list Z :=
  d4 (ngx_tm_year tm) ++ bytes "/" ++ d2 (ngx_tm_mon tm) ++ bytes "/" ++ d2 (ngx_tm_mday tm) ++ bytes " " ++
  d2 (ngx_tm_hour tm) ++ bytes ":" ++ d2 (ngx_tm_min tm) ++ bytes ":" ++ d2 (ngx_tm_sec tm).
Definition http_log_text (tm : ngx_tm_t) (off : Z) : list Z :=
  d2 (ngx_tm_mday tm) ++ bytes "/" ++ default [] (months !! Z.to_nat (ngx_tm_mon tm - 1)) ++ bytes "/" ++
  dec (ngx_tm_year tm) ++ bytes ":" ++ d2 (ngx_tm_hour tm) ++ bytes ":" ++ d2 (ngx_tm_min tm) ++ bytes ":" ++
  d2 (ngx_tm_sec tm) ++ bytes " " ++ bytes (if off <? 0 then "-" else "+") ++
  d2 (Z.abs (Z.quot off 60)) ++ d2 (Z.abs (Z.rem off 60)).

Lemma err_log_run buf tm : tm_ok tm -> 0 <= buf < 2 ^ 63 -> sprintf_err_log_time buf tm = Some (err_log_text tm) /\ length (err_log_text tm) = err_log_len.
Proof.
  intros [] Hb. split.
  - unfold sprintf_err_log_time, ngx_sprintf. change (u64 (-1)) with (2 ^ 64 - 1). etrans; [vsl | reflexivity].
  - unfold err_log_text. rewrite !length_app, d4_length by lia. reflexivity.
Qed.

Lemma http_run buf tm : tm_ok tm -> 0 <= buf < 2 ^ 63 -> sprintf_http_time buf tm = Some (http_text tm) /\ length (http_text tm) = http_len.
Proof.
  intros [] Hb. destruct (name_run week (ngx_tm_wday tm)) as (w & Hw & Hnw & Hlw & Hzw); [apply names_short | cbn; lia |].
  destruct (name_run months (ngx_tm_mon tm - 1)) as (m & Hm & Hnm & Hlm & Hzm); [apply names_short | cbn; lia |].
  unfold http_text. rewrite Hw, Hm. cbn [from_option]. unfold id. split.
  - unfold sprintf_http_time. rewrite Hnw, Hnm. cbn [mbind option_bind]. unfold ngx_sprintf. change (u64 (-1)) with (2 ^ 64 - 1).
    etrans; [vsl | reflexivity].
  - rewrite !length_app, d4_length, Hlw, Hlm by lia. reflexivity.
Qed.

Lemma http_log_run buf tm off : tm_ok tm -> -6000 < off < 6000 -> 0 <= buf < 2 ^ 63 ->
  sprintf_http_log_time buf tm off = Some (http_log_text tm off) /\ length (http_log_text tm off) = http_log_len.
Proof.
  intros [] Ho Hb. destruct (name_run months (ngx_tm_mon tm - 1)) as (m & Hm & Hnm & Hlm & Hzm); [apply names_short | cbn; lia |].
  assert (0 <= Z.abs (Z.quot off 60) < 100) as Hq by (Z.to_euclidean_division_equations; lia).
  assert (0 <= Z.abs (Z.rem off 60) < 100) as Hr by (Z.to_euclidean_division_equations; lia).
  destruct (dec_small (ngx_tm_year tm)) as (_ & _ & _ & Hy); [lia|]. specialize (Hy ltac:(lia)).
  unfold http_log_text. rewrite Hm. cbn [from_option]. unfold id. split.
  - unfold sprintf_http_log_time. rewrite Hnm. cbn [mbind option_bind]. unfold ngx_sprintf. change (u64 (-1)) with (2 ^ 64 - 1).
    etrans; [vsl|]. by destruct (off <? 0).
  - rewrite !length_app, Hlm, Hy. by destruct (off <? 0).
Qed.

(** The time before the year 10000. *)
Definition last_time : Z := 253402300800.

Lemma gmtime_fields t : 0 <= t < 2 ^ 55 -> let tm := ngx_gmtime t in
  ngx_tm_wday tm = (4 + t / 86400) mod 7 /\ t mod 86400 = ngx_tm_hour tm * 3600 + ngx_tm_min tm * 60 + ngx_tm_sec tm /\
  0 <= ngx_tm_hour tm < 24 /\ 0 <= ngx_tm_min tm < 60 /\ 0 <= ngx_tm_sec tm < 60.
Proof.
  intros Ht tm. assert (0 <= t / 86400 < 2 ^ 39) as Hd by (Z.to_euclidean_division_equations; lia).
  assert (tm = ngx_gmtime t) as Htm by done. unfold ngx_gmtime in Htm.
  rewrite (u64_small t), (u64_small (4 + t / 86400)) in Htm by lia. cbv zeta in Htm.
  destruct (if s64 _ <? 0 then _ else _) as [yd yr], (if 306 <=? _ then _ else _) as [yr' mn]. rewrite Htm.
  cbn [ngx_tm_wday ngx_tm_hour ngx_tm_min ngx_tm_sec]. clear Htm tm.
  rewrite !s32_small by (Z.to_euclidean_division_equations; lia). split; [done|]. Z.to_euclidean_division_equations; lia.
Qed.

Lemma gmtime_ok t : 0 <= t < last_time -> tm_ok (ngx_gmtime t).
Proof.
  unfold last_time. intros Ht. destruct (gmtime_fields t ltac:(lia)) as (Hw & Hsum & Hh & Hm & Hs).
  destruct (gmtime_days t ltac:(lia)) as (y & Hy & Hdate). cbv zeta in Hy, Hdate.
  assert (0 <= t / 86400 <= 2932896) as Hd by (Z.to_euclidean_division_equations; lia).
  set (yd := t / 86400 + 719468 - before y) in *. pose proof (before_step y). pose proof (year_days_bounds y).
  assert (0 <= yd <= 365) as Hyd by lia.
  pose proof month_table as Htab. rewrite forallb_forall in Htab. specialize (Htab yd ltac:(apply list_elem_of_In, elem_of_seqZ; lia)).
  unfold month_ok in Htab. unfold civil in Hdate. set (mon := (yd + 31) * 10 / 306) in *. cbv zeta in *.
  apply andb_prop in Htab as [[[[H1%Z.leb_le H2%Z.leb_le]%andb_prop H3%Z.leb_le]%andb_prop H4%Z.leb_le]%andb_prop H5].
  assert (1969 <= y) as Hy1.
  { destruct (Z.le_gt_cases 1969 y); [done|]. pose proof (before_mono (y + 1) (1969 - (y + 1)) ltac:(lia)) as Hmono.
    replace (y + 1 + (1969 - (y + 1))) with 1969 in Hmono by lia. change (before 1969) with 719162 in Hmono. lia. }
  assert (y <= 9999) as Hy2.
  { destruct (Z.le_gt_cases y 9999); [done|]. pose proof (before_mono 10000 (y - 10000) ltac:(lia)) as Hmono.
    replace (10000 + (y - 10000)) with y in Hmono by lia. change (before 10000) with 3652425 in Hmono. lia. }
  assert (y = 9999 -> yd < 306) as Hy3 by (intros ->; unfold yd; change (before 9999) with 3652059; lia).
  assert (y = 1969 -> 306 <= yd) as Hy4 by (intros ->; unfold yd; change (before 1969) with 719162; lia).
  assert (0 <= (4 + t / 86400) mod 7 < 7) by (apply Z.mod_pos_bound; lia).
  assert (yd < 306 -> 0 <= mon <= 10) as Hmon by (intros; unfold mon; Z.to_euclidean_division_equations; lia).
  constructor; rewrite ?Hw; try lia; destruct (Z.leb_spec 306 yd);
    try (destruct (Z.ltb_spec yd 306); [lia|]; apply Z.leb_le in H5); injection Hdate as Hyear Hmonth Hday; rewrite ?Hyear, ?Hmonth, ?Hday; try lia.
Qed.

(** ** The slots *)

Definition bufs_ok (size : nat) (bufs : list (list Z)) : Prop := length bufs = 64%nat /\ Forall (fun b => length b = size) bufs.
Record times_ok (s : times) : Prop := mk_times_ok {
  to_slot : 0 <= slot s < NGX_TIME_SLOTS;
  to_lock : ngx_time_lock s = 0;
  to_gmtoff : -6000 < cached_gmtoff s < 6000;
  to_time : length (cached_time s) = 64%nat;
  to_err : bufs_ok (S err_log_len) (cached_err_log_time s);
  to_http : bufs_ok (S http_len) (cached_http_time s);
  to_log : bufs_ok (S http_log_len) (cached_http_log_time s)
}.

Lemma next_slot_range i : 0 <= i < NGX_TIME_SLOTS -> 0 <= next_slot i < NGX_TIME_SLOTS.
Proof. unfold next_slot, NGX_TIME_SLOTS. intros Hi. destruct (Z.eqb_spec i (64 - 1)); lia. Qed.

(** A text that fits is found in its slot, and the other slots stay. *)
Definition at_slot (bufs : list (list Z)) (i : Z) : option (list Z) := bufs !! Z.to_nat i.
Lemma store_ok size i l bufs :
  bufs_ok size bufs -> 0 <= i < NGX_TIME_SLOTS -> (length l <= size)%nat ->
  exists bufs', store size i l bufs = Some bufs' /\ bufs_ok size bufs' /\
    take (length l) <$> at_slot bufs' i = Some l /\ (forall j, 0 <= j -> j <> i -> at_slot bufs' j = at_slot bufs j).
Proof.
  intros [Hlen Hall] Hi Hl. unfold NGX_TIME_SLOTS in Hi. destruct (lookup_lt_is_Some_2 bufs (Z.to_nat i)) as [old Hold]; [lia|].
  unfold store. rewrite Hold. cbn [mbind option_bind]. destruct (Nat.leb_spec (length l) size); [|lia]. eexists. split; [done|].
  pose proof (Forall_lookup_1 _ _ _ _ Hall Hold) as Hsz. cbv beta in Hsz. split_and!.
  - split; [by rewrite length_insert|]. apply Forall_insert; [done|]. rewrite length_app, length_drop. lia.
  - unfold at_slot. rewrite list_lookup_insert_eq by lia. cbn. by rewrite take_app_length.
  - intros j Hj Hne. unfold at_slot. apply list_lookup_insert_ne. lia.
Qed.

(** An update leaves the texts of a slot, and the second and the zone of its time,
    alone. *)
Definition second_at (s : times) (j : Z) : option (Z * Z) := (fun tp => (sec tp, gmtoff tp)) <$> cached_time s !! Z.to_nat j.
Definition keeps_slot (s s' : times) (j : Z) : Prop :=
  second_at s' j = second_at s j /\
  at_slot (cached_err_log_time s') j = at_slot (cached_err_log_time s) j /\
  at_slot (cached_http_time s') j = at_slot (cached_http_time s) j /\
  at_slot (cached_http_log_time s') j = at_slot (cached_http_log_time s) j.
(** It moves on to the next slot and writes only that, or writes none. *)
Definition one_slot (s s' : times) : Prop :=
  (slot s' = slot s /\ forall j, 0 <= j -> keeps_slot s s' j) \/
  (slot s' = next_slot (slot s) /\ forall j, 0 <= j -> j <> slot s' -> keeps_slot s s' j).

Ltac fields :=
  cbn [set slot ngx_time_lock ngx_current_msec cached_gmtoff cached_time cached_err_log_time cached_http_time cached_http_log_time
       ngx_cached_time ngx_cached_err_log_time ngx_cached_http_time ngx_cached_http_log_time].

Section CachedOk.
Context (localtime_r : Z -> ngx_tm_t * Z).

(** A time at which both the universal and the local time are before the year
    10000. *)
Definition tv_ok (tv : Z * Z) : Prop :=
  360000 <= tv.1 < last_time - 360000 /\ 0 <= tv.2 < 1000000 /\
  tm_ok (ngx_localtime localtime_r tv.1).1 /\ -6000 < Z.quot (ngx_localtime localtime_r tv.1).2 60 < 6000.

Lemma time_update_ok s tv : times_ok s -> tv_ok tv ->
  exists s' tp, ngx_time_update localtime_r tv s = Some s' /\ times_ok s' /\ one_slot s s' /\
    ngx_current_msec s' = tv.1 * 1000 + tv.2 / 1000 /\ cached_time s !! Z.to_nat (slot s) = Some tp /\
    (sec tp = tv.1 -> s' = s <| ngx_current_msec := tv.1 * 1000 + tv.2 / 1000 |>
       <| cached_time := <[Z.to_nat (slot s) := tp <| msec := tv.2 / 1000 |>]> (cached_time s) |>) /\
    (sec tp <> tv.1 ->
       let '(tm, off) := ngx_localtime localtime_r tv.1 in
       cached_time s' !! Z.to_nat (ngx_cached_time s') = Some (mk_time tv.1 (tv.2 / 1000) (Z.quot off 60)) /\
       http_time_text s' = Some (http_text (ngx_gmtime tv.1)) /\
       err_log_time_text s' = Some (err_log_text tm) /\
       http_log_time_text s' = Some (http_log_text tm (Z.quot off 60))).
Proof.
  intros Hok (Ht1 & Ht2 & Htm & Hoff). pose proof Hok as [Hslot Hlock Hg Hlen Herr Hhttp Hlog]. unfold last_time in Ht1.
  assert (0 <= tv.2 / 1000 < 1000) as Hms by (Z.to_euclidean_division_equations; lia).
  destruct (lookup_lt_is_Some_2 (cached_time s) (Z.to_nat (slot s))) as [tp Htp]; [unfold NGX_TIME_SLOTS in Hslot; lia|].
  unfold ngx_time_update. rewrite Hlock. cbn [Z.eqb negb]. cbv zeta. fields. rewrite Htp. cbn [mbind option_bind].
  rewrite u64_small by lia. destruct (Z.eqb_spec (sec tp) tv.1) as [Heq|Hne].
  - eexists _, tp. split; [reflexivity|]. split; [by split; fields; rewrite ?length_insert|].
    split; [|split_and!; [done | done | done | done]]. left. split; [done|]. intros j Hj. split; [|done]. unfold second_at. fields.
    destruct (decide (j = slot s)) as [->|Hj']; [|by rewrite list_lookup_insert_ne by lia].
    rewrite list_lookup_insert_eq by (by apply lookup_lt_Some in Htp). by rewrite Htp.
  - pose proof (next_slot_range _ Hslot) as Hn. set (n := next_slot (slot s)) in *.
    destruct (http_run buffer (ngx_gmtime tv.1)) as [H0 L0]; [apply gmtime_ok; unfold last_time; lia | done |].
    destruct (store_ok (S http_len) n (http_text (ngx_gmtime tv.1)) _ Hhttp Hn) as (b0 & S0 & B0 & T0 & K0); [lia|].
    rewrite H0. cbn [mbind option_bind]. rewrite S0. cbn [mbind option_bind].
    destruct (ngx_localtime localtime_r tv.1) as [tm off]. cbn [fst snd] in Htm, Hoff.
    destruct (err_log_run buffer tm Htm ltac:(done)) as [H1 L1]. rewrite H1. cbn [mbind option_bind].
    destruct (store_ok (S err_log_len) n (err_log_text tm) _ Herr Hn) as (b1 & S1 & B1 & T1 & K1); [lia|].
    rewrite S1. cbn [mbind option_bind]. destruct (http_log_run buffer tm _ Htm Hoff ltac:(done)) as [H2 L2]. rewrite H2. cbn [mbind option_bind].
    destruct (store_ok (S http_log_len) n (http_log_text tm (Z.quot off 60)) _ Hlog Hn) as (b2 & S2 & B2 & T2 & K2); [lia|].
    rewrite S2. cbn [mbind option_bind]. clear H0 H1 H2 S0 S1 S2. eexists _, tp. split; [reflexivity|].
    split; [split; fields; [exact Hn | exact Hlock | exact Hoff | by rewrite length_insert | exact B1 | exact B0 | exact B2]|]. split.
    { right. fields. split; [reflexivity|]. intros j Hj Hjn. unfold keeps_slot, second_at. fields.
      split_and!; [by rewrite list_lookup_insert_ne by lia | by apply K1 | by apply K0 | by apply K2]. }
    split_and!; [reflexivity | reflexivity | intros Heq; by destruct Hne |]. intros _. unfold http_time_text, err_log_time_text, http_log_time_text. fields.
    rewrite <- L0, <- L1, <- L2. split_and!; [|exact T0 | exact T1 | exact T2].
    apply list_lookup_insert_eq. unfold NGX_TIME_SLOTS in Hn. lia.
Qed.

Lemma sigsafe_update_ok s tv : times_ok s -> tv_ok tv ->
  exists s', ngx_time_sigsafe_update tv s = Some s' /\ times_ok s' /\ one_slot s s'.
Proof.
  intros Hok (Ht1 & Ht2 & _). pose proof Hok as [Hslot Hlock Hg Hlen Herr Hhttp Hlog]. unfold last_time in Ht1.
  destruct (lookup_lt_is_Some_2 (cached_time s) (Z.to_nat (slot s))) as [tp Htp]; [unfold NGX_TIME_SLOTS in Hslot; lia|].
  unfold ngx_time_sigsafe_update. rewrite Hlock. cbn [Z.eqb negb]. cbv zeta. rewrite Htp. cbn [mbind option_bind].
  destruct (Z.eqb_spec (sec tp) tv.1) as [|_]; [exists s; split_and!; [done | done | by left]|].
  pose proof (next_slot_range _ Hslot) as Hn. set (n := next_slot (slot s)) in *.
  destruct (err_log_run buffer (ngx_gmtime (tv.1 + cached_gmtoff s * 60))) as [H1 L1]; [apply gmtime_ok; unfold last_time; lia | done |].
  rewrite H1. cbn [mbind option_bind].
  destruct (store_ok (S err_log_len) n (err_log_text (ngx_gmtime (tv.1 + cached_gmtoff s * 60))) _ Herr Hn) as (b1 & S1 & B1 & T1 & K1); [lia|].
  rewrite S1. cbn [mbind option_bind]. clear H1 S1. eexists. split; [reflexivity|].
  split; [split; fields; [exact Hn | exact Hlock | exact Hg | exact Hlen | exact B1 | exact Hhttp | exact Hlog]|].
  right. fields. split; [reflexivity|]. intros j Hj Hjn. unfold keeps_slot. fields. split_and!; [reflexivity | by apply K1 | reflexivity | reflexivity].
Qed.

(** Updates by the event loop ([true]) and by signal handlers. *)
Definition update (ev : bool * (Z * Z)) (s : times) : option times :=
  if ev.1 then ngx_time_update localtime_r ev.2 s else ngx_time_sigsafe_update ev.2 s.
Fixpoint updates (evs : list (bool * (Z * Z))) (s : times) : option times :=
  match evs with
  | [] => Some s
  | ev :: evs => s ← update ev s; updates evs s
  end.

Lemma update_ok ev s : times_ok s -> tv_ok ev.2 -> exists s', update ev s = Some s' /\ times_ok s' /\ one_slot s s'.
Proof.
  intros Hs Htv. unfold update. destruct ev.1; [|by apply sigsafe_update_ok].
  destruct (time_update_ok s ev.2 Hs Htv) as (s' & tp & Hrun & Hs' & H1 & _). by exists s'.
Qed.

Lemma next_slot_mod i j : 0 <= i < NGX_TIME_SLOTS -> (next_slot i - j) mod 64 = ((i - j) mod 64 + 1) mod 64.
Proof. unfold next_slot, NGX_TIME_SLOTS. intros Hi. destruct (Z.eqb_spec i (64 - 1)); Z.to_euclidean_division_equations; lia. Qed.

Lemma updates_keep evs : forall s i, times_ok s -> Forall (fun ev => tv_ok ev.2) evs -> 0 <= i < NGX_TIME_SLOTS ->
  (slot s - i) mod 64 + Z.of_nat (length evs) <= 63 -> exists s', updates evs s = Some s' /\ times_ok s' /\ keeps_slot s s' i.
Proof.
  induction evs as [|ev evs IH]; intros s i Hs Hevs Hi Hlen; [by exists s|]. apply Forall_cons in Hevs as [Hev Hevs].
  destruct (update_ok ev s Hs Hev) as (s1 & Hrun & Hs1 & Hone). cbn [updates length] in *. rewrite Hrun. cbn [mbind option_bind].
  assert (0 <= (slot s - i) mod 64) as Hm by (apply Z.mod_pos_bound; lia).
  assert (keeps_slot s s1 i /\ (slot s1 - i) mod 64 + Z.of_nat (length evs) <= 63) as [Hk Hlen1].
  { destruct Hone as [[Hsl Hk]|[Hsl Hk]]; [split; [apply Hk; lia | rewrite Hsl; lia]|].
    assert ((slot s1 - i) mod 64 = (slot s - i) mod 64 + 1) as Hm1.
    { rewrite Hsl, next_slot_mod by apply Hs. apply Z.mod_small. lia. }
    split; [|lia]. apply Hk; [lia|]. intros ->. rewrite Z.sub_diag in Hm1. change (0 mod 64) with 0 in Hm1. lia. }
  destruct (IH s1 i Hs1 Hevs Hi Hlen1) as (s2 & Hrun2 & Hs2 & Hk2). exists s2. split_and!; [done | done |].
  destruct Hk as (E0 & E1 & E2 & E3), Hk2 as (F0 & F1 & F2 & F3). split_and!; congruence.
Qed.
End CachedOk.

(** * The theorems *)

(** C4.  [ngx_gmtime] computes the Gregorian calendar, for every time from the
    epoch on before 2^55 seconds (the year then still fits an [int]): the date is January 1, 1970, moved
    on day by day with the lengths of the months and the rule for leap years, the
    weekday is counted from that Thursday on, and the time of day adds up. *)
Theorem gmtime_correct t :
  0 <= t < 2 ^ 55 ->
  let tm := ngx_gmtime t in
  (ngx_tm_year tm, ngx_tm_mon tm, ngx_tm_mday tm) = date_of (Z.to_nat (t / 86400)) /\
  ngx_tm_wday tm = (4 + t / 86400) mod 7 /\
  t mod 86400 = ngx_tm_hour tm * 3600 + ngx_tm_min tm * 60 + ngx_tm_sec tm /\
  0 <= ngx_tm_hour tm < 24 /\ 0 <= ngx_tm_min tm < 60 /\ 0 <= ngx_tm_sec tm < 60.
Proof.
  intros Ht tm. destruct (gmtime_days t Ht) as (y & Hy & Hdate). fold tm in Hdate.
  assert (0 <= t / 86400 < 2 ^ 39) as Hd by (Z.to_euclidean_division_equations; lia).
  split. { rewrite (date_of_civil _ y), Z2Nat.id by (rewrite ?Z2Nat.id; lia). exact Hdate. }
  apply gmtime_fields, Ht.
Qed.

(** C30.  The cached time, with any [localtime_r], for the years up to 9999: the
    texts [ngx_time_update] prints with [ngx_sprintf], which has no limit, fit
    their buffers; when the second is a new one, readers then find the time, the
    date for HTTP and the dates for the two logs of that second; when it is not, the
    milliseconds of the current slot's time are replaced, and nothing else but
    [ngx_current_msec] changes.  During the next 63 updates, those by signal handlers
    included, the three texts that readers find in their slot, and the second and the
    zone of its time, stay as they are (its milliseconds need not). *)
Theorem time_update_correct localtime_r s tv :
  times_ok s -> tv_ok localtime_r tv ->
  exists s1 tp, ngx_time_update localtime_r tv s = Some s1 /\ times_ok s1 /\
    ngx_current_msec s1 = tv.1 * 1000 + tv.2 / 1000 /\ cached_time s !! Z.to_nat (slot s) = Some tp /\
    (sec tp = tv.1 -> s1 = s <| ngx_current_msec := tv.1 * 1000 + tv.2 / 1000 |>
       <| cached_time := <[Z.to_nat (slot s) := tp <| msec := tv.2 / 1000 |>]> (cached_time s) |>) /\
    (sec tp <> tv.1 ->
       let '(tm, off) := ngx_localtime localtime_r tv.1 in
       cached_time s1 !! Z.to_nat (ngx_cached_time s1) = Some (mk_time tv.1 (tv.2 / 1000) (Z.quot off 60)) /\
       http_time_text s1 = Some (http_text (ngx_gmtime tv.1)) /\
       err_log_time_text s1 = Some (err_log_text tm) /\
       http_log_time_text s1 = Some (http_log_text tm (Z.quot off 60))) /\
    (forall evs, Forall (fun ev => tv_ok localtime_r ev.2) evs -> (length evs < 64)%nat ->
       exists s2, updates localtime_r evs s1 = Some s2 /\ keeps_slot s1 s2 (slot s1)).
Proof.
  intros Hs Htv. destruct (time_update_ok localtime_r s tv Hs Htv) as (s1 & tp & Hrun & Hs1 & _ & Hms & Htp & Hsame & Hnew).
  exists s1, tp. split_and!; [done | done | done | done | exact Hsame | exact Hnew |]. intros evs Hevs Hlen.
  destruct (updates_keep localtime_r evs s1 (slot s1) Hs1 Hevs (to_slot _ Hs1)) as (s2 & Hrun2 & _ & Hk); [|by exists s2].
  rewrite Z.sub_diag. change (0 mod 64) with 0. lia.
Qed.

(** * Witnesses *)

Lemma gmtime_correct_witness :
  let tm := ngx_gmtime 951782400 in
  (2000, 2, 29) = date_of (Z.to_nat (951782400 / 86400)) /\
  ngx_tm_wday tm = (4 + 951782400 / 86400) mod 7 /\
  951782400 mod 86400 = ngx_tm_hour tm * 3600 + ngx_tm_min tm * 60 + ngx_tm_sec tm /\
  0 <= ngx_tm_hour tm < 24 /\ 0 <= ngx_tm_min tm < 60 /\ 0 <= ngx_tm_sec tm < 60.
Proof. apply (gmtime_correct 951782400). lia. Defined.

(** A machine whose local time is an hour ahead. *)
Definition ahead (t : Z) : ngx_tm_t * Z :=
  let tm := ngx_gmtime (t + 3600) in
  (mk_tm (ngx_tm_sec tm) (ngx_tm_min tm) (ngx_tm_hour tm) (ngx_tm_mday tm) (ngx_tm_mon tm - 1) (ngx_tm_year tm - 1900) (ngx_tm_wday tm), 3600).

Lemma times0_ok : times_ok times0.
Proof.
  split; unfold times0, bufs_ok; fields; [done | done | done | done | ..]; (split; [done|]; apply Forall_replicate; done).
Qed.

Lemma time_update_correct_witness :
  exists s1 tp, ngx_time_update ahead (951782400, 250000) times0 = Some s1 /\ times_ok s1 /\
    ngx_current_msec s1 = 951782400250 /\ cached_time times0 !! 0%nat = Some tp /\
    (sec tp = 951782400 -> s1 = times0 <| ngx_current_msec := 951782400250 |>
       <| cached_time := <[0%nat := tp <| msec := 250 |>]> (cached_time times0) |>) /\
    (sec tp <> 951782400 ->
       let '(tm, off) := ngx_localtime ahead 951782400 in
       cached_time s1 !! Z.to_nat (ngx_cached_time s1) = Some (mk_time 951782400 250 (Z.quot off 60)) /\
       http_time_text s1 = Some (http_text (ngx_gmtime 951782400)) /\
       err_log_time_text s1 = Some (err_log_text tm) /\
       http_log_time_text s1 = Some (http_log_text tm (Z.quot off 60))) /\
    (forall evs, Forall (fun ev => tv_ok ahead ev.2) evs -> (length evs < 64)%nat ->
       exists s2, updates ahead evs s1 = Some s2 /\ keeps_slot s1 s2 (slot s1)).
Proof.
  apply (time_update_correct ahead times0 (951782400, 250000)).
  - apply times0_ok.
  - split_and!; [done | done | cbn; lia | cbn; lia | split; by vm_compute | by vm_compute | by vm_compute].
Defined.

End Times.
