(* ===== verification/Crc32.v ===== *)
(** Check sums: nginx/src/core/ngx_crc32.c and ngx_crc32.h, whose two table-driven
    routines compute the same CRC-32 as its definition bit by bit. *)
From stdpp Require Import base list numbers strings.
From S2P Require Import Prelude Str.
Local Open Scope Z_scope.

Module Crc32.

(** * The code *)

Definition ngx_crc32_table16 : list Z :=
  [0x00000000; 0x1db71064; 0x3b6e20c8; 0x26d930ac; 0x76dc4190; 0x6b6b51f4; 0x4db26158; 0x5005713c;
   0xedb88320; 0xf00f9344; 0xd6d6a3e8; 0xcb61b38c; 0x9b64c2b0; 0x86d3d2d4; 0xa00ae278; 0xbdbdf21c].
Definition ngx_crc32_table256 : list Z :=
  [0x00000000; 0x77073096; 0xee0e612c; 0x990951ba; 0x076dc419; 0x706af48f; 0xe963a535; 0x9e6495a3;
   0x0edb8832; 0x79dcb8a4; 0xe0d5e91e; 0x97d2d988; 0x09b64c2b; 0x7eb17cbd; 0xe7b82d07; 0x90bf1d91;
   0x1db71064; 0x6ab020f2; 0xf3b97148; 0x84be41de; 0x1adad47d; 0x6ddde4eb; 0xf4d4b551; 0x83d385c7;
   0x136c9856; 0x646ba8c0; 0xfd62f97a; 0x8a65c9ec; 0x14015c4f; 0x63066cd9; 0xfa0f3d63; 0x8d080df5;
   0x3b6e20c8; 0x4c69105e; 0xd56041e4; 0xa2677172; 0x3c03e4d1; 0x4b04d447; 0xd20d85fd; 0xa50ab56b;
   0x35b5a8fa; 0x42b2986c; 0xdbbbc9d6; 0xacbcf940; 0x32d86ce3; 0x45df5c75; 0xdcd60dcf; 0xabd13d59;
   0x26d930ac; 0x51de003a; 0xc8d75180; 0xbfd06116; 0x21b4f4b5; 0x56b3c423; 0xcfba9599; 0xb8bda50f;
   0x2802b89e; 0x5f058808; 0xc60cd9b2; 0xb10be924; 0x2f6f7c87; 0x58684c11; 0xc1611dab; 0xb6662d3d;
   0x76dc4190; 0x01db7106; 0x98d220bc; 0xefd5102a; 0x71b18589; 0x06b6b51f; 0x9fbfe4a5; 0xe8b8d433;
   0x7807c9a2; 0x0f00f934; 0x9609a88e; 0xe10e9818; 0x7f6a0dbb; 0x086d3d2d; 0x91646c97; 0xe6635c01;
   0x6b6b51f4; 0x1c6c6162; 0x856530d8; 0xf262004e; 0x6c0695ed; 0x1b01a57b; 0x8208f4c1; 0xf50fc457;
   0x65b0d9c6; 0x12b7e950; 0x8bbeb8ea; 0xfcb9887c; 0x62dd1ddf; 0x15da2d49; 0x8cd37cf3; 0xfbd44c65;
   0x4db26158; 0x3ab551ce; 0xa3bc0074; 0xd4bb30e2; 0x4adfa541; 0x3dd895d7; 0xa4d1c46d; 0xd3d6f4fb;
   0x4369e96a; 0x346ed9fc; 0xad678846; 0xda60b8d0; 0x44042d73; 0x33031de5; 0xaa0a4c5f; 0xdd0d7cc9;
   0x5005713c; 0x270241aa; 0xbe0b1010; 0xc90c2086; 0x5768b525; 0x206f85b3; 0xb966d409; 0xce61e49f;
   0x5edef90e; 0x29d9c998; 0xb0d09822; 0xc7d7a8b4; 0x59b33d17; 0x2eb40d81; 0xb7bd5c3b; 0xc0ba6cad;
   0xedb88320; 0x9abfb3b6; 0x03b6e20c; 0x74b1d29a; 0xead54739; 0x9dd277af; 0x04db2615; 0x73dc1683;
   0xe3630b12; 0x94643b84; 0x0d6d6a3e; 0x7a6a5aa8; 0xe40ecf0b; 0x9309ff9d; 0x0a00ae27; 0x7d079eb1;
   0xf00f9344; 0x8708a3d2; 0x1e01f268; 0x6906c2fe; 0xf762575d; 0x806567cb; 0x196c3671; 0x6e6b06e7;
   0xfed41b76; 0x89d32be0; 0x10da7a5a; 0x67dd4acc; 0xf9b9df6f; 0x8ebeeff9; 0x17b7be43; 0x60b08ed5;
   0xd6d6a3e8; 0xa1d1937e; 0x38d8c2c4; 0x4fdff252; 0xd1bb67f1; 0xa6bc5767; 0x3fb506dd; 0x48b2364b;
   0xd80d2bda; 0xaf0a1b4c; 0x36034af6; 0x41047a60; 0xdf60efc3; 0xa867df55; 0x316e8eef; 0x4669be79;
   0xcb61b38c; 0xbc66831a; 0x256fd2a0; 0x5268e236; 0xcc0c7795; 0xbb0b4703; 0x220216b9; 0x5505262f;
   0xc5ba3bbe; 0xb2bd0b28; 0x2bb45a92; 0x5cb36a04; 0xc2d7ffa7; 0xb5d0cf31; 0x2cd99e8b; 0x5bdeae1d;
   0x9b64c2b0; 0xec63f226; 0x756aa39c; 0x026d930a; 0x9c0906a9; 0xeb0e363f; 0x72076785; 0x05005713;
   0x95bf4a82; 0xe2b87a14; 0x7bb12bae; 0x0cb61b38; 0x92d28e9b; 0xe5d5be0d; 0x7cdcefb7; 0x0bdbdf21;
   0x86d3d2d4; 0xf1d4e242; 0x68ddb3f8; 0x1fda836e; 0x81be16cd; 0xf6b9265b; 0x6fb077e1; 0x18b74777;
   0x88085ae6; 0xff0f6a70; 0x66063bca; 0x11010b5c; 0x8f659eff; 0xf862ae69; 0x616bffd3; 0x166ccf45;
   0xa00ae278; 0xd70dd2ee; 0x4e048354; 0x3903b3c2; 0xa7672661; 0xd06016f7; 0x4969474d; 0x3e6e77db;
   0xaed16a4a; 0xd9d65adc; 0x40df0b66; 0x37d83bf0; 0xa9bcae53; 0xdebb9ec5; 0x47b2cf7f; 0x30b5ffe9;
   0xbdbdf21c; 0xcabac28a; 0x53b39330; 0x24b4a3a6; 0xbad03605; 0xcdd70693; 0x54de5729; 0x23d967bf;
   0xb3667a2e; 0xc4614ab8; 0x5d681b02; 0x2a6f2b94; 0xb40bbe37; 0xc30c8ea1; 0x5a05df1b; 0x2d02ef8d].

(** The body of the loop of [ngx_crc32_short]: a nibble at a time. *)
Definition crc32_nibbles (crc c : Z) : Z :=
  let crc := Z.lxor (Str.entry ngx_crc32_table16 (Z.land (Z.lxor crc (Z.land c 0xf)) 0xf)) (Z.shiftr crc 4) in
  Z.lxor (Str.entry ngx_crc32_table16 (Z.land (Z.lxor crc (Z.shiftr c 4)) 0xf)) (Z.shiftr crc 4).
Definition ngx_crc32_short (p : list Z) : Z :=
  Z.lxor (fold_left crc32_nibbles p 0xffffffff) 0xffffffff.

(** The body of the loops of [ngx_crc32_long] and [ngx_crc32_update]. *)
Definition crc32_byte (crc c : Z) : Z :=
  Z.lxor (Str.entry ngx_crc32_table256 (Z.land (Z.lxor crc c) 0xff)) (Z.shiftr crc 8).
Definition ngx_crc32_long (p : list Z) : Z :=
  Z.lxor (fold_left crc32_byte p 0xffffffff) 0xffffffff.

Definition ngx_crc32_init : Z := 0xffffffff.
Definition ngx_crc32_update (crc : Z) (p : list Z) : Z := fold_left crc32_byte p crc.
Definition ngx_crc32_final (crc : Z) : Z := Z.lxor crc 0xffffffff.

(** * The definition *)

(** Division by the polynomial 0x04c11db7, bits reversed: one bit. *)
Definition crc_bit (x : Z) : Z := Z.lxor (Z.shiftr x 1) (if Z.odd x then 0xedb88320 else 0).
Fixpoint crc_bits (n : nat) (x : Z) : Z :=
  match n with
  | O => x
  | S n => crc_bits n (crc_bit x)
  end.
Definition crc_ref_byte (crc c : Z) : Z := crc_bits 8 (Z.lxor crc c).
Definition crc_ref (p : list Z) : Z := Z.lxor (fold_left crc_ref_byte p 0xffffffff) 0xffffffff.

(** * The tables *)

Lemma crc_bit_xor x y : crc_bit (Z.lxor x y) = Z.lxor (crc_bit x) (crc_bit y).
Proof.
  unfold crc_bit. rewrite Z.shiftr_lxor, <- !Z.bit0_odd, Z.lxor_spec.
  apply Z.bits_inj'. intros i Hi. rewrite !Z.lxor_spec.
  destruct (Z.testbit x 0), (Z.testbit y 0); cbn [xorb]; rewrite ?Z.bits_0;
    repeat match goal with |- context [Z.testbit ?a i] => destruct (Z.testbit a i) end; done.
Qed.
Lemma iter_xor n x y : crc_bits n (Z.lxor x y) = Z.lxor (crc_bits n x) (crc_bits n y).
Proof. revert x y. induction n as [|n IH]; intros x y; [done|]. cbn [crc_bits]. by rewrite crc_bit_xor, IH. Qed.

Lemma crc_bits_add n m x : crc_bits (n + m) x = crc_bits m (crc_bits n x).
Proof. revert x. induction n as [|n IH]; intros x; [done|]. apply IH. Qed.

(** Bits above the lowest [n] are only shifted. *)
Lemma iter_high n y : crc_bits n (Z.shiftl y (Z.of_nat n)) = y.
Proof.
  induction n as [|n IH]; [by rewrite Z.shiftl_0_r|]. cbn [crc_bits].
  replace (crc_bit (Z.shiftl y (Z.of_nat (S n)))) with (Z.shiftl y (Z.of_nat n)); [done|].
  unfold crc_bit. rewrite <- Z.bit0_odd, Z.shiftl_spec_low by lia. rewrite Z.lxor_0_r, Z.shiftr_shiftl_l by lia.
  f_equal. lia.
Qed.

Lemma split_low n x : 0 <= n -> Z.lxor (Z.land x (Z.ones n)) (Z.shiftl (Z.shiftr x n) n) = x.
Proof.
  intros Hn. apply Z.bits_inj'. intros i Hi. rewrite Z.lxor_spec, Z.land_spec. destruct (Z.ltb_spec i n).
  - rewrite Z.ones_spec_low, Z.shiftl_spec_low by lia. by destruct (Z.testbit x i).
  - rewrite Z.ones_spec_high, Z.shiftl_spec_high, Z.shiftr_spec by lia.
    replace (i - n + n) with i by lia. by destruct (Z.testbit x i).
Qed.

(** A table of the first [2 ^ n] values does [n] bits at once. *)
Lemma iter_table n table x :
  (forall i, 0 <= i < 2 ^ Z.of_nat n -> Str.entry table i = crc_bits n i) ->
  crc_bits n x = Z.lxor (Str.entry table (Z.land x (Z.ones (Z.of_nat n)))) (Z.shiftr x (Z.of_nat n)).
Proof.
  intros Ht. rewrite <- (split_low (Z.of_nat n) x) at 1 by lia. rewrite iter_xor, iter_high.
  rewrite Ht; [done|]. rewrite Z.land_ones by lia. apply Z.mod_pos_bound. lia.
Qed.

(** The tables are those of the definition. *)
Lemma entry_map n f i : (i < n)%nat -> Str.entry (map (fun k => f (Z.of_nat k)) (seq 0 n)) (Z.of_nat i) = f (Z.of_nat i).
Proof.
  intros Hi. unfold Str.entry. rewrite Nat2Z.id, (nth_indep _ 0 (f (Z.of_nat 0))) by (rewrite length_map, length_seq; done).
  rewrite (map_nth (fun k => f (Z.of_nat k)) _ 0%nat). by rewrite seq_nth by done.
Qed.
Lemma table16_map : ngx_crc32_table16 = map (fun k => crc_bits 4 (Z.of_nat k)) (seq 0 16).
Proof. vm_compute. reflexivity. Qed.
Lemma table16_correct i : 0 <= i < 2 ^ 4 -> Str.entry ngx_crc32_table16 i = crc_bits 4 i.
Proof.
  intros Hi. rewrite <- (Z2Nat.id i), table16_map by lia. by apply (entry_map 16 (crc_bits 4)); lia.
Qed.
Lemma table256_map : ngx_crc32_table256 = map (fun k => crc_bits 8 (Z.of_nat k)) (seq 0 256).
Proof. vm_compute. reflexivity. Qed.
Lemma table256_correct i : 0 <= i < 2 ^ 8 -> Str.entry ngx_crc32_table256 i = crc_bits 8 i.
Proof.
  intros Hi. rewrite <- (Z2Nat.id i), table256_map by lia. by apply (entry_map 256 (crc_bits 8)); lia.
Qed.

(** * The loops *)

(** Bits below [n] do not matter after a shift by [n]. *)
Lemma shiftr_xor_low n x c : 0 <= n -> 0 <= c < 2 ^ n -> Z.shiftr (Z.lxor x c) n = Z.shiftr x n.
Proof.
  intros Hn Hc. rewrite Z.shiftr_lxor, (Z.shiftr_div_pow2 c n), (Z.div_small c) by lia. by rewrite Z.lxor_0_r.
Qed.

Lemma crc32_byte_ref crc c : Str.is_byte c -> crc32_byte crc c = crc_ref_byte crc c.
Proof.
  intros Hc. unfold crc32_byte, crc_ref_byte. rewrite (iter_table 8 _ _ table256_correct).
  change (Z.of_nat 8) with 8. change (Z.ones 8) with 0xff. by rewrite (shiftr_xor_low 8) by (done || lia).
Qed.

Lemma crc32_nibbles_ref crc c : Str.is_byte c -> crc32_nibbles crc c = crc_ref_byte crc c.
Proof.
  intros Hc. unfold Str.is_byte in Hc. unfold crc32_nibbles, crc_ref_byte.
  assert (0 <= Z.land c 0xf < 16) as Hlo by (change 0xf with (Z.ones 4); rewrite Z.land_ones by lia; by apply Z.mod_pos_bound).
  assert (0 <= Z.shiftr c 4 < 16) as Hhi by (rewrite Z.shiftr_div_pow2 by lia; change (2 ^ 4) with 16; Z.div_mod_to_equations; lia).
  rewrite (crc_bits_add 4 4).
  replace (Z.lxor crc c) with (Z.lxor (Z.lxor crc (Z.land c 0xf)) (Z.shiftl (Z.shiftr c 4) (Z.of_nat 4))).
  2:{ rewrite Z.lxor_assoc. f_equal. exact (split_low 4 c ltac:(lia)). }
  rewrite (iter_xor 4 (Z.lxor crc _)), (iter_high 4), !(iter_table 4 _ _ table16_correct).
  change (Z.of_nat 4) with 4. change (Z.ones 4) with 0xf.
  rewrite (shiftr_xor_low 4 crc) by lia. by rewrite (shiftr_xor_low 4 _ (Z.shiftr c 4)) by lia.
Qed.

Lemma fold_left_ext (f g : Z -> Z -> Z) crc p :
  (forall crc c, Str.is_byte c -> f crc c = g crc c) -> Forall Str.is_byte p -> fold_left f p crc = fold_left g p crc.
Proof. intros Hf Hp. revert crc. induction Hp as [|c p Hc _ IH]; intros crc; [done|]. cbn. by rewrite Hf. Qed.

(** C40.  The table-driven check sums are the CRC-32: for every byte string,
    [ngx_crc32_short] with its table of 16 entries, [ngx_crc32_long] with its
    table of 256, and [ngx_crc32_update] fed the string in two pieces between
    [ngx_crc32_init] and [ngx_crc32_final], all give the remainder defined one
    bit at a time. *)
Theorem crc32_correct p q :
  Forall Str.is_byte p -> Forall Str.is_byte q ->
  ngx_crc32_short p = crc_ref p /\ ngx_crc32_long p = crc_ref p /\
  ngx_crc32_final (ngx_crc32_update (ngx_crc32_update ngx_crc32_init p) q) = crc_ref (p ++ q).
Proof.
  intros Hp Hq. unfold ngx_crc32_short, ngx_crc32_long, ngx_crc32_final, ngx_crc32_update, ngx_crc32_init, crc_ref.
  rewrite fold_left_app, !(fold_left_ext crc32_byte crc_ref_byte), (fold_left_ext crc32_nibbles crc_ref_byte) by auto using crc32_byte_ref, crc32_nibbles_ref.
  done.
Qed.

Lemma crc32_correct_witness :
  ngx_crc32_short [0x31; 0x32] = crc_ref [0x31; 0x32] /\ ngx_crc32_long [0x31; 0x32] = crc_ref [0x31; 0x32] /\
  ngx_crc32_final (ngx_crc32_update (ngx_crc32_update ngx_crc32_init [0x31; 0x32]) [0x33]) = crc_ref ([0x31; 0x32] ++ [0x33]).
Proof. apply (crc32_correct [0x31; 0x32] [0x33]); repeat constructor; unfold Str.is_byte; lia. Defined.

(** The check value of the CRC catalogues. *)
Example crc32_check_value : ngx_crc32_short (bytes "123456789") = 0xcbf43926.
Proof. reflexivity. Qed.

End Crc32.
