(* ===== verification/Palloc.v ===== *)
(** Memory pools: nginx/src/core/ngx_palloc.c at the level of addresses.  The
    rest of the development allocates fresh objects that end with their pool;
    this file shows that the allocator gives out memory that way: aligned,
    inside memory of the pool, and disjoint from everything in use. *)
From stdpp Require Import base numbers gmap list.
From S2P Require Import Prelude.
Local Open Scope Z_scope.

Module Palloc.

(** * Data *)

Definition NGX_ALIGNMENT : Z := 8.
Definition NGX_POOL_ALIGNMENT : Z := 16.
Definition NGX_MAX_ALLOC_FROM_POOL : Z := 4095.
Definition sizeof_ngx_pool_t : Z := 80.
Definition sizeof_ngx_pool_data_t : Z := 32.
Definition sizeof_ngx_pool_large_t : Z := 16.

Record ngx_pool_data_t := mk_data { d_last : ptr; d_end : ptr; d_next : ptr; d_failed : Z }.
#[export] Instance eta_data : Eta ngx_pool_data_t := fun x =>
  mk_data (d_last x) (d_end x) (d_next x) (d_failed x).

(** The part of [ngx_pool_s] after [d]; [chain], [cleanup] and [log] are not
    used by the allocator. *)
Record pool_rest := mk_rest { p_max : Z; p_current : ptr; p_large : ptr }.
#[export] Instance eta_rest : Eta pool_rest := fun x => mk_rest (p_max x) (p_current x) (p_large x).

Record ngx_pool_large_t := mk_large { l_next : ptr; l_alloc : ptr }.
#[export] Instance eta_large : Eta ngx_pool_large_t := fun x => mk_large (l_next x) (l_alloc x).

(** The regions [malloc] has given out, by address, with their sizes; the
    structures in them; and the bytes. *)
Record heap := mk_heap {
  h_live : gmap ptr Z;
  h_data : gmap ptr ngx_pool_data_t;
  h_pool : gmap ptr pool_rest;
  h_large : gmap ptr ngx_pool_large_t;
  h_mem : ptr -> Z
}.
#[export] Instance eta_heap : Eta heap := fun x =>
  mk_heap (h_live x) (h_data x) (h_pool x) (h_large x) (h_mem x).

(** The C library's allocator, given what is live. *)
Class Malloc := {
  posix_memalign : gmap ptr Z -> Z -> Z -> option ptr;
  malloc : gmap ptr Z -> Z -> option ptr
}.

(** * Operations *)

Abbreviation H := (M heap).

Definition rd {V} (f : heap -> gmap ptr V) (p : ptr) : H V :=
  fun h => match f h !! p with Some v => Some (v, h) | None => None end.
Definition d_wr (p : ptr) (d : ngx_pool_data_t) : H unit :=
  fun h => match h_data h !! p with
           | Some _ => Some (tt, h <| h_data := <[p := d]> (h_data h) |>)
           | None => None
           end.
Definition p_wr (p : ptr) (r : pool_rest) : H unit :=
  fun h => match h_pool h !! p with
           | Some _ => Some (tt, h <| h_pool := <[p := r]> (h_pool h) |>)
           | None => None
           end.
Definition l_wr (p : ptr) (l : ngx_pool_large_t) : H unit :=
  fun h => match h_large h !! p with
           | Some _ => Some (tt, h <| h_large := <[p := l]> (h_large h) |>)
           | None => None
           end.

(** [ngx_align_ptr(p, a)]. *)
Definition ngx_align_ptr (p a : Z) : Z := Z.land (u64 (p + (a - 1))) (u64 (Z.lnot (a - 1))).

Section Palloc.
Context {HM : Malloc}.
Local Open Scope prog_scope.

Definition ngx_memalign (alignment size : Z) : H ptr :=
  fun h => match posix_memalign (h_live h) alignment size with
           | Some p => Some (p, h <| h_live := <[p := size]> (h_live h) |>)
           | None => Some (NULL, h)
           end.
Definition ngx_alloc (size : Z) : H ptr :=
  fun h => match malloc (h_live h) size with
           | Some p => Some (p, h <| h_live := <[p := size]> (h_live h) |>)
           | None => Some (NULL, h)
           end.

(** What lies outside of [size] bytes from [p]. *)
Definition outside {V} (p size : Z) (m : gmap ptr V) : gmap ptr V :=
  filter (fun kv => ~ (p <= kv.1 /\ kv.1 < p + size)) m.

(** [free]: of nothing or of a live region; the structures in it are gone. *)
Definition ngx_free (p : ptr) : H unit :=
  fun h =>
    if p =? NULL then Some (tt, h)
    else match h_live h !! p with
         | Some size =>
             Some (tt, mk_heap (delete p (h_live h)) (outside p size (h_data h)) (outside p size (h_pool h))
                         (outside p size (h_large h)) (h_mem h))
         | None => None
         end.

(** A structure is written for the first time. *)
Definition new_data (p : ptr) (d : ngx_pool_data_t) : H unit :=
  fun h => Some (tt, h <| h_data := <[p := d]> (h_data h) |>).
Definition new_pool (p : ptr) (r : pool_rest) : H unit :=
  fun h => Some (tt, h <| h_pool := <[p := r]> (h_pool h) |>).
Definition new_large (p : ptr) (l : ngx_pool_large_t) : H unit :=
  fun h => Some (tt, h <| h_large := <[p := l]> (h_large h) |>).

Definition ngx_create_pool (size : Z) : H ptr :=
  let! p := ngx_memalign NGX_POOL_ALIGNMENT size in
  if p =? NULL then ret NULL
  else
    new_data p (mk_data (p + sizeof_ngx_pool_t) (p + size) NULL 0) ;;
    let size := u64 (size - sizeof_ngx_pool_t) in
    new_pool p (mk_rest (if size <? NGX_MAX_ALLOC_FROM_POOL then size else NGX_MAX_ALLOC_FROM_POOL) p NULL) ;;
    ret p.

(** The [do] loop of [ngx_palloc] ([align]) and of [ngx_pnalloc]. *)
Fixpoint find_room (align : bool) (fuel : nat) (p size : Z) : H (option ptr) :=
  match fuel with
  | O => fault
  | S fuel =>
      let! d := rd h_data p in
      let m := if align then ngx_align_ptr (d_last d) NGX_ALIGNMENT else d_last d in
      if size <=? u64 (d_end d - m) then d_wr p (d <| d_last := m + size |>) ;; ret (Some m)
      else if d_next d =? NULL then ret None
      else find_room align fuel (d_next d) size
  end.

(** The [for] loop of [ngx_palloc_block]: the last block and the new
    [current]. *)
Fixpoint count_failed (fuel : nat) (p current : ptr) : H (ptr * ptr) :=
  match fuel with
  | O => fault
  | S fuel =>
      let! d := rd h_data p in
      if d_next d =? NULL then ret (p, current)
      else
        d_wr p (d <| d_failed := u64 (d_failed d + 1) |>) ;;
        count_failed fuel (d_next d) (if 4 <? d_failed d then d_next d else current)
  end.

(** The number of blocks bounds the length of a chain. *)
Definition blocks : H nat := fun h => Some (size (h_data h), h).

Definition ngx_palloc_block (pool size : Z) : H ptr :=
  let! d := rd h_data pool in
  let psize := u64 (d_end d - pool) in
  let! m := ngx_memalign NGX_POOL_ALIGNMENT psize in
  if m =? NULL then ret NULL
  else
    let new := m in
    let m := ngx_align_ptr (m + sizeof_ngx_pool_data_t) NGX_ALIGNMENT in
    let! fuel := blocks in
    new_data new (mk_data (m + size) (new + psize) NULL 0) ;;
    let! r := rd h_pool pool in
    let! pc := count_failed fuel (p_current r) (p_current r) in
    let! d := rd h_data pc.1 in
    d_wr pc.1 (d <| d_next := new |>) ;;
    p_wr pool (r <| p_current := if pc.2 =? NULL then new else pc.2 |>) ;;
    ret m.

(** The [for] loop of [ngx_palloc_large]: at most five entries are looked at,
    so a fuel of six is enough. *)
Fixpoint reuse_large (fuel : nat) (large n p : Z) : H bool :=
  match fuel with
  | O => fault
  | S fuel =>
      if large =? NULL then ret false
      else
        let! l := rd h_large large in
        if l_alloc l =? NULL then l_wr large (l <| l_alloc := p |>) ;; ret true
        else if 3 <? n then ret false
        else reuse_large fuel (l_next l) (n + 1) p
  end.

(** The end of [ngx_palloc_large] and of [ngx_pmemalign]: [palloc] is
    [ngx_palloc]. *)
Definition push_large (palloc : Z -> H ptr) (pool p : Z) : H ptr :=
  let! large := palloc sizeof_ngx_pool_large_t in
  if large =? NULL then ngx_free p ;; ret NULL
  else
    let! r := rd h_pool pool in
    new_large large (mk_large (p_large r) p) ;;
    p_wr pool (r <| p_large := large |>) ;;
    ret p.

Definition ngx_palloc_large (palloc : Z -> H ptr) (pool size : Z) : H ptr :=
  let! p := ngx_alloc size in
  if p =? NULL then ret NULL
  else
    let! r := rd h_pool pool in
    let! reused := reuse_large 6 (p_large r) 0 p in
    if reused then ret p else push_large palloc pool p.

(** [ngx_palloc] and [ngx_palloc_large] call each other: the second asks for
    the 16 bytes of an entry, which every pool of at least
    [NGX_MIN_POOL_SIZE] has room for, so two calls deep is enough. *)
Fixpoint palloc_rec (depth : nat) (align : bool) (pool size : Z) : H ptr :=
  match depth with
  | O => fault
  | S depth =>
      let! r := rd h_pool pool in
      if size <=? p_max r then
        let! fuel := blocks in
        let! m := find_room align fuel (p_current r) size in
        match m with
        | Some m => ret m
        | None => ngx_palloc_block pool size
        end
      else ngx_palloc_large (palloc_rec depth true pool) pool size
  end.
Definition ngx_palloc : Z -> Z -> H ptr := palloc_rec 2 true.
Definition ngx_pnalloc : Z -> Z -> H ptr := palloc_rec 2 false.

Definition ngx_pmemalign (pool size alignment : Z) : H ptr :=
  let! p := ngx_memalign alignment size in
  if p =? NULL then ret NULL else push_large (ngx_palloc pool) pool p.

Definition ngx_memzero (p size : Z) : H unit :=
  fun h => Some (tt, h <| h_mem := fun a => if (p <=? a) && (a <? p + size) then 0 else h_mem h a |>).
Definition ngx_pcalloc (pool size : Z) : H ptr :=
  let! p := ngx_palloc pool size in
  if p =? NULL then ret p else ngx_memzero p size ;; ret p.

(** The number of entries bounds the length of the list of large blocks. *)
Definition larges : H nat := fun h => Some (size (h_large h), h).

Definition NGX_OK : Z := 0.
Definition NGX_DECLINED : Z := -5.

Fixpoint pfree_loop (fuel : nat) (l p : Z) : H Z :=
  if l =? NULL then ret NGX_DECLINED
  else
    match fuel with
    | O => fault
    | S fuel =>
        let! e := rd h_large l in
        if p =? l_alloc e then ngx_free (l_alloc e) ;; l_wr l (e <| l_alloc := NULL |>) ;; ret NGX_OK
        else pfree_loop fuel (l_next e) p
    end.
Definition ngx_pfree (pool p : Z) : H Z :=
  let! r := rd h_pool pool in
  let! fuel := larges in
  pfree_loop fuel (p_large r) p.

(** [for (l = pool->large; l; l = l->next) if (l->alloc) ngx_free(l->alloc);] *)
Fixpoint free_larges (fuel : nat) (l : ptr) : H unit :=
  if l =? NULL then ret tt
  else
    match fuel with
    | O => fault
    | S fuel =>
        let! e := rd h_large l in
        (if l_alloc e =? NULL then ret tt else ngx_free (l_alloc e)) ;;
        free_larges fuel (l_next e)
    end.

(** The last loop of [ngx_destroy_pool]. *)
Fixpoint free_blocks (fuel : nat) (p n : ptr) : H unit :=
  match fuel with
  | O => fault
  | S fuel =>
      ngx_free p ;;
      if n =? NULL then ret tt
      else
        let! d := rd h_data n in
        free_blocks fuel n (d_next d)
  end.

(** [ngx_destroy_pool] after the cleanup handlers, which Callback.v models. *)
Definition ngx_destroy_pool (pool : ptr) : H unit :=
  let! r := rd h_pool pool in
  let! nl := larges in
  let! nb := blocks in
  free_larges nl (p_large r) ;;
  let! d := rd h_data pool in
  free_blocks nb pool (d_next d).

Fixpoint reset_blocks (fuel : nat) (p : ptr) : H unit :=
  if p =? NULL then ret tt
  else
    match fuel with
    | O => fault
    | S fuel =>
        let! d := rd h_data p in
        d_wr p (d <| d_last := p + sizeof_ngx_pool_t |>) ;;
        reset_blocks fuel (d_next d)
    end.
Definition ngx_reset_pool (pool : ptr) : H unit :=
  let! r := rd h_pool pool in
  let! nl := larges in
  let! nb := blocks in
  free_larges nl (p_large r) ;;
  p_wr pool (r <| p_large := NULL |>) ;;
  reset_blocks nb pool.

End Palloc.

(** * The allocator's promise *)

(** Regions are in the address space and do not overlap. *)
Record live_ok (L : gmap ptr Z) : Prop := {
  live_range p s : L !! p = Some s -> 0 < p /\ 0 <= s /\ p + s < 2 ^ 64;
  live_apart p s q t : L !! p = Some s -> L !! q = Some t -> p <> q -> p + s <= q \/ q + t <= p
}.

Class MallocOk (HM : Malloc) : Prop := {
  memalign_ok L a s p :
    live_ok L -> 0 < a -> 0 <= s -> posix_memalign L a s = Some p ->
    L !! p = None /\ live_ok (<[p := s]> L) /\ p mod a = 0;
  malloc_ok L s p :
    live_ok L -> 0 <= s -> malloc L s = Some p ->
    L !! p = None /\ live_ok (<[p := s]> L) /\ p mod NGX_POOL_ALIGNMENT = 0
}.

(** * The shape of a pool *)

(** The chain of structures of [m] at the addresses of [l]. *)
Fixpoint links {V} (m : gmap ptr V) (next : V -> ptr) (l : list ptr) : Prop :=
  match l with
  | [] => True
  | b :: r => (exists v, m !! b = Some v /\ next v = default NULL (head r)) /\ links m next r
  end.

(** A block of [psize] bytes. *)
Definition block_ok (h : heap) (psize b : Z) : Prop :=
  exists d, h_data h !! b = Some d /\ h_live h !! b = Some psize /\ d_end d = b + psize /\
    b + sizeof_ngx_pool_data_t <= d_last d <= d_end d /\ b mod NGX_POOL_ALIGNMENT = 0.

(** [n] bytes at [p] are given out of a block. *)
Definition in_blocks (h : heap) (bs : list ptr) (p n : Z) : Prop :=
  exists b d, b ∈ bs /\ h_data h !! b = Some d /\ b <= p /\ p + n <= d_last d.

(** The entry [l] of the list of large allocations. *)
Definition large_ok (h : heap) (bs : list ptr) (l : ptr) : Prop :=
  in_blocks h bs l sizeof_ngx_pool_large_t /\
  exists e, h_large h !! l = Some e /\ (l_alloc e = NULL \/ (is_Some (h_live h !! l_alloc e) /\ l_alloc e ∉ bs)).

(** The pool at [pool] consists of the blocks [bs] of [psize] bytes, with the
    large allocations of the entries [ls]. *)
Record pool_inv (h : heap) (pool psize : Z) (bs ls : list ptr) : Prop := {
  pi_live : live_ok (h_live h);
  pi_size : psize mod NGX_ALIGNMENT = 0 /\ sizeof_ngx_pool_t + sizeof_ngx_pool_large_t <= psize;
  pi_head : head bs = Some pool;
  pi_room : in_blocks h [pool] pool sizeof_ngx_pool_t;
  pi_links : links (h_data h) d_next bs;
  pi_nodup : NoDup bs;
  pi_blocks : Forall (block_ok h psize) bs;
  pi_rest : exists r, h_pool h !! pool = Some r /\ p_current r ∈ bs /\ p_large r = default NULL (head ls) /\
    p_max r = Z.min (psize - sizeof_ngx_pool_t) NGX_MAX_ALLOC_FROM_POOL;
  pi_llinks : links (h_large h) l_next ls;
  pi_lnodup : NoDup ls;
  pi_larges : Forall (large_ok h bs) ls;
  pi_lapart l l' e e' : l ∈ ls -> l' ∈ ls -> h_large h !! l = Some e -> h_large h !! l' = Some e' ->
    l_alloc e = l_alloc e' -> l_alloc e <> NULL -> l = l'
}.

(** The addresses in use: the heads of the blocks with what was given out of
    them, and the large allocations. *)
Definition used (h : heap) (bs ls : list ptr) (a : Z) : Prop :=
  (exists b d, b ∈ bs /\ h_data h !! b = Some d /\ b <= a < d_last d) \/
  (exists l e s, l ∈ ls /\ h_large h !! l = Some e /\ l_alloc e <> NULL /\
     h_live h !! l_alloc e = Some s /\ l_alloc e <= a < l_alloc e + s).

(** * Alignment *)

Lemma align_ptr_8 p : 0 <= p -> p + 7 < 2 ^ 64 -> ngx_align_ptr p NGX_ALIGNMENT = (p + 7) / 8 * 8.
Proof.
  intros Hp Hlt. unfold ngx_align_ptr, NGX_ALIGNMENT, u64, wrapU. change (8 - 1) with 7.
  rewrite (Z.mod_small (p + 7)) by lia. rewrite <- (Z.land_ones (Z.lnot 7)) by lia.
  rewrite (Z.land_comm (Z.lnot 7)), Z.land_assoc, Z.land_ones by lia. rewrite (Z.mod_small (p + 7)) by lia.
  rewrite <- Z.ldiff_land. change 7 with (Z.ones 3) at 2.
  rewrite Z.ldiff_ones_r, Z.shiftl_mul_pow2, Z.shiftr_div_pow2 by lia. done.
Qed.

(** In a block whose end is aligned, aligning does not pass the end. *)
Lemma align_ptr_bounds p e :
  0 <= p <= e -> e mod 8 = 0 -> e < 2 ^ 64 ->
  let m := ngx_align_ptr p NGX_ALIGNMENT in p <= m <= e /\ m mod 8 = 0.
Proof. intros Hp He Hlt m. subst m. rewrite align_ptr_8 by (Z.div_mod_to_equations; lia). Z.div_mod_to_equations. lia. Qed.

(** * Chains *)

Section Links.
Context {V : Type} (next : V -> ptr).
Implicit Types (m : gmap ptr V) (l : list ptr).

Lemma links_lookup m l b : links m next l -> b ∈ l -> is_Some (m !! b).
Proof.
  induction l as [|c l IH]; intros Hl Hb; [by apply elem_of_nil in Hb|].
  destruct Hl as [(v & Hv & _) Hl]. apply elem_of_cons in Hb as [->|Hb]; eauto.
Qed.

Lemma links_ext m m' l :
  (forall b v, b ∈ l -> m !! b = Some v -> exists v', m' !! b = Some v' /\ next v' = next v) ->
  links m next l -> links m' next l.
Proof.
  induction l as [|c l IH]; intros Hext Hl; [done|]. destruct Hl as [(v & Hv & Hn) Hl]. split.
  - destruct (Hext c v ltac:(set_solver) Hv) as (v' & Hv' & Hn'). exists v'. by rewrite Hn'.
  - apply IH; [|done]. intros b w Hb. apply Hext. set_solver.
Qed.

Lemma links_suffix m l1 l2 : links m next (l1 ++ l2) -> links m next l2.
Proof. induction l1 as [|c l1 IH]; [done|]. intros [_ Hl]. by apply IH. Qed.

(** A chain without repetition is not longer than the map. *)
Lemma links_fuel m l : links m next l -> NoDup l -> (length l <= base.size m)%nat.
Proof.
  intros Hl Hnd. rewrite <- (size_list_to_set (C := gset ptr) l) by done. rewrite <- size_dom.
  apply subseteq_size. intros b Hb. apply elem_of_list_to_set in Hb. apply elem_of_dom.
  by eapply links_lookup.
Qed.
End Links.

(** * Giving out more of a block *)

(** [h'] is [h] with more given out of the blocks [bs]. *)
Record data_le (h h' : heap) (bs : list ptr) : Prop := {
  dl_live : h_live h' = h_live h;
  dl_pool : h_pool h' = h_pool h;
  dl_large : h_large h' = h_large h;
  dl_mem : h_mem h' = h_mem h;
  dl_data b d : b ∈ bs -> h_data h !! b = Some d ->
    exists d', h_data h' !! b = Some d' /\ d_next d' = d_next d /\ d_end d' = d_end d /\
      d_last d <= d_last d' /\ (d_last d <= d_end d -> d_last d' <= d_end d)
}.

Lemma data_le_trans h1 h2 h3 bs : data_le h1 h2 bs -> data_le h2 h3 bs -> data_le h1 h3 bs.
Proof.
  intros [Hl1 Hp1 Hg1 Hm1 Hd1] [Hl2 Hp2 Hg2 Hm2 Hd2]. split; [congruence..|]. intros b d Hb Hd.
  destruct (Hd1 b d Hb Hd) as (d1 & H1 & Hn1 & He1 & ? & Hmax1). destruct (Hd2 b d1 Hb H1) as (d2 & H2 & Hn2 & He2 & ? & Hmax2).
  exists d2. rewrite He1 in *. split_and!; [done|congruence|congruence|lia|auto].
Qed.

Lemma in_blocks_le h h' bs p n :
  (forall b d, b ∈ bs -> h_data h !! b = Some d -> exists d', h_data h' !! b = Some d' /\ d_last d <= d_last d') ->
  in_blocks h bs p n -> in_blocks h' bs p n.
Proof.
  intros Hle (b & d & Hb & Hd & Hp & Hn). destruct (Hle b d Hb Hd) as (d' & Hd' & Hl).
  exists b, d'. repeat split; [done..|lia].
Qed.
Lemma in_blocks_mono h bs bs' p n : bs ⊆ bs' -> in_blocks h bs p n -> in_blocks h bs' p n.
Proof. intros Hsub (b & d & Hb & Hrest). exists b, d. split; [by apply Hsub | done]. Qed.

Lemma pool_in h pool psize bs ls : pool_inv h pool psize bs ls -> pool ∈ bs.
Proof. intros Hi. apply head_Some_elem_of, (pi_head _ _ _ _ _ Hi). Qed.

Lemma block_at h pool psize bs ls b : pool_inv h pool psize bs ls -> b ∈ bs -> block_ok h psize b.
Proof. intros Hi. apply (proj1 (Forall_forall _ _) (pi_blocks _ _ _ _ _ Hi)). Qed.
Lemma large_at h pool psize bs ls l : pool_inv h pool psize bs ls -> l ∈ ls -> large_ok h bs l.
Proof. intros Hi. apply (proj1 (Forall_forall _ _) (pi_larges _ _ _ _ _ Hi)). Qed.

Lemma inv_data_le h h' pool psize bs ls :
  pool_inv h pool psize bs ls -> data_le h h' bs -> pool_inv h' pool psize bs ls.
Proof.
  intros Hi [Hl Hp Hg _ Hd].
  assert (forall b d, b ∈ bs -> h_data h !! b = Some d -> exists d', h_data h' !! b = Some d' /\ d_last d <= d_last d') as Hd'.
  { intros b d Hb Hdb. destruct (Hd b d Hb Hdb) as (d' & ? & ? & ? & ? & ?). exists d'. split; [done|lia]. }
  pose proof (pool_in _ _ _ _ _ Hi) as Hin. destruct Hi. split; rewrite ?Hl, ?Hp, ?Hg; try done.
  - eapply in_blocks_le; [|done]. intros b d ->%list_elem_of_singleton. by apply Hd'.
  - eapply links_ext; [|done]. intros b v Hb Hv. destruct (Hd b v Hb Hv) as (d' & ? & ? & _). eauto.
  - apply Forall_forall. intros b Hb. destruct (proj1 (Forall_forall _ _) pi_blocks0 b Hb) as (d & Hdb & Hlb & He & Hlast & Ha).
    destruct (Hd b d Hb Hdb) as (d' & Hd1 & Hd2 & Hd3 & Hd4 & Hd5).
    exists d'. rewrite Hl, Hd3. repeat split; [done..|lia|lia|done].
  - eapply Forall_impl; [exact pi_larges0|]. intros l [Hlb He]. split; [by eapply in_blocks_le|]. by rewrite Hg, Hl.
Qed.

Lemma used_data_le h h' bs ls a : data_le h h' bs -> used h bs ls a -> used h' bs ls a.
Proof.
  intros [Hl _ Hg _ Hd] [(b & d & Hb & Hdb & Ha) | Hlarge].
  - left. destruct (Hd b d Hb Hdb) as (d' & ? & _ & _ & ? & _). exists b, d'. repeat split; [done..|lia|lia].
  - right. rewrite Hg, Hl. exact Hlarge.
Qed.

(** Where an address of a block cannot be. *)
Lemma block_not_used h pool psize bs ls b d a :
  pool_inv h pool psize bs ls -> b ∈ bs -> h_data h !! b = Some d -> d_last d <= a < b + psize ->
  ~ used h bs ls a.
Proof.
  intros Hi Hb Hdb Ha. pose proof (pi_live _ _ _ _ _ Hi) as Hlive.
  pose proof (fun b => block_at _ _ _ _ _ b Hi) as Hbl.
  destruct (Hbl b Hb) as (d0 & Hd0 & Hlb & He & Hlast & _). simplify_eq.
  unfold sizeof_ngx_pool_data_t in *.
  intros [(b' & d' & Hb' & Hdb' & Ha') | (l & e & s & Hl & Hle & Hn & Hls & Ha')].
  - destruct (Hbl b' Hb') as (d0 & Hd0 & Hlb' & He' & Hlast' & _). simplify_eq.
    destruct (decide (b = b')) as [->|Hne]; [simplify_eq; lia|].
    destruct (live_apart _ Hlive b _ b' _ Hlb Hlb' Hne); lia.
  - destruct (large_at _ _ _ _ _ l Hi Hl) as [_ (e0 & He0 & [Hnull | [_ Hout]])];
      simplify_eq.
    assert (b <> l_alloc e) as Hne by (intros ->; done).
    destruct (live_apart _ Hlive b _ (l_alloc e) _ Hlb Hls Hne); lia.
Qed.

(** [n] bytes at [m] are given out of the block [b]. *)
Definition bumped (h : heap) (b : ptr) (d : ngx_pool_data_t) (last : Z) : heap :=
  h <| h_data := <[b := d <| d_last := last |>]> (h_data h) |>.

Lemma bumped_le h bs b d last :
  h_data h !! b = Some d -> d_last d <= last <= d_end d -> data_le h (bumped h b d last) bs.
Proof.
  intros Hdb Hl. split; [done..|]. intros b' d' Hb' Hd'. cbn. destruct (decide (b = b')) as [->|Hne].
  - rewrite lookup_insert_eq. simplify_eq. eexists. split; [reflexivity|]. cbn. lia.
  - rewrite lookup_insert_ne by done. exists d'. repeat split; [done..|lia].
Qed.

Lemma bumped_chunk h pool psize bs ls b d m n :
  pool_inv h pool psize bs ls -> b ∈ bs -> h_data h !! b = Some d ->
  0 <= n -> d_last d <= m -> m + n <= d_end d ->
  let h' := bumped h b d (m + n) in
  pool_inv h' pool psize bs ls /\ (forall a, used h bs ls a -> used h' bs ls a) /\
  (forall a, m <= a < m + n -> used h' bs ls a /\ ~ used h bs ls a).
Proof.
  intros Hi Hb Hdb Hn Hm He h'.
  assert (data_le h h' bs) as Hle by (apply bumped_le; [done|lia]).
  destruct (block_at _ _ _ _ _ b Hi Hb) as (d0 & Hd0 & Hlb & Hend & Hlast & _).
  unfold sizeof_ngx_pool_data_t in *. simplify_eq. split_and!.
  - by eapply inv_data_le.
  - intros a. by apply used_data_le.
  - intros a Ha. split; [|eapply block_not_used; [done..|lia]].
    left. exists b, (d <| d_last := m + n |>). repeat split; [done|by cbn; rewrite lookup_insert_eq|lia|cbn; lia].
Qed.

(** * The loops over the blocks *)

Lemma last_in_block h pool psize bs ls b d :
  pool_inv h pool psize bs ls -> b ∈ bs -> h_data h !! b = Some d ->
  0 < b /\ b + 32 <= d_last d <= d_end d /\ d_end d = b + psize /\ d_end d mod 8 = 0 /\ d_end d < 2 ^ 64.
Proof.
  intros Hi Hb Hd. destruct (block_at _ _ _ _ _ b Hi Hb) as (d' & Hd' & Hl & He & Hlast & Ha).
  destruct (pi_size _ _ _ _ _ Hi) as [Hs _]. destruct (live_range _ (pi_live _ _ _ _ _ Hi) _ _ Hl) as (? & ? & ?).
  unfold NGX_ALIGNMENT, NGX_POOL_ALIGNMENT, sizeof_ngx_pool_data_t in *. simplify_eq. rewrite He in *.
  split_and!; [lia|lia|lia|lia| |lia]. Z.div_mod_to_equations. lia.
Qed.

Section Room.
Context (h : heap) (pool psize : Z) (bs ls : list ptr) (Hi : pool_inv h pool psize bs ls).

Lemma chain_next b r :
  links (h_data h) d_next (b :: r) -> (b :: r) ⊆ bs ->
  exists d, h_data h !! b = Some d /\ d_next d = default NULL (head r) /\ (r = [] <-> (d_next d =? NULL) = true).
Proof.
  intros [(d & Hd & Hn) _] Hsub. exists d. split_and!; [done..|]. rewrite Hn. destruct r as [|c r]; [done|].
  cbn. split; [done|]. intros Hz%Z.eqb_eq.
  assert (c ∈ bs) as Hc by (apply Hsub; set_solver).
  destruct (links_lookup d_next _ _ c (pi_links _ _ _ _ _ Hi) Hc) as [dc Hdc].
  destruct (last_in_block _ _ _ _ _ _ _ Hi Hc Hdc). subst c. unfold NULL in *. lia.
Qed.

(** One turn of the loop. *)
Lemma find_room_step (align : bool) n fuel p d :
  h_data h !! p = Some d ->
  let m := if align then ngx_align_ptr (d_last d) NGX_ALIGNMENT else d_last d in
  find_room align (S fuel) p n h =
    if n <=? u64 (d_end d - m) then Some (Some m, bumped h p d (m + n))
    else if d_next d =? NULL then Some (None, h) else find_room align fuel (d_next d) n h.
Proof.
  intros Hd m. cbn [find_room]. unfold bind at 1, rd at 1. rewrite Hd. fold m.
  case_match; [|by case_match]. unfold bind, d_wr. by rewrite Hd.
Qed.

(** The loop finds room in a block from [p] on, or there is none. *)
Lemma find_room_ok align n fuel p l :
  links (h_data h) d_next (p :: l) -> (p :: l) ⊆ bs -> (length (p :: l) <= fuel)%nat -> 0 <= n ->
  find_room align fuel p n h = Some (None, h) \/
  exists b d m, b ∈ bs /\ h_data h !! b = Some d /\ d_last d <= m /\ m + n <= d_end d /\
    (align = true -> m mod NGX_ALIGNMENT = 0) /\ 0 < m /\
    find_room align fuel p n h = Some (Some m, bumped h b d (m + n)).
Proof.
  revert p fuel. induction l as [|c l IH]; intros p [|fuel] Hl Hsub Hf Hn; cbn in Hf; try lia;
    (destruct (chain_next _ _ Hl Hsub) as (d & Hd & Hnext & Hend); rewrite (find_room_step _ _ _ _ d Hd);
     assert (p ∈ bs) as Hp by (apply Hsub; set_solver);
     destruct (last_in_block _ _ _ _ _ _ _ Hi Hp Hd) as (Hp0 & Hlast & He & Hmod & Hlt);
     set (m := if align then _ else _);
     assert (d_last d <= m <= d_end d /\ (align = true -> m mod NGX_ALIGNMENT = 0)) as (Hm & Hal)
       by (subst m; destruct align; [|by split; [lia|]];
           destruct (align_ptr_bounds (d_last d) (d_end d)) as [? ?]; [lia|done..|]; done);
     assert (u64 (d_end d - m) = d_end d - m) as -> by (apply u64_small; lia); clearbody m;
     destruct (Z.leb_spec n (d_end d - m)) as [Hroom|Hno];
     [right; exists p, d, m; split_and!; [done|done|lia|lia|done|lia|done]|]).
  - left. by rewrite (proj1 Hend eq_refl).
  - destruct (d_next d =? NULL); [discriminate (proj2 Hend eq_refl)|]. rewrite Hnext. change (default NULL (head (c :: l))) with c.
    destruct Hl as [_ Hl]. apply IH; [done|set_solver|cbn; lia|done].
Qed.

(** The loop that counts failures changes nothing else; it ends at the last
    block. *)
Lemma count_failed_ok fuel p l current h1 :
  links (h_data h1) d_next (p :: l) -> (forall b, b ∈ p :: l -> b <> NULL) -> (length (p :: l) <= fuel)%nat ->
  NoDup (p :: l) ->
  exists z current' h2, count_failed fuel p current h1 = Some ((z, current'), h2) /\
    last (p :: l) = Some z /\ (current' = current \/ current' ∈ p :: l) /\ forall bs, data_le h1 h2 bs.
Proof.
  clear Hi. revert p fuel current h1. induction l as [|c l IH]; intros p [|fuel] current h1 [(d & Hd & Hn) Hl] Hnz Hf Hnd;
    cbn in Hf; try lia; cbn [count_failed]; unfold bind at 1, rd at 1; rewrite Hd, Hn.
  - cbn. exists p, current, h1. split_and!; [done|done|by left|]. intros bs'. split; [done..|]. intros b d' _ Hd'. exists d'. by rewrite Hd'.
  - change (default NULL (head (c :: l))) with c.
    destruct (Z.eqb_spec c NULL) as [Hc|_]; [exfalso; apply (Hnz c); [set_solver|done]|].
    apply NoDup_cons in Hnd as [Hp Hnd].
    set (d' := d <| d_failed := u64 (d_failed d + 1) |>). set (h2 := h1 <| h_data := <[p := d']> (h_data h1) |>).
    assert (forall bs, data_le h1 h2 bs) as Hle.
    { intros bs'. split; [done..|]. intros b e _ He. cbn. destruct (decide (p = b)) as [->|Hne].
      - rewrite lookup_insert_eq. simplify_eq. exists d'. by cbn.
      - rewrite lookup_insert_ne by done. exists e. split_and!; done || lia. }
    destruct (IH c fuel (if 4 <? d_failed d then c else current) h2) as (z & cur & h3 & Hrun & Hz & Hcur & Hle').
    + eapply links_ext; [|exact Hl]. intros b v Hb Hv. destruct (dl_data _ _ _ (Hle [b]) b v) as (v' & ? & ? & _); [set_solver|done|eauto].
    + intros b Hb. apply Hnz. set_solver.
    + cbn. lia.
    + done.
    + exists z, cur, h3. unfold bind, d_wr. rewrite Hd. fold d' h2. rewrite Hrun. split_and!; [done|done| |].
      * destruct Hcur as [->|Hin]; [case_match; [right; set_solver | by left] | right; set_solver].
      * intros bs'. by apply data_le_trans with h2.
Qed.
End Room.

(** * A new region *)

Lemma fresh_not_used h pool psize bs ls p n a :
  pool_inv h pool psize bs ls -> h_live h !! p = None -> live_ok (<[p := n]> (h_live h)) ->
  p <= a < p + n -> ~ used h bs ls a.
Proof.
  intros Hi Hp Hlive Ha Hu.
  assert (exists q t, h_live h !! q = Some t /\ q <= a < q + t) as (q & t & Hq & Hqa).
  { destruct Hu as [(b & d & Hb & Hd & Hba) | (l & e & t & _ & _ & _ & Ht & Hta)]; [|eauto].
    destruct (block_at _ _ _ _ _ b Hi Hb) as (d' & Hd' & Hl & He & Hlast & _). simplify_eq.
    exists b, psize. split; [done|lia]. }
  assert (p <> q) as Hne by (intros ->; congruence).
  destruct (live_apart _ Hlive p n q t) as [|]; [by rewrite lookup_insert_eq|by rewrite lookup_insert_ne|done|lia..].
Qed.

Definition with_region (h : heap) (p n : Z) : heap := h <| h_live := <[p := n]> (h_live h) |>.

(** No entry has the new region, which is not a block. *)
Lemma fresh_no_block h pool psize bs ls p :
  pool_inv h pool psize bs ls -> h_live h !! p = None -> p ∉ bs.
Proof. intros Hi Hp Hin. destruct (block_at _ _ _ _ _ p Hi Hin) as (d & _ & Hl & _). congruence. Qed.
Lemma fresh_no_large h pool psize bs ls p l e :
  pool_inv h pool psize bs ls -> h_live h !! p = None -> p <> NULL -> l ∈ ls -> h_large h !! l = Some e ->
  l_alloc e <> p.
Proof.
  intros Hi Hp Hn Hl He Heq. destruct (large_at _ _ _ _ _ l Hi Hl) as [_ (e' & He' & [Hnull | [[s Hs] _]])]; rewrite He in He'; injection He' as <-.
  - by apply Hn; rewrite <- Heq.
  - by rewrite Heq, Hp in Hs.
Qed.

Lemma inv_region h pool psize bs ls p n :
  pool_inv h pool psize bs ls -> h_live h !! p = None -> live_ok (<[p := n]> (h_live h)) ->
  pool_inv (with_region h p n) pool psize bs ls /\
  (forall a, used h bs ls a <-> used (with_region h p n) bs ls a).
Proof.
  intros Hi Hp Hlive.
  assert (forall q s, h_live h !! q = Some s -> <[p := n]> (h_live h) !! q = Some s) as Hkeep.
  { intros q s Hq. rewrite lookup_insert_ne by congruence. done. }
  split.
  - destruct Hi. split; cbn; try done.
    + apply Forall_forall. intros b Hb. destruct (proj1 (Forall_forall _ _) pi_blocks0 b Hb) as (d & Hd & Hl & Hrest).
      exists d. split_and!; [done|by apply Hkeep|by destruct_and! Hrest..].
    + apply Forall_forall. intros l Hl. destruct (proj1 (Forall_forall _ _) pi_larges0 l Hl) as [Hb (e & He & Hor)].
      split; [exact Hb|]. exists e. split; [done|]. destruct Hor as [|[[s Hs] Hout]]; [by left|right].
      split; [exists s; by apply Hkeep | done].
  - intros a. unfold used. cbn. split; (intros [Hb|(l & e & s & Hl & He & Hn & Hs & Ha)]; [by left|right]);
      exists l, e, s; split_and!; try done; try lia; [by apply Hkeep|].
    destruct (large_at _ _ _ _ _ l Hi Hl) as [_ (e' & He' & [Hnull | [[s' Hs'] _]])]; simplify_eq.
    rewrite (Hkeep _ _ Hs') in Hs. by simplify_eq.
Qed.

(** * A new block *)

Lemma links_snoc {V} (next : V -> ptr) m m' l z new :
  links m next l -> NoDup l -> new ∉ l -> last l = Some z ->
  (forall b v, b ∈ l -> b <> z -> m !! b = Some v -> exists v', m' !! b = Some v' /\ next v' = next v) ->
  (exists v, m' !! z = Some v /\ next v = new) -> (exists v, m' !! new = Some v /\ next v = NULL) ->
  links m' next (l ++ [new]).
Proof.
  intros Hl Hnd Hout Hlast Hext Hz Hnew. induction l as [|b l IH]; [done|].
  destruct Hl as [(v & Hv & Hn) Hl]. apply NoDup_cons in Hnd as [Hb Hnd]. destruct l as [|c l].
  - cbn in Hlast. simplify_eq. by split; [|split].
  - split.
    + assert (b <> z) as Hne.
      { intros ->. apply Hb. rewrite last_cons_cons in Hlast. by apply last_Some_elem_of. }
      destruct (Hext b v) as (v' & ? & ?); [set_solver|done..|]. exists v'. split; [done|]. by etrans; [|exact Hn].
    + apply IH; [done|done|set_solver|by rewrite last_cons_cons in Hlast|]. intros b' v' Hb'. apply Hext. set_solver.
Qed.

(** The block [new] is appended after [z], and [current] is one of the blocks. *)
Lemma inv_append h pool psize bs ls new z dz r current :
  pool_inv h pool psize bs ls -> new ∉ bs -> block_ok h psize new ->
  (exists d, h_data h !! new = Some d /\ d_next d = NULL) ->
  (forall l e, l ∈ ls -> h_large h !! l = Some e -> l_alloc e <> new) ->
  last bs = Some z -> h_data h !! z = Some dz -> h_pool h !! pool = Some r -> current ∈ bs ++ [new] ->
  pool_inv (h <| h_data := <[z := dz <| d_next := new |>]> (h_data h) |>
              <| h_pool := <[pool := r <| p_current := current |>]> (h_pool h) |>) pool psize (bs ++ [new]) ls.
Proof.
  intros Hi Hout Hnew (dn & Hdn & Hnext) Hl Hz Hdz Hr Hcur.
  pose proof (last_Some_elem_of _ _ Hz) as Hzin.
  assert (forall b d, h_data h !! b = Some d -> exists d', <[z := dz <| d_next := new |>]> (h_data h) !! b = Some d' /\
    d_last d' = d_last d /\ d_end d' = d_end d /\ (b <> z -> d' = d)) as Hd.
  { intros b d Hb. destruct (decide (z = b)) as [->|Hne].
    - rewrite lookup_insert_eq. simplify_eq. by eexists.
    - rewrite lookup_insert_ne by done. by exists d. }
  assert (forall l p n, in_blocks h l p n -> in_blocks (h <| h_data := <[z := dz <| d_next := new |>]> (h_data h) |>
              <| h_pool := <[pool := r <| p_current := current |>]> (h_pool h) |>) l p n) as Hin.
  { intros l p n. apply in_blocks_le. intros b d _ Hb. destruct (Hd b d Hb) as (d' & ? & ? & _). exists d'. split; [done|lia]. }
  destruct Hi. split; cbn; try done.
  - destruct bs; [done|]. done.
  - by apply Hin.
  - eapply links_snoc; [done..| |by rewrite lookup_insert_eq; eexists|].
    + intros b v Hb Hne Hv. rewrite lookup_insert_ne by done. by exists v.
    + rewrite lookup_insert_ne by (intros ->; done). by exists dn.
  - apply NoDup_app. split_and!; [done| |apply NoDup_singleton]. set_solver.
  - apply Forall_app. split; [|apply Forall_singleton].
    + apply Forall_forall. intros b Hb. destruct (proj1 (Forall_forall _ _) pi_blocks0 b Hb) as (d & Hdb & ? & He & ? & ?).
      destruct (Hd b d Hdb) as (d' & ? & Hl' & He' & _). exists d'. rewrite Hl', He'. done.
    + destruct Hnew as (d & Hdb & ? & He & ? & ?). destruct (Hd new d Hdb) as (d' & ? & Hl' & He' & _).
      exists d'. rewrite Hl', He'. done.
  - destruct pi_rest0 as (r' & Hr' & _ & Hlarge & Hmax). rewrite Hr in Hr'. injection Hr' as <-.
    exists (r <| p_current := current |>). by rewrite lookup_insert_eq.
  - apply Forall_forall. intros l Hls. destruct (proj1 (Forall_forall _ _) pi_larges0 l Hls) as [Hb (e & He & Hor)].
    split; [eapply in_blocks_mono; [|by apply Hin]; set_solver|]. exists e. split; [done|].
    destruct Hor as [|[Hs Ho]]; [by left|right]. split; [done|]. specialize (Hl l e Hls He). set_solver.
Qed.

(** * Small allocations *)

Lemma rd_run {V} (f : heap -> gmap ptr V) p v h : f h !! p = Some v -> rd f p h = Some (v, h).
Proof. intros Hv. unfold rd. by rewrite Hv. Qed.

(** The [n] bytes at [p] are new. *)
Definition given (h : heap) (bs ls : list ptr) (h' : heap) (bs' ls' : list ptr) (p n : Z) : Prop :=
  forall a, p <= a < p + n -> used h' bs' ls' a /\ ~ used h bs ls a.
Definition kept (h : heap) (bs ls : list ptr) (h' : heap) (bs' ls' : list ptr) : Prop :=
  forall a, used h bs ls a -> used h' bs' ls' a.

(** What a small allocation does besides: the large ones are not touched, and
    a new block is a new region. *)
Record small (align : bool) (pool psize : Z) (h : heap) (bs ls : list ptr) (n r : Z) (h' : heap) (bs' : list ptr) : Prop := {
  sm_inv : pool_inv h' pool psize bs' ls;
  sm_kept : kept h bs ls h' bs' ls;
  sm_given : r <> NULL -> 0 < r /\ (align = true -> r mod NGX_ALIGNMENT = 0) /\ given h bs ls h' bs' ls r n /\
    in_blocks h' bs' r n;
  sm_live : h_live h ⊆ h_live h';
  sm_large : h_large h' = h_large h;
  sm_mem : h_mem h' = h_mem h;
  sm_blocks b : b ∈ bs' -> b ∈ bs \/ h_live h !! b = None;
  sm_sub : bs ⊆ bs';
  sm_frame q : q ∉ bs' -> h_live h' !! q = h_live h !! q
}.

Section Small.
Context {HM : Malloc} {HMok : MallocOk HM}.
Context (h : heap) (pool psize : Z) (bs ls : list ptr) (Hi : pool_inv h pool psize bs ls).

Lemma bumped_small align b d m n :
  b ∈ bs -> h_data h !! b = Some d -> 0 <= n -> d_last d <= m -> m + n <= d_end d -> 0 < m ->
  (align = true -> m mod NGX_ALIGNMENT = 0) ->
  small align pool psize h bs ls n m (bumped h b d (m + n)) bs.
Proof.
  intros Hb Hd Hn Hm He H0 Hal. destruct (bumped_chunk _ _ _ _ _ b d m n Hi Hb Hd Hn Hm He) as (Hi' & Hk & Hg).
  destruct (last_in_block _ _ _ _ _ _ _ Hi Hb Hd) as (? & ? & ? & _).
  split; [done|done| |done|done|done|by left|done|done]. intros _. split_and!; [done..|].
  exists b, (d <| d_last := m + n |>). split_and!; [done| |lia|cbn; lia]. cbn. by rewrite lookup_insert_eq.
Qed.

Lemma room_ok align n fuel r :
  h_pool h !! pool = Some r -> 0 <= n -> (length bs <= fuel)%nat ->
  find_room align fuel (p_current r) n h = Some (None, h) \/
  exists m h', find_room align fuel (p_current r) n h = Some (Some m, h') /\ m <> NULL /\
    small align pool psize h bs ls n m h' bs.
Proof.
  intros Hr Hn Hf. destruct (pi_rest _ _ _ _ _ Hi) as (r' & Hr' & Hcur & _). rewrite Hr in Hr'. injection Hr' as <-.
  apply list_elem_of_split in Hcur as (l1 & l2 & Hbs).
  destruct (find_room_ok _ _ _ _ _ Hi align n fuel (p_current r) l2) as [Hno | (b & d & m & ? & ? & ? & ? & ? & ? & Hrun)].
  - pose proof (pi_links _ _ _ _ _ Hi) as Hl. rewrite Hbs in Hl. by apply links_suffix in Hl.
  - rewrite Hbs. set_solver.
  - rewrite Hbs, length_app in Hf. cbn in *. lia.
  - done.
  - by left.
  - right. exists m, (bumped h b d (m + n)). split_and!; [done|unfold NULL; lia|by apply bumped_small].
Qed.

Lemma pool_data : exists d, h_data h !! pool = Some d /\ u64 (d_end d - pool) = psize.
Proof.
  pose proof (pool_in _ _ _ _ _ Hi) as Hp. destruct (block_at _ _ _ _ _ pool Hi Hp) as (d & Hd & Hl & He & _).
  destruct (live_range _ (pi_live _ _ _ _ _ Hi) _ _ Hl) as (? & ? & ?). exists d. split; [done|].
  rewrite He. narrow. lia.
Qed.

Lemma small_null align n : small align pool psize h bs ls n NULL h bs.
Proof. split; [done|by intros a|done|done|done|done|by left|done|done]. Qed.

(** The heap after a new block was written, before it is linked. *)
Definition with_block (new : ptr) (n : Z) : heap :=
  (with_region h new psize) <| h_data := <[new := mk_data (new + sizeof_ngx_pool_data_t + n) (new + psize) NULL 0]> (h_data h) |>.

Lemma with_block_le new n : new ∉ bs -> data_le (with_region h new psize) (with_block new n) bs.
Proof.
  intros Hout. split; [done..|]. intros b d Hb Hd. exists d. cbn. rewrite lookup_insert_ne by (intros ->; done).
  split_and!; done || lia.
Qed.

(** A region for a block starts where the pool alignment asks for. *)
Lemma new_block_ptr new :
  h_live h !! new = None -> live_ok (<[new := psize]> (h_live h)) -> new mod NGX_POOL_ALIGNMENT = 0 ->
  new <> NULL /\ ngx_align_ptr (new + sizeof_ngx_pool_data_t) NGX_ALIGNMENT = new + sizeof_ngx_pool_data_t.
Proof.
  intros Hp Hlive Hmod. destruct (live_range _ Hlive new psize) as (? & ? & ?); [by rewrite lookup_insert_eq|].
  destruct (pi_size _ _ _ _ _ Hi) as [_ Hs]. unfold sizeof_ngx_pool_t, sizeof_ngx_pool_large_t, sizeof_ngx_pool_data_t, NGX_POOL_ALIGNMENT in *.
  split; [unfold NULL; lia|].
  destruct (align_ptr_bounds (new + 32) (new + 32)) as [Hb _]; [lia|Z.div_mod_to_equations; lia|lia|]. lia.
Qed.
End Small.

Lemma used_le h h' bs bs' ls ls' :
  bs ⊆ bs' -> ls ⊆ ls' ->
  (forall b d, b ∈ bs -> h_data h !! b = Some d -> exists d', h_data h' !! b = Some d' /\ d_last d <= d_last d') ->
  (forall l e, l ∈ ls -> h_large h !! l = Some e -> l_alloc e <> NULL ->
     h_large h' !! l = Some e /\ (forall s, h_live h !! l_alloc e = Some s -> h_live h' !! l_alloc e = Some s)) ->
  kept h bs ls h' bs' ls'.
Proof.
  intros Hbs Hls Hd Hl a [(b & d & Hb & Hdb & Ha) | (l & e & s & Hin & He & Hn & Hs & Ha)].
  - left. destruct (Hd b d Hb Hdb) as (d' & ? & ?). exists b, d'. split_and!; [by apply Hbs|done|lia|lia].
  - right. destruct (Hl l e Hin He Hn) as [He' Hlive]. exists l, e, s. split_and!; [by apply Hls|done|done|by apply Hlive|lia|lia].
Qed.

Section Block.
Context {HM : Malloc} {HMok : MallocOk HM}.
Context (h : heap) (pool psize : Z) (bs ls : list ptr) (Hi : pool_inv h pool psize bs ls).

(** The new block linked: [h3] is the heap after the failures were counted. *)
Lemma linked_small new n z dz r current h3 :
  h_live h !! new = None -> live_ok (<[new := psize]> (h_live h)) -> new mod NGX_POOL_ALIGNMENT = 0 ->
  0 <= n <= psize - sizeof_ngx_pool_t -> (forall l, data_le (with_block h psize new n) h3 l) ->
  last bs = Some z -> h_data h3 !! z = Some dz -> h_pool h3 !! pool = Some r -> current ∈ bs ++ [new] ->
  small true pool psize h bs ls n (new + sizeof_ngx_pool_data_t)
    (h3 <| h_data := <[z := dz <| d_next := new |>]> (h_data h3) |>
        <| h_pool := <[pool := r <| p_current := current |>]> (h_pool h3) |>) (bs ++ [new]).
Proof.
  intros Hp Hlive Hmod Hn Hle Hz Hdz Hr Hcur.
  pose proof (fresh_no_block _ _ _ _ _ new Hi Hp) as Hout.
  destruct (new_block_ptr _ _ _ _ _ Hi new Hp Hlive Hmod) as [Hnn _].
  destruct (inv_region _ _ _ _ _ new psize Hi Hp Hlive) as [Hi1 _].
  pose proof (inv_data_le _ _ _ _ _ _ Hi1 (with_block_le h psize bs new n Hout)) as Hi2.
  pose proof (inv_data_le _ _ _ _ _ _ Hi2 (Hle bs)) as Hi3.
  destruct (dl_data _ _ _ (Hle [new]) new (mk_data (new + sizeof_ngx_pool_data_t + n) (new + psize) NULL 0))
    as (dn & Hdn & Hnext & Hend & Hlo & Hhi); [set_solver|by cbn; rewrite lookup_insert_eq|]. cbn in Hnext, Hend, Hlo, Hhi.
  pose proof (dl_live _ _ _ (Hle [])) as Hl3. pose proof (dl_large _ _ _ (Hle [])) as Hg3. cbn in Hl3, Hg3.
  destruct (live_range _ Hlive new psize) as (H0 & _ & _); [by rewrite lookup_insert_eq|].
  unfold sizeof_ngx_pool_data_t, sizeof_ngx_pool_t in *.
  assert (block_ok h3 psize new) as Hblock.
  { exists dn. rewrite Hl3, lookup_insert_eq. split_and!; [done|done|done| |lia|done]. unfold sizeof_ngx_pool_data_t. lia. }
  assert (forall b d, h_data h3 !! b = Some d -> exists d', <[z := dz <| d_next := new |>]> (h_data h3) !! b = Some d' /\
    d_last d' = d_last d) as Hlink.
  { intros b d Hb. destruct (decide (z = b)) as [->|Hne].
    - rewrite lookup_insert_eq. simplify_eq. by eexists.
    - rewrite lookup_insert_ne by done. by exists d. }
  destruct (Hlink new dn Hdn) as (dn' & Hdn' & Hlast').
  split; cbn.
  - apply inv_append; try done; [by exists dn|]. intros l e Hl He. rewrite Hg3 in He. exact (fresh_no_large _ _ _ _ _ new l e Hi Hp Hnn Hl He).
  - apply used_le; [set_solver|done| |].
    + intros b d Hb Hd. destruct (dl_data _ _ _ (Hle bs) b d) as (d1 & Hd1 & _ & _ & ? & _); [done| |].
      { cbn. by rewrite lookup_insert_ne by (intros ->; done). }
      destruct (Hlink b d1 Hd1) as (d2 & ? & ?). exists d2. split; [done|lia].
    + intros l e Hl He _. cbn. rewrite Hg3, Hl3. split; [done|]. intros s Hs. rewrite lookup_insert_ne by congruence. done.
  - intros _. split_and!; [lia|intros _|intros a Ha; split|].
    + unfold NGX_POOL_ALIGNMENT, NGX_ALIGNMENT in *. Z.div_mod_to_equations. lia.
    + left. exists new, dn'. split_and!; [set_solver|done|lia|lia].
    + eapply fresh_not_used; [done..|lia].
    + exists new, dn'. split_and!; [set_solver|done|lia|lia].
  - rewrite Hl3. by apply insert_subseteq.
  - done.
  - by rewrite (dl_mem _ _ _ (Hle [])).
  - intros b [Hb | ->%list_elem_of_singleton]%elem_of_app; [by left | by right].
  - set_solver.
  - intros q Hq. rewrite Hl3, lookup_insert_ne by set_solver. done.
Qed.

Lemma palloc_block_ok n r0 :
  h_pool h !! pool = Some r0 -> 0 <= n <= p_max r0 ->
  exists r h' bs', ngx_palloc_block pool n h = Some (r, h') /\ small true pool psize h bs ls n r h' bs' /\
    (r = NULL -> posix_memalign (h_live h) NGX_POOL_ALIGNMENT psize = None).
Proof.
  intros Hr0 Hn. destruct (pi_rest _ _ _ _ _ Hi) as (r & Hr & Hcur & _ & Hmax).
  rewrite Hr in Hr0. injection Hr0 as <-. destruct (pi_size _ _ _ _ _ Hi) as [_ Hsize].
  destruct (pool_data _ _ _ _ _ Hi) as (d & Hd & Hps). unfold ngx_palloc_block.
  rewrite (bind_run _ _ _ _ _ (rd_run h_data pool d h Hd)), Hps. unfold bind at 1, ngx_memalign.
  destruct (posix_memalign (h_live h) NGX_POOL_ALIGNMENT psize) as [new|] eqn:Hnew.
  2:{ exists NULL, h, bs. split_and!; [done|by apply small_null|done]. }
  destruct (memalign_ok (h_live h) NGX_POOL_ALIGNMENT psize new) as (Hp & Hlive & Hmod);
    [by apply (pi_live _ _ _ _ _ Hi) | done | unfold sizeof_ngx_pool_t, sizeof_ngx_pool_large_t in *; lia | done |].
  destruct (new_block_ptr _ _ _ _ _ Hi new Hp Hlive Hmod) as [Hnn Halign].
  destruct (live_range _ Hlive new psize) as (H0 & _ & _); [by rewrite lookup_insert_eq|].
  destruct (Z.eqb_spec new NULL) as [|_]; [done|]. rewrite Halign. fold (with_region h new psize).
  pose proof (fresh_no_block _ _ _ _ _ new Hi Hp) as Hout.
  destruct (inv_region _ _ _ _ _ new psize Hi Hp Hlive) as [Hi1 _].
  pose proof (inv_data_le _ _ _ _ _ _ Hi1 (with_block_le h psize bs new n Hout)) as Hi2.
  unfold bind at 1, blocks. unfold bind at 1, new_data. fold (with_block h psize new n).
  rewrite (bind_run _ _ _ _ _ (rd_run h_pool pool r (with_block h psize new n) Hr)).
  apply list_elem_of_split in Hcur as (l1 & l2 & Hbs).
  destruct (count_failed_ok (base.size (h_data (with_region h new psize))) (p_current r) l2 (p_current r) (with_block h psize new n))
    as (z & current & h3 & Hrun & Hz & Hcur & Hle).
  - pose proof (pi_links _ _ _ _ _ Hi2) as Hl. rewrite Hbs in Hl. by apply links_suffix in Hl.
  - intros b Hb. assert (b ∈ bs) as Hin by (rewrite Hbs; set_solver).
    destruct (block_at _ _ _ _ _ b Hi Hin) as (d' & Hd' & _). destruct (last_in_block _ _ _ _ _ _ _ Hi Hin Hd'). unfold NULL. lia.
  - pose proof (links_fuel d_next _ _ (pi_links _ _ _ _ _ Hi) (pi_nodup _ _ _ _ _ Hi)) as Hf.
    rewrite Hbs, length_app in Hf. cbn in *. lia.
  - pose proof (pi_nodup _ _ _ _ _ Hi) as Hnd. rewrite Hbs in Hnd. by apply NoDup_app in Hnd as (_ & _ & ?).
  - rewrite (bind_run _ _ _ _ _ Hrun). cbn [fst snd].
    assert (last bs = Some z) as Hzbs by (rewrite Hbs, last_app, Hz; done).
    assert (current ∈ bs) as Hcurin by (rewrite Hbs; destruct Hcur as [->|]; set_solver).
    pose proof (inv_data_le _ _ _ _ _ _ Hi2 (Hle bs)) as Hi3.
    destruct (block_at _ _ _ _ _ z Hi3 (last_Some_elem_of _ _ Hzbs)) as (dz & Hdz & _).
    destruct (block_at _ _ _ _ _ current Hi3 Hcurin) as (dc & Hdc & _).
    destruct (last_in_block _ _ _ _ _ _ _ Hi3 Hcurin Hdc) as (Hc0 & _).
    assert (h_pool h3 !! pool = Some r) as Hr3 by (by rewrite (dl_pool _ _ _ (Hle []))).
    rewrite (bind_run _ _ _ _ _ (rd_run h_data z dz h3 Hdz)). unfold bind at 1, d_wr. rewrite Hdz.
    unfold bind, p_wr. cbn [h_pool set]. rewrite Hr3. destruct (Z.eqb_spec current NULL) as [|_]; [unfold NULL in *; lia|].
    eexists _, _, _. split; [reflexivity|]. split; [|unfold sizeof_ngx_pool_data_t, NULL in *; intros; lia].
    apply linked_small; try done; [|set_solver]. unfold sizeof_ngx_pool_t in *. lia.
Qed.

Lemma small_weaken align n r h' bs' : small true pool psize h bs ls n r h' bs' -> small align pool psize h bs ls n r h' bs'.
Proof. intros []. split; try done. intros Hr. destruct (sm_given0 Hr) as (? & ? & ? & ?). split_and!; [done|auto|done|done]. Qed.

Lemma palloc_small_ok depth align n r0 :
  h_pool h !! pool = Some r0 -> 0 <= n <= p_max r0 ->
  exists r h' bs', palloc_rec (S depth) align pool n h = Some (r, h') /\ small align pool psize h bs ls n r h' bs' /\
    (r = NULL -> posix_memalign (h_live h) NGX_POOL_ALIGNMENT psize = None).
Proof.
  intros Hr Hn. cbn [palloc_rec]. rewrite (bind_run _ _ _ _ _ (rd_run h_pool pool r0 h Hr)).
  destruct (Z.leb_spec n (p_max r0)); [|lia]. unfold bind at 1, blocks.
  pose proof (links_fuel d_next _ _ (pi_links _ _ _ _ _ Hi) (pi_nodup _ _ _ _ _ Hi)) as Hf.
  destruct (room_ok _ _ _ _ _ Hi align n _ r0 Hr ltac:(lia) Hf) as [Hno | (m & h' & Hrun & Hm & Hsm)].
  - rewrite (bind_run _ _ _ _ _ Hno). destruct (palloc_block_ok n r0 Hr Hn) as (r & h' & bs' & Hrun & Hsm & Hnull).
    exists r, h', bs'. split_and!; [done|by apply small_weaken|done].
  - rewrite (bind_run _ _ _ _ _ Hrun). exists m, h', bs. by split_and!.
Qed.
End Block.

End Palloc.
