(* ===== verification/PallocCorrect.v ===== *)
(** Memory pools: the allocator of Palloc.v is correct.  Large allocations, every
    sequence of calls on a pool, and its end. *)
From stdpp Require Import base numbers gmap list.
From S2P Require Import Prelude Palloc.
Local Open Scope Z_scope.
Import Palloc.

Module PallocCorrect.

(** * Large allocations *)

Lemma outside_lookup {V} p n (m : gmap ptr V) b : ~ (p <= b < p + n) -> outside p n m !! b = m !! b.
Proof.
  intros Hb. unfold outside. destruct (m !! b) as [v|] eqn:Hv.
  - by apply map_lookup_filter_Some.
  - apply map_lookup_filter_None. by left.
Qed.

(** A region that belongs to neither the blocks nor the entries. *)
Record loose (h : heap) (bs ls : list ptr) (p n : Z) : Prop := {
  lo_live : h_live h !! p = Some n;
  lo_block : p ∉ bs;
  lo_large l e : l ∈ ls -> h_large h !! l = Some e -> l_alloc e <> p
}.

Definition freed (h : heap) (p n : Z) : heap :=
  mk_heap (delete p (h_live h)) (outside p n (h_data h)) (outside p n (h_pool h)) (outside p n (h_large h)) (h_mem h).

Lemma free_run h p n : 0 < p -> h_live h !! p = Some n -> ngx_free p h = Some (tt, freed h p n).
Proof. intros H0 Hp. unfold ngx_free. destruct (Z.eqb_spec p NULL); [unfold NULL in *; lia|]. by rewrite Hp. Qed.

Lemma live_ok_delete L p : live_ok L -> live_ok (delete p L).
Proof.
  intros [Hr Ha]. split.
  - intros q s [_ Hq]%lookup_delete_Some. by apply Hr.
  - intros q s q' s' [_ Hq]%lookup_delete_Some [_ Hq']%lookup_delete_Some. by apply Ha.
Qed.

Section Free.
Context (h : heap) (pool psize : Z) (bs ls : list ptr) (Hi : pool_inv h pool psize bs ls).
Context (p n : Z) (Hp : loose h bs ls p n).

Lemma block_outside b : b ∈ bs -> forall a, b <= a < b + psize -> ~ (p <= a < p + n).
Proof.
  intros Hb a Ha Hin. destruct (block_at _ _ _ _ _ b Hi Hb) as (d & _ & Hl & _).
  assert (b <> p) as Hne by (intros ->; by apply (lo_block _ _ _ _ _ Hp)).
  destruct (live_apart _ (pi_live _ _ _ _ _ Hi) b _ p _ Hl (lo_live _ _ _ _ _ Hp) Hne); lia.
Qed.

Lemma freed_data b : b ∈ bs -> h_data (freed h p n) !! b = h_data h !! b.
Proof.
  intros Hb. apply outside_lookup. apply (block_outside b Hb). destruct (pi_size _ _ _ _ _ Hi) as [_ Hs].
  unfold sizeof_ngx_pool_t, sizeof_ngx_pool_large_t in Hs. lia.
Qed.
Lemma freed_pool : h_pool (freed h p n) !! pool = h_pool h !! pool.
Proof.
  apply outside_lookup. apply (block_outside pool (pool_in _ _ _ _ _ Hi)). destruct (pi_size _ _ _ _ _ Hi) as [_ Hs].
  unfold sizeof_ngx_pool_t, sizeof_ngx_pool_large_t in Hs. lia.
Qed.
Lemma freed_large l : l ∈ ls -> h_large (freed h p n) !! l = h_large h !! l.
Proof.
  intros Hl. destruct (large_at _ _ _ _ _ l Hi Hl) as [(b & d & Hb & Hd & Hlo & Hhi) _].
  destruct (last_in_block _ _ _ _ _ _ _ Hi Hb Hd) as (_ & _ & ? & _). destruct (block_at _ _ _ _ _ b Hi Hb) as (d' & Hd' & _ & _ & Hlast & _).
  rewrite Hd in Hd'. injection Hd' as <-. unfold sizeof_ngx_pool_large_t in *.
  apply outside_lookup. apply (block_outside b Hb). lia.
Qed.
Lemma freed_live q : q <> p -> h_live (freed h p n) !! q = h_live h !! q.
Proof. intros Hq. cbn. by rewrite lookup_delete_ne. Qed.

Lemma in_blocks_freed l q k : l ⊆ bs -> in_blocks h l q k -> in_blocks (freed h p n) l q k.
Proof. intros Hsub. apply in_blocks_le. intros b d Hb Hd. exists d. rewrite freed_data by (by apply Hsub). split; [done|lia]. Qed.

Lemma inv_region_freed : pool_inv (freed h p n) pool psize bs ls.
Proof.
  pose proof Hi as Hi0. destruct Hi0. pose proof (pool_in _ _ _ _ _ Hi) as Hpin. split; try done.
  - by apply live_ok_delete.
  - apply in_blocks_freed; [set_solver|done].
  - eapply links_ext; [|done]. intros b v Hb Hv. exists v. by rewrite freed_data.
  - apply Forall_forall. intros b Hb. destruct (block_at _ _ _ _ _ b Hi Hb) as (d & Hd & Hl & Hrest).
    exists d. rewrite freed_data, freed_live by (done || (intros ->; by apply (lo_block _ _ _ _ _ Hp))). done.
  - destruct pi_rest0 as (r & Hr & Hrest). exists r. by rewrite freed_pool.
  - eapply links_ext; [|done]. intros l v Hl Hv. exists v. by rewrite freed_large.
  - apply Forall_forall. intros l Hl. destruct (large_at _ _ _ _ _ l Hi Hl) as [Hb (e & He & Hor)].
    split; [by apply in_blocks_freed|]. exists e. rewrite freed_large by done. split; [done|].
    rewrite freed_live by (by apply (lo_large _ _ _ _ _ Hp l e)). done.
  - intros l l' e e' Hl Hl'. rewrite !freed_large by done. by apply pi_lapart0.
Qed.

Lemma kept_freed : kept h bs ls (freed h p n) bs ls.
Proof.
  apply used_le; [done|done| |].
  - intros b d Hb Hd. exists d. rewrite freed_data by done. split; [done|lia].
  - intros l e Hl He _. rewrite freed_large, freed_live by (done || by apply (lo_large _ _ _ _ _ Hp l e)). done.
Qed.
End Free.

(** * The list of large allocations *)

(** The memory of the entries, and what belongs to the pool. *)
Definition allocs (h : heap) (ls : list ptr) : list ptr := omap (fun l => l_alloc <$> h_large h !! l) ls.
Definition owner (h : heap) (bs ls : list ptr) (q : ptr) : Prop := q ∈ bs \/ (q <> NULL /\ q ∈ allocs h ls).
#[export] Instance owner_dec h bs ls q : Decision (owner h bs ls q).
Proof. unfold owner. apply _. Defined.

Lemma elem_of_allocs h ls q : q ∈ allocs h ls <-> exists l e, l ∈ ls /\ h_large h !! l = Some e /\ l_alloc e = q.
Proof.
  unfold allocs. rewrite list_elem_of_omap. split.
  - intros (l & Hl & (e & He & Hq)%fmap_Some). exists l, e. done.
  - intros (l & e & Hl & He & Hq). exists l. rewrite He. cbn. by subst.
Qed.

Lemma allocs_ext h h' ls : (forall l, l ∈ ls -> h_large h' !! l = h_large h !! l) -> allocs h' ls = allocs h ls.
Proof.
  intros Hext. unfold allocs. induction ls as [|l ls IH]; [done|]. cbn. rewrite Hext by set_solver.
  rewrite IH; [done|]. intros l' Hl'. apply Hext. set_solver.
Qed.

Section Entries.
Context (h : heap) (pool psize : Z) (bs ls : list ptr) (Hi : pool_inv h pool psize bs ls).

Lemma loose_iff p n : h_live h !! p = Some n -> ~ owner h bs ls p -> loose h bs ls p n.
Proof.
  intros Hp Ho. destruct (live_range _ (pi_live _ _ _ _ _ Hi) _ _ Hp) as (H0 & _ & _).
  split; [done| |]; [intros Hb; apply Ho; by left|].
  intros l e Hl He Hq. apply Ho. right. split; [unfold NULL; lia|]. apply elem_of_allocs. eauto.
Qed.

Lemma entry_range l : l ∈ ls -> 0 < l.
Proof.
  intros Hl. destruct (large_at _ _ _ _ _ l Hi Hl) as [(b & d & Hb & Hd & Hlo & Hhi) _].
  destruct (last_in_block _ _ _ _ _ _ _ Hi Hb Hd) as (? & _). lia.
Qed.

(** The entry [l] gets the memory [p], which may be none. *)
Definition with_entry (l : ptr) (e : ngx_pool_large_t) : heap := h <| h_large := <[l := e]> (h_large h) |>.

Lemma inv_entry l e p :
  l ∈ ls -> h_large h !! l = Some e ->
  p = NULL \/ (p <> NULL /\ is_Some (h_live h !! p) /\ (p ∉ bs) /\ (p ∉ allocs h ls)) ->
  pool_inv (with_entry l (e <| l_alloc := p |>)) pool psize bs ls.
Proof.
  intros Hl He Hp. pose proof Hi as Hi0. destruct Hi0. split; cbn; try done.
  - eapply links_ext; [|done]. intros b v Hb Hv. destruct (decide (l = b)) as [->|Hne].
    + rewrite lookup_insert_eq. simplify_eq. by eexists.
    + rewrite lookup_insert_ne by done. eauto.
  - apply Forall_forall. intros l' Hl'. destruct (large_at _ _ _ _ _ l' Hi Hl') as [Hb (e' & He' & Hor)].
    split; [done|]. cbn. destruct (decide (l = l')) as [->|Hne].
    + rewrite lookup_insert_eq. eexists. split; [done|]. cbn. destruct Hp as [->|(_ & ? & ? & _)]; [by left|by right].
    + rewrite lookup_insert_ne by done. eauto.
  - intros l1 l2 e1 e2 H1 H2. destruct (decide (l = l1)) as [<-|Hn1], (decide (l = l2)) as [<-|Hn2];
      rewrite ?lookup_insert_eq, ?lookup_insert_ne by done.
    + done.
    + intros [= <-] He2 Heq Hnz. cbn in Heq, Hnz. destruct Hp as [|(_ & _ & _ & Hp)]; [done|].
      destruct Hp. apply elem_of_allocs. exists l2, e2. done.
    + intros He1 [= <-] Heq Hnz. cbn in Heq. rewrite Heq in Hnz. destruct Hp as [|(_ & _ & _ & Hp)]; [done|].
      destruct Hp. apply elem_of_allocs. exists l1, e1. done.
    + by apply pi_lapart0.
Qed.

(** The first few entries are looked at for one without memory. *)
Lemma reuse_large_ok fuel p l r n :
  links (h_large h) l_next (l :: r) -> (l :: r) ⊆ ls -> 5 <= Z.of_nat fuel + n -> 0 <= n ->
  reuse_large (S fuel) l n p h = Some (false, h) \/
  exists l' e, l' ∈ ls /\ h_large h !! l' = Some e /\ l_alloc e = NULL /\
    reuse_large (S fuel) l n p h = Some (true, with_entry l' (e <| l_alloc := p |>)).
Proof.
  revert l fuel n. induction r as [|c r IH]; intros l fuel n [(e & He & Hn) Hl] Hsub Hf H0; cbn [reuse_large];
    (assert (l ∈ ls) as Hin by (apply Hsub; set_solver); pose proof (entry_range l Hin);
     destruct (Z.eqb_spec l NULL) as [|_]; [unfold NULL in *; lia|];
     rewrite (bind_run _ _ _ _ _ (rd_run h_large l e h He));
     destruct (Z.eqb_spec (l_alloc e) NULL) as [Ha|_];
     [right; exists l, e; unfold bind, l_wr; rewrite He; done|];
     destruct (Z.ltb_spec 3 n); [by left|];
     destruct fuel as [|fuel]; [lia|]; rewrite Hn).
  - left. done.
  - change (default NULL (head (c :: r))) with c. apply IH; [done|set_solver|lia|lia].
Qed.

(** A new entry in front. *)
Lemma inv_push l r p :
  h_pool h !! pool = Some r -> in_blocks h bs l sizeof_ngx_pool_large_t -> l ∉ ls ->
  p <> NULL -> is_Some (h_live h !! p) -> p ∉ bs -> p ∉ allocs h ls ->
  pool_inv (h <| h_large := <[l := mk_large (p_large r) p]> (h_large h) |>
              <| h_pool := <[pool := r <| p_large := l |>]> (h_pool h) |>) pool psize bs (l :: ls).
Proof.
  intros Hr Hlb Hl Hp Hlive Hbs Hal. pose proof Hi as Hi0. destruct Hi0.
  destruct pi_rest0 as (r' & Hr' & Hcur & Hlarge & Hmax). rewrite Hr in Hr'. injection Hr' as <-.
  assert (forall l', l' ∈ ls -> <[l := mk_large (p_large r) p]> (h_large h) !! l' = h_large h !! l') as Hother.
  { intros l' Hl'. apply lookup_insert_ne. intros ->. done. }
  split; cbn; try done.
  - exists (r <| p_large := l |>). rewrite lookup_insert_eq. done.
  - split; [eexists; split; [by rewrite lookup_insert_eq|done]|].
    eapply links_ext; [|done]. intros b v Hb Hv. rewrite Hother by done. eauto.
  - by constructor.
  - apply Forall_cons. split.
    + split; [done|]. cbn. rewrite lookup_insert_eq. eexists. split; [done|]. by right.
    + apply Forall_forall. intros l' Hl'. destruct (large_at _ _ _ _ _ l' Hi Hl') as [Hb (e' & He' & Hor)].
      split; [done|]. cbn. rewrite Hother by done. eauto.
  - intros l1 l2 e1 e2 [->|H1]%elem_of_cons [->|H2]%elem_of_cons; rewrite ?lookup_insert_eq, ?Hother by done.
    + done.
    + intros [= <-] He2 Heq Hnz. cbn in Heq. destruct Hal. apply elem_of_allocs. exists l2, e2. done.
    + intros He1 [= <-] Heq Hnz. cbn in Heq. destruct Hal. apply elem_of_allocs. exists l1, e1. done.
    + by apply pi_lapart0.
Qed.
End Entries.

(** * Every allocation *)

(** What a call does to the live regions: a region becomes the pool's only if it
    was free, and what is not the pool's was given back or is as before. *)
Definition frame (h : heap) (bs ls : list ptr) (h' : heap) (bs' ls' : list ptr) : Prop :=
  forall q, (owner h' bs' ls' q -> owner h bs ls q \/ h_live h !! q = None) /\
    (~ owner h' bs' ls' q ->
      (owner h bs ls q /\ h_live h' !! q = None) \/ (~ owner h bs ls q /\ h_live h' !! q = h_live h !! q)).

Record alloc_ok (pool psize : Z) (h : heap) (bs ls : list ptr) (r n : Z) (h' : heap) (bs' ls' : list ptr) : Prop := {
  ao_inv : pool_inv h' pool psize bs' ls';
  ao_kept : kept h bs ls h' bs' ls';
  ao_given : r <> NULL -> 0 < r /\ given h bs ls h' bs' ls' r n;
  ao_mem : h_mem h' = h_mem h;
  ao_frame : frame h bs ls h' bs' ls'
}.

Lemma small_alloc align pool psize h bs ls n r h' bs' :
  small align pool psize h bs ls n r h' bs' -> alloc_ok pool psize h bs ls r n h' bs' ls.
Proof.
  intros [Hi Hk Hg Hl Hlarge Hm Hb Hsub Hf]. split; [done|done| |done|].
  - intros Hr. destruct (Hg Hr) as (? & _ & ? & _). done.
  - intros q. unfold owner, allocs. rewrite Hlarge. split.
    + intros [Hq|Hq]; [|left; by right]. destruct (Hb q Hq); [left; by left | by right].
    + intros Hq. right. split; [intros [?|?]; apply Hq; [left; by apply Hsub | by right]|]. apply Hf. intros ?. apply Hq. by left.
Qed.

Section Large.
Context {HM : Malloc} {HMok : MallocOk HM}.
Context (h : heap) (pool psize : Z) (bs ls : list ptr) (Hi : pool_inv h pool psize bs ls).
Context (p n : Z) (Hp : h_live h !! p = None) (Hlive : live_ok (<[p := n]> (h_live h))).

Lemma region_range : 0 < p.
Proof. destruct (live_range _ Hlive p n) as (? & _); [by rewrite lookup_insert_eq | done]. Qed.
Lemma region_not_owner : ~ owner h bs ls p.
Proof.
  intros [Hb | [Hn Ha]]; [by eapply fresh_no_block|]. apply elem_of_allocs in Ha as (l & e & Hl & He & Hq).
  by eapply fresh_no_large in Hq.
Qed.

(** The region of the entry [l], from now on the pool's. *)
Lemma region_given l e h' bs' ls' :
  l ∈ ls' -> h_large h' !! l = Some e -> l_alloc e = p -> h_live h' !! p = Some n ->
  given h bs ls h' bs' ls' p n.
Proof.
  intros Hl He Ha Hl' a Hin. pose proof region_range. split; [|by eapply fresh_not_used].
  right. exists l, e, n. rewrite Ha. split_and!; [done|done|unfold NULL; lia|done|lia|lia].
Qed.

Lemma owner_with_entry l e :
  l ∈ ls -> h_large h !! l = Some e -> l_alloc e = NULL -> forall q,
  owner (with_entry (with_region h p n) l (e <| l_alloc := p |>)) bs ls q <-> owner h bs ls q \/ q = p.
Proof.
  intros Hl He Ha q. pose proof region_range. unfold owner. rewrite !elem_of_allocs. cbn. split.
  - intros [?|[Hn (l' & e' & Hl' & He' & Hq)]]; [left; by left|]. destruct (decide (l = l')) as [<-|Hne].
    + rewrite lookup_insert_eq in He'. injection He' as <-. by right.
    + rewrite lookup_insert_ne in He' by done. left. right. eauto 6.
  - intros [[?|[Hn (l' & e' & Hl' & He' & Hq)]]| ->]; [by left|right; split; [done|]|right; split; [unfold NULL; lia|]].
    + exists l', e'. rewrite lookup_insert_ne; [done|]. intros <-. congruence.
    + exists l, (e <| l_alloc := p |>). by rewrite lookup_insert_eq.
Qed.

Lemma reused_ok l e :
  l ∈ ls -> h_large h !! l = Some e -> l_alloc e = NULL ->
  alloc_ok pool psize h bs ls p n (with_entry (with_region h p n) l (e <| l_alloc := p |>)) bs ls.
Proof.
  intros Hl He Ha. destruct (inv_region _ _ _ _ _ p n Hi Hp Hlive) as [Hi1 _]. pose proof region_range.
  pose proof region_not_owner as Hno. split.
  - apply inv_entry; [done..|]. right. split_and!; [unfold NULL; lia|cbn; rewrite lookup_insert_eq; by eexists| |].
    + intros ?. apply Hno. by left.
    + intros ?. apply Hno. right. split; [unfold NULL; lia|done].
  - apply used_le; [done|done| |].
    + intros b d Hb Hd. exists d. split; [done|lia].
    + intros l' e' Hl' He' Hn. cbn. rewrite lookup_insert_ne by (intros <-; congruence). split; [done|].
      intros s Hs. rewrite lookup_insert_ne by congruence. done.
  - intros _. split; [done|]. eapply region_given; [done|cbn; by rewrite lookup_insert_eq|done|cbn; by rewrite lookup_insert_eq].
  - done.
  - intros q. rewrite owner_with_entry by done. split.
    + intros [?| ->]; [by left | by right].
    + intros Hq. right. split; [tauto|]. cbn. rewrite lookup_insert_ne; [done|]. intros <-. apply Hq. by right.
Qed.

(** The state between the allocation of the region and that of its entry. *)
Section Entry.
Context (r1 : ptr) (h2 : heap) (bs' : list ptr).
Context (Hsm : small true pool psize (with_region h p n) bs ls sizeof_ngx_pool_large_t r1 h2 bs').

Lemma entry_live : h_live h2 !! p = Some n.
Proof. eapply lookup_weaken; [|apply (sm_live _ _ _ _ _ _ _ _ _ _ Hsm)]. cbn. by rewrite lookup_insert_eq. Qed.
Lemma entry_allocs : allocs h2 ls = allocs h ls.
Proof. unfold allocs. by rewrite (sm_large _ _ _ _ _ _ _ _ _ _ Hsm). Qed.
Lemma entry_not_owner : ~ owner h2 bs' ls p.
Proof.
  pose proof region_not_owner as Hno. intros [Hb | [Hn Ha]]; [|rewrite entry_allocs in Ha; apply Hno; by right].
  destruct (sm_blocks _ _ _ _ _ _ _ _ _ _ Hsm p Hb) as [|Hl]; [apply Hno; by left|]. cbn in Hl. by rewrite lookup_insert_eq in Hl.
Qed.
Lemma entry_kept : kept h bs ls h2 bs' ls.
Proof.
  intros a Ha. apply (sm_kept _ _ _ _ _ _ _ _ _ _ Hsm). by apply (inv_region _ _ _ _ _ p n Hi Hp Hlive).
Qed.
Lemma entry_owner q : owner h bs ls q -> owner h2 bs' ls q.
Proof.
  intros [Hb|Ha]; [left; by apply (sm_sub _ _ _ _ _ _ _ _ _ _ Hsm)|right]. by rewrite entry_allocs.
Qed.
Lemma owner_entry q : owner h2 bs' ls q -> owner h bs ls q \/ h_live h !! q = None.
Proof.
  intros [Hb|Ha]; [|rewrite entry_allocs in Ha; left; by right].
  destruct (sm_blocks _ _ _ _ _ _ _ _ _ _ Hsm q Hb) as [|Hl]; [left; by left|]. right. cbn in Hl. by apply lookup_insert_None in Hl as [? _].
Qed.
Lemma entry_other q : q <> p -> q ∉ bs' -> h_live h2 !! q = h_live h !! q.
Proof. intros Hq Hb. rewrite (sm_frame _ _ _ _ _ _ _ _ _ _ Hsm q Hb). cbn. by rewrite lookup_insert_ne. Qed.

(** There was no room for the entry: the region is given back. *)
Lemma entry_refused : alloc_ok pool psize h bs ls NULL n (freed h2 p n) bs' ls.
Proof.
  pose proof (sm_inv _ _ _ _ _ _ _ _ _ _ Hsm) as Hi2.
  pose proof (loose_iff _ _ _ _ _ Hi2 p n entry_live entry_not_owner) as Hlo.
  assert (allocs (freed h2 p n) ls = allocs h2 ls) as Hal.
  { apply allocs_ext. intros l Hl. exact (freed_large _ _ _ _ _ Hi2 p n Hlo l Hl). }
  split.
  - by eapply inv_region_freed.
  - intros a Ha. apply (kept_freed _ _ _ _ _ Hi2 p n Hlo). by apply entry_kept.
  - done.
  - apply (sm_mem _ _ _ _ _ _ _ _ _ _ Hsm).
  - intros q. unfold owner at 1 3. rewrite Hal. fold (owner h2 bs' ls q). split; [apply owner_entry|].
    intros Hq. right. split; [intros ?; by apply Hq, entry_owner|]. cbn. destruct (decide (q = p)) as [->|Hne].
    + by rewrite lookup_delete_eq.
    + rewrite lookup_delete_ne by done. apply entry_other; [done|]. intros ?. apply Hq. by left.
Qed.

(** The entry is put in front of the list. *)
Lemma entry_pushed r :
  r1 <> NULL -> h_pool h2 !! pool = Some r ->
  alloc_ok pool psize h bs ls p n
    (h2 <| h_large := <[r1 := mk_large (p_large r) p]> (h_large h2) |>
        <| h_pool := <[pool := r <| p_large := r1 |>]> (h_pool h2) |>) bs' (r1 :: ls).
Proof.
  intros Hr1 Hr. pose proof (sm_inv _ _ _ _ _ _ _ _ _ _ Hsm) as Hi2. pose proof region_range as H0.
  destruct (sm_given _ _ _ _ _ _ _ _ _ _ Hsm Hr1) as (_ & _ & Hg & Hin). pose proof entry_not_owner as Hno.
  assert (r1 ∉ ls) as Hout.
  { intros Hl. destruct (inv_region _ _ _ _ _ p n Hi Hp Hlive) as [Hi1 _].
    destruct (large_at _ _ _ _ _ r1 Hi1 Hl) as [(b & d & Hb & Hd & Hlo & Hhi) _]. unfold sizeof_ngx_pool_large_t in *.
    destruct (Hg r1 ltac:(lia)) as [_ Hnu]. apply Hnu. left. exists b, d. split_and!; [done|done|lia|lia]. }
  assert (forall l, l ∈ ls -> <[r1 := mk_large (p_large r) p]> (h_large h2) !! l = h_large h2 !! l) as Hother.
  { intros l Hl. apply lookup_insert_ne. by intros ->. }
  split.
  - apply (inv_push h2 pool psize bs' ls); [done..|unfold NULL; lia|rewrite entry_live; by eexists| |].
    + intros ?. apply Hno. by left.
    + intros ?. apply Hno. right. split; [unfold NULL; lia|done].
  - intros a Ha. apply entry_kept in Ha. revert a Ha. apply used_le; [done|set_solver| |].
    + intros b d Hb Hd. exists d. split; [done|lia].
    + intros l e Hl He Hn. cbn. by rewrite Hother.
  - intros _. split; [done|]. eapply (region_given r1); [set_solver|cbn; by rewrite lookup_insert_eq|done|apply entry_live].
  - apply (sm_mem _ _ _ _ _ _ _ _ _ _ Hsm).
  - intros q.
    assert (owner (h2 <| h_large := <[r1 := mk_large (p_large r) p]> (h_large h2) |>
        <| h_pool := <[pool := r <| p_large := r1 |>]> (h_pool h2) |>) bs' (r1 :: ls) q <-> owner h2 bs' ls q \/ q = p) as ->.
    { unfold owner. rewrite !elem_of_allocs. cbn. split.
      - intros [?|[Hn (l & e & [->|Hl]%elem_of_cons & He & Hq)]]; [left; by left| |].
        + rewrite lookup_insert_eq in He. injection He as <-. by right.
        + rewrite Hother in He by done. left. right. eauto 6.
      - intros [[?|[Hn (l & e & Hl & He & Hq)]]| ->]; [by left|right; split; [done|]|right; split; [unfold NULL; lia|]].
        + exists l, e. rewrite Hother by done. set_solver.
        + eexists r1, _. rewrite lookup_insert_eq. split_and!; [set_solver|done|done]. }
    split; [intros [?| ->]; [by apply owner_entry | by right]|].
    intros Hq. right. split; [intros ?; apply Hq; left; by apply entry_owner|]. cbn.
    apply entry_other; [intros ->; tauto|]. intros ?. apply Hq. left. by left.
Qed.
End Entry.

Lemma push_large_ok depth :
  exists r h' bs' ls', push_large (palloc_rec (S depth) true pool) pool p (with_region h p n) = Some (r, h') /\
    alloc_ok pool psize h bs ls r n h' bs' ls' /\ (r = NULL \/ r = p) /\
    (r = NULL -> posix_memalign (<[p := n]> (h_live h)) NGX_POOL_ALIGNMENT psize = None).
Proof.
  destruct (inv_region _ _ _ _ _ p n Hi Hp Hlive) as [Hi1 _].
  destruct (pi_rest _ _ _ _ _ Hi1) as (r & Hr & _ & _ & Hmax). destruct (pi_size _ _ _ _ _ Hi) as [_ Hs].
  destruct (palloc_small_ok _ _ _ _ _ Hi1 depth true sizeof_ngx_pool_large_t r Hr) as (r1 & h2 & bs' & Hrun & Hsm & Hnull).
  { rewrite Hmax. unfold sizeof_ngx_pool_t, sizeof_ngx_pool_large_t, NGX_MAX_ALLOC_FROM_POOL in *. lia. }
  unfold push_large. rewrite (bind_run _ _ _ _ _ Hrun). destruct (Z.eqb_spec r1 NULL) as [->|Hr1].
  - rewrite (bind_run _ _ _ _ _ (free_run _ _ _ region_range (entry_live _ _ _ Hsm))).
    exists NULL, (freed h2 p n), bs', ls. split_and!; [done|by eapply entry_refused|by left|done].
  - destruct (pi_rest _ _ _ _ _ (sm_inv _ _ _ _ _ _ _ _ _ _ Hsm)) as (r2 & Hr2 & _).
    rewrite (bind_run _ _ _ _ _ (rd_run h_pool pool r2 h2 Hr2)). unfold bind, new_large, p_wr. cbn [h_pool set]. rewrite Hr2.
    eexists _, _, _, _. split; [reflexivity|]. split_and!; [by apply (entry_pushed r1 h2 bs' Hsm)|by right|].
    pose proof region_range. unfold NULL. lia.
Qed.
End Large.

Section Alloc.
Context {HM : Malloc} {HMok : MallocOk HM}.
Context (h : heap) (pool psize : Z) (bs ls : list ptr) (Hi : pool_inv h pool psize bs ls).

Lemma refused_ok n : alloc_ok pool psize h bs ls NULL n h bs ls.
Proof. by eapply small_alloc, (small_null _ _ _ _ _ Hi true). Qed.

Lemma palloc_large_ok depth n :
  0 <= n ->
  exists r h' bs' ls', ngx_palloc_large (palloc_rec (S depth) true pool) pool n h = Some (r, h') /\
    alloc_ok pool psize h bs ls r n h' bs' ls' /\ (r <> NULL -> r mod NGX_POOL_ALIGNMENT = 0) /\
    (r = NULL -> malloc (h_live h) n = None \/
       exists p, malloc (h_live h) n = Some p /\ posix_memalign (<[p := n]> (h_live h)) NGX_POOL_ALIGNMENT psize = None).
Proof.
  intros Hn. unfold ngx_palloc_large, bind at 1, ngx_alloc. destruct (malloc (h_live h) n) as [p|] eqn:Hmal.
  2:{ exists NULL, h, bs, ls. split_and!; [done|apply refused_ok|done|by left]. }
  destruct (malloc_ok (h_live h) n p) as (Hp & Hlive & Hmod); [apply (pi_live _ _ _ _ _ Hi)|done..|].
  pose proof (region_range h p n Hlive) as H0. destruct (Z.eqb_spec p NULL) as [|_]; [unfold NULL in *; lia|].
  fold (with_region h p n). destruct (inv_region _ _ _ _ _ p n Hi Hp Hlive) as [Hi1 _].
  destruct (pi_rest _ _ _ _ _ Hi1) as (r & Hr & _ & Hlarge & _).
  rewrite (bind_run _ _ _ _ _ (rd_run h_pool pool r _ Hr)), Hlarge.
  assert (reuse_large 6 (default NULL (head ls)) 0 p (with_region h p n) = Some (false, with_region h p n) \/
    exists l' e, l' ∈ ls /\ h_large h !! l' = Some e /\ l_alloc e = NULL /\
      reuse_large 6 (default NULL (head ls)) 0 p (with_region h p n) = Some (true, with_entry (with_region h p n) l' (e <| l_alloc := p |>))) as Hcase.
  { pose proof (pi_llinks _ _ _ _ _ Hi1) as Hll. destruct ls as [|l ls']; [by left|].
    apply (reuse_large_ok _ _ _ _ _ Hi1 5 p l ls' 0 Hll); [done|lia|lia]. }
  destruct Hcase as [Hrun | (l & e & Hl & He & Ha & Hrun)]; rewrite (bind_run _ _ _ _ _ Hrun).
  - destruct (push_large_ok _ _ _ _ _ Hi p n Hp Hlive depth) as (r1 & h' & bs' & ls' & Hpush & Hok & Hr1 & Hnull).
    exists r1, h', bs', ls'. split_and!; [done|done|by destruct Hr1 as [->| ->]|]. intros Hz. right. eauto.
  - eexists p, _, bs, ls. split_and!; [reflexivity|by apply reused_ok|done|unfold NULL; lia].
Qed.

(** The C library refuses what [n] bytes need: another block or, for a large
    allocation, the bytes themselves or a block for the entry. *)
Definition refused (n : Z) : Prop :=
  if n <=? Z.min (psize - sizeof_ngx_pool_t) NGX_MAX_ALLOC_FROM_POOL then posix_memalign (h_live h) NGX_POOL_ALIGNMENT psize = None
  else malloc (h_live h) n = None \/
    exists p, malloc (h_live h) n = Some p /\ posix_memalign (<[p := n]> (h_live h)) NGX_POOL_ALIGNMENT psize = None.

Lemma palloc_ok align n :
  0 <= n ->
  exists r h' bs' ls', palloc_rec 2 align pool n h = Some (r, h') /\ alloc_ok pool psize h bs ls r n h' bs' ls' /\
    (align = true -> r <> NULL -> r mod NGX_ALIGNMENT = 0) /\ (r = NULL -> refused n).
Proof.
  intros Hn. destruct (pi_rest _ _ _ _ _ Hi) as (r0 & Hr0 & _ & _ & Hmax). unfold refused. rewrite <- Hmax. destruct (Z.leb_spec n (p_max r0)) as [Hle|Hgt].
  - destruct (palloc_small_ok _ _ _ _ _ Hi 1 align n r0 Hr0 ltac:(lia)) as (r & h' & bs' & Hrun & Hsm & Hnull).
    exists r, h', bs', ls. split_and!; [done|by eapply small_alloc| |].
    + intros Hal Hr. by apply (sm_given _ _ _ _ _ _ _ _ _ _ Hsm).
    + exact Hnull.
  - destruct (palloc_large_ok 0 n Hn) as (r & h' & bs' & ls' & Hrun & Hok & Hmod & Hnull).
    exists r, h', bs', ls'. split_and!; [|done| |].
    + cbn [palloc_rec]. rewrite (bind_run _ _ _ _ _ (rd_run h_pool pool r0 h Hr0)).
      destruct (Z.leb_spec n (p_max r0)); [lia|]. exact Hrun.
    + intros _ Hr. specialize (Hmod Hr). unfold NGX_POOL_ALIGNMENT, NGX_ALIGNMENT in *. Z.div_mod_to_equations. lia.
    + exact Hnull.
Qed.
End Alloc.

(** * Giving back a large allocation *)

Lemma outside_insert {V} p n (m : gmap ptr V) l v : ~ (p <= l < p + n) -> outside p n (<[l := v]> m) = <[l := v]> (outside p n m).
Proof. intros Hl. unfold outside. by apply map_filter_insert_True. Qed.

Section Pfree.
Context (h : heap) (pool psize : Z) (bs ls : list ptr) (Hi : pool_inv h pool psize bs ls).

(** The loop finds the entry of [p], if there is one. *)
Lemma pfree_loop_ok p fuel r :
  links (h_large h) l_next r -> r ⊆ ls -> (length r <= fuel)%nat ->
  pfree_loop fuel (default NULL (head r)) p h = Some (NGX_DECLINED, h) \/
  exists l e, l ∈ ls /\ h_large h !! l = Some e /\ l_alloc e = p /\
    pfree_loop fuel (default NULL (head r)) p h
    = (ngx_free p ;; l_wr l (e <| l_alloc := NULL |>) ;; ret NGX_OK)%prog h.
Proof.
  revert fuel. induction r as [|l r IH]; intros fuel Hl Hsub Hf; [left; by destruct fuel|].
  destruct Hl as [(e & He & Hn) Hl]. destruct fuel as [|fuel]; [cbn in Hf; lia|].
  assert (l ∈ ls) as Hin by (apply Hsub; set_solver). pose proof (entry_range _ _ _ _ _ Hi l Hin).
  change (default NULL (head (l :: r))) with l. cbn [pfree_loop].
  destruct (Z.eqb_spec l NULL) as [|_]; [unfold NULL in *; lia|].
  rewrite (bind_run _ _ _ _ _ (rd_run h_large l e h He)). destruct (Z.eqb_spec p (l_alloc e)) as [->|_].
  - right. exists l, e. done.
  - rewrite Hn. apply IH; [done|set_solver|cbn in Hf; lia].
Qed.

(** The entry [l] without its memory [p]. *)
Section Found.
Context (l : ptr) (e : ngx_pool_large_t) (p n : Z).
Context (Hl : l ∈ ls) (He : h_large h !! l = Some e) (Ha : l_alloc e = p) (H0 : p <> NULL).
Let h1 := with_entry h l (e <| l_alloc := NULL |>).

Lemma found_inv : pool_inv h1 pool psize bs ls.
Proof. apply inv_entry; [done..|by left]. Qed.

Lemma found_live : exists n, h_live h !! p = Some n /\ p ∉ bs.
Proof. destruct (large_at _ _ _ _ _ l Hi Hl) as [_ (e' & He' & Hor)]. simplify_eq. destruct Hor as [|[[n' ?] ?]]; [done|eauto]. Qed.

Lemma found_owner q : owner h1 bs ls q <-> owner h bs ls q /\ q <> p.
Proof.
  destruct found_live as (n' & Hn' & Hout). unfold owner. rewrite !elem_of_allocs. split.
  - intros [Hb|[Hq (l' & e' & Hl' & He' & Hq')]]; [by split; [left | set_solver]|]. cbn in He'.
    destruct (decide (l = l')) as [<-|Hne]; [rewrite lookup_insert_eq in He'; by simplify_eq|].
    rewrite lookup_insert_ne in He' by done. split; [right; split; [done|eauto]|]. intros ->.
    apply Hne, (pi_lapart _ _ _ _ _ Hi l l' e e'); congruence.
  - intros [[Hb|[Hq (l' & e' & Hl' & He' & Hq')]] Hne]; [by left|right]. split; [done|]. exists l', e'. cbn.
    rewrite lookup_insert_ne; [done|]. intros <-. congruence.
Qed.

Lemma found_loose : h_live h !! p = Some n -> loose h1 bs ls p n.
Proof. intros Hn. apply (loose_iff _ _ _ _ _ found_inv); [done|]. rewrite found_owner. tauto. Qed.

Lemma found_run :
  h_live h !! p = Some n ->
  (ngx_free p ;; l_wr l (e <| l_alloc := NULL |>) ;; ret NGX_OK)%prog h = Some (NGX_OK, freed h1 p n).
Proof.
  intros Hn. pose proof (found_loose Hn) as Hlo.
  destruct (live_range _ (pi_live _ _ _ _ _ Hi) _ _ Hn) as (Hp & _).
  rewrite (bind_run _ _ _ _ _ (free_run h p n Hp Hn)).
  destruct (large_at _ _ _ _ _ l Hi Hl) as [(b & d & Hb & Hd & Hlo' & Hhi) _].
  destruct (last_in_block _ _ _ _ _ _ _ Hi Hb Hd) as (_ & Hlast & Hend & _). unfold sizeof_ngx_pool_large_t in *.
  pose proof (block_outside _ _ _ _ _ found_inv p n Hlo b Hb l ltac:(lia)) as Hout.
  unfold bind, l_wr. cbn [freed h_large]. rewrite outside_lookup, He by done. unfold ret, h1, freed, with_entry. cbn.
  by rewrite outside_insert.
Qed.
End Found.

Lemma pfree_ok p :
  exists rc h', ngx_pfree pool p h = Some (rc, h') /\ pool_inv h' pool psize bs ls /\ frame h bs ls h' bs ls /\
    (p <> NULL -> rc = NGX_OK -> ~ owner h' bs ls p /\ h_live h' !! p = None).
Proof.
  destruct (pi_rest _ _ _ _ _ Hi) as (r & Hr & _ & Hlarge & _). unfold ngx_pfree.
  rewrite (bind_run _ _ _ _ _ (rd_run h_pool pool r h Hr)), Hlarge. unfold bind at 1, larges.
  assert (frame h bs ls h bs ls) as Hrefl.
  { intros q. split; [by left|]. intros ?. by right. }
  destruct (pfree_loop_ok p (base.size (h_large h)) ls (pi_llinks _ _ _ _ _ Hi)) as [Hrun | (l & e & Hl & He & Ha & Hrun)].
  { done. } { apply (links_fuel l_next); [apply (pi_llinks _ _ _ _ _ Hi) | apply (pi_lnodup _ _ _ _ _ Hi)]. }
  - exists NGX_DECLINED, h. split_and!; [done..|]. by intros _.
  - rewrite Hrun. destruct (decide (p = NULL)) as [->|Hp].
    + exists NGX_OK, (with_entry h l (e <| l_alloc := NULL |>)). split_and!.
      * unfold bind, ngx_free, l_wr. change (NULL =? NULL) with true. cbv iota. by rewrite He.
      * by apply found_inv.
      * intros q. assert (with_entry h l (e <| l_alloc := NULL |>) = h) as ->; [|by apply Hrefl].
        unfold with_entry. cbn. rewrite <- Ha. destruct h, e; cbn in *. by rewrite insert_id.
      * done.
    + destruct (found_live l e p Hl He Ha Hp) as (n & Hn & Hout). exists NGX_OK, (freed (with_entry h l (e <| l_alloc := NULL |>)) p n).
      pose proof (found_inv l e Hl He) as Hi1. pose proof (found_loose l e p n Hl He Ha Hp Hn) as Hlo.
      assert (forall q, owner (freed (with_entry h l (e <| l_alloc := NULL |>)) p n) bs ls q <-> owner h bs ls q /\ q <> p) as Ho.
      { intros q. rewrite <- (found_owner l e p Hl He Ha Hp q). unfold owner. rewrite !elem_of_allocs.
        split; (intros [?|[? (l' & e' & Hl' & He' & ?)]]; [by left|right; split; [done|]]; exists l', e').
        - by rewrite (freed_large _ _ _ _ _ Hi1 p n Hlo l' Hl') in He'.
        - by rewrite (freed_large _ _ _ _ _ Hi1 p n Hlo l' Hl'). }
      split_and!; [by eapply found_run|by eapply inv_region_freed| |].
      * intros q. rewrite Ho. split; [intros [? _]; by left|]. intros Hq. cbn. destruct (decide (q = p)) as [->|Hne].
        -- left. rewrite lookup_delete_eq. split; [|done]. right. split; [done|]. apply elem_of_allocs. eauto.
        -- right. rewrite lookup_delete_ne by done. tauto.
      * intros _ _. rewrite Ho. cbn. rewrite lookup_delete_eq. tauto.
Qed.
End Pfree.

(** * The end of a pool *)

(** [h] with the list of large allocations cut to [ls]. *)
Definition cut (pool : ptr) (r : pool_rest) (ls : list ptr) (h : heap) : heap :=
  h <| h_pool := <[pool := r <| p_large := default NULL (head ls) |>]> (h_pool h) |>.

(** The regions [q] of the list are gone. *)
Definition without (L : gmap ptr Z) (l : list ptr) (L' : gmap ptr Z) : Prop :=
  forall q, L' !! q = if decide (q ∈ l) then None else L !! q.

Section Larges.
Context (pool psize : Z) (bs : list ptr) (r : pool_rest).

Lemma inv_tail h l ls :
  pool_inv (cut pool r (l :: ls) h) pool psize bs (l :: ls) -> pool_inv (cut pool r ls h) pool psize bs ls.
Proof.
  intros []. destruct pi_rest0 as (r' & Hr' & Hcur & _ & Hmax). cbn in Hr'. rewrite lookup_insert_eq in Hr'. injection Hr' as <-.
  split; try done.
  - exists (r <| p_large := default NULL (head ls) |>). cbn. by rewrite lookup_insert_eq.
  - by destruct pi_llinks0.
  - by apply NoDup_cons in pi_lnodup0 as [_ ?].
  - by apply Forall_cons in pi_larges0 as [_ ?].
  - intros l1 l2 e1 e2 H1 H2. apply pi_lapart0; set_solver.
Qed.

Lemma free_larges_ok ls h fuel :
  pool_inv (cut pool r ls h) pool psize bs ls -> h_pool h !! pool = Some r -> (length ls <= fuel)%nat ->
  exists h', free_larges fuel (default NULL (head ls)) h = Some (tt, h') /\
    pool_inv (cut pool r [] h') pool psize bs [] /\ h_pool h' !! pool = Some r /\
    without (h_live h) (allocs h ls) (h_live h').
Proof.
  revert h fuel. induction ls as [|l ls IH]; intros h fuel Hi Hr Hf.
  { exists h. split_and!; [by destruct fuel|done|done|]. intros q. by rewrite decide_False by set_solver. }
  destruct fuel as [|fuel]; [cbn in Hf; lia|]. change (default NULL (head (l :: ls))) with l.
  assert (l ∈ l :: ls) as Hin by set_solver. pose proof (entry_range _ _ _ _ _ Hi l Hin).
  destruct (pi_llinks _ _ _ _ _ Hi) as [(e & He & Hn) _]. cbn in He.
  cbn [free_larges]. destruct (Z.eqb_spec l NULL) as [|_]; [unfold NULL in *; lia|].
  rewrite (bind_run _ _ _ _ _ (rd_run h_large l e h He)), Hn. pose proof (inv_tail _ _ _ Hi) as Hi1.
  assert (allocs h (l :: ls) = l_alloc e :: allocs h ls) as Hal by (unfold allocs; cbn; by rewrite He).
  destruct (Z.eqb_spec (l_alloc e) NULL) as [Hz|Hz].
  { destruct (IH h fuel Hi1 Hr ltac:(cbn in Hf; lia)) as (h' & Hrun & Hi' & Hr' & Hw). exists h'.
    split_and!; [done..|]. intros q. rewrite Hw, Hal. destruct (decide (q ∈ allocs h ls)); [by rewrite decide_True by set_solver|].
    destruct (decide (q ∈ l_alloc e :: _)) as [[->|?]%elem_of_cons|]; [|done..].
    destruct (h_live h !! l_alloc e) as [s|] eqn:Hs; [|done]. destruct (live_range _ (pi_live _ _ _ _ _ Hi1) _ _ Hs). unfold NULL in *. lia. }
  destruct (found_live _ _ _ _ _ Hi l e (l_alloc e) Hin He eq_refl Hz) as (n & Hlive & Hout). cbn in Hlive.
  assert (loose (cut pool r ls h) bs ls (l_alloc e) n) as Hlo.
  { split; [done..|]. intros l' e' Hl' He' Heq. pose proof (pi_lnodup _ _ _ _ _ Hi) as Hnd. apply NoDup_cons in Hnd as [Hnd _].
    apply Hnd. rewrite (pi_lapart _ _ _ _ _ Hi l l' e e'); set_solver. }
  pose proof (inv_region_freed _ _ _ _ _ Hi1 _ _ Hlo) as Hi2.
  assert (~ (l_alloc e <= pool < l_alloc e + n)) as Hpo.
  { apply (block_outside _ _ _ _ _ Hi1 _ _ Hlo pool (pool_in _ _ _ _ _ Hi)). destruct (pi_size _ _ _ _ _ Hi) as [_ Hs].
    unfold sizeof_ngx_pool_t, sizeof_ngx_pool_large_t in Hs. lia. }
  assert (freed (cut pool r ls h) (l_alloc e) n = cut pool r ls (freed h (l_alloc e) n)) as Heq.
  { unfold freed, cut. cbn. by rewrite outside_insert. }
  rewrite Heq in Hi2. destruct (live_range _ (pi_live _ _ _ _ _ Hi1) _ _ Hlive) as (Hp & _).
  rewrite (bind_run _ _ _ _ _ (free_run h (l_alloc e) n Hp Hlive)).
  destruct (IH (freed h (l_alloc e) n) fuel Hi2) as (h' & Hrun & Hi' & Hr' & Hw).
  { cbn. by rewrite outside_lookup. } { cbn in Hf. lia. }
  exists h'. split_and!; [done..|]. intros q. rewrite Hw, Hal.
  assert (allocs (freed h (l_alloc e) n) ls = allocs h ls) as ->.
  { apply allocs_ext. intros l' Hl'. exact (freed_large _ _ _ _ _ Hi1 _ _ Hlo l' Hl'). }
  destruct (decide (q ∈ allocs h ls)); [by rewrite decide_True by set_solver|]. cbn.
  destruct (decide (q = l_alloc e)) as [->|Hne]; [by rewrite lookup_delete_eq, decide_True by set_solver|].
  rewrite lookup_delete_ne, decide_False by set_solver. done.
Qed.
End Larges.

(** The blocks are freed one after the other; each is read before it is. *)
Lemma free_blocks_ok psize bs b h fuel :
  live_ok (h_live h) -> 0 < psize -> NoDup (b :: bs) -> links (h_data h) d_next (b :: bs) ->
  Forall (fun c => h_live h !! c = Some psize) (b :: bs) -> (length (b :: bs) <= fuel)%nat ->
  exists h', free_blocks fuel b (default NULL (head bs)) h = Some (tt, h') /\ without (h_live h) (b :: bs) (h_live h').
Proof.
  intros Hlive Hps. revert b h fuel Hlive. induction bs as [|c bs IH]; intros b h [|fuel] Hlive Hnd Hl Hbs Hf; cbn in Hf; try lia;
    (apply Forall_cons in Hbs as [Hb Hbs]; destruct (live_range _ Hlive _ _ Hb) as (Hb0 & _); cbn [free_blocks];
     rewrite (bind_run _ _ _ _ _ (free_run h b psize Hb0 Hb))).
  - exists (freed h b psize). split; [done|]. intros q. cbn. destruct (decide (q = b)) as [->|Hne].
    + by rewrite lookup_delete_eq, decide_True by set_solver.
    + by rewrite lookup_delete_ne, decide_False by set_solver.
  - change (default NULL (head (c :: bs))) with c. apply NoDup_cons in Hnd as [Hout Hnd]. destruct Hl as [_ Hl].
    assert (forall x, x ∈ c :: bs -> h_live h !! x = Some psize /\ x <> b) as Hx.
    { intros x Hx. split; [by apply (proj1 (Forall_forall _ _) Hbs)|]. by intros ->. }
    assert (forall x, x ∈ c :: bs -> h_data (freed h b psize) !! x = h_data h !! x) as Hdata.
    { intros x [Hlx Hne]%Hx. apply outside_lookup. destruct (live_apart _ Hlive b _ x _ Hb Hlx); [done|lia..]. }
    destruct (Hx c) as [Hc Hcb]; [set_solver|]. destruct (live_range _ Hlive _ _ Hc) as (Hc0 & _).
    destruct (Z.eqb_spec c NULL) as [|_]; [unfold NULL in *; lia|].
    pose proof Hl as Hl0. destruct Hl0 as [(d & Hd & Hn) _].
    rewrite (bind_run _ _ _ _ _ (rd_run h_data c d (freed h b psize) ltac:(by rewrite Hdata by set_solver))), Hn.
    destruct (IH c (freed h b psize) fuel) as (h' & Hrun & Hw); [by apply live_ok_delete|done| | |cbn; lia|].
    + eapply links_ext; [|done]. intros x v Hx' Hv. exists v. by rewrite Hdata.
    + apply Forall_forall. intros x [Hlx Hne]%Hx. cbn. by rewrite lookup_delete_ne.
    + exists h'. split; [done|]. intros q. rewrite Hw. cbn. destruct (decide (q ∈ c :: bs)); [by rewrite decide_True by set_solver|].
      destruct (decide (q = b)) as [->|Hne]; [by rewrite lookup_delete_eq, decide_True by set_solver|].
      by rewrite lookup_delete_ne, decide_False by set_solver.
Qed.

(** * Every sequence of calls *)

(** Against the regions [L0] from before the pool: the pool's are new, the others
    are as they were. *)
Definition leak_free (L0 : gmap ptr Z) (h : heap) (bs ls : list ptr) : Prop :=
  forall q, (owner h bs ls q -> L0 !! q = None) /\ (~ owner h bs ls q -> h_live h !! q = L0 !! q).

Lemma frame_leak_free L0 h bs ls h' bs' ls' :
  leak_free L0 h bs ls -> frame h bs ls h' bs' ls' -> leak_free L0 h' bs' ls'.
Proof.
  intros Hlf Hf q. destruct (Hlf q) as [Ho Hno], (Hf q) as [Ho' Hno']. split.
  - intros [?|Hq]%Ho'; [by apply Ho|]. destruct (decide (owner h bs ls q)); [by apply Ho|]. rewrite <- Hno by done. done.
  - intros [[Hq ->]|[Hq ->]]%Hno'; [by rewrite Ho | by apply Hno].
Qed.

Lemma cut_id h pool psize bs ls r :
  pool_inv h pool psize bs ls -> h_pool h !! pool = Some r -> cut pool r ls h = h.
Proof.
  intros Hi Hr. destruct (pi_rest _ _ _ _ _ Hi) as (r' & Hr' & _ & Hl & _). rewrite Hr in Hr'. injection Hr' as <-.
  unfold cut. cbn. rewrite <- Hl. destruct h, r; cbn in *. by rewrite insert_id.
Qed.

Lemma head_Some (l : list ptr) x : head l = Some x -> exists l', l = x :: l'.
Proof. destruct l as [|y l]; [done|]. intros [= ->]. by exists l. Qed.

Section Pool.
Context (h : heap) (pool psize : Z) (bs ls : list ptr) (Hi : pool_inv h pool psize bs ls).

(** The large allocations are freed: the common start of the end and of a
    reset. *)
Lemma larges_freed r :
  h_pool h !! pool = Some r ->
  exists h', free_larges (base.size (h_large h)) (p_large r) h = Some (tt, h') /\
    pool_inv (cut pool r [] h') pool psize bs [] /\ h_pool h' !! pool = Some r /\
    without (h_live h) (allocs h ls) (h_live h').
Proof.
  intros Hr. destruct (pi_rest _ _ _ _ _ Hi) as (r' & Hr' & _ & Hl & _). rewrite Hr in Hr'. injection Hr' as <-. rewrite Hl.
  apply free_larges_ok; [by rewrite (cut_id _ _ _ _ _ _ Hi Hr)|done|].
  apply (links_fuel l_next); [apply (pi_llinks _ _ _ _ _ Hi) | apply (pi_lnodup _ _ _ _ _ Hi)].
Qed.

Lemma without_owner q h' :
  without (h_live h) (allocs h ls) (h_live h') -> q ∉ bs ->
  (owner h bs ls q /\ h_live h' !! q = None) \/ (~ owner h bs ls q /\ h_live h' !! q = h_live h !! q).
Proof.
  intros Hw Hq. rewrite Hw. destruct (decide (owner h bs ls q)) as [Ho|Ho].
  - left. split; [done|]. destruct Ho as [|[_ Ho]]; [done|]. by rewrite decide_True.
  - right. split; [done|]. destruct (decide (q ∈ allocs h ls)) as [Hin|]; [|done].
    destruct (h_live h !! q) as [s|] eqn:Hs; [|done]. destruct (live_range _ (pi_live _ _ _ _ _ Hi) _ _ Hs).
    destruct Ho. right. split; [unfold NULL; lia|done].
Qed.

(** [ngx_destroy_pool] gives back exactly the pool's memory. *)
Lemma destroy_ok L0 :
  leak_free L0 h bs ls -> exists h', ngx_destroy_pool pool h = Some (tt, h') /\ h_live h' = L0.
Proof.
  intros Hlf. destruct (pi_rest _ _ _ _ _ Hi) as (r & Hr & _). unfold ngx_destroy_pool.
  rewrite (bind_run _ _ _ _ _ (rd_run h_pool pool r h Hr)). unfold bind at 1, larges. unfold bind at 1, blocks.
  destruct (larges_freed r Hr) as (h1 & Hrun & Hi1 & Hr1 & Hw). rewrite (bind_run _ _ _ _ _ Hrun).
  destruct (head_Some _ _ (pi_head _ _ _ _ _ Hi1)) as (bs' & Hbs).
  pose proof (pi_links _ _ _ _ _ Hi1) as Hl. rewrite Hbs in Hl. pose proof Hl as [(d & Hd & Hn) _]. cbn in Hd.
  rewrite (bind_run _ _ _ _ _ (rd_run h_data pool d h1 Hd)), Hn.
  destruct (pi_size _ _ _ _ _ Hi) as [_ Hs].
  destruct (free_blocks_ok psize bs' pool h1 (base.size (h_data h))) as (h' & Hrun' & Hw').
  - apply (pi_live _ _ _ _ _ Hi1).
  - unfold sizeof_ngx_pool_t, sizeof_ngx_pool_large_t in *. lia.
  - rewrite <- Hbs. apply (pi_nodup _ _ _ _ _ Hi).
  - exact Hl.
  - rewrite <- Hbs. eapply Forall_impl; [apply (pi_blocks _ _ _ _ _ Hi1)|]. by intros c (? & _ & ? & _).
  - rewrite <- Hbs. apply (links_fuel d_next); [apply (pi_links _ _ _ _ _ Hi) | apply (pi_nodup _ _ _ _ _ Hi)].
  - exists h'. split; [done|]. apply map_eq. intros q. rewrite Hw'. destruct (Hlf q) as [Ho Hno].
    rewrite <- Hbs. destruct (decide (q ∈ bs)) as [Hq|Hq]; [symmetry; apply Ho; by left|].
    destruct (without_owner q h1 Hw Hq) as [[Hq' ->]|[Hq' ->]]; [by rewrite Ho | by apply Hno].
Qed.
End Pool.

(** Every block of [l] is empty again: [last] is after the head of a pool. *)
Definition emptied (h h' : heap) (l : list ptr) : Prop :=
  h_live h' = h_live h /\ h_pool h' = h_pool h /\ h_large h' = h_large h /\
  forall b d, h_data h !! b = Some d -> h_data h' !! b =
    Some (if decide (b ∈ l) then d <| d_last := b + sizeof_ngx_pool_t |> else d).

Lemma reset_blocks_ok l h fuel :
  links (h_data h) d_next l -> NoDup l -> NULL ∉ l -> (length l <= fuel)%nat ->
  exists h', reset_blocks fuel (default NULL (head l)) h = Some (tt, h') /\ emptied h h' l.
Proof.
  revert h fuel. induction l as [|b l IH]; intros h fuel Hl Hnd Hz Hf.
  { exists h. split; [by destruct fuel|]. split_and!; [done..|]. intros b d Hd. by rewrite decide_False by set_solver. }
  destruct fuel as [|fuel]; [cbn in Hf; lia|]. change (default NULL (head (b :: l))) with b. cbn [reset_blocks].
  destruct (Z.eqb_spec b NULL) as [->|_]; [set_solver|]. destruct Hl as [(d & Hd & Hn) Hl]. apply NoDup_cons in Hnd as [Hb Hnd].
  rewrite (bind_run _ _ _ _ _ (rd_run h_data b d h Hd)). unfold bind, d_wr. rewrite Hd, Hn.
  destruct (IH (bumped h b d (b + sizeof_ngx_pool_t)) fuel) as (h' & Hrun & H1 & H2 & H3 & H4).
  - eapply links_ext; [|done]. intros x v Hx Hv. exists v. cbn. by rewrite lookup_insert_ne by (intros ->; done).
  - done.
  - set_solver.
  - cbn in Hf. lia.
  - exists h'. split; [exact Hrun|]. split_and!; [done..|]. intros x dx Hx. destruct (decide (x = b)) as [->|Hne].
    + rewrite (H4 b (d <| d_last := b + sizeof_ngx_pool_t |>)) by (cbn; by rewrite lookup_insert_eq).
      rewrite decide_False, decide_True by set_solver. by simplify_eq.
    + rewrite (H4 x dx) by (cbn; by rewrite lookup_insert_ne). f_equal.
      destruct (decide (x ∈ l)); [by rewrite decide_True by set_solver | by rewrite decide_False by set_solver].
Qed.

Lemma inv_emptied h h' pool psize bs :
  pool_inv h pool psize bs [] -> emptied h h' bs -> pool_inv h' pool psize bs [].
Proof.
  intros Hi (Hl & Hp & Hg & Hd).
  assert (forall b d, b ∈ bs -> h_data h !! b = Some d -> h_data h' !! b = Some (d <| d_last := b + sizeof_ngx_pool_t |>)) as Hd'.
  { intros b d Hb Hbd. rewrite (Hd b d Hbd). by rewrite decide_True. }
  pose proof (pool_in _ _ _ _ _ Hi) as Hpin. destruct (block_at _ _ _ _ _ pool Hi Hpin) as (dp & Hdp & _).
  pose proof Hi as Hi0. destruct Hi0. split; rewrite ?Hl, ?Hp, ?Hg; try done.
  - eexists pool, _. split_and!; [set_solver|by apply Hd'|lia|cbn; lia].
  - eapply links_ext; [|done]. intros b v Hb Hv. rewrite (Hd' b v) by done. by eexists.
  - apply Forall_forall. intros b Hb. destruct (block_at _ _ _ _ _ b Hi Hb) as (d & Hbd & Hlb & He & Hlast & Ha).
    destruct pi_size0 as [_ Hs]. unfold sizeof_ngx_pool_large_t in Hs.
    eexists. split; [by apply Hd'|]. rewrite Hl. cbn. unfold sizeof_ngx_pool_t, sizeof_ngx_pool_data_t in *. split_and!; [done|done|lia|lia|done].
Qed.

Lemma reset_ok h pool psize bs ls :
  pool_inv h pool psize bs ls ->
  exists h', ngx_reset_pool pool h = Some (tt, h') /\ pool_inv h' pool psize bs [] /\ frame h bs ls h' bs [].
Proof.
  intros Hi. destruct (pi_rest _ _ _ _ _ Hi) as (r & Hr & _). unfold ngx_reset_pool.
  rewrite (bind_run _ _ _ _ _ (rd_run h_pool pool r h Hr)). unfold bind at 1, larges. unfold bind at 1, blocks.
  destruct (larges_freed _ _ _ _ _ Hi r Hr) as (h1 & Hrun & Hi1 & Hr1 & Hw). rewrite (bind_run _ _ _ _ _ Hrun).
  unfold bind at 1, p_wr. rewrite Hr1. change (h1 <| h_pool := _ |>) with (cut pool r [] h1).
  destruct (head_Some _ _ (pi_head _ _ _ _ _ Hi1)) as (bs' & Hbs).
  assert (NULL ∉ bs) as Hz.
  { intros Hin. destruct (block_at _ _ _ _ _ _ Hi Hin) as (d & _ & Hl & _). by destruct (live_range _ (pi_live _ _ _ _ _ Hi) _ _ Hl). }
  destruct (reset_blocks_ok bs (cut pool r [] h1) (base.size (h_data h))) as (h' & Hrun' & He).
  - apply (pi_links _ _ _ _ _ Hi1).
  - apply (pi_nodup _ _ _ _ _ Hi).
  - done.
  - apply (links_fuel d_next); [apply (pi_links _ _ _ _ _ Hi) | apply (pi_nodup _ _ _ _ _ Hi)].
  - exists h'. rewrite Hbs in Hrun'. split_and!; [exact Hrun'|by eapply inv_emptied|]. destruct He as (Hl & _).
    intros q. split.
    + intros [Hq|[_ Hq%elem_of_nil]]; [left; by left|done].
    + intros Hq. rewrite Hl. apply (without_owner _ _ _ _ _ Hi); [done|]. intros ?. apply Hq. by left.
Qed.

Section Create.
Context {HM : Malloc} {HMok : MallocOk HM}.

Lemma create_ok h psize :
  live_ok (h_live h) -> psize mod NGX_ALIGNMENT = 0 -> sizeof_ngx_pool_t + sizeof_ngx_pool_large_t <= psize < 2 ^ 63 ->
  exists pool h', ngx_create_pool psize h = Some (pool, h') /\
    ((pool = NULL /\ h' = h) \/ (pool_inv h' pool psize [pool] [] /\ leak_free (h_live h) h' [pool] [])).
Proof.
  intros Hlive Hmod Hs. unfold ngx_create_pool, bind at 1, ngx_memalign. unfold sizeof_ngx_pool_t, sizeof_ngx_pool_large_t in *.
  destruct (posix_memalign (h_live h) NGX_POOL_ALIGNMENT psize) as [pool|] eqn:Hmem.
  2:{ exists NULL, h. split; [done|]. by left. }
  destruct (memalign_ok (h_live h) NGX_POOL_ALIGNMENT psize pool) as (Hp & Hlive' & Hmod'); [done|done|lia|done|].
  destruct (live_range _ Hlive' pool psize) as (H0 & _ & H1); [by rewrite lookup_insert_eq|].
  destruct (Z.eqb_spec pool NULL) as [|_]; [unfold NULL in *; lia|]. unfold bind, new_data, new_pool.
  eexists pool, _. split; [reflexivity|]. right. split.
  - split; cbn; try done.
    + split; [done|]. unfold sizeof_ngx_pool_t, sizeof_ngx_pool_large_t. lia.
    + eexists pool, _. split_and!; [set_solver|cbn; by rewrite lookup_insert_eq|lia|done].
    + split; [|done]. eexists. by rewrite lookup_insert_eq.
    + apply NoDup_singleton.
    + apply Forall_singleton. eexists. cbn. rewrite !lookup_insert_eq. split_and!; [done..| | |done].
      * unfold sizeof_ngx_pool_data_t, sizeof_ngx_pool_t. cbn. lia.
      * unfold sizeof_ngx_pool_t. cbn. lia.
    + eexists. rewrite lookup_insert_eq. split; [done|]. cbn. split_and!; [set_solver|done|].
      unfold sizeof_ngx_pool_t, NGX_MAX_ALLOC_FROM_POOL. narrow. case_match; lia.
    + constructor.
    + set_solver.
  - intros q. unfold owner. cbn. split.
    + intros [->%list_elem_of_singleton | [_ Hq]]; [done | by apply elem_of_nil in Hq].
    + intros Hq. rewrite lookup_insert_ne; [done|]. intros <-. apply Hq. left. set_solver.
Qed.
End Create.

(** The calls on a pool between its creation and its end. *)
Inductive pool_call :=
| Call_palloc (size : Z)
| Call_pnalloc (size : Z)
| Call_pcalloc (size : Z)
| Call_pmemalign (size alignment : Z)
| Call_pfree (p : ptr)
| Call_reset.

(** A size is not negative, an alignment positive. *)
Definition call_ok (c : pool_call) : Prop :=
  match c with
  | Call_palloc n | Call_pnalloc n | Call_pcalloc n => 0 <= n
  | Call_pmemalign n a => 0 <= n /\ 0 < a
  | Call_pfree _ | Call_reset => True
  end.

Section Calls.
Context {HM : Malloc}.
Local Open Scope prog_scope.

Definition run_call (pool : ptr) (c : pool_call) : H unit :=
  match c with
  | Call_palloc n => ngx_palloc pool n ;; ret tt
  | Call_pnalloc n => ngx_pnalloc pool n ;; ret tt
  | Call_pcalloc n => ngx_pcalloc pool n ;; ret tt
  | Call_pmemalign n a => ngx_pmemalign pool n a ;; ret tt
  | Call_pfree p => ngx_pfree pool p ;; ret tt
  | Call_reset => ngx_reset_pool pool
  end.
Fixpoint run_calls (pool : ptr) (cs : list pool_call) : H unit :=
  match cs with
  | [] => ret tt
  | c :: cs => run_call pool c ;; run_calls pool cs
  end.

(** A pool from its creation to its end. *)
Definition pool_life (psize : Z) (cs : list pool_call) : H unit :=
  let! pool := ngx_create_pool psize in
  if pool =? NULL then ret tt else run_calls pool cs ;; ngx_destroy_pool pool.
End Calls.

Section Life.
Context {HM : Malloc} {HMok : MallocOk HM}.

Lemma inv_mem h pool psize bs ls f : pool_inv h pool psize bs ls -> pool_inv (h <| h_mem := f |>) pool psize bs ls.
Proof. by intros []. Qed.

Lemma pmemalign_ok h pool psize bs ls n a :
  pool_inv h pool psize bs ls -> 0 <= n -> 0 < a ->
  exists r h' bs' ls', ngx_pmemalign pool n a h = Some (r, h') /\ alloc_ok pool psize h bs ls r n h' bs' ls'.
Proof.
  intros Hi Hn Ha. unfold ngx_pmemalign, bind at 1, ngx_memalign.
  destruct (posix_memalign (h_live h) a n) as [p|] eqn:Hmem.
  2:{ exists NULL, h, bs, ls. split; [done|by apply refused_ok]. }
  destruct (memalign_ok (h_live h) a n p) as (Hp & Hlive & _); [apply (pi_live _ _ _ _ _ Hi)|done..|].
  pose proof (region_range h p n Hlive) as H0. destruct (Z.eqb_spec p NULL) as [|_]; [unfold NULL in *; lia|].
  destruct (push_large_ok _ _ _ _ _ Hi p n Hp Hlive 1) as (r & h' & bs' & ls' & Hrun & Hok & _).
  exists r, h', bs', ls'. done.
Qed.

Lemma pcalloc_ok h pool psize bs ls n :
  pool_inv h pool psize bs ls -> 0 <= n ->
  exists r h' bs' ls', ngx_pcalloc pool n h = Some (r, h') /\ pool_inv h' pool psize bs' ls' /\
    frame h bs ls h' bs' ls' /\
    forall a, h_mem h' a = if decide (r <> NULL /\ r <= a < r + n) then 0 else h_mem h a.
Proof.
  intros Hi Hn. destruct (palloc_ok _ _ _ _ _ Hi true n Hn) as (r & h' & bs' & ls' & Hrun & Hok & _).
  unfold ngx_pcalloc. rewrite (bind_run _ _ _ _ _ Hrun). destruct Hok as [Hi' _ _ Hm Hf]. destruct (Z.eqb_spec r NULL) as [->|Hr].
  - exists NULL, h', bs', ls'. split_and!; [done..|]. intros a. rewrite Hm, decide_False; [done|tauto].
  - eexists r, _, bs', ls'. split_and!; [reflexivity|by apply inv_mem|done|]. intros a. cbn. rewrite Hm.
    destruct (Z.leb_spec r a), (Z.ltb_spec a (r + n)); cbn;
      [rewrite decide_True by done; done | rewrite decide_False by lia; done..].
Qed.

Lemma call_step L0 h pool psize bs ls c :
  pool_inv h pool psize bs ls -> leak_free L0 h bs ls -> call_ok c ->
  exists h' bs' ls', run_call pool c h = Some (tt, h') /\ pool_inv h' pool psize bs' ls' /\ leak_free L0 h' bs' ls'.
Proof.
  intros Hi Hlf Hc. destruct c as [n|n|n|n a|p|]; cbn [run_call].
  - destruct (palloc_ok _ _ _ _ _ Hi true n Hc) as (r & h' & bs' & ls' & Hrun & [] & _).
    exists h', bs', ls'. unfold ngx_palloc. rewrite (bind_run _ _ _ _ _ Hrun). eauto using frame_leak_free.
  - destruct (palloc_ok _ _ _ _ _ Hi false n Hc) as (r & h' & bs' & ls' & Hrun & [] & _).
    exists h', bs', ls'. unfold ngx_pnalloc. rewrite (bind_run _ _ _ _ _ Hrun). eauto using frame_leak_free.
  - destruct (pcalloc_ok _ _ _ _ _ n Hi Hc) as (r & h' & bs' & ls' & Hrun & Hi' & Hf & _).
    exists h', bs', ls'. rewrite (bind_run _ _ _ _ _ Hrun). eauto using frame_leak_free.
  - destruct (pmemalign_ok _ _ _ _ _ n a Hi (proj1 Hc) (proj2 Hc)) as (r & h' & bs' & ls' & Hrun & []).
    exists h', bs', ls'. rewrite (bind_run _ _ _ _ _ Hrun). eauto using frame_leak_free.
  - destruct (pfree_ok _ _ _ _ _ Hi p) as (rc & h' & Hrun & Hi' & Hf & _).
    exists h', bs, ls. rewrite (bind_run _ _ _ _ _ Hrun). eauto using frame_leak_free.
  - destruct (reset_ok _ _ _ _ _ Hi) as (h' & Hrun & Hi' & Hf). exists h', bs, []. eauto using frame_leak_free.
Qed.

Lemma calls_ok L0 pool psize cs h bs ls :
  pool_inv h pool psize bs ls -> leak_free L0 h bs ls -> Forall call_ok cs ->
  exists h' bs' ls', run_calls pool cs h = Some (tt, h') /\ pool_inv h' pool psize bs' ls' /\ leak_free L0 h' bs' ls'.
Proof.
  revert h bs ls. induction cs as [|c cs IH]; intros h bs ls Hi Hlf Hcs; [by exists h, bs, ls|].
  apply Forall_cons in Hcs as [Hc Hcs]. destruct (call_step _ _ _ _ _ _ c Hi Hlf Hc) as (h1 & bs1 & ls1 & Hrun & Hi1 & Hlf1).
  cbn [run_calls]. rewrite (bind_run _ _ _ _ _ Hrun). eauto.
Qed.

(** C38.  Memory of a pool is given out once.  On a well-formed pool,
    [ngx_palloc] ([align]) and [ngx_pnalloc] return without a fault for every
    size; the pool stays well-formed, what was in use stays in use, and the
    [n] bytes returned are in use now and were not before, so they overlap
    neither an earlier allocation nor the heads of the blocks nor the list of
    large allocations; [ngx_palloc] returns an aligned address; and the result
    is [NULL] only if the C library, asked for the memory that is needed, has
    refused it: a block of the pool's size for a small allocation, for a large
    one the bytes themselves or then a block for its entry. *)
Theorem palloc_correct h pool psize bs ls align n :
  pool_inv h pool psize bs ls -> 0 <= n ->
  exists r h' bs' ls',
    (if align : bool then ngx_palloc pool n h else ngx_pnalloc pool n h) = Some (r, h') /\
    pool_inv h' pool psize bs' ls' /\
    (forall a, used h bs ls a -> used h' bs' ls' a) /\
    (r <> NULL -> (align = true -> r mod NGX_ALIGNMENT = 0) /\
       forall a, r <= a < r + n -> used h' bs' ls' a /\ ~ used h bs ls a) /\
    (r = NULL -> refused h psize n).
Proof.
  intros Hi Hn. destruct (palloc_ok _ _ _ _ _ Hi align n Hn) as (r & h' & bs' & ls' & Hrun & Hok & Hal & Hnull).
  exists r, h', bs', ls'. split_and!; [by destruct align|by destruct Hok|by destruct Hok| |done].
  intros Hr. split; [intros ?; by apply Hal|]. by destruct (ao_given _ _ _ _ _ _ _ _ _ _ Hok Hr).
Qed.

(** C39.  A pool gives back all its memory, once.  From any heap, a pool of a
    size that is a multiple of the alignment and has room for its head and one
    entry (every size the engine uses) is created; then any sequence of
    [ngx_palloc], [ngx_pnalloc], [ngx_pcalloc], [ngx_pmemalign], [ngx_pfree]
    (of any pointer) and [ngx_reset_pool] follows, and [ngx_destroy_pool].
    Nothing faults: no pointer is freed twice and no block or entry is read
    after it was freed; and at the end the live regions are those of the
    start. *)
Theorem pool_lifetime h psize cs :
  live_ok (h_live h) -> psize mod NGX_ALIGNMENT = 0 ->
  sizeof_ngx_pool_t + sizeof_ngx_pool_large_t <= psize < 2 ^ 63 -> Forall call_ok cs ->
  exists h', pool_life psize cs h = Some (tt, h') /\ h_live h' = h_live h.
Proof.
  intros Hlive Hmod Hs Hcs. destruct (create_ok h psize Hlive Hmod Hs) as (pool & h1 & Hrun & [[-> ->]|[Hi Hlf]]);
    unfold pool_life; rewrite (bind_run _ _ _ _ _ Hrun).
  - exists h. done.
  - pose proof (pool_in _ _ _ _ _ Hi) as Hin. destruct (block_at _ _ _ _ _ _ Hi Hin) as (d & _ & Hl & _).
    destruct (live_range _ (pi_live _ _ _ _ _ Hi) _ _ Hl) as (H0 & _). destruct (Z.eqb_spec pool NULL) as [|_]; [unfold NULL in *; lia|].
    destruct (calls_ok _ _ _ cs _ _ _ Hi Hlf Hcs) as (h2 & bs' & ls' & Hrun2 & Hi2 & Hlf2).
    rewrite (bind_run _ _ _ _ _ Hrun2). by eapply destroy_ok.
Qed.
End Life.

(** * Witnesses *)

(** An allocator that only goes up. *)
Definition top (L : gmap ptr Z) : Z := map_fold (fun p s t => Z.max t (p + s)) 0 L.
Definition bump (L : gmap ptr Z) (a s : Z) : option ptr :=
  let p := (top L / a + 1) * a in
  if bool_decide (0 < a /\ 0 <= s /\ p + s < 2 ^ 64) then Some p else None.
#[local] Instance bump_malloc : Malloc := {| posix_memalign := bump; malloc L s := bump L NGX_POOL_ALIGNMENT s |}.

Lemma top_above L : 0 <= top L /\ forall p s, L !! p = Some s -> p + s <= top L.
Proof.
  unfold top. apply (map_fold_weak_ind (fun t (L : gmap ptr Z) => 0 <= t /\ forall p s, L !! p = Some s -> p + s <= t)).
  - split; [done|]. by intros p s Hp%lookup_empty_Some.
  - intros p s m t Hp [H0 Ht]. split; [lia|]. intros q s' [[<- <-]|[Hne Hq]]%lookup_insert_Some; [lia|].
    specialize (Ht q s' Hq). lia.
Qed.

Lemma bump_ok L a s p :
  live_ok L -> bump L a s = Some p -> L !! p = None /\ live_ok (<[p := s]> L) /\ p mod a = 0.
Proof.
  intros Hlive Hb. unfold bump in Hb. case_bool_decide as Hc; [|done]. destruct Hc as (Ha & Hs & Hlt).
  destruct (top_above L) as [H0 Htop]. pose proof (Z.mod_pos_bound (top L) a Ha). pose proof (Z.div_mod (top L) a ltac:(lia)).
  assert (p = (top L / a + 1) * a) as Hp by congruence. assert (top L < p) as Hgt by (rewrite Hp; nia).
  assert (forall q t, L !! q = Some t -> q + t < p) as Hbelow by (intros q t Hq; specialize (Htop q t Hq); lia).
  split_and!.
  - destruct (L !! p) as [t|] eqn:Ht; [|done]. destruct (live_range _ Hlive _ _ Ht). specialize (Hbelow p t Ht). lia.
  - split.
    + intros q t [[<- <-]|[_ Hq]]%lookup_insert_Some; [lia|by apply (live_range _ Hlive)].
    + intros q t q' t' [[<- <-]|[_ Hq]]%lookup_insert_Some [[<- <-]|[_ Hq']]%lookup_insert_Some Hne.
      * done.
      * right. specialize (Hbelow q' t' Hq'). lia.
      * left. specialize (Hbelow q t Hq). lia.
      * by apply (live_apart _ Hlive).
  - rewrite Hp. by apply Z.mod_mul; lia.
Qed.
#[local] Instance bump_malloc_ok : MallocOk bump_malloc.
Proof. split; intros; by apply bump_ok. Qed.

Definition no_heap : heap := mk_heap ∅ ∅ ∅ ∅ (fun _ => 0).
Lemma no_heap_live : live_ok (h_live no_heap).
Proof. cbn. split; [by intros p s Hp%lookup_empty_Some|]. by intros p s q t Hp%lookup_empty_Some. Qed.

(** The heap of one pool of 128 bytes, as [ngxe_timer.c]'s callers make it. *)
Definition pool_heap : heap :=
  mk_heap {[16 := 128]} {[16 := mk_data 96 144 NULL 0]} {[16 := mk_rest 48 16 NULL]} ∅ (fun _ => 0).
Lemma pool_heap_run : ngx_create_pool 128 no_heap = Some (16, pool_heap).
Proof. reflexivity. Qed.
Lemma pool_heap_inv : pool_inv pool_heap 16 128 [16] [].
Proof.
  destruct (create_ok no_heap 128) as (pool & h' & Hrun & Hor); [apply no_heap_live|done|done|].
  rewrite pool_heap_run in Hrun. injection Hrun as <- <-. by destruct Hor as [[? _]|[Hi _]].
Qed.

Lemma palloc_correct_witness :
  exists r h' bs' ls', ngx_palloc 16 200 pool_heap = Some (r, h') /\ pool_inv h' 16 128 bs' ls' /\
    (forall a, used pool_heap [16] [] a -> used h' bs' ls' a) /\
    (r <> NULL -> (true = true -> r mod NGX_ALIGNMENT = 0) /\
       forall a, r <= a < r + 200 -> used h' bs' ls' a /\ ~ used pool_heap [16] [] a) /\
    (r = NULL -> refused pool_heap 128 200).
Proof. apply (palloc_correct pool_heap 16 128 [16] [] true 200); [apply pool_heap_inv | lia]. Defined.

Lemma pool_lifetime_witness :
  exists h', pool_life 128 [Call_palloc 40; Call_pnalloc 3; Call_palloc 40; Call_palloc 500; Call_pfree 16; Call_reset] no_heap
    = Some (tt, h') /\ h_live h' = h_live no_heap.
Proof.
  apply (pool_lifetime no_heap 128 [Call_palloc 40; Call_pnalloc 3; Call_palloc 40; Call_palloc 500; Call_pfree 16; Call_reset]);
    [apply no_heap_live | reflexivity | unfold sizeof_ngx_pool_t, sizeof_ngx_pool_large_t; lia | repeat constructor; cbn; lia].
Defined.

(** The size of a pool has to be a multiple of the alignment: in a pool of 100
    bytes with 99 in use, [ngx_palloc] passes the end of the block, since the
    room left is computed as an unsigned number. *)
Example palloc_past_the_end :
  let h := mk_heap {[16 := 100]} {[16 := mk_data 115 116 NULL 0]} {[16 := mk_rest 20 16 NULL]} ∅ (fun _ => 0) in
  fst <$> ngx_palloc 16 20 h = Some 120.
Proof. reflexivity. Qed.

End PallocCorrect.
