(* ===== verification/Array.v ===== *)
(** Growing arrays and lists: nginx/src/core/ngx_array.c and ngx_list.c, on the pools of [Palloc].

    An array has one piece of memory and moves when that is full, unless it is the last thing in
    the pool's first block; a list gets further pieces and never moves. *)
From stdpp Require Import base gmap list numbers sets.
From S2P Require Import Prelude Palloc PallocCorrect.
Import Palloc PallocCorrect.
Local Open Scope Z_scope.

Module Array.

(** * Data *)

Record ngx_array_t := mk_array { elts : ptr; nelts : Z; a_size : Z; nalloc : Z; a_pool : ptr }.
#[export] Instance eta_array : Eta ngx_array_t := fun x => mk_array (elts x) (nelts x) (a_size x) (nalloc x) (a_pool x).
Definition sizeof_ngx_array_t : Z := 40.

(** The parts of a list, with the number of their elements, in order: [last] is the end. *)
Record ngx_list_t := mk_list { parts : list (ptr * Z); li_size : Z; li_nalloc : Z; li_pool : ptr }.
#[export] Instance eta_list : Eta ngx_list_t := fun x => mk_list (parts x) (li_size x) (li_nalloc x) (li_pool x).
Definition sizeof_ngx_list_part_t : Z := 24.
Definition sizeof_ngx_list_t : Z := 56.

(** * Operations *)
Section Operations.
Context {HM : Malloc}.
Local Open Scope prog_scope.

Definition ngx_memcpy (dst src n : Z) : H unit :=
  fun h => Some (tt, h <| h_mem := fun a => if (dst <=? a) && (a <? dst + n) then h_mem h (src + (a - dst)) else h_mem h a |>).

(** [NGX_OK] and the array, or [NGX_ERROR]. *)
Definition ngx_array_init (pool n size : Z) : H (bool * ngx_array_t) :=
  let! p := ngx_palloc pool (u64 (n * size)) in
  ret (negb (p =? NULL), mk_array p 0 size n pool).

(** The address of the array and the array, or NULL. *)
Definition ngx_array_create (pool n size : Z) : H (ptr * ngx_array_t) :=
  let none := mk_array NULL 0 0 0 NULL in
  let! a := ngx_palloc pool sizeof_ngx_array_t in
  if a =? NULL then ret (NULL, none)
  else
    let! p := ngx_palloc pool (u64 (n * size)) in
    if p =? NULL then ret (NULL, none) else ret (a, mk_array p 0 size n pool).

(** [a] is at [addr]. *)
Definition ngx_array_destroy (addr : ptr) (a : ngx_array_t) : H unit :=
  let p := a_pool a in
  let size := u64 (a_size a * nalloc a) in
  let! d := rd h_data p in
  (if elts a + size =? d_last d then d_wr p (d <| d_last := d_last d - size |>) else ret tt) ;;
  let! d := rd h_data p in
  if addr + sizeof_ngx_array_t =? d_last d then d_wr p (d <| d_last := addr |>) else ret tt.

Definition ngx_array_push (a : ngx_array_t) : H (ptr * ngx_array_t) :=
  let! grown :=
    (if nelts a =? nalloc a then
       let size := u64 (a_size a * nalloc a) in
       let p := a_pool a in
       let! d := rd h_data p in
       if (elts a + size =? d_last d) && (d_last d + a_size a <=? d_end d) then
         d_wr p (d <| d_last := d_last d + a_size a |>) ;; ret (Some (a <| nalloc := u64 (nalloc a + 1) |>))
       else
         let! new := ngx_palloc p (u64 (2 * size)) in
         if new =? NULL then ret None
         else ngx_memcpy new (elts a) size ;; ret (Some (a <| elts := new |> <| nalloc := u64 (nalloc a * 2) |>))
     else ret (Some a)) in
  match grown with
  | None => ret (NULL, a)
  | Some a => ret (elts a + a_size a * nelts a, a <| nelts := u64 (nelts a + 1) |>)
  end.

Definition ngx_array_push_n (a : ngx_array_t) (n : Z) : H (ptr * ngx_array_t) :=
  let size := u64 (n * a_size a) in
  let! grown :=
    (if nalloc a <? u64 (nelts a + n) then
       let p := a_pool a in
       let! d := rd h_data p in
       if (elts a + u64 (a_size a * nalloc a) =? d_last d) && (d_last d + size <=? d_end d) then
         d_wr p (d <| d_last := d_last d + size |>) ;; ret (Some (a <| nalloc := u64 (nalloc a + n) |>))
       else
         let nalloc' := u64 (2 * (if nalloc a <=? n then n else nalloc a)) in
         let! new := ngx_palloc p (u64 (nalloc' * a_size a)) in
         if new =? NULL then ret None
         else ngx_memcpy new (elts a) (u64 (nelts a * a_size a)) ;; ret (Some (a <| elts := new |> <| nalloc := nalloc' |>))
     else ret (Some a)) in
  match grown with
  | None => ret (NULL, a)
  | Some a => ret (elts a + a_size a * nelts a, a <| nelts := u64 (nelts a + n) |>)
  end.

Definition ngx_list_init (list : ngx_list_t) (pool n size : Z) : H (bool * ngx_list_t) :=
  let! e := ngx_palloc pool (u64 (n * size)) in
  if e =? NULL then ret (false, list) else ret (true, mk_list [(e, 0)] size n pool).

(** The address of the list and the list, or NULL. *)
Definition ngx_list_create (pool n size : Z) : H (ptr * ngx_list_t) :=
  let none := mk_list [] 0 0 NULL in
  let! l := ngx_palloc pool sizeof_ngx_list_t in
  if l =? NULL then ret (NULL, none)
  else
    let! e := ngx_palloc pool (u64 (n * size)) in
    if e =? NULL then ret (NULL, none) else ret (l, mk_list [(e, 0)] size n pool).

Definition ngx_list_push (l : ngx_list_t) : H (ptr * ngx_list_t) :=
  match last (parts l) with
  | None => fault
  | Some (e, n) =>
      if n =? li_nalloc l then
        let! part := ngx_palloc (li_pool l) sizeof_ngx_list_part_t in
        if part =? NULL then ret (NULL, l)
        else
          let! e := ngx_palloc (li_pool l) (u64 (li_nalloc l * li_size l)) in
          if e =? NULL then ret (NULL, l) else ret (e, l <| parts := parts l ++ [(e, 1)] |>)
      else
        ret (e + li_size l * n, l <| parts := <[(length (parts l) - 1)%nat := (e, u64 (n + 1))]> (parts l) |>)
  end.
End Operations.

(** * What they keep *)

(** The bytes of an array. *)
Definition in_array (a : ngx_array_t) (x : Z) : Prop := elts a <= x < elts a + a_size a * nalloc a.
Record array_ok (h : heap) (pool : ptr) (bs ls : list ptr) (a : ngx_array_t) : Prop := {
  ar_pool : a_pool a = pool;
  ar_elts : 0 < elts a;
  ar_size : 0 < a_size a;
  ar_room : 0 <= nelts a <= nalloc a;
  ar_fits : 2 * a_size a * nalloc a < 2 ^ 64;
  ar_used x : in_array a x -> used h bs ls x
}.

(** [k] elements at [r] are added: the other elements keep their contents, no byte that was in use is
    written, and what the array has more was not in use. *)
Record pushed (h : heap) (bs ls : list ptr) (a : ngx_array_t) (k r : Z) (h' : heap) (bs' ls' : list ptr) (a' : ngx_array_t) : Prop := {
  pu_place : r = elts a' + a_size a * nelts a;
  pu_nelts : nelts a' = nelts a + k;
  pu_room : nelts a' <= nalloc a';
  pu_same : a_size a' = a_size a /\ a_pool a' = a_pool a;
  pu_elts : 0 < elts a';
  pu_used x : in_array a' x -> used h' bs' ls' x;
  pu_fresh x : in_array a' x -> used h bs ls x -> in_array a x;
  pu_contents i : 0 <= i < a_size a * nelts a -> h_mem h' (elts a' + i) = h_mem h (elts a + i);
  pu_frame x : used h bs ls x -> h_mem h' x = h_mem h x
}.

Section Push.
Context {HM : Malloc} {HMok : MallocOk HM}.
Context (h : heap) (pool psize : Z) (bs ls : list ptr) (Hi : pool_inv h pool psize bs ls).
Context (a : ngx_array_t) (Ha : array_ok h pool bs ls a).

(** There is room already. *)
Lemma push_room k : 0 <= k -> nelts a + k <= nalloc a -> nelts a + k < 2 ^ 64 ->
  pushed h bs ls a k (elts a + a_size a * nelts a) h bs ls (a <| nelts := u64 (nelts a + k) |>).
Proof using Ha.
  intros Hk Hr Hf. destruct Ha as [? ? ? ? ? Hu]. split; rsimpl; try (rewrite u64_small by lia); try done; try lia.
Qed.

(** The array is the last in the pool's first block. *)
Lemma push_in_place d k : h_data h !! pool = Some d -> elts a + a_size a * nalloc a = d_last d -> d_last d + k * a_size a <= d_end d ->
  0 < k -> nalloc a + k < 2 ^ 64 -> nelts a + k < 2 ^ 64 ->
  let h' := bumped h pool d (d_last d + k * a_size a) in
  pool_inv h' pool psize bs ls /\ kept h bs ls h' bs ls /\
  pushed h bs ls a k (elts a + a_size a * nelts a) h' bs ls (a <| nalloc := u64 (nalloc a + k) |> <| nelts := u64 (nelts a + k) |>).
Proof using Hi Ha.
  intros Hd Hlast Hend Hk Hf1 Hf2 h'. destruct Ha as [? ? ? ? ? Hu].
  destruct (bumped_chunk h pool psize bs ls pool d (d_last d) (k * a_size a)) as (Hi' & Hkept & Hnew);
    [done | by eapply pool_in | done | nia | lia | lia |]. split_and!; [done|done|].
  assert (forall x, elts a <= x < elts a + a_size a * (nalloc a + k) -> in_array a x \/ d_last d <= x < d_last d + k * a_size a) as Hsplit.
  { intros x Hx. unfold in_array. rewrite <- Hlast. nia. }
  split; rsimpl; rewrite ?u64_small by lia; try done; try lia; unfold in_array; rsimpl; rewrite ?u64_small by lia; intros x Hx.
  - destruct (Hsplit x Hx) as [?|Hx']; [by apply Hkept, Hu | by apply Hnew].
  - intros Hux. destruct (Hsplit x Hx) as [?|Hx']; [done|]. by destruct (proj2 (Hnew x Hx')).
Qed.

(** The elements move to a new piece of [m] elements. *)
Lemma push_moved h1 bs' ls' new m k c : alloc_ok pool psize h bs ls new (m * a_size a) h1 bs' ls' -> new <> NULL ->
  0 <= k -> nelts a + k <= m -> m < 2 ^ 64 -> a_size a * nelts a <= c <= m * a_size a -> c <= a_size a * nalloc a ->
  let h' := h1 <| h_mem := fun x => if (new <=? x) && (x <? new + c) then h_mem h1 (elts a + (x - new)) else h_mem h1 x |> in
  pool_inv h' pool psize bs' ls' /\ kept h bs ls h' bs' ls' /\
  pushed h bs ls a k (new + a_size a * nelts a) h' bs' ls' (a <| elts := new |> <| nalloc := m |> <| nelts := u64 (nelts a + k) |>).
Proof using Ha.
  intros [Hi1 Hk1 Hg Hm _] Hnew Hk Hr Hf Hc Hc' h'. destruct Ha as [? ? ? ? ? Hu]. destruct (Hg Hnew) as [H0 Hgiven].
  split_and!; [by apply inv_mem | exact Hk1 |].
  split; rsimpl; rewrite ?u64_small by lia; try done; try lia.
  - unfold in_array. rsimpl. intros x Hx. destruct (Hgiven x) as [Hx' _]; [lia|exact Hx'].
  - unfold in_array. rsimpl. intros x Hx Hux. by destruct (Hgiven x) as [_ []]; [lia|].
  - intros i Hi'. subst h'. rsimpl. rewrite Hm. assert ((new <=? new + i) && (new + i <? new + c) = true) as -> by lia. f_equal. lia.
  - intros x Hx. subst h'. rsimpl. rewrite Hm. destruct ((new <=? x) && (x <? new + c)) eqn:E; [|done].
    destruct (Hgiven x) as [_ []]; [lia|done].
Qed.

(** The result of a push: NULL only if the library refuses the [need] bytes of a larger array. *)
Definition push_result (k need : Z) (run : option (ptr * ngx_array_t * heap)) : Prop :=
  exists r a' h' bs' ls', run = Some ((r, a'), h') /\ pool_inv h' pool psize bs' ls' /\ kept h bs ls h' bs' ls' /\
    ((r = NULL /\ a' = a /\ h_mem h' = h_mem h /\ refused h psize need) \/ (0 < r /\ pushed h bs ls a k r h' bs' ls' a')).

Lemma pushed_place k r h' bs' ls' a' : pushed h bs ls a k r h' bs' ls' a' -> 0 < r.
Proof using Ha. intros [-> ? ? ? ? ? ? ? ?]. destruct Ha. nia. Qed.

Lemma array_push_ok : 0 < nalloc a -> push_result 1 (2 * (a_size a * nalloc a)) (ngx_array_push a h).
Proof using HMok Hi Ha.
  intros Hn. pose proof Ha as [Hpool He Hs Hr Hf Hu]. unfold ngx_array_push. destruct (Z.eqb_spec (nelts a) (nalloc a)) as [Efull|Hroom].
  - destruct (block_at _ _ _ _ _ pool Hi (pool_in _ _ _ _ _ Hi)) as (d & Hd & _). rewrite Hpool.
    assert (nalloc a + 1 < 2 ^ 64) as Hb by nia.
    rewrite (u64_small (a_size a * nalloc a)) by nia.
    destruct ((elts a + a_size a * nalloc a =? d_last d) && (d_last d + a_size a <=? d_end d)) eqn:Ein.
    + destruct (push_in_place d 1 Hd) as (Hi' & Hk & Hp); [lia | lia | lia | lia | lia |]. rewrite Z.mul_1_l in *.
      eexists _, _, _, bs, ls. split_and!; [|exact Hi'|exact Hk|right; split; [by eapply pushed_place|exact Hp]].
      unfold bind, rd, d_wr. rewrite Hd. cbn -[u64]. rewrite Ein, Hd. reflexivity.
    + destruct (palloc_ok h pool psize bs ls Hi true (2 * (a_size a * nalloc a)) ltac:(nia)) as (new & h1 & bs' & ls' & Hrun & Hok & _ & Href).
      assert (ngx_palloc pool (u64 (2 * (a_size a * nalloc a))) h = Some (new, h1)) as Hrun' by (rewrite u64_small by nia; exact Hrun).
      unfold push_result. unfold bind at 1 2. unfold rd at 1. rewrite Hd. rewrite Ein. unfold bind at 1. rewrite Hrun'.
      destruct (Z.eqb_spec new NULL) as [->|Hnew].
      * eexists _, _, _, bs', ls'. split_and!; [reflexivity|by destruct Hok|by destruct Hok|left]. split_and!; [done|done|by destruct Hok|by apply Href].
      * replace (2 * (a_size a * nalloc a)) with ((nalloc a * 2) * a_size a) in Hok by lia.
        destruct (push_moved h1 bs' ls' new (nalloc a * 2) 1 (a_size a * nalloc a) Hok Hnew) as (Hi' & Hk & Hp); [lia | lia | nia | nia | lia |].
        eexists _, _, _, bs', ls'. split_and!; [|exact Hi'|exact Hk|right; split; [by eapply pushed_place|exact Hp]].
        unfold bind, ngx_memcpy, ret. rewrite (u64_small (nalloc a * 2)) by nia. reflexivity.
  - eexists _, _, h, bs, ls. split_and!; [reflexivity|done|by intros ?|right].
    pose proof (push_room 1 ltac:(lia) ltac:(lia) ltac:(nia)) as Hp. split; [by eapply pushed_place|exact Hp].
Qed.

Lemma array_push_n_ok k : 0 <= k -> 2 * k * a_size a < 2 ^ 64 ->
  push_result k (2 * Z.max k (nalloc a) * a_size a) (ngx_array_push_n a k h).
Proof using HMok Hi Ha.
  intros Hk Hkf. pose proof Ha as [Hpool He Hs Hr Hf Hu]. unfold ngx_array_push_n. rewrite (u64_small (nelts a + k)) by nia.
  destruct (Z.ltb_spec (nalloc a) (nelts a + k)) as [Hfull|Hroom].
  - destruct (block_at _ _ _ _ _ pool Hi (pool_in _ _ _ _ _ Hi)) as (d & Hd & _). rewrite Hpool.
    assert (0 < k) as Hk0 by lia. assert (nalloc a + k < 2 ^ 64) as Hb by nia.
    rewrite (u64_small (a_size a * nalloc a)), (u64_small (k * a_size a)) by nia.
    destruct ((elts a + a_size a * nalloc a =? d_last d) && (d_last d + k * a_size a <=? d_end d)) eqn:Ein.
    + destruct (push_in_place d k Hd) as (Hi' & Hkept & Hp); [lia | lia | lia | lia | lia |].
      eexists _, _, _, bs, ls. split_and!; [|exact Hi'|exact Hkept|right; split; [by eapply pushed_place|exact Hp]].
      unfold bind, rd, d_wr. rewrite Hd. cbn -[u64]. rewrite Ein, Hd. reflexivity.
    + assert ((if nalloc a <=? k then k else nalloc a) = Z.max k (nalloc a)) as -> by (destruct (Z.leb_spec (nalloc a) k); lia).
      set (m := 2 * Z.max k (nalloc a)).
      assert (nelts a + k <= m /\ m * a_size a < 2 ^ 64 /\ nalloc a <= m) as (Hm1 & Hm2 & Hm3) by (subst m; nia).
      destruct (palloc_ok h pool psize bs ls Hi true (m * a_size a) ltac:(nia)) as (new & h1 & bs' & ls' & Hrun & Hok & _ & Href).
      rewrite (u64_small m) by nia.
      assert (ngx_palloc pool (u64 (m * a_size a)) h = Some (new, h1)) as Hrun' by (rewrite u64_small by nia; exact Hrun).
      unfold push_result. unfold bind at 1 2. unfold rd at 1. rewrite Hd, Ein. unfold bind at 1. rewrite Hrun'.
      destruct (Z.eqb_spec new NULL) as [->|Hnew].
      * eexists _, _, _, bs', ls'. split_and!; [reflexivity|by destruct Hok|by destruct Hok|left]. split_and!; [done|done|by destruct Hok|by apply Href].
      * destruct (push_moved h1 bs' ls' new m k (nelts a * a_size a) Hok Hnew) as (Hi' & Hkept & Hp); [lia | lia | nia | nia | nia |].
        eexists _, _, _, bs', ls'. split_and!; [|exact Hi'|exact Hkept|right; split; [by eapply pushed_place|exact Hp]].
        unfold bind, ngx_memcpy, ret. rewrite (u64_small (nelts a * a_size a)) by nia. reflexivity.
  - eexists _, _, h, bs, ls. split_and!; [reflexivity|done|by intros ?|right].
    pose proof (push_room k ltac:(lia) ltac:(lia) ltac:(nia)) as Hp. split; [by eapply pushed_place|exact Hp].
Qed.
End Push.

(** The library refuses the [k] bytes of a structure, or then the [m] bytes of its memory. *)
Definition refused_two {HM : Malloc} (h : heap) (pool psize k m : Z) : Prop :=
  refused h psize k \/ exists p h1, ngx_palloc pool k h = Some (p, h1) /\ p <> NULL /\ refused h1 psize m.

(** ** New arrays and lists *)
Section New.
Context {HM : Malloc} {HMok : MallocOk HM}.
Context (h : heap) (pool psize : Z) (bs ls : list ptr) (Hi : pool_inv h pool psize bs ls).
Context (n size : Z) (Hn : 0 <= n) (Hs : 0 < size) (Hf : 2 * size * n < 2 ^ 64).

(** Two allocations in a row. *)
Lemma palloc_two m : 0 <= m ->
  exists r h1 bs1 ls1, ngx_palloc pool m h = Some (r, h1) /\ alloc_ok pool psize h bs ls r m h1 bs1 ls1 /\ (r = NULL -> refused h psize m) /\
    exists e h2 bs2 ls2, ngx_palloc pool (u64 (n * size)) h1 = Some (e, h2) /\ alloc_ok pool psize h1 bs1 ls1 e (n * size) h2 bs2 ls2 /\
      (e = NULL -> refused h1 psize (n * size)).
Proof using HMok Hi Hn Hs Hf.
  intros Hm. destruct (palloc_ok h pool psize bs ls Hi true m Hm) as (r & h1 & bs1 & ls1 & Hrun & Hok & _ & Href).
  destruct (palloc_ok h1 pool psize bs1 ls1 (ao_inv _ _ _ _ _ _ _ _ _ _ Hok) true (n * size) ltac:(nia)) as (e & h2 & bs2 & ls2 & Hrun2 & Hok2 & _ & Href2).
  exists r, h1, bs1, ls1. split_and!; [done|done|done|]. exists e, h2, bs2, ls2. split_and!; [|done|done]. rewrite u64_small by nia. exact Hrun2.
Qed.

Lemma array_new_ok h1 bs1 ls1 e : alloc_ok pool psize h bs ls e (n * size) h1 bs1 ls1 -> e <> NULL ->
  array_ok h1 pool bs1 ls1 (mk_array e 0 size n pool) /\ forall x, in_array (mk_array e 0 size n pool) x -> ~ used h bs ls x.
Proof using Hn Hs Hf.
  intros [Hi1 Hk Hg _ _] He. destruct (Hg He) as [H0 Hgiven]. unfold in_array. cbn. split.
  - split; cbn; try done. unfold in_array. cbn. intros x Hx. apply (Hgiven x). lia.
  - intros x Hx. apply (Hgiven x). lia.
Qed.
End New.

(** An allocation from the first block, if that is the current one and has room. *)
Lemma palloc_here {HM : Malloc} h pool psize bs ls r d k (m := ngx_align_ptr (d_last d) NGX_ALIGNMENT) : pool_inv h pool psize bs ls ->
  h_pool h !! pool = Some r -> p_current r = pool -> h_data h !! pool = Some d -> 0 <= k <= p_max r -> m + k <= d_end d ->
  ngx_palloc pool k h = Some (m, bumped h pool d (m + k)) /\ d_last d <= m /\ m mod 8 = 0 /\ 0 < m.
Proof.
  intros Hi Hr Hcur Hd Hk Hm. destruct (last_in_block _ _ _ _ _ _ _ Hi (pool_in _ _ _ _ _ Hi) Hd) as (H0 & Hle & _ & Hmod & Hend).
  destruct (align_ptr_bounds (d_last d) (d_end d)) as [Hb Hm8]; [lia | done | done |]. fold m in Hb, Hm8.
  split_and!; [|lia|done|lia]. unfold ngx_palloc, palloc_rec at 1. unfold bind at 1. unfold rd at 1. rewrite Hr.
  destruct (Z.leb_spec k (p_max r)); [|lia]. rewrite Hcur. unfold bind at 1, blocks at 1.
  destruct (size (h_data h)) as [|fuel] eqn:Esz; [apply map_size_empty_inv in Esz; by rewrite Esz, lookup_empty in Hd|].
  unfold bind at 1. rewrite (find_room_step h true k fuel pool d Hd). cbv zeta. fold m.
  rewrite u64_small by lia. destruct (Z.leb_spec k (d_end d - m)); [done|lia].
Qed.

(** An array created and destroyed leaves the end of the block where it was, but for the alignment. *)
Lemma create_destroy {HM : Malloc} h pool psize bs ls r d n size (m := ngx_align_ptr (d_last d) NGX_ALIGNMENT) : pool_inv h pool psize bs ls ->
  h_pool h !! pool = Some r -> p_current r = pool -> h_data h !! pool = Some d ->
  sizeof_ngx_array_t <= p_max r -> 0 <= n * size <= p_max r -> m + sizeof_ngx_array_t + n * size <= d_end d ->
  (let! ra := ngx_array_create pool n size in ngx_array_destroy ra.1 ra.2)%prog h = Some (tt, bumped h pool d m).
Proof.
  intros Hi Hr Hcur Hd Hmax Hk Hend. unfold sizeof_ngx_array_t in *.
  destruct (palloc_here h pool psize bs ls r d 40 Hi Hr Hcur Hd) as (Hrun & Hm & Hm8 & Hm0); [lia | fold m; lia |]. fold m in Hrun, Hm, Hm8, Hm0.
  destruct (bumped_chunk h pool psize bs ls pool d m 40 Hi (pool_in _ _ _ _ _ Hi) Hd) as [Hi1 _]; [lia | lia | lia |].
  destruct (last_in_block _ _ _ _ _ _ _ Hi (pool_in _ _ _ _ _ Hi) Hd) as (_ & _ & _ & Hmod & He64).
  assert (ngx_align_ptr (m + 40) NGX_ALIGNMENT = m + 40) as Hal.
  { pose proof (Z_div_mod_eq_full m 8). pose proof (Z_div_mod_eq_full (d_end d) 8).
    rewrite align_ptr_8; [|lia|lia]. replace (m + 40 + 7) with (7 + (m / 8 + 5) * 8) by lia. rewrite Z_div_plus by lia. change (7 / 8) with 0. lia. }
  set (h1 := bumped h pool d (m + 40)) in *. set (d1 := d <| d_last := m + 40 |>).
  assert (h_data h1 !! pool = Some d1) as Hd1 by (subst h1; cbn; by rewrite lookup_insert_eq).
  destruct (palloc_here h1 pool psize bs ls r d1 (n * size) Hi1 Hr Hcur Hd1) as (Hrun2 & _); [lia | cbn; rewrite Hal; lia |].
  change (d_last d1) with (m + 40) in Hrun2. rewrite Hal in Hrun2.
  assert (ngx_array_create pool n size h = Some ((m, mk_array (m + 40) 0 size n pool), bumped h1 pool d1 (m + 40 + n * size))) as Hcreate.
  { unfold ngx_array_create, sizeof_ngx_array_t. rewrite (bind_run _ _ _ _ _ Hrun). destruct (Z.eqb_spec m NULL); [unfold NULL in *; lia|].
    rewrite (u64_small (n * size)) by lia. rewrite (bind_run _ _ _ _ _ Hrun2). destruct (Z.eqb_spec (m + 40) NULL); [unfold NULL in *; lia|done]. }
  rewrite (bind_run _ _ _ _ _ Hcreate). unfold ngx_array_destroy, sizeof_ngx_array_t. cbn [a_pool a_size nalloc elts fst snd].
  rewrite (Z.mul_comm size n), (u64_small (n * size)) by lia.
  assert (forall last last', d_wr pool (d1 <| d_last := last' |>) (bumped h1 pool d1 last) = Some (tt, bumped h1 pool d1 last')) as Hwr.
  { intros last last'. unfold d_wr, bumped. cbn. rewrite lookup_insert_eq. by rewrite insert_insert_eq. }
  assert (forall last, rd h_data pool (bumped h1 pool d1 last) = Some (d1 <| d_last := last |>, bumped h1 pool d1 last)) as Hrd.
  { intros last. unfold rd, bumped. cbn. by rewrite lookup_insert_eq. }
  rewrite (bind_run _ _ _ _ _ (Hrd _)). cbn [d_last]. rewrite Z.eqb_refl.
  erewrite (bind_run _ _ _ tt (bumped h1 pool d1 (m + 40))) by (rewrite <- (Hwr (m + 40 + n * size)); f_equal; cbn; f_equal; lia).
  rewrite (bind_run _ _ _ _ _ (Hrd _)). cbn [d_last]. rewrite Z.eqb_refl.
  etransitivity; [exact (Hwr (m + 40) m)|]. unfold h1, bumped. cbn. by rewrite insert_insert_eq.
Qed.

(** ** Lists *)

(** The memory of the part at [e], and the addresses of the elements. *)
Definition piece (l : ngx_list_t) (e x : Z) : Prop := e <= x < e + li_size l * li_nalloc l.
Definition part_elements (size : Z) (p : ptr * Z) : list ptr := (fun i => p.1 + size * Z.of_nat i) <$> seq 0 (Z.to_nat p.2).
Definition elements (l : ngx_list_t) : list ptr := parts l ≫= part_elements (li_size l).

Record list_ok (h : heap) (pool : ptr) (bs ls : list ptr) (l : ngx_list_t) : Prop := {
  lo_pool : li_pool l = pool;
  lo_size : 0 < li_size l;
  lo_nalloc : 0 < li_nalloc l;
  lo_fits : 2 * li_size l * li_nalloc l < 2 ^ 64;
  lo_parts : parts l <> [];
  lo_part i e n : parts l !! i = Some (e, n) -> 0 < e /\ 0 <= n <= li_nalloc l /\ forall x, piece l e x -> used h bs ls x;
  lo_apart i j e n e' n' x : i <> j -> parts l !! i = Some (e, n) -> parts l !! j = Some (e', n') -> piece l e x -> piece l e' x -> False
}.

Definition apart (size : Z) (r r' : ptr) : Prop := r' + size <= r \/ r + size <= r'.

(** The element [r] is new; every other one stays where it is. *)
Record list_pushed (h : heap) (pool : ptr) (bs ls : list ptr) (l : ngx_list_t) (r : ptr) (h' : heap) (bs' ls' : list ptr) (l' : ngx_list_t) : Prop := {
  lp_ok : list_ok h' pool bs' ls' l';
  lp_same : li_size l' = li_size l /\ li_nalloc l' = li_nalloc l;
  lp_elements : elements l' = elements l ++ [r];
  lp_used x : r <= x < r + li_size l -> used h' bs' ls' x;
  lp_apart r' : r' ∈ elements l -> apart (li_size l) r r'
}.

Lemma part_elements_push size e n : 0 <= n -> part_elements size (e, n + 1) = part_elements size (e, n) ++ [e + size * n].
Proof.
  intros Hn. unfold part_elements. cbn [fst snd]. replace (Z.to_nat (n + 1)) with (S (Z.to_nat n)) by lia.
  rewrite seq_S, fmap_app. cbn. by rewrite Z2Nat.id by lia.
Qed.

Lemma elem_of_elements l r : r ∈ elements l -> exists i e n k, parts l !! i = Some (e, n) /\ 0 <= k < n /\ r = e + li_size l * k.
Proof.
  unfold elements. rewrite list_elem_of_bind. intros ([e n] & Hr & [i Hi]%list_elem_of_lookup).
  unfold part_elements in Hr. apply list_elem_of_fmap in Hr as (k & -> & Hk%elem_of_seq). cbn in *. exists i, e, n, (Z.of_nat k). split_and!; [done|lia|lia|done].
Qed.

Section ListPush.
Context {HM : Malloc} {HMok : MallocOk HM}.
Context (h : heap) (pool psize : Z) (bs ls : list ptr) (Hi : pool_inv h pool psize bs ls).
Context (l : ngx_list_t) (Hl : list_ok h pool bs ls l).

(** An element of the memory of another part. *)
Lemma element_apart i e n r : (forall j e' n' x, parts l !! j = Some (e', n') -> piece l e' x -> piece l e x -> j = i) ->
  0 <= n < li_nalloc l -> (forall e' n', parts l !! i = Some (e', n') -> e' = e /\ n' = n) ->
  r ∈ elements l -> apart (li_size l) (e + li_size l * n) r.
Proof using Hl.
  intros Hother Hn Hlast Hr. destruct (elem_of_elements l r Hr) as (j & e' & n' & k & Hj & Hk & ->).
  destruct (lo_part _ _ _ _ _ Hl j e' n' Hj) as (He' & Hn' & _). pose proof (lo_size _ _ _ _ _ Hl) as Hs.
  destruct (decide (j = i)) as [->|Hne].
  - destruct (Hlast e' n' Hj) as [-> ->]. left. nia.
  - destruct (Z_le_dec (e' + li_size l * k + li_size l) (e + li_size l * n)) as [|H1]; [by left|].
    destruct (Z_le_dec (e + li_size l * n + li_size l) (e' + li_size l * k)) as [|H2]; [by right|].
    destruct Hne. apply (Hother j e' n' (Z.max (e' + li_size l * k) (e + li_size l * n)) Hj); unfold piece.
    + assert (li_size l * k + li_size l <= li_size l * li_nalloc l) by nia. nia.
    + assert (li_size l * n + li_size l <= li_size l * li_nalloc l) by nia. nia.
Qed.

(** There is room in the last part. *)
Lemma list_push_room ps e n : parts l = ps ++ [(e, n)] -> n < li_nalloc l ->
  list_pushed h pool bs ls l (e + li_size l * n) h bs ls (l <| parts := ps ++ [(e, n + 1)] |>).
Proof using Hi Hl.
  intros Hps Hn. pose proof Hl as [Hpool Hs Hna Hf Hne Hpart Hap].
  assert (parts l !! length ps = Some (e, n)) as Hlast by (rewrite Hps; by apply list_lookup_middle).
  destruct (Hpart _ _ _ Hlast) as (He & Hn0 & Hu).
  assert (forall j e' n', (ps ++ [(e, n + 1)]) !! j = Some (e', n') -> exists n0, parts l !! j = Some (e', n0) /\ (n' = n0 \/ (n' = n + 1))) as Hold.
  { intros j e' n'. rewrite Hps. destruct (decide (j < length ps)%nat).
    - rewrite !lookup_app_l by done. intros ?. exists n'. split; [done|by left].
    - rewrite !lookup_app_r by lia. intros [Hj Heq]%list_lookup_singleton_Some. exists n. rewrite Hj. cbn. simplify_eq. split; [done|by right]. }
  split; rsimpl; try done.
  - split; rsimpl; try done; unfold piece; rsimpl.
    + by destruct ps.
    + intros i e' n' Hi'. destruct (Hold _ _ _ Hi') as (n0 & Hi0 & Hor). destruct (Hpart _ _ _ Hi0) as (? & ? & Hu'). split_and!; [done|lia|lia|exact Hu'].
    + intros i j e1 n1 e2 n2 x Hij H1 H2. destruct (Hold _ _ _ H1) as (? & H1' & _). destruct (Hold _ _ _ H2) as (? & H2' & _). by apply (Hap i j e1 _ e2 _ x Hij H1' H2').
  - unfold elements. rsimpl. rewrite Hps, !bind_app. cbn [mbind list_bind]. rewrite part_elements_push by lia. rewrite !app_nil_r. by rewrite app_assoc.
  - intros x Hx. apply Hu. unfold piece. nia.
  - intros r' Hr'. apply (element_apart (length ps) e n r'); [|lia|by rewrite Hlast; intros ? ? [= <- <-]|done].
    intros j e' n' x Hj Hx1 Hx2. destruct (decide (j = length ps)); [done|]. by destruct (Hap j (length ps) e' n' e n x).
Qed.

(** A new part at [e]. *)
Lemma list_push_part h1 bs1 ls1 h2 bs2 ls2 e : kept h bs ls h1 bs1 ls1 ->
  alloc_ok pool psize h1 bs1 ls1 e (li_nalloc l * li_size l) h2 bs2 ls2 -> e <> NULL ->
  list_pushed h pool bs ls l e h2 bs2 ls2 (l <| parts := parts l ++ [(e, 1)] |>).
Proof using Hi Hl.
  intros Hk1 [Hi2 Hk2 Hg _ _] He. pose proof Hl as [Hpool Hs Hna Hf Hne Hpart Hap]. destruct (Hg He) as [H0 Hgiven].
  assert (forall i e' n' x, parts l !! i = Some (e', n') -> piece l e' x -> piece l e x -> False) as Hnew.
  { intros i e' n' x Hi' Hx1 Hx2. destruct (Hgiven x) as [_ []]; [unfold piece in Hx2; lia|]. apply Hk1. by apply (Hpart _ _ _ Hi'). }
  split; rsimpl; try done.
  - split; rsimpl; try done; unfold piece; rsimpl.
    + by destruct (parts l).
    + intros i e' n'. rewrite lookup_app_Some. intros [Hi'|[_ [_ Heq]%list_lookup_singleton_Some]].
      * destruct (Hpart _ _ _ Hi') as (? & ? & Hu'). split_and!; [done|lia|lia|]. intros x Hx. by apply Hk2, Hk1, Hu'.
      * simplify_eq. split_and!; [done|lia|lia|]. intros x Hx. apply (Hgiven x). lia.
    + intros i j e1 n1 e2 n2 x Hij. rewrite !lookup_app_Some. intros [H1|[? [? Heq1]%list_lookup_singleton_Some]] [H2|[? [? Heq2]%list_lookup_singleton_Some]].
      * by apply (Hap i j e1 n1 e2 n2 x).
      * simplify_eq. intros Hx1 Hx2. by apply (Hnew _ _ _ x H1).
      * simplify_eq. intros Hx1 Hx2. by apply (Hnew _ _ _ x H2).
      * lia.
  - unfold elements. rsimpl. rewrite bind_app. f_equal. unfold part_elements. cbn [mbind list_bind fst snd]. change (Z.to_nat 1) with 1%nat. cbn -[Z.add Z.mul]. f_equal. lia.
  - intros x Hx. apply (Hgiven x). nia.
  - intros r' Hr'. replace e with (e + li_size l * 0) by lia.
    apply (element_apart (length (parts l)) e 0 r'); [|lia|by intros ? ? ?%lookup_lt_Some; lia|done].
    intros j e' n' x Hj Hx1 Hx2. by destruct (Hnew j e' n' x).
Qed.

Lemma list_push_ok :
  exists r l' h' bs' ls', ngx_list_push l h = Some ((r, l'), h') /\ pool_inv h' pool psize bs' ls' /\ kept h bs ls h' bs' ls' /\ h_mem h' = h_mem h /\
    ((r = NULL /\ l' = l /\ refused_two h pool psize sizeof_ngx_list_part_t (li_nalloc l * li_size l)) \/
     (0 < r /\ list_pushed h pool bs ls l r h' bs' ls' l')).
Proof using HMok Hi Hl.
  pose proof Hl as [Hpool Hs Hna Hf Hne Hpart Hap]. destruct (exists_last Hne) as (ps & [e n] & Hps).
  assert (parts l !! length ps = Some (e, n)) as Hlast by (rewrite Hps; by apply list_lookup_middle).
  destruct (Hpart _ _ _ Hlast) as (He & Hn & _). assert (last (parts l) = Some (e, n)) as Hend by (rewrite Hps; apply last_snoc). unfold ngx_list_push. rewrite Hend.
  destruct (Z.eqb_spec n (li_nalloc l)) as [->|Hroom].
  - destruct (palloc_two h pool psize bs ls Hi (li_nalloc l) (li_size l) ltac:(lia) Hs Hf sizeof_ngx_list_part_t)
      as (r1 & h1 & bs1 & ls1 & Hrun1 & Hok1 & Href1 & e2 & h2 & bs2 & ls2 & Hrun2 & Hok2 & Href2); [unfold sizeof_ngx_list_part_t; lia|].
    rewrite Hpool, (bind_run _ _ _ _ _ Hrun1). destruct Hok1 as [Hi1 Hk1 _ Hm1 _]. destruct (Z.eqb_spec r1 NULL).
    + exists NULL, l, h1, bs1, ls1. split_and!; [done..|left; split_and!; [done|done|left; by apply Href1]].
    + rewrite (bind_run _ _ _ _ _ Hrun2). destruct (Z.eqb_spec e2 NULL) as [|He2].
      * exists NULL, l, h2, bs2, ls2. split_and!; [done|apply Hok2|intros x Hx; by apply (ao_kept _ _ _ _ _ _ _ _ _ _ Hok2), Hk1|by rewrite (ao_mem _ _ _ _ _ _ _ _ _ _ Hok2)|left; split_and!; [done|done|right; exists r1, h1; split_and!; [done|done|by apply Href2]]].
      * exists e2, (l <| parts := parts l ++ [(e2, 1)] |>), h2, bs2, ls2. split_and!; [done|apply Hok2|intros x Hx; by apply (ao_kept _ _ _ _ _ _ _ _ _ _ Hok2), Hk1|by rewrite (ao_mem _ _ _ _ _ _ _ _ _ _ Hok2)|right].
        split; [by apply (ao_given _ _ _ _ _ _ _ _ _ _ Hok2)|]. by eapply list_push_part.
  - exists (e + li_size l * n), (l <| parts := ps ++ [(e, n + 1)] |>), h, bs, ls. split_and!; [|done|by intros ?|done|right].
    + unfold ret. rewrite Hps, length_app. cbn [length]. replace (length ps + 1 - 1)%nat with (length ps + 0)%nat by lia.
      rewrite insert_app_r. cbn [insert list_insert]. rewrite u64_small by nia. done.
    + split; [nia|]. apply list_push_room; [done|lia].
Qed.
End ListPush.

(** ** What is made *)

(** The structure of [k] bytes at [r] and the memory [mem] were not in use, are now, and do not overlap. *)
Record placed (h : heap) (bs ls : list ptr) (h' : heap) (bs' ls' : list ptr) (r k : Z) (mem : Z -> Prop) : Prop := {
  pl_used x : r <= x < r + k \/ mem x -> used h' bs' ls' x /\ ~ used h bs ls x;
  pl_apart x : r <= x < r + k -> ~ mem x
}.
Definition new_array (h' : heap) (pool : ptr) (bs' ls' : list ptr) (n size : Z) (a : ngx_array_t) : Prop :=
  array_ok h' pool bs' ls' a /\ nelts a = 0 /\ nalloc a = n /\ a_size a = size.
Definition new_list (h' : heap) (pool : ptr) (bs' ls' : list ptr) (n size : Z) (l : ngx_list_t) : Prop :=
  list_ok h' pool bs' ls' l /\ elements l = [] /\ li_nalloc l = n /\ li_size l = size.
Definition list_mem (l : ngx_list_t) (x : Z) : Prop := exists p, p ∈ parts l /\ piece l p.1 x.

(** [run] makes a thing [t] and gives its address, or NULL and nothing has changed but for memory given out. *)
Definition made {HM : Malloc} {T} (h : heap) (pool psize : Z) (bs ls : list ptr) (k m : Z) (new : heap -> list ptr -> list ptr -> T -> Prop) (mem : T -> Z -> Prop)
    (run : option (ptr * T * heap)) : Prop :=
  exists r t h' bs' ls', run = Some ((r, t), h') /\ pool_inv h' pool psize bs' ls' /\ kept h bs ls h' bs' ls' /\ h_mem h' = h_mem h /\
    ((r = NULL /\ refused_two h pool psize k m) \/ (0 < r /\ new h' bs' ls' t /\ placed h bs ls h' bs' ls' r k (mem t))).

Section Made.
Context {HM : Malloc} {HMok : MallocOk HM}.
Context (h : heap) (pool psize : Z) (bs ls : list ptr) (Hi : pool_inv h pool psize bs ls).
Context (n size : Z) (Hn : 0 <= n) (Hs : 0 < size) (Hf : 2 * size * n < 2 ^ 64).

(** A structure of [k] bytes, then its memory, in two allocations. *)
Lemma made_two {T} k none (f : ptr -> T) new mem : 0 <= k ->
  (forall h1 bs1 ls1 e h2 bs2 ls2, alloc_ok pool psize h1 bs1 ls1 e (n * size) h2 bs2 ls2 -> e <> NULL ->
     new h2 bs2 ls2 (f e) /\ forall x, mem (f e) x <-> e <= x < e + n * size) ->
  made h pool psize bs ls k (n * size) new mem
    ((let! a := ngx_palloc pool k in
      if a =? NULL then ret (NULL, none)
      else let! p := ngx_palloc pool (u64 (n * size)) in if p =? NULL then ret (NULL, none) else ret (a, f p))%prog h).
Proof using HMok Hi Hn Hs Hf.
  intros Hk Hnew. destruct (palloc_two h pool psize bs ls Hi n size Hn Hs Hf k Hk) as (r & h1 & bs1 & ls1 & Hrun1 & Hok1 & Href1 & e & h2 & bs2 & ls2 & Hrun2 & Hok2 & Href2).
  unfold made. rewrite (bind_run _ _ _ _ _ Hrun1). pose proof Hok1 as [Hi1 Hk1 Hg1 Hm1 _]. destruct (Z.eqb_spec r NULL) as [|Hr].
  { exists NULL, none, h1, bs1, ls1. split_and!; [done..|left; split; [done|left; by apply Href1]]. }
  rewrite (bind_run _ _ _ _ _ Hrun2). pose proof Hok2 as [Hi2 Hk2 Hg2 Hm2 _].
  assert (kept h bs ls h2 bs2 ls2) as Hk12 by (intros x Hx; by apply Hk2, Hk1).
  destruct (Z.eqb_spec e NULL) as [|He].
  { exists NULL, none, h2, bs2, ls2. split_and!; [done..|by rewrite Hm2|left; split; [done|right; exists r, h1; split_and!; [done|done|by apply Href2]]]. }
  exists r, (f e), h2, bs2, ls2. split_and!; [done..|by rewrite Hm2|right].
  destruct (Hnew _ _ _ _ _ _ _ Hok2 He) as [Hn' Hmem]. destruct (Hg1 Hr) as [H0 Hg1']. destruct (Hg2 He) as [_ Hg2'].
  split_and!; [done|done|]. split.
  - intros x [Hx|Hx%Hmem]; [split; [by apply Hk2, Hg1' | by apply Hg1']|]. destruct (Hg2' x Hx) as [Hu Hnu]. split; [done|]. intros Hu0. by apply Hnu, Hk1.
  - intros x Hx Hx2%Hmem. destruct (Hg2' x Hx2) as [_ []]. by apply Hg1'.
Qed.

Lemma array_create_ok :
  made h pool psize bs ls sizeof_ngx_array_t (n * size) (fun h' bs' ls' => new_array h' pool bs' ls' n size) in_array (ngx_array_create pool n size h).
Proof using HMok Hi Hn Hs Hf.
  apply (made_two sizeof_ngx_array_t (mk_array NULL 0 0 0 NULL) (fun p => mk_array p 0 size n pool)); [done|].
  intros h1 bs1 ls1 e h2 bs2 ls2 Hok He. split.
  - by destruct (array_new_ok h1 pool psize bs1 ls1 n size Hn Hs Hf h2 bs2 ls2 e Hok He).
  - intros x. unfold in_array. cbn. lia.
Qed.

Lemma list_create_ok : 0 < n ->
  made h pool psize bs ls sizeof_ngx_list_t (n * size) (fun h' bs' ls' => new_list h' pool bs' ls' n size) list_mem (ngx_list_create pool n size h).
Proof using HMok Hi Hn Hs Hf.
  intros Hn0. apply (made_two sizeof_ngx_list_t (mk_list [] 0 0 NULL) (fun p => mk_list [(p, 0)] size n pool)); [done|].
  intros h1 bs1 ls1 e h2 bs2 ls2 [Hi2 Hk Hg _ _] He. destruct (Hg He) as [H0 Hgiven]. split.
  - split_and!; try done. split; cbn; try done; unfold piece; cbn.
    + intros i e' n' [-> [= <- <-]]%list_lookup_singleton_Some. split_and!; [done|lia|lia|]. intros x Hx. apply Hgiven. lia.
    + intros i j e1 n1 e2 n2 x Hij [-> _]%list_lookup_singleton_Some [-> _]%list_lookup_singleton_Some. done.
  - intros x. unfold list_mem, piece. cbn. split.
    + intros (q & ->%list_elem_of_singleton & Hx). cbn in Hx. lia.
    + intros Hx. exists (e, 0). split; [by apply list_elem_of_singleton|]. cbn. lia.
Qed.

(** [ngx_array_init] and [ngx_list_init] are given the structure. *)
Lemma array_init_ok list :
  (exists ok a h' bs' ls', ngx_array_init pool n size h = Some ((ok, a), h') /\ pool_inv h' pool psize bs' ls' /\ kept h bs ls h' bs' ls' /\
     (ok = false -> refused h psize (n * size)) /\ (ok = true -> new_array h' pool bs' ls' n size a /\ forall x, in_array a x -> ~ used h bs ls x) /\
     ngx_list_init list pool n size h = Some (if ok then (true, mk_list [(elts a, 0)] size n pool) else (false, list), h')).
Proof using HMok Hi Hn Hs Hf.
  destruct (palloc_ok h pool psize bs ls Hi true (n * size) ltac:(nia)) as (e & h' & bs' & ls' & Hrun & Hok & _ & Href).
  assert (ngx_palloc pool (u64 (n * size)) h = Some (e, h')) as Hrun' by (rewrite u64_small by nia; exact Hrun).
  exists (negb (e =? NULL)), (mk_array e 0 size n pool), h', bs', ls'. split_and!; [|apply Hok|apply Hok|by destruct (Z.eqb_spec e NULL); [intros _; apply Href|]| |].
  - unfold ngx_array_init. by rewrite (bind_run _ _ _ _ _ Hrun').
  - intros He. destruct (array_new_ok h pool psize bs ls n size Hn Hs Hf h' bs' ls' e Hok) as [Hnew Hfresh]; [by destruct (Z.eqb_spec e NULL)|]. done.
  - unfold ngx_list_init. rewrite (bind_run _ _ _ _ _ Hrun'). by destruct (Z.eqb_spec e NULL).
Qed.
End Made.

(** An array for no elements, not the last thing in the first block, gets an element and has room for none. *)
Lemma push_zero {HM : Malloc} {HMok : MallocOk HM} h pool psize bs ls a d : pool_inv h pool psize bs ls -> array_ok h pool bs ls a -> nalloc a = 0 ->
  h_data h !! pool = Some d -> elts a <> d_last d ->
  exists r a' h', ngx_array_push a h = Some ((r, a'), h') /\ (r = NULL \/ (r = elts a' /\ nelts a' = 1 /\ nalloc a' = 0)).
Proof.
  intros Hi Ha Hz Hd He. pose proof Ha as [Hpool H0 Hs Hr Hf Hu].
  destruct (palloc_ok h pool psize bs ls Hi true 0 ltac:(lia)) as (new & h1 & bs' & ls' & Hrun & _).
  change (ngx_palloc pool 0 h = Some (new, h1)) in Hrun. assert (nelts a = 0) as Hn by lia. unfold ngx_array_push. rewrite Hn, Hz, Hpool, Z.mul_0_r, Z.add_0_r. cbn [Z.eqb].
  unfold bind at 1 2. unfold rd at 1. rewrite Hd. destruct (Z.eqb_spec (elts a) (d_last d)); [done|]. cbn [andb].
  change (u64 (2 * u64 0)) with 0. unfold bind at 1. rewrite Hrun. destruct (Z.eqb_spec new NULL) as [->|Hnew].
  - eexists _, _, _. split; [reflexivity|by left].
  - eexists _, _, _. split; [reflexivity|right]. cbn. split_and!; [lia|by rewrite Hn|done].
Qed.

(** * The theorem *)

(** C8.  Arrays and lists in a well-formed pool, with elements of which twice as many bytes as the array has (and twice
    those asked for) can be counted in 64 bits.  [ngx_array_create], [ngx_array_init], [ngx_list_create] and
    [ngx_list_init] give memory that was not in use.  If the first block of the pool is the one allocations come from
    and has room for both, an array created and destroyed again leaves the pool as it was, but for the end of that
    block, which is aligned.  [ngx_array_push] (with room for an element at least) and [ngx_array_push_n] return NULL and change nothing of
    the array, or the place of the new elements behind the old ones, inside memory of the array: the old elements keep
    their contents, no byte in use is written, and what the array has more was not in use, whether it grew in place or
    moved.  [ngx_list_push] moves no element, and the new one overlaps none of the others.  Where one of them fails, the
    C library has refused memory.  But an array for no elements, which is not the last thing in the first block, hands
    out an element that it has no memory for. *)
Theorem array_correct {HM : Malloc} {HMok : MallocOk HM} h pool psize bs ls :
  pool_inv h pool psize bs ls ->
  (forall n size, 0 <= n -> 0 < size -> 2 * size * n < 2 ^ 64 ->
     made h pool psize bs ls sizeof_ngx_array_t (n * size) (fun h' bs' ls' => new_array h' pool bs' ls' n size) in_array (ngx_array_create pool n size h) /\
     (0 < n -> made h pool psize bs ls sizeof_ngx_list_t (n * size) (fun h' bs' ls' => new_list h' pool bs' ls' n size) list_mem (ngx_list_create pool n size h)) /\
     forall list, exists ok a h' bs' ls', ngx_array_init pool n size h = Some ((ok, a), h') /\
       pool_inv h' pool psize bs' ls' /\ kept h bs ls h' bs' ls' /\
       (ok = false -> refused h psize (n * size)) /\ (ok = true -> new_array h' pool bs' ls' n size a /\ forall x, in_array a x -> ~ used h bs ls x) /\
       ngx_list_init list pool n size h = Some (if ok then (true, mk_list [(elts a, 0)] size n pool) else (false, list), h')) /\
  (forall r d n size (m := ngx_align_ptr (d_last d) NGX_ALIGNMENT), h_pool h !! pool = Some r -> p_current r = pool -> h_data h !! pool = Some d ->
     sizeof_ngx_array_t <= p_max r -> 0 <= n * size <= p_max r -> m + sizeof_ngx_array_t + n * size <= d_end d ->
     (let! ra := ngx_array_create pool n size in ngx_array_destroy ra.1 ra.2)%prog h = Some (tt, bumped h pool d m)) /\
  (forall a, array_ok h pool bs ls a ->
     (0 < nalloc a -> push_result h pool psize bs ls a 1 (2 * (a_size a * nalloc a)) (ngx_array_push a h)) /\
     (forall k, 0 <= k -> 2 * k * a_size a < 2 ^ 64 -> push_result h pool psize bs ls a k (2 * Z.max k (nalloc a) * a_size a) (ngx_array_push_n a k h)) /\
     (forall d, nalloc a = 0 -> h_data h !! pool = Some d -> elts a <> d_last d ->
        exists r a' h', ngx_array_push a h = Some ((r, a'), h') /\ (r = NULL \/ (r = elts a' /\ nelts a' = 1 /\ nalloc a' = 0)))) /\
  (forall l, list_ok h pool bs ls l ->
     exists r l' h' bs' ls', ngx_list_push l h = Some ((r, l'), h') /\ pool_inv h' pool psize bs' ls' /\ kept h bs ls h' bs' ls' /\
       h_mem h' = h_mem h /\
       ((r = NULL /\ l' = l /\ refused_two h pool psize sizeof_ngx_list_part_t (li_nalloc l * li_size l)) \/ (0 < r /\ list_pushed h pool bs ls l r h' bs' ls' l'))).
Proof.
  intros Hi. split_and!.
  - intros n size Hn Hs Hf. split_and!; [by apply array_create_ok | by apply list_create_ok | by apply array_init_ok].
  - intros r d n size m. by apply create_destroy with psize bs ls.
  - intros a Ha. split_and!; [by apply array_push_ok | by apply array_push_n_ok | by intros d; apply push_zero with psize bs ls].
  - by apply list_push_ok.
Qed.

(** * Witnesses *)
Local Existing Instance bump_malloc.
Local Existing Instance bump_malloc_ok.

(** The pool of 128 bytes at 16 with an array of one element of 8 bytes, which is in use. *)
Definition full_array : ngx_array_t := mk_array 136 1 8 1 16.
Definition full_list : ngx_list_t := mk_list [(136, 1)] 8 1 16.
Definition array_heap : heap := bumped pool_heap 16 (mk_data 96 144 NULL 0) (96 + 48).

Lemma array_heap_inv : pool_inv array_heap 16 128 [16] [].
Proof. apply (bumped_chunk pool_heap 16 128 [16] [] 16 (mk_data 96 144 NULL 0) 96 48); [apply pool_heap_inv | set_solver | done | done | done | done]. Qed.
Lemma array_heap_used x : 136 <= x < 144 -> used array_heap [16] [] x.
Proof. intros Hx. left. exists 16, (mk_data 144 144 NULL 0). split_and!; [set_solver | done | lia | cbn; lia]. Qed.

Lemma full_array_ok : array_ok array_heap 16 [16] [] full_array.
Proof. split; cbn; try done. intros x Hx. apply array_heap_used. unfold in_array in Hx. cbn in Hx. lia. Qed.
Lemma full_list_ok : list_ok array_heap 16 [16] [] full_list.
Proof.
  split; cbn; try done.
  - intros i e n [-> [= <- <-]]%list_lookup_singleton_Some. split_and!; [done..|]. intros x Hx. apply array_heap_used. unfold piece in Hx. cbn in Hx. lia.
  - intros i j e1 n1 e2 n2 x Hij [-> _]%list_lookup_singleton_Some [-> _]%list_lookup_singleton_Some. done.
Qed.

(** Both are full: the array moves to a second block, and the list gets a second part. *)
Lemma array_correct_witness :
  push_result array_heap 16 128 [16] [] full_array 1 16 (ngx_array_push full_array array_heap) /\
  push_result array_heap 16 128 [16] [] full_array 3 48 (ngx_array_push_n full_array 3 array_heap) /\
  (exists r l' h' bs' ls', ngx_list_push full_list array_heap = Some ((r, l'), h') /\ pool_inv h' 16 128 bs' ls' /\ kept array_heap [16] [] h' bs' ls' /\
    h_mem h' = h_mem array_heap /\ ((r = NULL /\ l' = full_list /\ refused_two array_heap 16 128 24 8) \/ (0 < r /\ list_pushed array_heap 16 [16] [] full_list r h' bs' ls' l'))) /\
  made array_heap 16 128 [16] [] sizeof_ngx_array_t 32 (fun h' bs' ls' => new_array h' 16 bs' ls' 4 8) in_array (ngx_array_create 16 4 8 array_heap).
Proof.
  destruct (array_correct array_heap 16 128 [16] [] array_heap_inv) as (Hnew & _ & Hpush & Hlist).
  destruct (Hpush full_array full_array_ok) as (Hone & Hmany & _). split_and!.
  - apply Hone. done.
  - apply Hmany; done.
  - apply Hlist, full_list_ok.
  - apply Hnew; done.
Defined.

(** The first element of an array for no elements is where the next allocation is. *)
Example zero_array_overlaps :
  fst <$> (let! a := ngx_array_init 16 0 8 in
           let! q := ngx_palloc 16 4 in
           let! r := ngx_array_push a.2 in
           let! s := ngx_palloc 16 4 in
           ret (elts a.2, q, r.1, s))%prog pool_heap = Some (96, 96, 104, 104).
Proof. reflexivity. Qed.
End Array.
