(* ===== verification/Inet.v ===== *)
(** Internet addresses as text: nginx/src/core/ngx_inet.c. *)
From stdpp Require Import base list numbers strings.
From S2P Require Import Prelude Str Sprintf.
Local Open Scope Z_scope.

Module Inet.

Definition INADDR_NONE : Z := 0xffffffff.
Definition AF_INET : Z := 2.

(** [htonl] on a little-endian machine. *)
Definition htonl (x : Z) : Z :=
  let b i := Z.land (Z.shiftr x (8 * i)) 255 in
  Z.lor (Z.shiftl (b 0) 24) (Z.lor (Z.shiftl (b 1) 16) (Z.lor (Z.shiftl (b 2) 8) (b 3))).

(** The bytes of a 32-bit value in memory. *)
Definition bytes_of_u32 (x : Z) : list Z :=
  [x mod 256; (x / 256) mod 256; (x / 65536) mod 256; (x / 16777216) mod 256].

Definition is_digit (c : Z) : bool := (48 <=? c) && (c <=? 57).
Definition dot : Z := 46.

(** The loop of [ngx_inet_addr]: [addr] is 32-bit, [octet] and [n] 64-bit. *)
Fixpoint inet_addr_loop (text : list Z) (addr octet n : Z) : option (Z * Z * Z) :=
  match text with
  | [] => Some (addr, octet, n)
  | c :: text =>
      if is_digit c then inet_addr_loop text addr (u64 (octet * 10 + (c - 48))) n
      else if (c =? dot) && (octet <? 256)
      then inet_addr_loop text (u32 (Z.shiftl addr 8 + octet)) 0 (u64 (n + 1))
      else None
  end.

Definition ngx_inet_addr (text : list Z) : Z :=
  match inet_addr_loop text 0 0 0 with
  | None => INADDR_NONE
  | Some (addr, octet, n) =>
      if negb (n =? 3) then INADDR_NONE
      else if octet <? 256 then htonl (u32 (Z.shiftl addr 8 + octet))
      else INADDR_NONE
  end.

(** * Printing *)

(** ["%ud"]: no width, decimal. *)
Definition sprintf_ud (ui : Z) : list Z := Str.num_digits ui 0.

(** ["%ud.%ud.%ud.%ud"] *)
Definition sprintf_quad (p : list Z) : list Z :=
  match p with
  | [p0; p1; p2; p3] =>
      sprintf_ud p0 ++ dot :: sprintf_ud p1 ++ dot :: sprintf_ud p2 ++ dot :: sprintf_ud p3
  | _ => []
  end.

(** [ngx_snprintf] writes at most [len] bytes. *)
Definition snprintf (len : Z) (s : list Z) : list Z := take (Z.to_nat len) s.

Definition ntohs (x : Z) : Z := Z.lor (Z.shiftl (Z.land x 255) 8) (Z.shiftr x 8).

(** A [struct sockaddr_in]: family, port (network order), address bytes. *)
Record sockaddr_in := mk_sin { sin_family : Z; sin_port : Z; sin_addr : list Z }.

(** [ngx_sock_ntop] for [AF_INET]; other families have no [sockaddr_in].  The
    result is the text written, whose length the function returns. *)
Definition ngx_sock_ntop (sa : sockaddr_in) (len : Z) (port : bool) : list Z :=
  if sin_family sa =? AF_INET then
    if port
    then snprintf len (sprintf_quad (sin_addr sa) ++ 58 :: sprintf_ud (ntohs (sin_port sa)))
    else snprintf len (sprintf_quad (sin_addr sa))
  else [].

Definition ngx_inet_ntop (family : Z) (addr : list Z) (len : Z) : list Z :=
  if family =? AF_INET then snprintf len (sprintf_quad addr) else [].

(** * Reading what was printed *)

Lemma inet_digit addr n d l v :
  0 <= d < 10 -> 0 <= v -> v * 10 + d < 2 ^ 64 ->
  inet_addr_loop ((d + 48) :: l) addr v n = inet_addr_loop l addr (v * 10 + d) n.
Proof.
  intros Hd Hv Hb. cbn [inet_addr_loop]. unfold is_digit.
  destruct (Z.leb_spec 48 (d + 48)); [|lia]. destruct (Z.leb_spec (d + 48) 57); [|lia]. cbn [andb].
  narrow. f_equal. lia.
Qed.

Lemma dec_loop_app fuel ui p rest : Str.dec_loop fuel ui p ++ rest = Str.dec_loop fuel ui (p ++ rest).
Proof.
  revert ui p. induction fuel as [|fuel IH]; intros ui p; cbn [Str.dec_loop]; [done|].
  case_match; [done|]. by rewrite IH.
Qed.

Lemma sprintf_ud_dec p : 0 <= p < 256 -> sprintf_ud p = Str.dec_loop Str.NGX_INT64_LEN p [].
Proof.
  intros Hp. unfold sprintf_ud, Str.num_digits, Str.NGX_MAX_UINT32_VALUE. cbn [Z.eqb].
  destruct (Z.leb_spec p 0xffffffff); [|lia]. by narrow.
Qed.

Lemma read_octet p rest addr n :
  0 <= p < 256 -> inet_addr_loop (sprintf_ud p ++ rest) addr 0 n = inet_addr_loop rest addr p n.
Proof.
  intros Hp. rewrite sprintf_ud_dec by done. rewrite dec_loop_app.
  apply (Str.dec_loop_read (fun l v => inet_addr_loop l addr v n) (2 ^ 64)); [|unfold Str.NGX_INT64_LEN; lia..].
  intros. by apply inet_digit.
Qed.

Lemma read_dot p rest addr n :
  0 <= p < 256 -> 0 <= addr < 2 ^ 24 -> 0 <= n < 3 ->
  inet_addr_loop (dot :: rest) addr p n = inet_addr_loop rest (addr * 256 + p) 0 (n + 1).
Proof.
  intros Hp Ha Hn. cbn [inet_addr_loop]. change (is_digit dot) with false. change (dot =? dot) with true.
  destruct (Z.ltb_spec p 256); [|lia]. cbn [andb].
  rewrite shiftl_mul by lia. by narrow.
Qed.

(** The text of an octet is at most three digits. *)
Lemma sprintf_ud_short p : 0 <= p < 256 -> (length (sprintf_ud p) <= 3)%nat.
Proof.
  intros Hp. rewrite sprintf_ud_dec by done. unfold Str.NGX_INT64_LEN. cbn [Str.dec_loop].
  destruct (Z.eqb_spec (p / 10) 0) as [|H1]; [cbn; lia|].
  destruct (Z.eqb_spec (p / 10 / 10) 0) as [|H2]; [cbn; lia|].
  destruct (Z.eqb_spec (p / 10 / 10 / 10) 0) as [|H3]; [cbn; lia|].
  exfalso. apply H3. rewrite !Z.div_div by lia. apply Z.div_small. lia.
Qed.

Lemma quad_length p0 p1 p2 p3 :
  Forall (fun p => 0 <= p < 256) [p0; p1; p2; p3] -> (length (sprintf_quad [p0; p1; p2; p3]) <= 15)%nat.
Proof.
  intros Hp. repeat (apply Forall_cons in Hp as [? Hp]). cbn [sprintf_quad].
  repeat (rewrite length_app; cbn [length]).
  repeat match goal with H : 0 <= ?p < 256 |- _ => pose proof (sprintf_ud_short p H); clear H end. lia.
Qed.

(** The texts above are those the format interpreter prints. *)
Lemma quad_printed len p0 p1 p2 p3 :
  Forall (fun p => 0 <= p < 256) [p0; p1; p2; p3] -> 0 <= len < 2 ^ 63 ->
  Sprintf.ngx_snprintf len (bytes "%ud.%ud.%ud.%ud") (Sprintf.A_int <$> [p0; p1; p2; p3]) = Some (snprintf len (sprintf_quad [p0; p1; p2; p3])).
Proof.
  intros Hp Hl. repeat (apply Forall_cons in Hp as [? Hp]).
  assert (forall p, 0 <= p < 256 -> (length (Sprintf.dec p) <= 4)%nat) as Hd by (intros p Hpp; apply Sprintf.dec_small; lia).
  pose proof (Hd p0 ltac:(done)). pose proof (Hd p1 ltac:(done)). pose proof (Hd p2 ltac:(done)). pose proof (Hd p3 ltac:(done)).
  eapply (Sprintf.snprintf_cut _ (2 ^ 63)); [lia|]. cbn [fmap list_fmap]. etrans; [Sprintf.vsl|]. by rewrite app_nil_r.
Qed.

Lemma octet_range x : 0 <= x mod 256 < 256.
Proof. by apply Z.mod_pos_bound. Qed.

(** [htonl] reverses the bytes. *)
Lemma htonl_bytes b0 b1 b2 b3 :
  Forall (fun p => 0 <= p < 256) [b0; b1; b2; b3] ->
  htonl (((b0 * 256 + b1) * 256 + b2) * 256 + b3) = b0 + 256 * (b1 + 256 * (b2 + 256 * b3)).
Proof.
  intros Hp. repeat (apply Forall_cons in Hp as [? Hp]). unfold htonl.
  change 255 with (Z.ones 8). rewrite !land_low, !shiftr_div, !shiftl_mul by lia.
  change (2 ^ (8 * 0)) with 1. change (2 ^ (8 * 1)) with 256. change (2 ^ (8 * 2)) with 65536.
  change (2 ^ (8 * 3)) with 16777216. change (2 ^ 8) with 256.
  set (x := ((b0 * 256 + b1) * 256 + b2) * 256 + b3).
  replace ((x / 1) mod 256) with b3 by (subst x; Z.div_mod_to_equations; lia).
  replace ((x / 256) mod 256) with b2 by (subst x; Z.div_mod_to_equations; lia).
  replace ((x / 65536) mod 256) with b1 by (subst x; Z.div_mod_to_equations; lia).
  replace ((x / 16777216) mod 256) with b0 by (subst x; Z.div_mod_to_equations; lia).
  change 256 with (2 ^ 8) at 1. rewrite (lor_add b1 b0 8), (lor_add b2 _ 16), (lor_add b3 _ 24) by lia. lia.
Qed.

(** An address that is printed in full is read back. *)
Lemma inet_read a len :
  0 <= a < 2 ^ 32 -> 15 <= len ->
  ngx_inet_addr (ngx_inet_ntop AF_INET (bytes_of_u32 a) len) = a /\
  (length (ngx_inet_ntop AF_INET (bytes_of_u32 a) len) <= 15)%nat.
Proof.
  intros Ha Hlen. unfold ngx_inet_ntop, snprintf. change (AF_INET =? AF_INET) with true. cbv iota.
  assert (Forall (fun p => 0 <= p < 256) (bytes_of_u32 a)) as Hb by (repeat constructor; apply octet_range).
  unfold bytes_of_u32 in *.
  assert (a = a mod 256 + 256 * (a / 256 mod 256 + 256 * (a / 65536 mod 256 + 256 * (a / 16777216 mod 256)))) as Hval.
  { Z.div_mod_to_equations; lia. }
  revert Hb Hval. generalize (a mod 256) (a / 256 mod 256) (a / 65536 mod 256) (a / 16777216 mod 256).
  intros b0 b1 b2 b3 Hb Hval. pose proof (quad_length _ _ _ _ Hb) as Hshort.
  rewrite take_ge by lia. split; [|exact Hshort]. unfold ngx_inet_addr. cbn [sprintf_quad].
  pose proof Hb as Hb'. repeat (apply Forall_cons in Hb' as [? Hb']).
  rewrite read_octet, read_dot, read_octet, read_dot, read_octet, read_dot by lia.
  rewrite <- (app_nil_r (sprintf_ud b3)), read_octet by lia. cbn [inet_addr_loop].
  change (negb (0 + 1 + 1 + 1 =? 3)) with false. cbv iota. destruct (Z.ltb_spec b3 256); [|lia].
  rewrite shiftl_mul by lia. narrow.
  change (2 ^ 8) with 256. rewrite Z.mul_0_l, Z.add_0_l. rewrite htonl_bytes by done. by rewrite <- Hval.
Qed.

(** C34.  What is printed is read back.  Base64: decoding what
    [ngx_encode_base64] wrote gives back the bytes, whatever they are and however
    many.  Numbers: reading with [ngx_atoi] and [ngx_hextoi] what
    [ngx_sprintf_num] printed, in decimal or in either hexadecimal form and
    padded with zeros to any width, gives back every number of an [ngx_int_t];
    printing never needs more than its 20-byte buffer.  Addresses: for every
    32-bit [a] in network order and a buffer of at least fifteen bytes
    ([NGX_INET_ADDRSTRLEN]), [ngx_inet_addr] of the text that [ngx_inet_ntop]
    writes for the four bytes of [a] is [a] again, and the text fits fifteen
    bytes.  The one address the two share with an error is 255.255.255.255, whose
    value is [INADDR_NONE]. *)
Theorem text_roundtrip :
  (forall s, Forall Str.is_byte s -> Str.ngx_decode_base64 (Str.ngx_encode_base64 s) = Some s) /\
  (forall room ui width, Z.of_nat Str.NGX_INT64_LEN <= room -> width <= room -> 0 <= ui < 2 ^ 63 ->
    Str.ngx_atoi (Str.ngx_sprintf_num room ui 48 0 width) = ui /\
    Str.ngx_hextoi (Str.ngx_sprintf_num room ui 48 1 width) = ui /\
    Str.ngx_hextoi (Str.ngx_sprintf_num room ui 48 2 width) = ui /\
    (forall h, length (Str.num_digits ui h) <= Str.NGX_INT64_LEN)%nat) /\
  (forall a len, 0 <= a < 2 ^ 32 -> 15 <= len ->
    ngx_inet_addr (ngx_inet_ntop AF_INET (bytes_of_u32 a) len) = a /\
    (length (ngx_inet_ntop AF_INET (bytes_of_u32 a) len) <= 15)%nat).
Proof. split_and!; [apply Str.base64_read | apply Str.number_read | apply inet_read]. Qed.

Lemma text_roundtrip_witness :
  Str.ngx_decode_base64 (Str.ngx_encode_base64 [0; 255; 16; 77]) = Some [0; 255; 16; 77] /\
  Str.ngx_hextoi (Str.ngx_sprintf_num 24 4080 48 1 10) = 4080 /\
  ngx_inet_addr (ngx_inet_ntop AF_INET (bytes_of_u32 0x0100007f) 15) = 0x0100007f.
Proof.
  destruct text_roundtrip as (Hb & Hn & Ha). split_and!.
  - apply Hb. repeat (constructor; [unfold Str.is_byte; lia|]). constructor.
  - apply (Hn 24 4080 10); [unfold Str.NGX_INT64_LEN; lia | lia | lia].
  - apply (Ha 0x0100007f 15); lia.
Defined.

(** Empty octets are read as 0 and a run of digits is reduced modulo 2^64. *)
Example inet_addr_empty_octets : ngx_inet_addr (bytes "...") = 0.
Proof. reflexivity. Qed.
Example inet_addr_octet_overflow :
  ngx_inet_addr (bytes "127.0.0.18446744073709551617") = ngx_inet_addr (bytes "127.0.0.1").
Proof. reflexivity. Qed.

End Inet.
