(* ===== verification/Resolver.v ===== *)
(** The messages of the resolver, nginx/src/core/ngx_resolver.c: building
    queries, reading names with their compression pointers, and reading responses.

    A response lies in a buffer of [NGX_RESOLVER_UDP_SIZE] bytes, [buf], of which the
    first [last] (or [n]) were received; offsets are natural numbers.  Reading outside
    the buffer, or writing outside an allocation, is a [Fault]. *)
From stdpp Require Import base list numbers strings sets.
From S2P Require Import Prelude Str Sprintf Inet.
Import Str.
Local Open Scope Z_scope.
Local Open Scope run_scope.

Module Resolver.

(** The state is what has been written to the allocation for a name. *)
Abbreviation D := (R (list Z)).

(** [buf[i]]; [n] bytes at [buf + i]. *)
Definition rd (buf : list Z) (i : nat) : D Z :=
  fun d => match buf !! i with Some c => Done c d | None => Fault end.
Definition rd_n (buf : list Z) (i n : nat) : D (list Z) :=
  fun d => if (i + n <=? length buf)%nat then Done (take n (drop i buf)) d else Fault.
(** [(hi << 8) + lo] of two bytes. *)
Definition rd_16 (buf : list Z) (i : nat) : D Z :=
  do! hi := rd buf i in do! lo := rd buf (S i) in rret (Z.shiftl hi 8 + lo).
(** [*dst++ = ...] into an allocation of [cap] bytes. *)
Definition put (cap : Z) (l : list Z) : D unit :=
  fun d => if Z.of_nat (length d + length l) <=? cap then Done tt (d ++ l) else Fault.

(** * Queries *)

Definition NGX_RESOLVE_A : Z := 1.
Definition NGX_RESOLVE_CNAME : Z := 5.
Definition NGX_RESOLVE_PTR : Z := 12.
Definition NGX_RESOLVE_DNAME : Z := 39.
Definition NGX_RESOLVE_FORMERR : Z := 1.
Definition NGX_RESOLVE_REFUSED : Z := 5.

(** The sizes of [ngx_resolver_query_t], [ngx_resolver_qs_t] and
    [ngx_resolver_an_t]. *)
Definition sizeof_query : nat := 12.
Definition sizeof_qs : nat := 4.
Definition sizeof_an : nat := 10.

(** The header of a query: identifier, recursion desired, one question. *)
Definition query_header (ident : Z) : list Z :=
  [Z.land (Z.shiftr ident 8) 0xff; Z.land ident 0xff; 1; 0; 0; 1; 0; 0; 0; 0; 0; 0].

Inductive query : Type :=
| Q_ERROR
| Q_DECLINED
| Q_OK (packet : list Z) (qlen : Z).

(** The loop over the name, last character first ([s] holds what is left of it, in
    that order); [p] is the place of the next byte and [len] the length of the
    label so far. *)
Fixpoint name_query_loop (s : list Z) (packet : list Z) (p : nat) (len : Z) : option (list Z * nat * Z) :=
  match s with
  | [] => Some (packet, p, len)
  | c :: s =>
      if negb (c =? 46) then name_query_loop s (<[p := c]> packet) (pred p) (len + 1)
      else if len =? 0 then None
      else name_query_loop s (<[p := u8 len]> packet) (pred p) 0
  end.

(** [mem len] is what an allocation of [len] bytes holds before, or nothing when it
    fails. *)
Definition ngx_resolver_create_name_query (mem : nat -> option (list Z)) (ident type : Z) (name : list Z) : query :=
  let nlen := if (length name =? 0)%nat then 1%nat else (1 + length name + 1)%nat in
  let len := (sizeof_query + nlen + sizeof_qs)%nat in
  match mem len with
  | None => Q_ERROR
  | Some junk =>
      let packet := query_header ident ++ take nlen (drop sizeof_query junk) ++ [0; u8 type; 0; 1] in
      let p := (sizeof_query + nlen - 1)%nat in
      match name_query_loop (reverse name) (<[p := 0]> packet) (p - 1) 0 with
      | None => Q_DECLINED
      | Some (packet, p, l) => Q_OK (<[p := u8 l]> packet) (u16 (Z.of_nat len))
      end
  end.

(** The label of a byte of [addr], written at [p]. *)
Definition addr_label (p : ptr) (addr n : Z) : option (list Z) :=
  l ← Sprintf.ngx_sprintf (p + 1) (bytes "%ud") [Sprintf.A_int (Z.land (Z.shiftr addr n) 0xff)];
  Some (u8 (Z.of_nat (length l)) :: l).
(** [for (n = 0; n < 32; n += 8)] *)
Fixpoint addr_labels (p : ptr) (addr : Z) (ns : list Z) : option (list Z) :=
  match ns with
  | [] => Some []
  | n :: ns =>
      l ← addr_label p addr n;
      rest ← addr_labels (p + Z.of_nat (length l)) addr ns;
      Some (l ++ rest)
  end.
Definition in_addr_arpa : list Z := [7] ++ bytes "in-addr" ++ [4] ++ bytes "arpa" ++ [0].
(** [p] is the address of the allocation, NULL when it failed.  Nothing is the result
    when the query does not fit it. *)
Definition ngx_resolver_create_addr_query (p : ptr) (ident addr : Z) : option query :=
  let len := (sizeof_query + 30 + sizeof_qs)%nat in
  if p =? NULL then Some Q_ERROR
  else
    labels ← addr_labels (p + Z.of_nat sizeof_query) addr [0; 8; 16; 24];
    let packet := query_header ident ++ labels ++ in_addr_arpa ++ [0; 12; 0; 1] in
    if (len <? length packet)%nat then None
    else Some (Q_OK packet (u16 (Z.of_nat (length packet)))).

(** * Names *)

(** The first pass of [ngx_resolver_copy]: the length of the name, or nothing when the
    name is invalid; [tries] counts down from 128. *)
Fixpoint copy_first (tries : nat) (buf : list Z) (last p : nat) (len : Z) : D (option Z) :=
  match tries with
  | O => rret None
  | S tries =>
      do! n := rd buf p in
      let p := S p in
      if n =? 0 then rret (Some len)
      else if negb (Z.land n 0xc0 =? 0) then
        do! m := rd buf p in
        let p := Z.to_nat (Z.shiftl (Z.land n 0x3f) 8 + m) in
        if (last <=? p)%nat then rret None else copy_first tries buf last p len
      else
        let len := len + (1 + n) in
        let p := (p + Z.to_nat n)%nat in
        if (last <=? p)%nat then rret None else copy_first tries buf last p len
  end.

(** The second pass, which writes the name to [cap] bytes; [n] is the byte read
    last. *)
Fixpoint copy_second (fuel : nat) (cap : Z) (buf : list Z) (src : nat) (n : Z) : D unit :=
  match fuel with
  | O => fun _ => NoFuel
  | S fuel =>
      if negb (n =? 0xc0) then
        do! l := rd_n buf src (Z.to_nat n) in
        put cap l ;;;
        let src := (src + Z.to_nat n)%nat in
        do! n := rd buf src in
        (when negb (n =? 0) then put cap [46]) ;;;
        if n =? 0 then rret tt else copy_second fuel cap buf (S src) n
      else
        do! m := rd buf src in
        let src := Z.to_nat (Z.shiftl (Z.land n 0x3f) 8 + m) in
        do! n := rd buf src in
        if n =? 0 then rret tt else copy_second fuel cap buf (S src) n
  end.

(** [named]: the argument [name] is not NULL.  The result is [NGX_ERROR], or
    [NGX_OK] with the name in the state. *)
Definition ngx_resolver_copy (fuel : nat) (alloc named : bool) (buf : list Z) (src last : nat) : D bool :=
  do! len := copy_first 128 buf last src (-1) in
  match len with
  | None => rret false
  | Some len =>
      if negb named then rret true
      else if len =? -1 then rret true
      else if negb alloc then rret false
      else
        do! n := rd buf src in
        copy_second fuel len buf (S src) n ;;; rret true
  end.

(** * Responses *)

(** What becomes of a response: a line in the log, or the processing of its
    answers. *)
Inductive dispatch : Type :=
| D_log (err : string)
| D_process_a (ident code : Z) (nan ans : nat)
| D_process_ptr (ident code : Z) (nan : nat).

(** The loop over the queue of queries to resend, as their identifiers.  Its
    condition, [q != sentinel || times++ < 100], lets the body run for the sentinel,
    which is not a query: [rn->query] is then read from the memory around it. *)
Fixpoint formerr_loop (ident : Z) (queue : list Z) : D dispatch :=
  match queue with
  | [] => rfault
  | qident :: queue => if qident =? ident then rret (D_log "DNS error, query id, name") else formerr_loop ident queue
  end.

(** [while (i < n)]: the end of the question's name. *)
Fixpoint question_end (fuel : nat) (buf : list Z) (n i : nat) : D (option nat) :=
  match fuel with
  | O => fun _ => NoFuel
  | S fuel =>
      if (i <? n)%nat then
        do! len := rd buf i in
        if len =? 0 then rret (Some i) else question_end fuel buf n (i + (1 + Z.to_nat len))
      else rret None
  end.

Definition ngx_resolver_process_response (queue : list Z) (buf : list Z) (n : nat) : D dispatch :=
  if (n <? sizeof_query)%nat then rret (D_log "short dns response")
  else
    do! ident := rd_16 buf 0 in
    do! flags := rd_16 buf 2 in
    do! nqs := rd_16 buf 4 in
    do! nan := rd_16 buf 6 in
    if Z.land flags 0x8000 =? 0 then rret (D_log "invalid DNS response")
    else
      let code := Z.land flags 0x7f in
      if code =? NGX_RESOLVE_FORMERR then formerr_loop ident queue
      else if NGX_RESOLVE_REFUSED <? code then rret (D_log "DNS error")
      else if negb (nqs =? 1) then rret (D_log "invalid number of questions in DNS response")
      else
        do! found := question_end (S n) buf n sizeof_query in
        match found with
        | None => rret (D_log "short dns response")
        | Some i =>
            if (i =? 0)%nat then rret (D_log "zero-length domain name in DNS response")
            else
              let i := S i in
              if (n <? i + sizeof_qs + Z.to_nat nan * (2 + sizeof_an))%nat then rret (D_log "short dns response")
              else
                do! qtype := rd_16 buf i in
                do! qclass := rd_16 buf (i + 2) in
                if negb (qclass =? 1) then rret (D_log "unknown query class in DNS response")
                else if qtype =? NGX_RESOLVE_A then rret (D_process_a ident code (Z.to_nat nan) (i + sizeof_qs))
                else if qtype =? NGX_RESOLVE_PTR then rret (D_process_ptr ident code (Z.to_nat nan))
                else rret (D_log "unknown query type in DNS response")
        end.

(** ** Answers to a query for addresses *)

Inductive skipped : Type :=
| skip_found (i : nat)
| skip_short
| skip_invalid.

(** The name of an answer: [while (i < last)]. *)
Fixpoint skip_name (fuel : nat) (buf : list Z) (last start i : nat) : D skipped :=
  match fuel with
  | O => fun _ => NoFuel
  | S fuel =>
      if (i <? last)%nat then
        do! c := rd buf i in
        if negb (Z.land c 0xc0 =? 0) then rret (skip_found (i + 2))
        else if c =? 0 then
          if (S i - start <? 2)%nat then rret skip_invalid else rret (skip_found (S i))
        else skip_name fuel buf last start (i + (1 + Z.to_nat c))
      else rret skip_short
  end.

(** The first loop: the number of addresses, the last address, where the last CNAME is,
    and the last type. *)
Inductive answers : Type :=
| an_short
| an_invalid
| an_read (naddrs : nat) (addr : Z) (cname : option nat) (qtype : Z).

(** Four bytes as an [in_addr_t]. *)
Definition rd_addr (buf : list Z) (i : nat) : D Z :=
  do! b0 := rd buf i in do! b1 := rd buf (i + 1) in do! b2 := rd buf (i + 2) in do! b3 := rd buf (i + 3) in
  rret (Inet.htonl (u32 (Z.shiftl b0 24 + Z.shiftl b1 16 + Z.shiftl b2 8 + b3))).

Fixpoint read_answers (nan : nat) (buf : list Z) (last i naddrs : nat) (addr : Z) (cname : option nat) (qtype : Z) : D answers :=
  match nan with
  | O => rret (an_read naddrs addr cname qtype)
  | S nan =>
      do! s := skip_name (S last) buf last i i in
      match s with
      | skip_short => rret an_short
      | skip_invalid => rret an_invalid
      | skip_found i =>
          if (last <=? i + sizeof_an)%nat then rret an_short
          else
            do! qtype := rd_16 buf i in
            do! len := rd_16 buf (i + 8) in
            if qtype =? NGX_RESOLVE_A then
              let i := (i + sizeof_an)%nat in
              if (last <? i + Z.to_nat len)%nat then rret an_short
              else
                do! addr := rd_addr buf i in
                read_answers nan buf last (i + Z.to_nat len) (S naddrs) addr cname qtype
            else if qtype =? NGX_RESOLVE_CNAME then
              read_answers nan buf last (i + sizeof_an + Z.to_nat len) naddrs addr (Some (i + sizeof_an)%nat) qtype
            else if qtype =? NGX_RESOLVE_DNAME then
              read_answers nan buf last (i + sizeof_an + Z.to_nat len) naddrs addr cname qtype
            else read_answers nan buf last i naddrs addr cname qtype
      end
  end.

(** The name of an answer in the second loop, which tests no bound. *)
Fixpoint skip_again (fuel : nat) (buf : list Z) (i : nat) : D nat :=
  match fuel with
  | O => fun _ => NoFuel
  | S fuel =>
      do! c := rd buf i in
      if negb (Z.land c 0xc0 =? 0) then rret (i + 2)%nat
      else if c =? 0 then rret (S i)
      else skip_again fuel buf (i + (1 + Z.to_nat c))
  end.

(** The second loop: the addresses, until there are [naddrs]. *)
Fixpoint read_addrs (nan : nat) (buf : list Z) (i naddrs : nat) (addrs : list Z) : D (list Z) :=
  match nan with
  | O => rret addrs
  | S nan =>
      do! i := skip_again (S (length buf)) buf i in
      do! qtype := rd_16 buf i in
      do! len := rd_16 buf (i + 8) in
      let i := (i + sizeof_an)%nat in
      if qtype =? NGX_RESOLVE_A then
        do! addr := rd_addr buf i in
        let addrs := addrs ++ [addr] in
        if (length addrs =? naddrs)%nat then rret addrs
        else read_addrs nan buf (i + Z.to_nat len) naddrs addrs
      else read_addrs nan buf (i + Z.to_nat len) naddrs addrs
  end.

(** What [ngx_resolver_process_a] learns from the answers of a response to a
    query it knows. *)
Inductive resolved : Type :=
| R_log (err : string)
| R_addrs (addrs : list Z)
| R_cname (name : list Z)
| R_nothing.

Definition process_a_answers (fuel : nat) (alloc : bool) (buf : list Z) (last nan ans : nat) : D resolved :=
  do! r := read_answers nan buf last ans 0 0 None 0 in
  match r with
  | an_short => rret (R_log "short dns response")
  | an_invalid => rret (R_log "invalid name in dns response")
  | an_read naddrs addr cname qtype =>
      if negb (naddrs =? 0)%nat then
        if (naddrs =? 1)%nat then rret (R_addrs [addr])
        else if negb alloc then rret R_nothing
        else do! addrs := read_addrs nan buf ans naddrs [] in rret (R_addrs addrs)
      else
        match cname with
        | Some cname =>
            do! ok := ngx_resolver_copy fuel alloc true buf cname last in
            if ok : bool then (fun d => Done (R_cname d) d) else rret R_nothing
        | None => rret (R_log "no A or CNAME types in DNS responses, unknown query type")
        end
  end.

(** ** The question of a response to a query for a name *)

(** [ngx_strcmp(s, lit) == 0], reading [buf] from [i] on. *)
Fixpoint strcmp_at (buf : list Z) (i : nat) (lit : list Z) : D bool :=
  match lit with
  | [] => rret true
  | c :: lit => do! x := rd buf i in if x =? c then strcmp_at buf (S i) lit else rret false
  end.

(** [for (mask = 0; mask < 32; mask += 8)] *)
Fixpoint read_octets (masks : list Z) (buf : list Z) (i : nat) (addr : Z) : D (option (Z * nat)) :=
  match masks with
  | [] => rret (Some (addr, i))
  | mask :: masks =>
      do! len := rd buf i in
      let i := S i in
      do! text := rd_n buf i (Z.to_nat len) in
      let digit := ngx_atoi text in
      if (digit =? -1) || (255 <? digit) then rret None
      else read_octets masks buf (i + Z.to_nat len) (u32 (addr + Z.shiftl digit mask))
  end.

(** The address that the question asks for, and where its name ends; [None] is
    [invalid_in_addr_arpa]. *)
Definition process_ptr_addr (buf : list Z) (n : nat) : D (option (Z * nat)) :=
  do! ok := ngx_resolver_copy 0 true false buf 12 n in
  if negb ok then rret None
  else
    do! r := read_octets [0; 8; 16; 24] buf 12 0 in
    match r with
    | None => rret None
    | Some (addr, i) =>
        do! same := strcmp_at buf i in_addr_arpa in
        if negb same then rret None else rret (Some (addr, i))
    end.

(** The name in the first answer; [i] is where the question's suffix begins. *)
Definition process_ptr_name (fuel : nat) (alloc : bool) (buf : list Z) (n i : nat) : D resolved :=
  let i := (i + length in_addr_arpa + sizeof_qs)%nat in
  if (n <? i + 2 + sizeof_an)%nat then rret (R_log "short DNS response")
  else
    do! c0 := rd buf i in
    do! c1 := (if c0 =? 0xc0 then rd buf (i + 1) else rret 0) in
    if negb (c0 =? 0xc0) || negb (c1 =? 0x0c) then rret (R_log "invalid in-addr.arpa name in DNS response")
    else
      do! len := rd_16 buf (i + 2 + 8) in
      let i := (i + 2 + sizeof_an)%nat in
      if (n <? i + Z.to_nat len)%nat then rret (R_log "short DNS response")
      else
        do! ok := ngx_resolver_copy fuel alloc true buf i n in
        if ok : bool then (fun d => Done (R_cname d) d) else rret R_nothing.
End Resolver.
