(* ===== verification/ResolverCorrect.v ===== *)
(** The messages of the resolver: a query can be read back, names with compression
    pointers are read right or overflow, answers are read in order. *)
From stdpp Require Import base list numbers strings sets.
From S2P Require Import Prelude Str Sprintf Inet Resolver.
Import Str Resolver.
Local Open Scope Z_scope.

Module ResolverCorrect.

Lemma rbind_done {S A B} (m : R S A) (k : A -> R S B) s a s' : m s = Done a s' -> rbind m k s = k a s'.
Proof. intros H. unfold rbind. by rewrite H. Qed.
Lemma rbind_fault {S A B} (m : R S A) (k : A -> R S B) s : m s = Fault -> rbind m k s = Fault.
Proof. intros H. unfold rbind. by rewrite H. Qed.
Lemma rd_done buf i c d : buf !! i = Some c -> rd buf i d = Done c d.
Proof. intros H. unfold rd. by rewrite H. Qed.
Lemma rd_n_done buf i n d : (i + n <= length buf)%nat -> rd_n buf i n d = Done (take n (drop i buf)) d.
Proof. intros H. unfold rd_n. by rewrite (proj2 (Nat.leb_le _ _)). Qed.
Lemma put_done cap l d : Z.of_nat (length d + length l) <= cap -> put cap l d = Done tt (d ++ l).
Proof. intros H. unfold put. by rewrite (proj2 (Z.leb_le _ _)). Qed.
Lemma put_fault cap l d : cap < Z.of_nat (length d + length l) -> put cap l d = Fault.
Proof. intros H. unfold put. by rewrite (proj2 (Z.leb_gt _ _)). Qed.

(** [rstep]: the next read, which is known. *)
Ltac rstep := erewrite rbind_done by (first [apply rd_done; eassumption | apply rd_n_done; lia | apply put_done; cbn [length]; lia]); cbv beta.

(** * Names *)

(** Labels with dots between them, and as they are in a message. *)
Fixpoint join (ls : list (list Z)) : list Z :=
  match ls with
  | [] => []
  | [l] => l
  | l :: ls => l ++ 46 :: join ls
  end.
Fixpoint encode_name (ls : list (list Z)) : list Z :=
  match ls with
  | [] => [0]
  | l :: ls => Z.of_nat (length l) :: l ++ encode_name ls
  end.
(** A 16-bit field of a message, and a query (RFC 1035): the identifier, the flag that
    asks for recursion, the numbers of questions, answers, authorities and additional
    records, and the question with the class of the Internet. *)
Definition two_bytes (z : Z) : list Z := [z / 256; z mod 256].
Definition dns_query (ident type : Z) (ls : list (list Z)) : list Z :=
  concat (two_bytes <$> [ident mod 2 ^ 16; 0x0100; 1; 0; 0; 0]) ++ encode_name ls ++ two_bytes type ++ two_bytes 1.
Lemma dns_query_ok ident type ls : 0 <= type < 256 ->
  query_header ident ++ encode_name ls ++ [0; type; 0; 1] = dns_query ident type ls.
Proof.
  intros Ht. unfold dns_query, query_header, two_bytes. cbn [fmap list_fmap concat app].
  rewrite (Z.div_small type), (Z.mod_small type) by lia. rewrite Z.shiftr_div_pow2 by lia.
  change 0xff with (Z.ones 8). rewrite !Z.land_ones by lia.
  replace (ident mod 2 ^ 16 / 256) with ((ident / 2 ^ 8) mod 2 ^ 8) by (change (2 ^ 16) with (2 ^ 8 * 2 ^ 8);
    rewrite Z.rem_mul_r, Z.mul_comm, Z.div_add by lia; rewrite (Z.div_small (ident mod 2 ^ 8)) by (apply Z.mod_pos_bound; lia); lia).
  replace (ident mod 2 ^ 16 mod 256) with (ident mod 2 ^ 8) by (change (2 ^ 16) with (2 ^ 8 * 2 ^ 8);
    rewrite Z.rem_mul_r, Z.mul_comm, Z.mod_add by lia; rewrite Z.mod_mod by lia; done).
  done.
Qed.
(** The room [ngx_resolver_copy] counts for them, plus one. *)
Fixpoint room (ls : list (list Z)) : Z :=
  match ls with
  | [] => 0
  | l :: ls => 1 + Z.of_nat (length l) + room ls
  end.
Lemma join_cons l ls : ls <> [] -> join (l :: ls) = l ++ 46 :: join ls.
Proof. by destruct ls. Qed.
Lemma room_join ls : ls <> [] -> room ls = 1 + Z.of_nat (length (join ls)).
Proof.
  induction ls as [|l ls IH]; [done|]. intros _. destruct (decide (ls = [])) as [->|Hne]; [cbn; lia|].
  cbn [room]. rewrite IH, join_cons, length_app by done. cbn [length]. lia.
Qed.

Lemma encode_length ls : Z.of_nat (length (encode_name ls)) = 1 + room ls.
Proof. induction ls as [|l ls IH]; [done|]. cbn [encode_name room length]. rewrite length_app. lia. Qed.

(** [name_at buf last p ls k]: at [p] is the name with the labels [ls], read in [k] steps:
    labels and pointers, a pointer to a place below 256 that has a label. *)
Inductive name_at (buf : list Z) (last : nat) : nat -> list (list Z) -> nat -> Prop :=
| name_end p : buf !! p = Some 0 -> name_at buf last p [] 1
| name_label p l ls k :
    buf !! p = Some (Z.of_nat (length l)) -> (0 < length l < 64)%nat -> take (length l) (drop (S p) buf) = l ->
    (S p + length l < last)%nat -> name_at buf last (S p + length l) ls k -> name_at buf last p (l :: ls) (S k)
| name_pointer p m ls k :
    buf !! p = Some 0xc0 -> buf !! S p = Some m -> 0 <= m -> (Z.to_nat m < last)%nat -> ls <> [] ->
    name_at buf last (Z.to_nat m) ls k -> name_at buf last p ls (S k).

Lemma name_at_head buf last p ls k : name_at buf last p ls k -> exists n, buf !! p = Some n /\ (n = 0 <-> ls = []).
Proof. destruct 1 as [| |]; eexists; (split; [done|]); naive_solver lia. Qed.

Lemma label_bits n : 0 <= n < 64 -> Z.land n 0xc0 = 0.
Proof.
  intros Hn. assert (forallb (fun n => Z.land n 0xc0 =? 0) (seqZ 0 64) = true) as H by by vm_compute.
  rewrite forallb_forall in H. apply Z.eqb_eq, H, list_elem_of_In, elem_of_seqZ. lia.
Qed.
Lemma pointer_bits n : 0xc0 <= n < 256 -> Z.land n 0xc0 = 0xc0.
Proof.
  intros Hn. assert (forallb (fun n => Z.land n 0xc0 =? 0xc0) (seqZ 0xc0 64) = true) as H by by vm_compute.
  rewrite forallb_forall in H. apply Z.eqb_eq, H, list_elem_of_In, elem_of_seqZ. lia.
Qed.

(** ** The first pass *)
Lemma first_label tries buf last p n len d : buf !! p = Some n -> 0 < n < 64 -> (S p + Z.to_nat n < last)%nat ->
  copy_first (S tries) buf last p len d = copy_first tries buf last (S p + Z.to_nat n) (len + (1 + n)) d.
Proof.
  intros Hp Hn Hl. cbn [copy_first]. rstep. rewrite (proj2 (Z.eqb_neq n 0)), label_bits by lia.
  change (negb (0 =? 0)) with false. cbv zeta iota. by rewrite (proj2 (Nat.leb_gt _ _)).
Qed.
Lemma first_pointer tries buf last p n m len d t : buf !! p = Some n -> 0xc0 <= n < 256 -> buf !! S p = Some m ->
  t = Z.to_nat (Z.shiftl (Z.land n 0x3f) 8 + m) -> (t < last)%nat ->
  copy_first (S tries) buf last p len d = copy_first tries buf last t len d.
Proof.
  intros Hp Hn Hm -> Hl. cbn [copy_first]. rstep. rewrite (proj2 (Z.eqb_neq n 0)), pointer_bits by lia.
  change (negb (0xc0 =? 0)) with true. cbv zeta iota. rstep. by rewrite (proj2 (Nat.leb_gt _ _)).
Qed.
Lemma first_ok buf last p ls k : name_at buf last p ls k -> forall tries len d, (k <= tries)%nat ->
  copy_first tries buf last p len d = Done (Some (len + room ls)) d.
Proof.
  induction 1 as [p Hp | p l ls k Hp Hl Htake Hlast Hn IH | p m ls k Hp Hm Hm0 Hlast Hne Hn IH]; intros tries len d Hk;
    (destruct tries as [|tries]; [lia|]).
  - cbn [copy_first]. rstep. cbn. by rewrite Z.add_0_r.
  - rewrite (first_label _ _ _ _ _ _ _ Hp) by lia. rewrite Nat2Z.id, IH by lia. cbn [room]. do 2 f_equal. lia.
  - rewrite (first_pointer _ _ _ _ _ m _ _ (Z.to_nat m) Hp) by done. apply IH. lia.
Qed.

(** ** The second pass *)
Lemma second_ok buf last p ls k : name_at buf last p ls k -> forall n fuel cap d, buf !! p = Some n -> ls <> [] -> (k <= fuel)%nat ->
  Z.of_nat (length d + length (join ls)) <= cap ->
  copy_second fuel cap buf (S p) n d = Done tt (d ++ join ls).
Proof.
  induction 1 as [p Hp | p l ls k Hp Hl Htake Hlast Hn IH | p m ls k Hp Hm Hm0 Hlast Hne Hn IH]; intros n fuel cap d Hpn Hls Hk Hcap;
    [done| |]; rewrite Hp in Hpn; injection Hpn as <-; (destruct fuel as [|fuel]; [lia|]); cbn [copy_second];
    destruct (name_at_head _ _ _ _ _ Hn) as (n' & Hn' & Hz).
  - rewrite (proj2 (Z.eqb_neq _ 0xc0)) by lia. cbn [negb]. cbv zeta. rewrite !Nat2Z.id.
    pose proof (lookup_lt_Some _ _ _ Hn') as Hin. rstep. rewrite Htake.
    assert (length (join (l :: ls)) = length l + match ls with [] => 0 | _ => S (length (join ls)) end)%nat as Hj.
    { destruct ls; [cbn; lia|]. rewrite join_cons, length_app by done. done. }
    rstep. rstep. destruct (Z.eqb_spec n' 0) as [->|Hn0]; cbn [negb].
    + assert (ls = []) as -> by (by apply Hz). done.
    + assert (ls <> []) as Hls' by naive_solver. destruct ls as [|l' ls]; [done|]. rewrite Hj in Hcap.
      erewrite rbind_done by (apply put_done; rewrite length_app; cbn [length]; lia). cbv beta.
      rewrite (IH n') by (first [done | lia | rewrite !length_app; cbn [length]; lia]).
      rewrite (join_cons l) by done. by rewrite <- !app_assoc.
  - change (negb (0xc0 =? 0xc0)) with false. cbv iota. rstep. cbv zeta.
    change (Z.shiftl (Z.land 0xc0 0x3f) 8) with 0. rewrite Z.add_0_l. rstep.
    rewrite (proj2 (Z.eqb_neq n' 0)) by naive_solver. apply IH; [done|done|lia|done].
Qed.

(** A name is copied, into an allocation that is just large enough. *)
Lemma copy_ok buf last p ls k fuel : name_at buf last p ls k -> (k <= 128)%nat -> (128 <= fuel)%nat ->
  ngx_resolver_copy fuel true true buf p last [] = Done true (join ls).
Proof.
  intros Hn Hk Hf. unfold ngx_resolver_copy. rewrite (rbind_done _ _ _ _ _ (first_ok _ _ _ _ _ Hn _ _ _ Hk)). cbv beta iota. cbn [negb].
  destruct (decide (ls = [])) as [->|Hne]; [done|]. pose proof (room_join ls Hne) as Hr. rewrite (proj2 (Z.eqb_neq _ _)) by lia.
  destruct (name_at_head _ _ _ _ _ Hn) as (n & Hp & _). rstep.
  erewrite rbind_done by (apply (second_ok _ _ _ _ _ Hn); [done|done|lia|cbn [length]; lia]). done.
Qed.

(** ** Names that overflow *)

(** A label, and a pointer to the end of a name: the dot after the label has no
    room. *)
Lemma copy_root_pointer buf last p l m fuel :
  buf !! p = Some (Z.of_nat (length l)) -> (0 < length l < 64)%nat -> take (length l) (drop (S p) buf) = l ->
  (S p + length l < last)%nat -> buf !! (S p + length l)%nat = Some 0xc0 -> buf !! S (S p + length l) = Some m ->
  0 <= m -> (Z.to_nat m < last)%nat -> buf !! Z.to_nat m = Some 0 ->
  ngx_resolver_copy (S fuel) true true buf p last [] = Fault.
Proof.
  intros Hp Hl Htake Hlast Hq Hm Hm0 Hml Hz. unfold ngx_resolver_copy.
  assert (copy_first 128 buf last p (-1) [] = Done (Some (Z.of_nat (length l))) []) as Hfirst.
  { rewrite (first_label _ _ _ _ _ _ _ Hp) by lia. rewrite Nat2Z.id.
    rewrite (first_pointer _ _ _ _ 0xc0 m _ _ (Z.to_nat m)) by done.
    rewrite (first_ok _ _ _ _ _ (name_end buf last _ Hz)) by lia. cbn [room]. do 2 f_equal. lia. }
  rewrite (rbind_done _ _ _ _ _ Hfirst). cbv beta iota. cbn [negb]. rewrite (proj2 (Z.eqb_neq _ _)) by lia. rstep.
  apply rbind_fault. cbn [copy_second]. rewrite (proj2 (Z.eqb_neq _ 0xc0)) by lia. cbn [negb]. cbv zeta. rewrite !Nat2Z.id.
  pose proof (lookup_lt_Some _ _ _ Hq). rstep. rewrite Htake. rstep. rstep. cbn [negb Z.eqb].
  apply rbind_fault, put_fault. rewrite length_app. cbn [length]. lia.
Qed.

(** A pointer to a place from 256 on: its first byte is taken for the length of a
    label. *)
Lemma copy_far_pointer buf last p n m t ls k fuel :
  buf !! p = Some n -> 0xc0 < n < 256 -> buf !! S p = Some m -> t = Z.to_nat (Z.shiftl (Z.land n 0x3f) 8 + m) -> (t < last)%nat ->
  name_at buf last t ls k -> (k < 128)%nat -> ls <> [] -> Z.of_nat (length (join ls)) < n ->
  ngx_resolver_copy (S fuel) true true buf p last [] = Fault.
Proof.
  intros Hp Hn Hm Ht Hlast Hname Hk Hls Hshort. unfold ngx_resolver_copy.
  rewrite (rbind_done _ _ _ (Some (-1 + room ls)) []).
  2: { rewrite (first_pointer _ _ _ _ n m _ _ t) by (done || lia). apply (first_ok _ _ _ _ _ Hname). lia. }
  cbv beta iota. cbn [negb]. pose proof (room_join ls Hls). rewrite (proj2 (Z.eqb_neq _ _)) by lia. rstep.
  apply rbind_fault. cbn [copy_second]. rewrite (proj2 (Z.eqb_neq n 0xc0)) by lia. cbn [negb].
  destruct (decide (S p + Z.to_nat n <= length buf)%nat) as [Hin|Hin].
  - rstep. apply rbind_fault, put_fault. rewrite length_take, length_drop. cbn [length]. lia.
  - apply rbind_fault. unfold rd_n. by rewrite (proj2 (Nat.leb_gt _ _)) by lia.
Qed.

(** A format error in a response that answers no query of the queue. *)
Lemma formerr_fault ident queue d : ident ∉ queue -> formerr_loop ident queue d = Fault.
Proof.
  induction queue as [|q queue IH]; intros Hi; [done|]. cbn. rewrite (proj2 (Z.eqb_neq q ident)) by set_solver.
  apply IH. set_solver.
Qed.

(** ** Queries for addresses *)

(** A domain name: labels of 1 to 63 bytes without dots. *)
Definition is_domain (ls : list (list Z)) : Prop :=
  ls <> [] /\ (length ls <= 127)%nat /\
  Forall (fun l => (0 < length l < 64)%nat /\ Forall (fun c => is_byte c /\ c <> 46) l) ls.

(** An encoded name is one. *)
Lemma encoded_name_at ls : forall pre post last,
  Forall (fun l => (0 < length l < 64)%nat /\ Forall (fun c => is_byte c /\ c <> 46) l) ls ->
  (length pre + length (encode_name ls) <= last)%nat ->
  name_at (pre ++ encode_name ls ++ post) last (length pre) ls (S (length ls)).
Proof.
  induction ls as [|l ls IH]; intros pre post last Hls Hlast; cbn [encode_name length].
  - apply name_end. cbn [app]. by rewrite list_lookup_middle.
  - apply Forall_cons in Hls as [[Hl Hb] Hls]. cbn [encode_name length] in Hlast. rewrite length_app in Hlast.
    assert (0 < length (encode_name ls))%nat by (destruct ls; cbn; lia).
    cbn [app]. apply name_label; [by rewrite list_lookup_middle | done | | lia |].
    + replace (pre ++ Z.of_nat (length l) :: (l ++ encode_name ls) ++ post) with ((pre ++ [Z.of_nat (length l)]) ++ l ++ encode_name ls ++ post)
        by (rewrite <- !app_assoc; done).
      replace (S (length pre)) with (length (pre ++ [Z.of_nat (length l)])) by (rewrite length_app; cbn; lia).
      by rewrite drop_app_length, take_app_length.
    + specialize (IH (pre ++ Z.of_nat (length l) :: l) post last Hls).
      rewrite length_app in IH. cbn [length] in IH.
      replace (S (length pre) + length l)%nat with (length pre + S (length l))%nat by lia.
      rewrite <- !app_assoc in IH |- *. apply IH. lia.
Qed.

(** The loop writes backwards what [written] says: the bytes so far, and the length
    of the first label, whose length byte is yet to come. *)
Fixpoint written (s : list Z) (acc : list Z) (len : Z) : option (list Z * Z) :=
  match s with
  | [] => Some (acc, len)
  | c :: s =>
      if negb (c =? 46) then written s (c :: acc) (len + 1)
      else if len =? 0 then None
      else written s (u8 len :: acc) 0
  end.

Lemma query_loop_written s : forall pre hole acc len, length hole = S (length s) ->
  name_query_loop s (pre ++ hole ++ acc) (length pre + length s) len =
    '(acc', len') ← written s acc len; Some (pre ++ take 1 hole ++ acc', length pre, len').
Proof.
  induction s as [|c s IH]; intros pre hole acc len Hh; cbn [name_query_loop written].
  { cbn. rewrite Nat.add_0_r. do 3 f_equal. by rewrite take_ge by (rewrite Hh; done). }
  destruct hole as [|x hole _] using rev_ind; [done|]. rewrite length_app in Hh. cbn [length] in *.
  assert (length hole = S (length s)) as Hh' by lia. assert (take 1 (hole ++ [x]) = take 1 hole) as Htake by (apply take_app_le; lia).
  assert (forall b, <[(length pre + S (length s))%nat := b]> (pre ++ (hole ++ [x]) ++ acc) = pre ++ hole ++ b :: acc) as Hins.
  { intros b. rewrite insert_app_r_alt by lia. f_equal. rewrite <- app_assoc. rewrite insert_app_r_alt by lia.
    replace (length pre + S (length s) - length pre - length hole)%nat with O by lia. done. }
  assert (forall b len', name_query_loop s (pre ++ hole ++ b :: acc) (pred (length pre + S (length s))) len' =
    '(acc', len') ← written s (b :: acc) len'; Some (pre ++ take 1 (hole ++ [x]) ++ acc', length pre, len')) as Hgo.
  { intros b len'. rewrite Htake. replace (pred (length pre + S (length s))) with (length pre + length s)%nat by lia. by apply IH. }
  destruct (c =? 46); cbn [negb]; [destruct (len =? 0); [done|]|]; rewrite Hins; apply Hgo.
Qed.

Lemma written_app s : forall acc post len,
  written s (acc ++ post) len = '(acc', len') ← written s acc len; Some (acc' ++ post, len').
Proof.
  induction s as [|c s IH]; intros acc post len; [done|]. cbn [written].
  destruct (c =? 46); cbn [negb]; [destruct (len =? 0); [done|]|]; apply (IH (_ :: _)).
Qed.

Lemma written_label l : forall s acc len, Forall (fun c => is_byte c /\ c <> 46) l ->
  written (reverse l ++ s) acc len = written s (l ++ acc) (len + Z.of_nat (length l)).
Proof.
  induction l as [|c l IH] using rev_ind; intros s acc len Hl; [cbn; f_equal; lia|].
  apply Forall_app in Hl as [Hl [[_ Hc] _]%Forall_cons]. rewrite reverse_snoc. cbn [app written].
  rewrite (proj2 (Z.eqb_neq c 46)) by done. cbn [negb]. rewrite IH by done. rewrite <- app_assoc, length_app. cbn [app length]. f_equal. lia.
Qed.

Lemma written_join ls : forall s, Forall (fun l => (0 < length l < 64)%nat /\ Forall (fun c => is_byte c /\ c <> 46) l) ls ->
  match ls with
  | [] => True
  | l :: ls' => written (reverse (join ls) ++ s) [0] 0 = written s (l ++ encode_name ls') (Z.of_nat (length l))
  end.
Proof.
  induction ls as [|l ls IH]; intros s Hls; [done|]. apply Forall_cons in Hls as [[Hl Hb] Hls].
  destruct ls as [|l' ls]; [by rewrite written_label|].
  rewrite join_cons by done. rewrite reverse_app, reverse_cons, <- !app_assoc. cbn [app]. rewrite IH by done.
  apply Forall_cons in Hls as [[Hl' _] _]. cbn [written]. change (negb (46 =? 46)) with false. cbv iota.
  rewrite (proj2 (Z.eqb_neq _ 0)), u8_small by lia. by rewrite written_label.
Qed.

(** The query for a name that is not empty, in terms of [written]. *)
Lemma name_query_written mem ident type name junk :
  name <> [] -> let len := (sizeof_query + (1 + length name + 1) + sizeof_qs)%nat in
  mem len = Some junk -> length junk = len ->
  ngx_resolver_create_name_query mem ident type name =
    match written (reverse name) [0] 0 with
    | None => Q_DECLINED
    | Some (acc, l) => Q_OK (query_header ident ++ (u8 l :: acc) ++ [0; u8 type; 0; 1]) (u16 (Z.of_nat len))
    end.
Proof.
  intros Hne len Hmem Hjunk. unfold ngx_resolver_create_name_query.
  rewrite (proj2 (Nat.eqb_neq _ 0)) by (by destruct name). fold len. rewrite Hmem.
  remember (take (1 + length name + 1) (drop sizeof_query junk)) as hole eqn:Ehole.
  assert (length hole = 1 + length name + 1)%nat as Hhole by (subst hole; rewrite length_take, length_drop; unfold len in Hjunk; lia).
  clear Ehole Hmem. destruct hole as [|x hole _] using rev_ind; [done|]. rewrite length_app in Hhole. cbn [length] in Hhole.
  rewrite <- app_assoc. rewrite app_assoc, insert_app_r_alt by (rewrite length_app; unfold sizeof_query; cbn [length query_header]; lia).
  replace (_ - length (query_header ident ++ hole))%nat with O by (rewrite length_app; unfold sizeof_query; cbn [length query_header]; lia).
  cbn [app insert list_insert]. rewrite <- app_assoc.
  replace (sizeof_query + (1 + length name + 1) - 1 - 1)%nat with (length (query_header ident) + length (reverse name))%nat
    by (rewrite length_reverse; unfold sizeof_query; cbn [length query_header]; lia).
  rewrite query_loop_written by (rewrite length_reverse; lia).
  change [0; 0; u8 type; 0; 1] with ([0] ++ [0; u8 type; 0; 1]). rewrite written_app.
  destruct (written (reverse name) [0] 0) as [[acc l]|]; [|done]. cbn [mbind option_bind]. do 2 f_equal.
  rewrite insert_app_r_alt by lia. rewrite Nat.sub_diag. destruct hole as [|h hole]; [cbn in Hhole; lia|]. done.
Qed.

Lemma join_nonempty ls : is_domain ls -> join ls <> [].
Proof.
  intros (Hne & _ & Hls) Hj. destruct ls as [|l ls]; [done|]. apply Forall_cons in Hls as [[Hl _] _].
  destruct (decide (ls = [])) as [->|Hn]; [cbn in Hj|rewrite join_cons in Hj by done]; destruct l; [cbn in Hl; lia|done|cbn in Hl; lia|done].
Qed.

Lemma name_query_ok mem ident type ls junk :
  is_domain ls -> let len := (sizeof_query + (1 + length (join ls) + 1) + sizeof_qs)%nat in
  mem len = Some junk -> length junk = len ->
  ngx_resolver_create_name_query mem ident type (join ls) =
    Q_OK (query_header ident ++ encode_name ls ++ [0; u8 type; 0; 1]) (u16 (Z.of_nat len)).
Proof.
  intros Hd len Hmem Hjunk. rewrite (name_query_written _ _ _ _ junk) by auto using join_nonempty.
  destruct Hd as (Hne & _ & Hls). rewrite <- (app_nil_r (reverse (join ls))). pose proof (written_join ls [] Hls) as Hw.
  destruct ls as [|l ls]; [done|]. rewrite Hw. cbn [written]. apply Forall_cons in Hls as [[Hl _] _]. by rewrite u8_small by lia.
Qed.

(** An empty label, but for the first, is declined. *)
Lemma written_seq s1 : forall s2 acc len,
  written (s1 ++ s2) acc len = '(acc, len) ← written s1 acc len; written s2 acc len.
Proof.
  induction s1 as [|c s1 IH]; intros s2 acc len; [done|]. cbn [app written].
  destruct (c =? 46); cbn [negb]; [destruct (len =? 0); [done|]|]; apply IH.
Qed.
Lemma written_declined a b acc : b = [] \/ head b = Some 46 -> written (reverse (a ++ 46 :: b)) acc 0 = None.
Proof.
  intros Hb. rewrite reverse_app, reverse_cons, <- app_assoc, written_seq.
  assert (forall acc' len', written (reverse b) acc 0 = Some (acc', len') -> len' = 0) as Hlen.
  { intros acc' len' Hw. destruct Hb as [->|Hb]; [by injection Hw|]. destruct b as [|c b]; [done|]. injection Hb as ->.
    rewrite reverse_cons, written_seq in Hw. destruct (written (reverse b) acc 0) as [[acc1 l]|]; [|done]. cbn in Hw.
    destruct (l =? 0); [done|]. by injection Hw. }
  destruct (written (reverse b) acc 0) as [[acc' len']|]; [|done]. by rewrite (Hlen acc' len' eq_refl).
Qed.
Lemma name_query_declined mem ident type a b junk :
  b = [] \/ head b = Some 46 -> let len := (sizeof_query + (1 + length (a ++ 46%Z :: b) + 1) + sizeof_qs)%nat in
  mem len = Some junk -> length junk = len -> ngx_resolver_create_name_query mem ident type (a ++ 46 :: b) = Q_DECLINED.
Proof.
  intros Hb len Hmem Hjunk. rewrite (name_query_written _ _ _ _ junk) by (first [by destruct a | done]). by rewrite written_declined.
Qed.

(** ** Queries for names *)
Definition octet (addr n : Z) : Z := Z.land (Z.shiftr addr n) 0xff.
Lemma octet_byte addr n : 0 <= octet addr n < 256.
Proof. unfold octet. change 0xff with (Z.ones 8). rewrite land_low by done. by apply Z.mod_pos_bound. Qed.

Abbreviation dec := Sprintf.dec.
Lemma dec_short z : 0 <= z < 256 -> (0 < length (dec z) <= 3)%nat.
Proof.
  intros Hz. split; [|apply Inet.sprintf_ud_short, Hz]. unfold dec. pose proof (num_digits_nonempty z 0). destruct (num_digits z 0); [done|cbn; lia].
Qed.
Lemma dec_read z : 0 <= z < 256 -> ngx_atoi (dec z) = z.
Proof.
  intros Hz. destruct (number_read 20 z 0) as [H _]; [unfold NGX_INT64_LEN; lia | lia | lia |].
  rewrite sprintf_num_fits in H by (unfold NGX_INT64_LEN; lia). exact H.
Qed.
Lemma dec_digits z : 0 <= z < 256 -> Forall (fun c => is_byte c /\ c <> 46) (dec z).
Proof.
  intros Hz. assert (forallb (fun z => forallb (fun c => (48 <=? c) && (c <=? 57)) (dec z)) (seqZ 0 256) = true) as H by by vm_compute.
  rewrite forallb_forall in H. specialize (H z ltac:(apply list_elem_of_In, elem_of_seqZ; lia)).
  rewrite forallb_forall in H. apply Forall_forall. intros c Hc%list_elem_of_In. specialize (H c Hc). unfold is_byte. lia.
Qed.

Lemma addr_label_ok p addr n : 0 <= p < 2 ^ 63 -> addr_label p addr n = Some (Z.of_nat (length (dec (octet addr n))) :: dec (octet addr n)).
Proof.
  intros Hp. unfold addr_label. fold (octet addr n). pose proof (octet_byte addr n) as Ho. pose proof (dec_short _ Ho) as Hs.
  assert (Sprintf.ngx_sprintf (p + 1) (bytes "%ud") [Sprintf.A_int (octet addr n)] = Some (dec (octet addr n))) as ->.
  { unfold Sprintf.ngx_sprintf. change (u64 (-1)) with (2 ^ 64 - 1). etrans; [Sprintf.vsl|]. by rewrite app_nil_r. }
  cbn [mbind option_bind]. by rewrite u8_small by lia.
Qed.

(** The labels of the name of an address. *)
Definition arpa_labels (addr : Z) : list (list Z) :=
  [dec (octet addr 0); dec (octet addr 8); dec (octet addr 16); dec (octet addr 24); bytes "in-addr"; bytes "arpa"].
Lemma arpa_domain addr : is_domain (arpa_labels addr).
Proof.
  split_and!; [done | cbn; lia |]. unfold arpa_labels.
  repeat (apply Forall_cons; split; [split; [first [pose proof (dec_short _ (octet_byte addr 0)); lia | pose proof (dec_short _ (octet_byte addr 8)); lia
    | pose proof (dec_short _ (octet_byte addr 16)); lia | pose proof (dec_short _ (octet_byte addr 24)); lia | cbn; lia]
    | first [apply dec_digits, octet_byte | apply (bool_decide_unpack _); by vm_compute]]|]). constructor.
Qed.

Lemma addr_query_ok p ident addr : 0 < p < 2 ^ 62 ->
  let packet := query_header ident ++ encode_name (arpa_labels addr) ++ [0; 12; 0; 1] in
  ngx_resolver_create_addr_query p ident addr = Some (Q_OK packet (u16 (Z.of_nat (length packet)))).
Proof.
  intros Hp packet. unfold ngx_resolver_create_addr_query. rewrite (proj2 (Z.eqb_neq p NULL)) by (unfold NULL; lia).
  pose proof (dec_short _ (octet_byte addr 0)). pose proof (dec_short _ (octet_byte addr 8)).
  pose proof (dec_short _ (octet_byte addr 16)). pose proof (dec_short _ (octet_byte addr 24)).
  assert (query_header ident ++ (Z.of_nat (length (dec (octet addr 0))) :: dec (octet addr 0)) ++
    (Z.of_nat (length (dec (octet addr 8))) :: dec (octet addr 8)) ++ (Z.of_nat (length (dec (octet addr 16))) :: dec (octet addr 16)) ++
    (Z.of_nat (length (dec (octet addr 24))) :: dec (octet addr 24)) ++ in_addr_arpa ++ [0; 12; 0; 1] = packet) as Hpk.
  { subst packet. unfold arpa_labels. cbn [encode_name app]. rewrite <- !app_assoc. cbn [app]. rewrite <- !app_assoc. cbn [app].
    rewrite <- !app_assoc. cbn [app]. rewrite <- !app_assoc. done. }
  cbn [addr_labels]. unfold sizeof_query.
  do 4 (rewrite addr_label_ok by (cbn [length]; lia); cbn [mbind option_bind]). rewrite app_nil_r, <- !app_assoc, Hpk.
  rewrite (proj2 (Nat.ltb_ge _ _)); [done|]. subst packet. rewrite <- Hpk, !length_app. cbn [length query_header]. change (length in_addr_arpa) with 14%nat. unfold sizeof_qs. lia.
Qed.

(** The question is read back. *)
Lemma octet_step buf i t rest mask masks addr z d :
  drop i buf = Z.of_nat (length t) :: t ++ rest -> ngx_atoi t = z -> 0 <= z < 256 ->
  read_octets (mask :: masks) buf i addr d = read_octets masks buf (S i + length t) (u32 (addr + Z.shiftl z mask)) d /\
  drop (S i + length t) buf = rest.
Proof.
  intros Hd Hz Hr. assert (buf !! i = Some (Z.of_nat (length t))) as Hi by (by rewrite <- (Nat.add_0_r i), <- lookup_drop, Hd).
  assert (drop (S i) buf = t ++ rest) as Hd' by (rewrite <- Nat.add_1_r, <- drop_drop, Hd; done).
  split; [|by rewrite <- drop_drop, Hd', drop_app_length].
  assert (length (drop (S i) buf) = length t + length rest)%nat as Hl by by rewrite Hd', length_app. rewrite length_drop in Hl.
  pose proof (lookup_lt_Some _ _ _ Hi).
  cbn [read_octets]. rstep. cbv zeta. rewrite Nat2Z.id. rstep. rewrite Hd', take_app_length, Hz.
  rewrite (proj2 (Z.eqb_neq z (-1))), (proj2 (Z.ltb_ge 255 z)) by lia. done.
Qed.
Lemma strcmp_ok lit : forall buf i rest d, drop i buf = lit ++ rest -> strcmp_at buf i lit d = Done true d.
Proof.
  induction lit as [|c lit IH]; intros buf i rest d Hd; [done|]. cbn [strcmp_at].
  assert (buf !! i = Some c) as Hi by (by rewrite <- (Nat.add_0_r i), <- lookup_drop, Hd).
  rstep. rewrite Z.eqb_refl. apply (IH _ _ rest). rewrite <- Nat.add_1_r, <- drop_drop, Hd. done.
Qed.

Lemma octets_sum addr : 0 <= addr < 2 ^ 32 ->
  u32 (u32 (u32 (u32 (0 + Z.shiftl (octet addr 0) 0) + Z.shiftl (octet addr 8) 8) + Z.shiftl (octet addr 16) 16) + Z.shiftl (octet addr 24) 24) = addr.
Proof.
  intros Ha. unfold octet. change 0xff with (Z.ones 8). rewrite !land_low, !shiftr_div, !shiftl_mul by done.
  change (2 ^ 0) with 1. change (2 ^ 8) with 256. change (2 ^ 16) with 65536. change (2 ^ 24) with 16777216.
  assert (addr = addr / 1 mod 256 * 1 + addr / 256 mod 256 * 256 + addr / 65536 mod 256 * 65536 + addr / 16777216 mod 256 * 16777216) as Hsum
    by (change (2 ^ 32) with 4294967296 in Ha; Z.div_mod_to_equations; lia).
  assert (forall x, 0 <= x mod 256 < 256) as Hm by (intros; by apply Z.mod_pos_bound).
  pose proof (Hm (addr / 1)). pose proof (Hm (addr / 256)). pose proof (Hm (addr / 65536)). pose proof (Hm (addr / 16777216)).
  rewrite (u32_small (0 + _)), (u32_small (0 + _ + _)), (u32_small (0 + _ + _ + _)), (u32_small (0 + _ + _ + _ + _)) by lia. lia.
Qed.

Lemma ptr_addr_ok ident addr rest : 0 <= addr < 2 ^ 32 ->
  let buf := (query_header ident ++ encode_name (arpa_labels addr) ++ [0; 12; 0; 1]) ++ rest in
  exists i, process_ptr_addr buf (length buf) [] = Done (Some (addr, i)) [] /\ drop i buf = in_addr_arpa ++ [0; 12; 0; 1] ++ rest.
Proof.
  intros Ha buf. assert (drop 12 buf = encode_name (arpa_labels addr) ++ [0; 12; 0; 1] ++ rest) as Hd by (unfold buf; by rewrite <- !app_assoc).
  assert (name_at buf (length buf) 12 (arpa_labels addr) 7) as Hname.
  { unfold buf. rewrite <- !app_assoc. apply (encoded_name_at (arpa_labels addr) (query_header ident) ([0; 12; 0; 1] ++ rest)).
    - apply arpa_domain.
    - rewrite !length_app. lia. }
  unfold process_ptr_addr, ngx_resolver_copy. rewrite (rbind_done _ _ _ true []).
  2: { rewrite (rbind_done _ _ _ _ _ (first_ok _ _ _ _ _ Hname 128 (-1) [] ltac:(lia))). done. }
  cbn [negb]. clearbody buf. unfold arpa_labels in Hd. cbn [encode_name app] in Hd. rewrite <- !app_assoc in Hd.
  destruct (octet_step buf 12 _ _ 0 [8; 16; 24] 0 (octet addr 0) [] Hd) as [H1 Hd1]; [apply dec_read, octet_byte | apply octet_byte|].
  cbn [app] in Hd1. rewrite <- !app_assoc in Hd1.
  destruct (octet_step buf _ _ _ 8 [16; 24] (u32 (0 + Z.shiftl (octet addr 0) 0)) (octet addr 8) [] Hd1) as [H2 Hd2]; [apply dec_read, octet_byte | apply octet_byte|].
  cbn [app] in Hd2. rewrite <- !app_assoc in Hd2.
  destruct (octet_step buf _ _ _ 16 [24] (u32 (u32 (0 + Z.shiftl (octet addr 0) 0) + Z.shiftl (octet addr 8) 8)) (octet addr 16) [] Hd2) as [H3 Hd3]; [apply dec_read, octet_byte | apply octet_byte|].
  cbn [app] in Hd3. rewrite <- !app_assoc in Hd3.
  destruct (octet_step buf _ _ _ 24 [] (u32 (u32 (u32 (0 + Z.shiftl (octet addr 0) 0) + Z.shiftl (octet addr 8) 8) + Z.shiftl (octet addr 16) 16)) (octet addr 24) [] Hd3) as [H4 Hd4]; [apply dec_read, octet_byte | apply octet_byte|].
  rewrite octets_sum in H4 by done. cbn [read_octets] in H4.
  eexists. split; [|exact Hd4].
  rewrite (rbind_done _ _ _ _ _ (eq_trans H1 (eq_trans H2 (eq_trans H3 H4)))). cbv beta iota.
  rewrite (rbind_done _ _ _ true []); [done|]. by eapply (strcmp_ok in_addr_arpa).
Qed.

(** * Answers *)

(** A resource record; [rr_fixed] is its class and time to live. *)
Record rr := mk_rr {
  rr_name : list Z;
  rr_type : Z;
  rr_fixed : list Z;
  rr_data : list Z
}.
Definition encode_rr (r : rr) : list Z :=
  rr_name r ++ two_bytes (rr_type r) ++ rr_fixed r ++ two_bytes (Z.of_nat (length (rr_data r))) ++ rr_data r.
Definition encode_rrs (rs : list rr) : list Z := concat (encode_rr <$> rs).

(** The name of a record: labels, then the root or a pointer. *)
Inductive skippable : list Z -> Prop :=
| skippable_root : skippable [0]
| skippable_pointer c m : 0xc0 <= c < 256 -> skippable [c; m]
| skippable_label l nm : (0 < length l < 64)%nat -> skippable nm -> skippable (Z.of_nat (length l) :: l ++ nm).

(** A record of one of the three types the resolver knows, with data in it, four bytes of it when
    it is an address; its name is not the root. *)
Record rr_ok (r : rr) : Prop := {
  ok_name : skippable (rr_name r) /\ rr_name r <> [0];
  ok_fixed : length (rr_fixed r) = 6%nat;
  ok_data : rr_data r <> [] /\ Z.of_nat (length (rr_data r)) < 65536 /\ are_bytes (rr_data r);
  ok_type : (rr_type r = NGX_RESOLVE_A /\ length (rr_data r) = 4%nat) \/ rr_type r = NGX_RESOLVE_CNAME \/ rr_type r = NGX_RESOLVE_DNAME
}.

(** Four bytes of memory as an [in_addr_t]. *)
Definition addr_of (l : list Z) : Z :=
  match l with
  | [b0; b1; b2; b3] => b0 + 256 * (b1 + 256 * (b2 + 256 * b3))
  | _ => 0
  end.
Definition is_addr (r : rr) : bool := rr_type r =? NGX_RESOLVE_A.
Fixpoint addrs (rs : list rr) : list Z :=
  match rs with
  | [] => []
  | r :: rs => if is_addr r then addr_of (rr_data r) :: addrs rs else addrs rs
  end.
(** Where the data of the last CNAME is, when the records are at [i]. *)
Fixpoint cname_at (i : nat) (rs : list rr) (c : option nat) : option nat :=
  match rs with
  | [] => c
  | r :: rs =>
      cname_at (i + length (encode_rr r)) rs
        (if rr_type r =? NGX_RESOLVE_CNAME then Some (i + length (rr_name r) + sizeof_an)%nat else c)
  end.
Definition last_addr (a : Z) (rs : list rr) : Z := List.last (addrs rs) a.
Definition last_type (q : Z) (rs : list rr) : Z := List.last (rr_type <$> rs) q.

Lemma lookup_at (buf : list Z) i x l : drop i buf = x :: l -> buf !! i = Some x /\ drop (S i) buf = l.
Proof.
  intros H. split; [by rewrite <- (Nat.add_0_r i), <- lookup_drop, H | by rewrite <- Nat.add_1_r, <- drop_drop, H].
Qed.
Lemma drop_at (buf : list Z) i l r : drop i buf = l ++ r -> drop (i + length l) buf = r.
Proof. intros H. by rewrite <- drop_drop, H, drop_app_length. Qed.
Lemma drop_bound (buf : list Z) i l : drop i buf = l -> l <> [] -> (i + length l = length buf)%nat.
Proof. intros <- Hne. rewrite length_drop. assert (0 < length (drop i buf))%nat by (destruct (drop i buf); [done|cbn; lia]). rewrite length_drop in *. lia. Qed.

Lemma skip_ok nm : skippable nm -> forall fuel buf last start i rest d,
  drop i buf = nm ++ rest -> (i + length nm <= last)%nat -> (length nm <= fuel)%nat -> (start < i)%nat \/ (start = i /\ nm <> [0]) ->
  skip_name fuel buf last start i d = Done (skip_found (i + length nm)) d.
Proof.
  induction 1 as [|c m Hc|l nm Hl Hnm IH]; intros fuel buf last start i rest d Hd Hlast Hfuel Hstart;
    (destruct fuel as [|fuel]; [cbn in Hfuel; lia|]); cbn [length app] in *; destruct (lookup_at _ _ _ _ Hd) as [Hi Hd'];
    cbn [skip_name]; rewrite (proj2 (Nat.ltb_lt i last)) by lia; rstep.
  - change (negb (Z.land 0 192 =? 0)) with false. cbv iota. cbn [Z.eqb].
    rewrite (proj2 (Nat.ltb_ge _ 2)) by (destruct Hstart as [|[]]; [lia|done]). f_equal. f_equal. lia.
  - rewrite pointer_bits by lia. done.
  - rewrite label_bits, (proj2 (Z.eqb_neq (Z.of_nat (length l)) 0)) by lia. change (negb (0 =? 0)) with false. cbv iota. rewrite Nat2Z.id.
    rewrite <- app_assoc in Hd'. apply drop_at in Hd'. rewrite length_app in *.
    rewrite (IH fuel buf last start _ rest) by (first [by rewrite Nat.add_assoc, (Nat.add_1_r i) | lia | (left; destruct Hstart as [|[]]; lia)]).
    do 2 f_equal. lia.
Qed.
Lemma skip_again_ok nm : skippable nm -> forall fuel buf i rest d,
  drop i buf = nm ++ rest -> (length nm <= fuel)%nat -> skip_again fuel buf i d = Done (i + length nm)%nat d.
Proof.
  induction 1 as [|c m Hc|l nm Hl Hnm IH]; intros fuel buf i rest d Hd Hfuel;
    (destruct fuel as [|fuel]; [cbn in Hfuel; lia|]); cbn [length app] in *; destruct (lookup_at _ _ _ _ Hd) as [Hi Hd'];
    cbn [skip_again]; rstep.
  - change (negb (Z.land 0 192 =? 0)) with false. cbv iota. cbn [Z.eqb]. unfold rret. f_equal. lia.
  - rewrite pointer_bits by lia. done.
  - rewrite label_bits, (proj2 (Z.eqb_neq (Z.of_nat (length l)) 0)) by lia. change (negb (0 =? 0)) with false. cbv iota. rewrite Nat2Z.id.
    rewrite <- app_assoc in Hd'. apply drop_at in Hd'. rewrite length_app in *.
    rewrite (IH fuel buf _ rest) by (first [by rewrite Nat.add_assoc, (Nat.add_1_r i) | lia]). f_equal. lia.
Qed.

Lemma rd_16_ok buf i z l d : drop i buf = two_bytes z ++ l -> 0 <= z -> rd_16 buf i d = Done z d /\ drop (i + 2) buf = l.
Proof.
  intros H Hz. cbn [two_bytes app] in H. destruct (lookup_at _ _ _ _ H) as [H0 H']. destruct (lookup_at _ _ _ _ H') as [H1 H''].
  split; [|by replace (i + 2)%nat with (S (S i)) by lia]. unfold rd_16. rstep. rstep. unfold rret. f_equal.
  rewrite shiftl_mul by done. change (2 ^ 8) with 256. pose proof (Z.div_mod z 256). lia.
Qed.

(** The fixed part of a record whose name has been skipped. *)
Lemma rr_read r buf i rest : rr_ok r -> drop i buf = encode_rr r ++ rest ->
  let j := (i + length (rr_name r))%nat in
  (forall d, rd_16 buf j d = Done (rr_type r) d) /\ (forall d, rd_16 buf (j + 8) d = Done (Z.of_nat (length (rr_data r))) d) /\
  drop (j + sizeof_an) buf = rr_data r ++ rest /\ (j + sizeof_an + length (rr_data r) <= length buf)%nat /\
  (length (encode_rr r) = length (rr_name r) + sizeof_an + length (rr_data r))%nat.
Proof.
  intros [Hn Hf (Hd & Hlen & _) Ht] Hdrop j. unfold encode_rr in *. rewrite <- !app_assoc in Hdrop. apply drop_at in Hdrop. fold j in Hdrop.
  assert (0 <= rr_type r) by (unfold NGX_RESOLVE_A, NGX_RESOLVE_CNAME, NGX_RESOLVE_DNAME in Ht; lia).
  pose proof (fun d => proj1 (rd_16_ok buf j _ _ d Hdrop ltac:(lia))) as H1.
  destruct (rd_16_ok buf j _ _ [] Hdrop) as [_ Hdrop1]; [lia|]. apply drop_at in Hdrop1. rewrite Hf in Hdrop1.
  pose proof (fun d => proj1 (rd_16_ok buf _ _ _ d Hdrop1 ltac:(lia))) as H2.
  destruct (rd_16_ok buf _ _ _ [] Hdrop1) as [_ Hdrop2]; [lia|].
  replace (j + 2 + 6)%nat with (j + 8)%nat in * by lia. replace (j + 8 + 2)%nat with (j + sizeof_an)%nat in * by (unfold sizeof_an; lia).
  split_and!; [done | done | done | |].
  - apply drop_bound in Hdrop2; [|by destruct (rr_data r)]. rewrite length_app in Hdrop2. lia.
  - rewrite !length_app, Hf. unfold sizeof_an. cbn. lia.
Qed.

Lemma addr_ok buf i l rest d : drop i buf = l ++ rest -> length l = 4%nat -> are_bytes l -> rd_addr buf i d = Done (addr_of l) d.
Proof.
  intros H Hl Hb. destruct l as [|b0 [|b1 [|b2 [|b3 []]]]]; try done. cbn [app] in H.
  destruct (lookup_at _ _ _ _ H) as [H0 H']. destruct (lookup_at _ _ _ _ H') as [H1 H'']. destruct (lookup_at _ _ _ _ H'') as [H2 H3].
  destruct (lookup_at _ _ _ _ H3) as [H4 _]. unfold rd_addr.
  replace (i + 1)%nat with (S i) by lia. replace (i + 2)%nat with (S (S i)) by lia. replace (i + 3)%nat with (S (S (S i))) by lia.
  do 4 rstep. unfold rret. f_equal. pose proof Hb as Hb'. repeat (apply Forall_cons in Hb' as [? Hb']). unfold is_byte in *.
  rewrite !shiftl_mul by done. rewrite u32_small by (cbn; lia).
  replace (b0 * 2 ^ 24 + b1 * 2 ^ 16 + b2 * 2 ^ 8 + b3) with (((b0 * 256 + b1) * 256 + b2) * 256 + b3) by (cbn; lia).
  by apply Inet.htonl_bytes.
Qed.

Lemma last_cons (a x : Z) l : List.last (x :: l) a = List.last l x.
Proof. revert a x. induction l as [|y l IH]; intros a x; [done|]. change (List.last (x :: y :: l) a) with (List.last (y :: l) a). by rewrite !IH. Qed.

Lemma answers_ok rs nan : forall buf i post naddrs addr cname qtype d,
  Forall rr_ok rs -> drop i buf = encode_rrs rs ++ post ->
  read_answers (length rs + nan) buf (length buf) i naddrs addr cname qtype d =
    read_answers nan buf (length buf) (i + length (encode_rrs rs)) (naddrs + length (addrs rs)) (last_addr addr rs)
      (cname_at i rs cname) (last_type qtype rs) d.
Proof.
  induction rs as [|r rs IH]; intros buf i post naddrs addr cname qtype d Hok Hdrop; cbn [length read_answers Nat.add].
  { cbn. by rewrite !Nat.add_0_r. }
  apply Forall_cons in Hok as [Hr Hok]. unfold encode_rrs in Hdrop. cbn [fmap list_fmap concat] in Hdrop. rewrite <- app_assoc in Hdrop.
  fold (encode_rrs rs) in Hdrop. pose proof (drop_at _ _ _ _ Hdrop) as Hnext.
  destruct (rr_read r buf i _ Hr Hdrop) as (Ht & Hlen & Hdata & Hin & Hsize). set (j := (i + length (rr_name r))%nat) in *.
  pose proof Hr as [[Hskip Hroot] Hf (Hd & _ & Hb) Htype].
  assert (0 < length (rr_data r))%nat by (destruct (rr_data r); [done|cbn; lia]).
  rewrite (rbind_done _ _ _ (skip_found j) d).
  2: { unfold encode_rr in Hdrop. rewrite <- !app_assoc in Hdrop. apply (skip_ok _ Hskip _ _ _ _ _ _ _ Hdrop); [unfold j in *; lia.. | by right]. }
  cbv beta iota. rewrite (proj2 (Nat.leb_gt _ _)) by lia. rewrite (rbind_done _ _ _ _ _ (Ht d)), (rbind_done _ _ _ _ _ (Hlen d)). cbv beta.
  rewrite Nat2Z.id. unfold last_addr, last_type. cbn [addrs cname_at fmap list_fmap]. rewrite last_cons. fold (last_type (rr_type r) rs).
  unfold encode_rrs. cbn [fmap list_fmap concat]. fold (encode_rrs rs). rewrite length_app, Nat.add_assoc.
  replace (i + length (encode_rr r))%nat with (j + sizeof_an + length (rr_data r))%nat in * by (unfold j; lia).
  destruct Htype as [[Htype H4]|[Htype|Htype]]; unfold is_addr; rewrite Htype; cbn [Z.eqb Pos.eqb NGX_RESOLVE_A NGX_RESOLVE_CNAME NGX_RESOLVE_DNAME].
  - cbv zeta. rewrite (proj2 (Nat.ltb_ge _ _)) by lia.
    rewrite (rbind_done _ _ _ _ _ (addr_ok _ _ _ _ d Hdata H4 Hb)). cbv beta. rewrite (IH _ _ post) by done.
    cbn [length]. rewrite last_cons. f_equal. lia.
  - by rewrite (IH _ _ post) by done.
  - by rewrite (IH _ _ post) by done.
Qed.

Lemma addrs_ok rs : forall buf i post naddrs acc d,
  Forall rr_ok rs -> drop i buf = encode_rrs rs ++ post -> naddrs = (length acc + length (addrs rs))%nat -> (length acc < naddrs)%nat ->
  read_addrs (length rs) buf i naddrs acc d = Done (acc ++ addrs rs) d.
Proof.
  induction rs as [|r rs IH]; intros buf i post naddrs acc d Hok Hdrop Hn Hacc; cbn [length read_addrs].
  { cbn in Hn. lia. }
  apply Forall_cons in Hok as [Hr Hok]. unfold encode_rrs in Hdrop. cbn [fmap list_fmap concat] in Hdrop. rewrite <- app_assoc in Hdrop.
  fold (encode_rrs rs) in Hdrop. pose proof (drop_at _ _ _ _ Hdrop) as Hnext.
  destruct (rr_read r buf i _ Hr Hdrop) as (Ht & Hlen & Hdata & Hin & Hsize). set (j := (i + length (rr_name r))%nat) in *.
  pose proof Hr as [[Hskip Hroot] Hf (Hd & _ & Hb) Htype].
  rewrite (rbind_done _ _ _ j d).
  2: { unfold encode_rr in Hdrop. rewrite <- !app_assoc in Hdrop. apply (skip_again_ok _ Hskip _ _ _ _ _ Hdrop). unfold j in *; lia. }
  cbv beta. rewrite (rbind_done _ _ _ _ _ (Ht d)), (rbind_done _ _ _ _ _ (Hlen d)). cbv beta zeta. rewrite Nat2Z.id.
  replace (i + length (encode_rr r))%nat with (j + sizeof_an + length (rr_data r))%nat in * by (unfold j; lia).
  cbn [addrs] in *. unfold is_addr in *. destruct Htype as [[Htype H4]|Htype].
  - rewrite Htype in *. rewrite Z.eqb_refl in *. cbn [length] in Hn. rewrite (rbind_done _ _ _ _ _ (addr_ok _ _ _ _ d Hdata H4 Hb)). cbv beta.
    rewrite length_app. cbn [length]. destruct (Nat.eqb_spec (length acc + 1) naddrs) as [E|E].
    + destruct (addrs rs); [done|]. cbn in Hn. lia.
    + rewrite (IH _ _ post) by (first [done | rewrite length_app; cbn [length]; lia]). by rewrite <- app_assoc.
  - assert ((rr_type r =? NGX_RESOLVE_A) = false) as Hna by (apply Z.eqb_neq; unfold NGX_RESOLVE_A, NGX_RESOLVE_CNAME, NGX_RESOLVE_DNAME in *; lia).
    rewrite Hna in *. by apply (IH _ _ post).
Qed.

Lemma cname_at_last rs1 r rs2 : forall i c, rr_type r = NGX_RESOLVE_CNAME -> Forall (fun r => rr_type r <> NGX_RESOLVE_CNAME) rs2 ->
  cname_at i (rs1 ++ r :: rs2) c = Some (i + length (encode_rrs rs1) + length (rr_name r) + sizeof_an)%nat.
Proof.
  intros i c Hr Hrs2. assert (forall i c, cname_at i rs2 c = c) as Hnone.
  { clear -Hrs2. induction Hrs2 as [|r' rs2 Hr' _ IH]; intros i c; [done|]. cbn. by rewrite (proj2 (Z.eqb_neq _ _) Hr'), IH. }
  revert i c. induction rs1 as [|r1 rs1 IH]; intros i c; cbn [app cname_at].
  - rewrite Hr, Hnone. cbn. do 2 f_equal. lia.
  - rewrite IH. unfold encode_rrs. cbn [fmap list_fmap concat]. rewrite length_app. f_equal. lia.
Qed.

(** A record of another type is not skipped: its type is read as a name. *)
Lemma other_type_invalid buf i name type fixed data rest nan naddrs addr cname qtype d :
  skippable name -> name <> [0] -> 0 <= type < 256 -> type <> NGX_RESOLVE_A -> type <> NGX_RESOLVE_CNAME -> type <> NGX_RESOLVE_DNAME ->
  length fixed = 6%nat -> data <> [] -> drop i buf = encode_rr (mk_rr name type fixed data) ++ rest ->
  read_answers (S (S nan)) buf (length buf) i naddrs addr cname qtype d = Done an_invalid d.
Proof.
  intros Hskip Hroot Ht HA HC HD Hf Hdata Hdrop.
  assert (0 < length data)%nat by (destruct data; [done|cbn; lia]).
  assert (i + (length name + 10 + length data) <= length buf)%nat as Hlen.
  { apply drop_bound in Hdrop as Hb; [|unfold encode_rr; destruct name; [by inversion Hskip | done]].
    rewrite length_app in Hb. unfold encode_rr in Hb. rewrite !length_app in Hb. cbn [rr_name rr_type rr_fixed rr_data two_bytes length] in Hb. lia. }
  unfold encode_rr in Hdrop. cbn [rr_name rr_type rr_fixed rr_data] in Hdrop. rewrite <- !app_assoc in Hdrop.
  pose proof (drop_at _ _ _ _ Hdrop) as Hj. set (j := (i + length name)%nat) in *.
  destruct (rd_16_ok _ _ _ _ d Hj) as [Hty Hj2]; [lia|]. apply drop_at in Hj2. rewrite Hf in Hj2.
  destruct (rd_16_ok _ _ _ _ d Hj2) as [Hln _]; [lia|]. replace (j + 2 + 6)%nat with (j + 8)%nat in Hln by lia.
  cbn [read_answers]. rewrite (rbind_done _ _ _ (skip_found j) d).
  2: { apply (skip_ok _ Hskip _ _ _ _ _ _ _ Hdrop); [unfold j in *; lia.. | by right]. }
  cbv beta iota. rewrite (proj2 (Nat.leb_gt _ _)) by (unfold sizeof_an, j in *; lia).
  rewrite (rbind_done _ _ _ _ _ Hty), (rbind_done _ _ _ _ _ Hln). cbv beta.
  rewrite !(proj2 (Z.eqb_neq _ _)) by done.
  cbn [two_bytes app] in Hj. destruct (lookup_at _ _ _ _ Hj) as [Hb _]. rewrite Z.div_small in Hb by lia.
  rewrite (rbind_done _ _ _ skip_invalid d); [done|]. cbn [skip_name].
  rewrite (proj2 (Nat.ltb_lt _ _)) by (unfold j in *; lia). rstep. change (negb (Z.land 0 192 =? 0)) with false. cbv iota. cbn [Z.eqb].
  by rewrite (proj2 (Nat.ltb_lt _ 2)) by lia.
Qed.
(** Nor is one that belongs to the root. *)
Lemma root_invalid buf i rest nan naddrs addr cname qtype d :
  drop i buf = 0 :: rest -> read_answers (S nan) buf (length buf) i naddrs addr cname qtype d = Done an_invalid d.
Proof.
  intros Hdrop. destruct (lookup_at _ _ _ _ Hdrop) as [Hb _]. pose proof (drop_bound _ _ _ Hdrop ltac:(done)) as Hlen. cbn [length] in Hlen.
  cbn [read_answers]. rewrite (rbind_done _ _ _ skip_invalid d); [done|]. cbn [skip_name].
  rewrite (proj2 (Nat.ltb_lt _ _)) by lia. rstep. change (negb (Z.land 0 192 =? 0)) with false. cbv iota. cbn [Z.eqb].
  by rewrite (proj2 (Nat.ltb_lt _ 2)) by lia.
Qed.

Lemma response_formerr queue hi lo rest : Z.shiftl hi 8 + lo ∉ queue -> (8 <= length rest)%nat ->
  ngx_resolver_process_response queue (hi :: lo :: 0x80 :: 1 :: rest) 12 [] = Fault.
Proof.
  intros Hi Hl. do 8 (destruct rest as [|? rest]; [cbn in Hl; lia|]).
  unfold ngx_resolver_process_response. cbn -[formerr_loop Z.shiftl]. by apply formerr_fault.
Qed.

(** * The theorems *)

(** C13.  What the resolver asks it can read.  The query
    [ngx_resolver_create_name_query] builds for a domain name (up to 127 labels of 1 to
    63 bytes) and a type below 256 is, byte for byte and whatever the memory held, a
    query of RFC 1035 for the name, the type and the class of the Internet: the header
    with the low 16 bits of the identifier, recursion desired and one question, the
    encoded name, the type and the class.  [ngx_resolver_copy] reads the name back from it
    and from any response that repeats it; a name with an empty label that is not its
    first is declined.  [ngx_resolver_copy] reads every name of labels and of pointers
    to places below 256 that have a label, in up to 128 steps, into an allocation just
    large enough for it.  The query [ngx_resolver_create_addr_query] builds is the
    one for the name of the address under in-addr.arpa and the type PTR, and fits its
    allocation, and [ngx_resolver_process_ptr] reads the address back from a
    response that repeats it.  But a name whose label is followed by a pointer to
    the end of a name makes [ngx_resolver_copy] write one byte behind its
    allocation; a pointer to a place from 256 on, which its second pass takes for
    a label of at least 193 bytes, makes it write, or read, as many bytes as that when
    the name there is shorter;
    and a response with a format error that matches no query waiting for an
    answer makes [ngx_resolver_process_response] read the queue's head as if it were a
    query. *)
Theorem resolver_names ident :
  (forall mem type ls junk, is_domain ls -> 0 <= type < 256 ->
    let len := (sizeof_query + (1 + length (join ls) + 1) + sizeof_qs)%nat in
    mem len = Some junk -> length junk = len ->
    ngx_resolver_create_name_query mem ident type (join ls) = Q_OK (dns_query ident type ls) (u16 (Z.of_nat len)) /\
    length (dns_query ident type ls) = len /\
    forall rest, let buf := dns_query ident type ls ++ rest in
      ngx_resolver_copy 128 true true buf 12 (length buf) [] = Done true (join ls)) /\
  (forall mem type a b junk, b = [] \/ head b = Some 46 ->
    let len := (sizeof_query + (1 + length (a ++ 46%Z :: b) + 1) + sizeof_qs)%nat in
    mem len = Some junk -> length junk = len -> ngx_resolver_create_name_query mem ident type (a ++ 46 :: b) = Q_DECLINED) /\
  (forall buf last p ls k fuel, name_at buf last p ls k -> (k <= 128 <= fuel)%nat ->
    ngx_resolver_copy fuel true true buf p last [] = Done true (join ls)) /\
  (forall p addr, 0 < p < 2 ^ 62 -> 0 <= addr < 2 ^ 32 ->
    let packet := dns_query ident 12 (arpa_labels addr) in
    ngx_resolver_create_addr_query p ident addr = Some (Q_OK packet (Z.of_nat (length packet))) /\
    forall rest, exists i, process_ptr_addr (packet ++ rest) (length (packet ++ rest)) [] = Done (Some (addr, i)) []) /\
  (forall buf last p fuel l m, buf !! p = Some (Z.of_nat (length l)) -> (0 < length l < 64)%nat -> take (length l) (drop (S p) buf) = l ->
    (S p + length l < last)%nat -> buf !! (S p + length l)%nat = Some 0xc0 -> buf !! S (S p + length l) = Some m ->
    0 <= m -> (Z.to_nat m < last)%nat -> buf !! Z.to_nat m = Some 0 ->
    ngx_resolver_copy (S fuel) true true buf p last [] = Fault) /\
  (forall buf last p fuel n m t ls k,
    buf !! p = Some n -> 0xc0 < n < 256 -> buf !! S p = Some m -> t = Z.to_nat (Z.shiftl (Z.land n 0x3f) 8 + m) ->
    (t < last)%nat -> name_at buf last t ls k -> (k < 128)%nat -> ls <> [] -> Z.of_nat (length (join ls)) < n ->
    ngx_resolver_copy (S fuel) true true buf p last [] = Fault) /\
  (forall queue hi lo rest, Z.shiftl hi 8 + lo ∉ queue -> (8 <= length rest)%nat ->
    ngx_resolver_process_response queue (hi :: lo :: 0x80 :: 1 :: rest) 12 [] = Fault).
Proof.
  split_and!.
  - intros mem type ls junk Hd Ht len Hmem Hjunk. rewrite <- (dns_query_ok ident type ls Ht).
    rewrite (name_query_ok _ _ _ _ junk) by done. fold len. rewrite u8_small by lia. split; [done|].
    destruct Hd as (Hne & Hcount & Hls). split.
    + rewrite !length_app. cbn [length query_header]. pose proof (encode_length ls). pose proof (room_join ls Hne). unfold len, sizeof_query, sizeof_qs. lia.
    + intros rest buf. subst buf. rewrite <- !app_assoc. apply (copy_ok _ _ _ _ (S (length ls))); [|lia|lia].
      apply (encoded_name_at ls (query_header ident)); [done|]. rewrite !length_app. lia.
  - intros mem type a b junk Hb len Hmem Hjunk. by apply (name_query_declined _ _ _ _ _ junk).
  - intros buf last p ls k fuel Hn [Hk Hf]. by apply (copy_ok _ _ _ _ k).
  - intros p addr Hp Ha packet. subst packet. rewrite <- dns_query_ok by lia. split.
    + rewrite addr_query_ok by done. do 2 f_equal. unfold u16, wrapU. apply Z.mod_small. split; [lia|].
      pose proof (dec_short _ (octet_byte addr 0)). pose proof (dec_short _ (octet_byte addr 8)).
      pose proof (dec_short _ (octet_byte addr 16)). pose proof (dec_short _ (octet_byte addr 24)).
      rewrite !length_app. pose proof (encode_length (arpa_labels addr)) as He. unfold arpa_labels in *. cbn [room] in He.
      change (length (bytes "in-addr")) with 7%nat in He. change (length (bytes "arpa")) with 4%nat in He. cbn [length query_header]. change (2 ^ 16) with 65536. lia.
    + intros rest. destruct (ptr_addr_ok ident addr rest Ha) as (i & Hi & _). by exists i.
  - intros buf last p fuel l m. apply copy_root_pointer.
  - intros buf last p fuel n m t ls k. apply copy_far_pointer.
  - apply response_formerr.
Qed.

(** C26.  Answers are read in order.  Take a response whose answers are records of
    the types A, with four bytes of data, CNAME and DNAME, with at least one byte of
    data, each named by labels of 1 to 63 bytes and then the root or a pointer, but not
    by the root alone, with any bytes before and behind the answers.
    [ngx_resolver_process_a] learns the addresses of exactly the A records, in their
    order; when there are none, the name in the last CNAME record, if it is one of labels
    and of pointers to places below 256 that have a label.  A record of any other type
    below 256 among them, which a server may well send, is not skipped: when another
    answer is behind it, that answer is read at the wrong place and the whole response
    refused.  A record that is named by the root alone makes it refused too. *)
Theorem resolver_answers fuel pre rs post : Forall rr_ok rs ->
  let buf := pre ++ encode_rrs rs ++ post in
  (addrs rs <> [] ->
    process_a_answers fuel true buf (length buf) (length rs) (length pre) [] = Done (R_addrs (addrs rs)) []) /\
  (forall rs1 r rs2 ls k, addrs rs = [] -> rs = rs1 ++ r :: rs2 -> rr_type r = NGX_RESOLVE_CNAME ->
    Forall (fun r => rr_type r <> NGX_RESOLVE_CNAME) rs2 ->
    name_at buf (length buf) (length pre + length (encode_rrs rs1) + length (rr_name r) + sizeof_an) ls k -> (k <= 128 <= fuel)%nat ->
    process_a_answers fuel true buf (length buf) (length rs) (length pre) [] = Done (R_cname (join ls)) (join ls)) /\
  (forall name type fixed data rest nan alloc d,
    skippable name -> name <> [0] -> 0 <= type < 256 -> type <> NGX_RESOLVE_A -> type <> NGX_RESOLVE_CNAME -> type <> NGX_RESOLVE_DNAME ->
    length fixed = 6%nat -> data <> [] -> post = encode_rr (mk_rr name type fixed data) ++ rest ->
    process_a_answers fuel alloc buf (length buf) (length rs + S (S nan)) (length pre) d = Done (R_log "invalid name in dns response") d) /\
  (forall rest nan alloc d, post = 0 :: rest ->
    process_a_answers fuel alloc buf (length buf) (length rs + S nan) (length pre) d = Done (R_log "invalid name in dns response") d).
Proof.
  intros Hok buf. assert (drop (length pre) buf = encode_rrs rs ++ post) as Hdrop by (unfold buf; by rewrite drop_app_length).
  assert (forall d, read_answers (length rs) buf (length buf) (length pre) 0 0 None 0 d =
    Done (an_read (length (addrs rs)) (last_addr 0 rs) (cname_at (length pre) rs None) (last_type 0 rs)) d) as Hread
    by (intros d; by rewrite <- (Nat.add_0_r (length rs)), (answers_ok rs 0 _ _ post)).
  pose proof (drop_at _ _ _ _ Hdrop) as Hpost.
  split_and!.
  - intros Hne. unfold process_a_answers. rewrite (rbind_done _ _ _ _ _ (Hread [])). cbv beta iota.
    destruct (addrs rs) as [|a l] eqn:Ea; [done|]. cbn [length]. rewrite (proj2 (Nat.eqb_neq _ 0)) by done. cbn [negb].
    destruct (Nat.eqb_spec (S (length l)) 1) as [E|E].
    + destruct l; [|done]. unfold last_addr. by rewrite Ea.
    + rewrite (rbind_done _ _ _ (addrs rs) []); [by rewrite Ea|].
      rewrite (addrs_ok rs _ _ post) by (rewrite ?Ea; cbn; first [done | lia]). done.
  - intros rs1 r rs2 ls k Hna -> Hr Hrs2 Hname [Hk Hf]. unfold process_a_answers. rewrite (rbind_done _ _ _ _ _ (Hread [])). cbv beta iota.
    rewrite Hna. cbn [length Nat.eqb negb]. rewrite cname_at_last by done. cbv iota.
    by rewrite (rbind_done _ _ _ _ _ (copy_ok _ _ _ _ _ _ Hname Hk Hf)).
  - intros name type fixed data rest nan alloc d Hn Hr Ht HA HC HD Hf Hd Hp. unfold process_a_answers.
    rewrite (rbind_done _ _ _ an_invalid d); [done|]. rewrite (answers_ok rs _ _ _ post) by done.
    rewrite Hp in Hpost. by eapply other_type_invalid.
  - intros rest nan alloc d Hp. unfold process_a_answers.
    rewrite (rbind_done _ _ _ an_invalid d); [done|]. rewrite (answers_ok rs _ _ _ post) by done.
    rewrite Hp in Hpost. by eapply root_invalid.
Qed.

(** * Witnesses *)

Definition www_perl_org : list (list Z) := [bytes "www"; bytes "perl"; bytes "org"].
Lemma www_domain : is_domain www_perl_org.
Proof. split_and!; [done | cbn; lia |]. apply (bool_decide_unpack _). by vm_compute. Qed.

(** The last name is the label www and a pointer to the zero byte behind it. *)
Lemma resolver_names_witness :
  (ngx_resolver_create_name_query (fun n => Some (replicate n 99)) 0x1234 1 (bytes "www.perl.org")
     = Q_OK ([0x12; 0x34; 1; 0; 0; 1; 0; 0; 0; 0; 0; 0] ++ 3 :: bytes "www" ++ 4 :: bytes "perl" ++ 3 :: bytes "org" ++ [0; 0; 1; 0; 1]) 30 /\
   ngx_resolver_copy 128 true true (dns_query 0x1234 1 www_perl_org ++ []) 12 30 [] = Done true (bytes "www.perl.org")) /\
  ngx_resolver_create_name_query (fun n => Some (replicate n 99)) 0x1234 1 (bytes "perl.org" ++ [46]) = Q_DECLINED /\
  ngx_resolver_create_addr_query 4096 0x1234 0x7f000001 = Some (Q_OK (dns_query 0x1234 12 (arpa_labels 0x7f000001)) 40) /\
  ngx_resolver_copy 128 true true (3 :: bytes "www" ++ [0xc0; 6; 0]) 0 7 [] = Fault /\
  ngx_resolver_process_response [0x1234] (0 :: 7 :: 0x80 :: 1 :: replicate 8 0) 12 [] = Fault.
Proof.
  destruct (resolver_names 0x1234) as (Hq & Hd & _ & Ha & H1 & _ & H3). split_and!.
  - exact (proj1 (Hq (fun n => Some (replicate n 99)) 1 www_perl_org (replicate 30 99) www_domain ltac:(lia) eq_refl eq_refl)).
  - exact (proj2 (proj2 (Hq (fun n => Some (replicate n 99)) 1 www_perl_org (replicate 30 99) www_domain ltac:(lia) eq_refl eq_refl)) []).
  - apply (Hd (fun n => Some (replicate n 99)) 1 (bytes "perl.org") [] (replicate 27 99)); [by left | reflexivity | reflexivity].
  - exact (proj1 (Ha 4096 0x7f000001 ltac:(lia) ltac:(lia))).
  - apply (H1 (3 :: bytes "www" ++ [0xc0; 6; 0]) 7%nat 0%nat 127%nat (bytes "www") 6); try reflexivity; cbn; lia.
  - apply (H3 [0x1234] 0 7 (replicate 8 0)); [|cbn; lia]. apply (bool_decide_unpack _). by vm_compute.
Defined.

(** Two addresses behind a CNAME; the names are pointers to the question. *)
Definition some_answers : list rr :=
  [mk_rr [0xc0; 12] NGX_RESOLVE_CNAME [0; 1; 0; 0; 0; 60] (3 :: bytes "www" ++ [0xc0; 16]);
   mk_rr [0xc0; 12] NGX_RESOLVE_A [0; 1; 0; 0; 0; 60] [127; 0; 0; 1];
   mk_rr [0xc0; 12] NGX_RESOLVE_A [0; 1; 0; 0; 0; 60] [10; 0; 0; 7]].
Lemma some_answers_ok : Forall rr_ok some_answers.
Proof.
  assert (forall l, forallb (fun c => (0 <=? c) && (c <? 256)) l = true -> are_bytes l) as Hb.
  { intros l Hl. apply Forall_forall. intros c Hc%list_elem_of_In. rewrite forallb_forall in Hl. specialize (Hl c Hc). unfold is_byte. lia. }
  unfold some_answers. rewrite !Forall_cons. split_and!; [..|constructor];
    (constructor; [split; [constructor; lia|done] | done | split_and!; [done | done | by apply Hb] | first [by left | by right; left]]).
Qed.
(** An IPv6 address between two answers. *)
Definition aaaa_answers : list Z := encode_rr (mk_rr [0xc0; 12] 28 [0; 1; 0; 0; 0; 60] (replicate 16 1)) ++ encode_rrs (take 1 some_answers).
Lemma resolver_answers_witness :
  process_a_answers 128 true (replicate 12 7 ++ encode_rrs some_answers ++ []) 62 3 12 [] = Done (R_addrs [0x0100007f; 0x0700000a]) [] /\
  process_a_answers 128 true (replicate 12 7 ++ encode_rrs some_answers ++ aaaa_answers) 108 5 12 [] = Done (R_log "invalid name in dns response") [] /\
  process_a_answers 128 true (replicate 12 7 ++ encode_rrs some_answers ++ replicate 11 0) 73 4 12 [] = Done (R_log "invalid name in dns response") [].
Proof.
  split_and!.
  - exact (proj1 (resolver_answers 128 (replicate 12 7) some_answers [] some_answers_ok) ltac:(done)).
  - apply (proj1 (proj2 (proj2 (resolver_answers 128 (replicate 12 7) some_answers aaaa_answers some_answers_ok)))
      [0xc0; 12] 28 [0; 1; 0; 0; 0; 60] (replicate 16 1) (encode_rrs (take 1 some_answers)) 0%nat true []);
      [constructor; lia | done | lia | done | done | done | done | done | done].
  - apply (proj2 (proj2 (proj2 (resolver_answers 128 (replicate 12 7) some_answers (replicate 11 0) some_answers_ok)))
      (replicate 10 0) 0%nat true []). reflexivity.
Defined.
End ResolverCorrect.
