(* ===== verification/Radix.v ===== *)
(** The radix tree of 32-bit keys, nginx/src/core/ngx_radix_tree.c: tables of
    network prefixes, whose lookup returns the value of the longest prefix that
    matches.  The nodes come from pages of a pool, which is an interface here;
    Palloc.v's pools implement it (RadixPool.v). *)
From stdpp Require Import base numbers gmap list.
From S2P Require Import Prelude.
Local Open Scope Z_scope.

Module Radix.

(** * Data *)

Definition NGX_OK : Z := 0.
Definition NGX_ERROR : Z := -1.
Definition NGX_BUSY : Z := -3.
Definition NGX_RADIX_NO_VALUE : Z := 2 ^ 64 - 1.
Definition sizeof_ngx_radix_node_t : Z := 32.
Definition sizeof_ngx_radix_tree_t : Z := 40.

Record ngx_radix_node_t := mk_node { right : ptr; left : ptr; parent : ptr; value : Z }.
#[export] Instance eta_node : Eta ngx_radix_node_t := fun x =>
  mk_node (right x) (left x) (parent x) (value x).

(** What the tree needs of a pool; a result of NULL is memory refused, no
    result an access the pool may not make. *)
Class NodePool (P : Type) := {
  palloc : Z -> P -> option (ptr * P);
  pmemalign : Z -> Z -> P -> option (ptr * P)
}.

(** [ngx_radix_tree_t], with the memory of its nodes and the pool. *)
Record radix (P : Type) := mk_radix {
  nodes : gmap ptr ngx_radix_node_t;
  root : ptr;
  pool : P;
  free : ptr;
  start : ptr;
  size : Z
}.
Arguments mk_radix {P}.
Arguments nodes {P}.
Arguments root {P}.
Arguments pool {P}.
Arguments free {P}.
Arguments start {P}.
Arguments size {P}.
#[export] Instance eta_radix P : Eta (radix P) := fun x =>
  mk_radix (nodes x) (root x) (pool x) (free x) (start x) (size x).

Section Radix.
Context {P : Type} {HP : NodePool P}.
(** [ngx_pagesize], and what memory from the pool holds before it is written. *)
Context (ngx_pagesize : Z) (junk : ptr -> ngx_radix_node_t).
Local Open Scope prog_scope.

Abbreviation T := (M (radix P)).

(** [p->f], and [p->f = v] for the node at [p]. *)
Definition rd {A} (f : ngx_radix_node_t -> A) (p : ptr) : T A :=
  fun s => match nodes s !! p with Some n => Some (f n, s) | None => None end.
Definition wr {A} (f : ngx_radix_node_t -> A) `{!Setter f} (p : ptr) (v : A) : T unit :=
  fun s => match nodes s !! p with
           | Some n => Some (tt, s <| nodes := <[p := n <| f := v |>]> (nodes s) |>)
           | None => None
           end.
(** [tree->f] and [tree->f = v]. *)
Definition get {A} (f : radix P -> A) : T A := fun s => Some (f s, s).
Definition put {A} (f : radix P -> A) `{!Setter f} (v : A) : T unit := fun s => Some (tt, s <| f := v |>).

(** The nodes that fit into [n] bytes from [p] on. *)
Definition cells (p n : Z) : list ptr :=
  (fun i => p + sizeof_ngx_radix_node_t * i) <$> seqZ 0 (n / sizeof_ngx_radix_node_t).

(** [tree->start = ngx_pmemalign(tree->pool, ngx_pagesize, ngx_pagesize)] *)
Definition new_page : T ptr :=
  fun s => match pmemalign ngx_pagesize ngx_pagesize (pool s) with
           | Some (p, pool') =>
               Some (p, s <| pool := pool' |> <| start := p |>
                          <| nodes := if p =? NULL then nodes s
                                      else list_to_map ((fun a => (a, junk a)) <$> cells p ngx_pagesize) ∪ nodes s |>)
           | None => None
           end.

Definition ngx_radix_alloc : T ptr :=
  let! free_ := get free in
  if negb (free_ =? NULL) then
    let! next := rd right free_ in
    put free next ;;
    ret free_
  else
    let! size_ := get size in
    let! ok := (if size_ <? sizeof_ngx_radix_node_t then
                  let! p := new_page in
                  if p =? NULL then ret false
                  else put size ngx_pagesize ;; ret true
                else ret true) in
    if negb ok then ret NULL
    else
      let! p := get start in
      put start (p + sizeof_ngx_radix_node_t) ;;
      let! size_ := get size in
      put size (size_ - sizeof_ngx_radix_node_t) ;;
      ret p.

(** * Insertion *)

(** The child of [node] the bit of the key selects. *)
Definition child (key bit node : Z) : T ptr :=
  if Z.land key bit =? 0 then rd left node else rd right node.

(** The first loop: [bit], [node] and [next] at its end. *)
Fixpoint insert_walk (fuel : nat) (key mask bit node next : Z) : T (Z * Z * Z) :=
  if Z.land bit mask =? 0 then ret (bit, node, next)
  else
    match fuel with
    | O => fault
    | S fuel =>
        let! next := child key bit node in
        if next =? NULL then ret (bit, node, next)
        else insert_walk fuel key mask (Z.shiftr bit 1) next next
    end.

(** The second loop: new nodes for the bits that are left, the last of which
    is the result, or NULL when there is no memory. *)
Fixpoint insert_grow (fuel : nat) (key mask bit node : Z) : T ptr :=
  if Z.land bit mask =? 0 then ret node
  else
    match fuel with
    | O => fault
    | S fuel =>
        let! next := ngx_radix_alloc in
        if next =? NULL then ret NULL
        else
          wr right next NULL ;;
          wr left next NULL ;;
          wr parent next node ;;
          wr value next NGX_RADIX_NO_VALUE ;;
          (if Z.land key bit =? 0 then wr left node next else wr right node next) ;;
          insert_grow fuel key mask (Z.shiftr bit 1) next
    end.

(** Keys have 32 bits: no loop makes more than 32 steps. *)
Definition key_bits : nat := 32.

Definition ngx_radix32tree_insert (key mask val : Z) : T Z :=
  let! root_ := get root in
  let! r := insert_walk key_bits key mask 0x80000000 root_ root_ in
  let '(bit, node, next) := r in
  if negb (next =? NULL) then
    let! v := rd value node in
    if negb (v =? NGX_RADIX_NO_VALUE) then ret NGX_BUSY
    else wr value node val ;; ret NGX_OK
  else
    let! node := insert_grow key_bits key mask bit node in
    if node =? NULL then ret NGX_ERROR
    else wr value node val ;; ret NGX_OK.

(** * Deletion *)

Fixpoint delete_walk (fuel : nat) (key mask bit node : Z) : T ptr :=
  if (node =? NULL) || (Z.land bit mask =? 0) then ret node
  else
    match fuel with
    | O => fault
    | S fuel =>
        let! node := child key bit node in
        delete_walk fuel key mask (Z.shiftr bit 1) node
    end.

(** [node->right || node->left] *)
Definition has_child (node : ptr) : T bool :=
  let! r := rd right node in
  if negb (r =? NULL) then ret true
  else let! l := rd left node in ret (negb (l =? NULL)).

(** The loop that frees the leaf [node] and the ancestors that serve no
    purpose any more. *)
Fixpoint delete_up (fuel : nat) (node : ptr) : T unit :=
  match fuel with
  | O => fault
  | S fuel =>
      let! par := rd parent node in
      let! r := rd right par in
      (if r =? node then wr right par NULL else wr left par NULL) ;;
      let! free_ := get free in
      wr right node free_ ;;
      put free node ;;
      let! node := rd parent node in
      let! c := has_child node in
      if c : bool then ret tt
      else
        let! v := rd value node in
        if negb (v =? NGX_RADIX_NO_VALUE) then ret tt
        else
          let! par := rd parent node in
          if par =? NULL then ret tt else delete_up fuel node
  end.

Definition ngx_radix32tree_delete (key mask : Z) : T Z :=
  let! root_ := get root in
  let! node := delete_walk key_bits key mask 0x80000000 root_ in
  if node =? NULL then ret NGX_ERROR
  else
    let! c := has_child node in
    if c : bool then
      let! v := rd value node in
      if negb (v =? NGX_RADIX_NO_VALUE) then
        wr value node NGX_RADIX_NO_VALUE ;; ret NGX_OK
      else ret NGX_ERROR
    else delete_up (S key_bits) node ;; ret NGX_OK.

(** * Lookup *)

Fixpoint find_loop (fuel : nat) (key bit val node : Z) : T Z :=
  if node =? NULL then ret val
  else
    match fuel with
    | O => fault
    | S fuel =>
        let! v := rd value node in
        let val := if negb (v =? NGX_RADIX_NO_VALUE) then v else val in
        let! node := child key bit node in
        find_loop fuel key (Z.shiftr bit 1) val node
    end.

(** A tree has a root and at most [key_bits] levels below it. *)
Definition ngx_radix32tree_find (key : Z) : T Z :=
  let! root_ := get root in
  find_loop (S key_bits) key 0x80000000 NGX_RADIX_NO_VALUE root_.

(** * Creation *)

(** [if (preallocate == -1) switch (ngx_pagesize / sizeof(ngx_radix_tree_t))] *)
Definition preallocate_bits (preallocate : Z) : Z :=
  if preallocate =? -1 then
    let n := ngx_pagesize / sizeof_ngx_radix_tree_t in
    if n =? 128 then 6 else if n =? 256 then 7 else 8
  else preallocate.

(** The inner loop, over the keys of one level. *)
Fixpoint preallocate_level (fuel : nat) (key mask inc : Z) : T Z :=
  match fuel with
  | O => fault
  | S fuel =>
      let! rc := ngx_radix32tree_insert key mask NGX_RADIX_NO_VALUE in
      if negb (rc =? NGX_OK) then ret NGX_ERROR
      else
        let key := u32 (key + inc) in
        if key =? 0 then ret NGX_OK else preallocate_level fuel key mask inc
  end.

(** The outer loop, [n] levels. *)
Fixpoint preallocate_loop (n : nat) (mask inc : Z) : T Z :=
  match n with
  | O => ret NGX_OK
  | S n =>
      let mask := Z.lor (Z.shiftr mask 1) 0x80000000 in
      let! rc := preallocate_level (if inc =? 0 then 1 else Z.to_nat (2 ^ 32 / inc)) 0 mask inc in
      if rc =? NGX_OK then preallocate_loop n mask (Z.shiftr inc 1) else ret NGX_ERROR
  end.

(** The tree in the pool [p]: its address, or NULL.  A count below -1 would
    overflow in the loop. *)
Definition ngx_radix_tree_create (p : P) (preallocate : Z) : option (ptr * radix P) :=
  match palloc sizeof_ngx_radix_tree_t p with
  | None => None
  | Some (tree, p) =>
      let s := mk_radix ∅ NULL p NULL NULL 0 in
      if tree =? NULL then Some (NULL, s)
      else
        (let! root_ := ngx_radix_alloc in
         put root root_ ;;
         if root_ =? NULL then ret NULL
         else
           wr right root_ NULL ;;
           wr left root_ NULL ;;
           wr parent root_ NULL ;;
           wr value root_ NGX_RADIX_NO_VALUE ;;
           if preallocate =? 0 then ret tree
           else if preallocate <? -1 then fault
           else
             let! rc := preallocate_loop (Z.to_nat (preallocate_bits preallocate)) 0 0x80000000 in
             if rc =? NGX_OK then ret tree else ret NULL) s
  end.

End Radix.
End Radix.
