(* ===== verification/RadixCorrect.v ===== *)
(** The radix tree (Radix.v) is a table of prefixes: its insertions and
    deletions are those of a finite map, and its lookup finds the longest
    prefix of the key. *)
From stdpp Require Import base numbers gmap list.
From S2P Require Import Prelude Radix.
Local Open Scope Z_scope.
Import Radix.

Module RadixCorrect.

Abbreviation NO := NGX_RADIX_NO_VALUE.

(** * Bits *)

(** The variable [bit] when [k] bits are left. *)
Definition bitat (k : nat) : Z := match k with O => 0 | S k => 2 ^ Z.of_nat k end.

Lemma bitat_shift k : Z.shiftr (bitat k) 1 = bitat (pred k).
Proof.
  destruct k as [|[|k]]; [done | done |]. cbn [bitat pred]. rewrite Z.shiftr_div_pow2 by lia.
  rewrite Nat2Z.inj_succ, Z.pow_succ_r by lia. change (2 ^ 1) with 2. rewrite Z.mul_comm. by apply Z.div_mul.
Qed.

Lemma land_bit x k : Z.land x (2 ^ Z.of_nat k) = if Z.testbit x (Z.of_nat k) then 2 ^ Z.of_nat k else 0.
Proof.
  apply Z.bits_inj'. intros i Hi. rewrite Z.land_spec, Z.pow2_bits_eqb by lia.
  destruct (Z.eqb_spec (Z.of_nat k) i) as [<-|Hne].
  - rewrite andb_true_r. destruct (Z.testbit x (Z.of_nat k)); [by rewrite Z.pow2_bits_true by lia | by rewrite Z.bits_0].
  - rewrite andb_false_r. destruct (Z.testbit x (Z.of_nat k)); [by rewrite Z.pow2_bits_false by lia | by rewrite Z.bits_0].
Qed.

Lemma land_bit_zero x k : (Z.land x (bitat (S k)) =? 0) = negb (Z.testbit x (Z.of_nat k)).
Proof.
  cbn [bitat]. rewrite land_bit. destruct (Z.testbit x (Z.of_nat k)); [|done].
  pose proof (Z.pow_pos_nonneg 2 (Z.of_nat k)). destruct (Z.eqb_spec (2 ^ Z.of_nat k) 0); [lia | done].
Qed.
Lemma bit_land_zero x k : (Z.land (bitat (S k)) x =? 0) = negb (Z.testbit x (Z.of_nat k)).
Proof. by rewrite Z.land_comm, land_bit_zero. Qed.

(** The prefix of [key] that [mask] selects, of the lowest [k] bits: the loops
    stop at the first bit that is not in the mask. *)
Fixpoint mpath (k : nat) (key mask : Z) : list bool :=
  match k with
  | O => []
  | S k => if Z.testbit mask (Z.of_nat k) then Z.testbit key (Z.of_nat k) :: mpath k key mask else []
  end.
(** All of its bits. *)
Fixpoint kbits (k : nat) (key : Z) : list bool :=
  match k with
  | O => []
  | S k => Z.testbit key (Z.of_nat k) :: kbits k key
  end.

Definition prefix_of (key mask : Z) : list bool := mpath key_bits key mask.
Definition bits_of (key : Z) : list bool := kbits key_bits key.

(** * Trees *)

Inductive tree := E | T (a v : Z) (l r : tree).

Definition addr (t : tree) : ptr := match t with E => NULL | T a _ _ _ => a end.
Fixpoint ptrs (t : tree) : list ptr := match t with E => [] | T a _ l r => a :: ptrs l ++ ptrs r end.
Fixpoint height (t : tree) : nat := match t with E => O | T _ _ l r => S (Nat.max (height l) (height r)) end.
Fixpoint look (t : tree) (q : list bool) : Z :=
  match t with
  | E => NO
  | T _ v l r => match q with [] => v | b :: q => look (if b then r else l) q end
  end.

(** The memory [h] holds [t] below the node [par]. *)
Fixpoint rep (h : gmap ptr ngx_radix_node_t) (par : ptr) (t : tree) : Prop :=
  match t with
  | E => True
  | T a v l r => a <> NULL /\ h !! a = Some (mk_node (addr r) (addr l) par v) /\ rep h a l /\ rep h a r
  end.

(** A tree with a hole: the steps from the hole up to the root. *)
Inductive frame := F (d : bool) (a v : Z) (sib : tree).
Definition fill (f : frame) (s : tree) : tree :=
  match f with F d a v sib => if d then T a v sib s else T a v s sib end.
Fixpoint plug (K : list frame) (s : tree) : tree := match K with [] => s | f :: K => plug K (fill f s) end.
Fixpoint path (K : list frame) : list bool := match K with [] => [] | F d _ _ _ :: K => path K ++ [d] end.
Definition top (K : list frame) : ptr := match K with [] => NULL | F _ a _ _ :: _ => a end.
Fixpoint cptrs (K : list frame) : list ptr :=
  match K with [] => [] | F _ a _ sib :: K => a :: ptrs sib ++ cptrs K end.
Fixpoint repc (h : gmap ptr ngx_radix_node_t) (K : list frame) (hole : ptr) : Prop :=
  match K with
  | [] => True
  | F d a v sib :: K =>
      a <> NULL /\ h !! a = Some (mk_node (if d then hole else addr sib) (if d then addr sib else hole) (top K) v) /\
      rep h a sib /\ repc h K a
  end.

Lemma rep_plug h K s : rep h NULL (plug K s) <-> repc h K (addr s) /\ rep h (top K) s.
Proof.
  revert s. induction K as [|[[] a v sib] K IH]; intros s; cbn [plug repc top]; [tauto|..];
    rewrite IH; cbn [fill rep addr]; tauto.
Qed.

Lemma radix_ptrs_plug K s : ptrs (plug K s) ≡ₚ cptrs K ++ ptrs s.
Proof.
  revert s. induction K as [|[[] a v sib] K IH]; intros s; cbn [plug cptrs]; [done|..];
    rewrite IH; cbn [fill ptrs]; solve_Permutation.
Qed.

Lemma rep_frame h h' par t : (forall x, x ∈ ptrs t -> h' !! x = h !! x) -> rep h par t -> rep h' par t.
Proof.
  revert par. induction t as [|a v l IHl r IHr]; intros par Hs; cbn [rep ptrs] in *; [done|].
  intros (Ha & Hh & Hl & Hr). split_and!; [done | rewrite Hs by set_solver; done | |];
    [apply IHl | apply IHr]; try done; intros x Hx; apply Hs; set_solver.
Qed.
Lemma repc_frame h h' K p : (forall x, x ∈ cptrs K -> h' !! x = h !! x) -> repc h K p -> repc h' K p.
Proof.
  revert p. induction K as [|[d a v sib] K IH]; intros p Hs; cbn [repc cptrs] in *; [done|].
  intros (Ha & Hh & Hl & Hr). split_and!; [done | rewrite Hs by set_solver; done | |].
  - eapply rep_frame; [|done]. intros x Hx. apply Hs. set_solver.
  - apply IH; [|done]. intros x Hx. apply Hs. set_solver.
Qed.

Lemma addr_plug K s s' : addr s = addr s' -> addr (plug K s) = addr (plug K s').
Proof. revert s s'. induction K as [|[[] a v sib] K IH]; intros s s' Hs; cbn [plug]; [done | by apply IH..]. Qed.
Lemma addr_plug_cons f K s s' : addr (plug (f :: K) s) = addr (plug (f :: K) s').
Proof. cbn [plug]. apply addr_plug. by destruct f as [[] a v sib]. Qed.

Lemma length_path K : length (path K) = length K.
Proof. induction K as [|[d a v sib] K IH]; cbn [path length]; [done|]. rewrite length_app. cbn. lia. Qed.

Lemma radix_plug_app K K' t : plug (K ++ K') t = plug K' (plug K t).
Proof. revert t. induction K as [|g K IH]; intros t; cbn [app plug]; [done | apply IH]. Qed.
Lemma path_app K K' : path (K ++ K') = path K' ++ path K.
Proof. induction K as [|[d' a' v' sib'] K IH]; cbn [app path]; [by rewrite app_nil_r | by rewrite IH, app_assoc]. Qed.

Fixpoint cheight (K : list frame) (n : nat) : nat :=
  match K with [] => n | F _ _ _ sib :: K => cheight K (S (Nat.max (height sib) n)) end.
Lemma height_plug K s : height (plug K s) = cheight K (height s).
Proof.
  revert s. induction K as [|[[] a v sib] K IH]; intros s; cbn [plug cheight]; [done|..];
    rewrite IH; cbn [fill height]; f_equal; lia.
Qed.
Lemma cheight_le K n m b : (n <= Nat.max m b)%nat -> (cheight K n <= Nat.max (cheight K m) (length K + b))%nat.
Proof.
  revert n m b. induction K as [|[d a v sib] K IH]; intros n m b Hn; cbn [cheight length]; [lia|].
  etransitivity; [apply (IH _ (S (Nat.max (height sib) m)) (S b)); lia | lia].
Qed.
Lemma cheight_ge K n : (length K + n <= cheight K n)%nat.
Proof. revert n. induction K as [|[d a v sib] K IH]; intros n; cbn [cheight length]; [lia|]. etransitivity; [|apply IH]. lia. Qed.

(** ** What a tree maps prefixes to *)

Lemma look_plug K s q : look (plug K s) (path K ++ q) = look s q.
Proof.
  revert s q. induction K as [|[d a v sib] K IH]; intros s q; cbn [plug path]; [done|].
  rewrite <- app_assoc, IH. by destruct d.
Qed.
Lemma look_plug_other K s s' q : ~ path K `prefix_of` q -> look (plug K s) q = look (plug K s') q.
Proof.
  revert s s'. induction K as [|[d a v sib] K IH]; intros s s' Hq; cbn [plug path] in *.
  { destruct Hq. by exists q. }
  destruct (decide (path K `prefix_of` q)) as [[q' ->]|Hn]; [|by apply IH].
  rewrite !look_plug. destruct q' as [|b q']; [by destruct d|].
  destruct (decide (b = d)) as [->|Hne].
  - destruct Hq. exists q'. by rewrite <- app_assoc.
  - destruct d, b; done.
Qed.
Lemma look_plug_same K s s' q : (forall q, look s q = look s' q) -> look (plug K s) q = look (plug K s') q.
Proof.
  intros Hs. destruct (decide (path K `prefix_of` q)) as [[q' ->]|Hn]; [by rewrite !look_plug | by apply look_plug_other].
Qed.
Lemma look_E q : look E q = NO.
Proof. done. Qed.

(** The value of the node in the hole. *)
Lemma look_plug_value K a v v' l r q :
  look (plug K (T a v' l r)) q = if decide (q = path K) then v' else look (plug K (T a v l r)) q.
Proof.
  destruct (decide (q = path K)) as [->|Hne].
  - by rewrite <- (app_nil_r (path K)), look_plug.
  - destruct (decide (path K `prefix_of` q)) as [[q' ->]|Hn]; [|by apply look_plug_other].
    rewrite !look_plug. destruct q'; [|done]. by rewrite app_nil_r in Hne.
Qed.
(** A leaf cut off. *)
Lemma look_plug_leaf K a v q :
  look (plug K E) q = if decide (q = path K) then NO else look (plug K (T a v E E)) q.
Proof.
  destruct (decide (q = path K)) as [->|Hne].
  - by rewrite <- (app_nil_r (path K)), look_plug.
  - destruct (decide (path K `prefix_of` q)) as [[q' ->]|Hn]; [|by apply look_plug_other].
    rewrite !look_plug. destruct q' as [|[] ?]; [|done..]. by rewrite app_nil_r in Hne.
Qed.

(** * Memory *)

(** What a pool promises: [owns p U] says that [U] are the addresses in use;
    memory given out is in use then and was not before. *)
Class NodePoolOk {P : Type} (HP : NodePool P) := {
  owns : P -> (Z -> Prop) -> Prop;
  palloc_law : forall p U n, owns p U -> 0 <= n ->
    exists r p' U', palloc n p = Some (r, p') /\ owns p' U' /\ (forall x, U x -> U' x) /\
      (r <> NULL -> 0 < r /\ forall x, r <= x < r + n -> U' x /\ ~ U x);
  pmemalign_law : forall p U n a, owns p U -> 0 <= n -> 0 < a ->
    exists r p' U', pmemalign n a p = Some (r, p') /\ owns p' U' /\ (forall x, U x -> U' x) /\
      (r <> NULL -> 0 < r /\ forall x, r <= x < r + n -> U' x /\ ~ U x)
}.

Lemma cells_nil p n : n < sizeof_ngx_radix_node_t -> cells p n = [].
Proof.
  unfold cells, sizeof_ngx_radix_node_t. intros Hn. rewrite seqZ_nil; [done|].
  pose proof (Z.div_lt_upper_bound n 32 1). lia.
Qed.
Lemma cells_cons p n :
  sizeof_ngx_radix_node_t <= n -> cells p n = p :: cells (p + sizeof_ngx_radix_node_t) (n - sizeof_ngx_radix_node_t).
Proof.
  unfold cells, sizeof_ngx_radix_node_t. intros Hn.
  assert (n / 32 = Z.succ ((n - 32) / 32)) as Hq by (replace n with (n - 32 + 1 * 32) at 1 by lia; rewrite Z.div_add by lia; lia).
  pose proof (Z.div_pos (n - 32) 32). rewrite seqZ_cons by lia. cbn [fmap list_fmap].
  f_equal; [lia|]. rewrite Hq, Z.pred_succ. rewrite <- (fmap_add_seqZ 1 0 _), <- list_fmap_compose.
  apply list_fmap_ext. intros i x _. cbn. lia.
Qed.
Lemma elem_of_cells x p n : x ∈ cells p n -> p <= x /\ x + sizeof_ngx_radix_node_t <= p + n.
Proof.
  unfold cells, sizeof_ngx_radix_node_t. intros (i & -> & Hi)%list_elem_of_fmap. apply elem_of_seqZ in Hi.
  pose proof (Z.mul_div_le n 32). lia.
Qed.
Lemma cells_nodup p n : NoDup (cells p n).
Proof. apply NoDup_fmap_2; [|apply NoDup_seqZ]. intros i j. unfold sizeof_ngx_radix_node_t. lia. Qed.

(** The free nodes, linked by [right]. *)
Fixpoint chain (h : gmap ptr ngx_radix_node_t) (p : ptr) (l : list ptr) : Prop :=
  match l with
  | [] => p = NULL
  | a :: l => p = a /\ a <> NULL /\ exists n, h !! a = Some n /\ chain h (right n) l
  end.
Lemma chain_frame h h' p l : (forall x, x ∈ l -> h' !! x = h !! x) -> chain h p l -> chain h' p l.
Proof.
  revert p. induction l as [|a l IH]; intros p Hs; cbn [chain]; [done|]. intros (-> & Ha & n & Hn & Hch).
  split_and!; [done | done |]. exists n. rewrite Hs by set_solver. split; [done|]. apply IH; [|done]. set_solver.
Qed.

Section Ops.
Context {P : Type} {HP : NodePool P} {HOk : NodePoolOk HP}.
Local Open Scope prog_scope.
Implicit Types (s : radix P) (X : list ptr).

(** The nodes [X] are in use, the rest of the memory is free. *)
Definition res s X : Prop := exists FL U,
  chain (nodes s) (free s) FL /\ NoDup (X ++ FL ++ cells (start s) (size s)) /\
  (forall p, p ∈ X ++ FL ++ cells (start s) (size s) -> is_Some (nodes s !! p) /\ p <> NULL) /\
  owns (pool s) U /\
  (forall p x, is_Some (nodes s !! p) -> p <= x < p + sizeof_ngx_radix_node_t -> U x) /\ 0 <= size s.

Lemma res_perm s X X' : X ≡ₚ X' -> res s X -> res s X'.
Proof.
  intros HX (FL & U & H1 & H2 & H3 & H4 & H5 & H6). exists FL, U. rewrite HX in H2.
  split_and!; try done. intros p Hp. apply H3. by rewrite HX.
Qed.

Lemma res_in s X p : res s X -> p ∈ X -> is_Some (nodes s !! p) /\ p <> NULL.
Proof. intros (FL & U & _ & _ & H & _) Hp. apply H. set_solver. Qed.

(** Writing nodes in use. *)
Lemma res_write s X h :
  (forall x, x ∉ X -> h !! x = nodes s !! x) -> (forall x, is_Some (h !! x) <-> is_Some (nodes s !! x)) ->
  res s X -> res (s <| nodes := h |>) X.
Proof.
  intros Hs Hd (FL & U & H1 & H2 & H3 & H4 & H5 & H6). exists FL, U. split_and!; try done.
  - apply (chain_frame (nodes s)); [|done]. intros x Hx. apply Hs. intros Hin. apply NoDup_app in H2 as (_ & H2 & _).
    apply (H2 x Hin). set_solver.
  - intros p Hp. cbn. rewrite Hd. by apply H3.
  - intros p x. cbn. rewrite Hd. apply H5.
Qed.

Lemma is_Some_put (h : gmap ptr ngx_radix_node_t) p n n' :
  h !! p = Some n -> forall x, is_Some (<[p := n']> h !! x) <-> is_Some (h !! x).
Proof. intros Hp x. rewrite lookup_insert_is_Some'. split; [intros [->|]; [by rewrite Hp | done] | auto]. Qed.

(** ** The accessors *)
Lemma radix_rd_run {A} (f : ngx_radix_node_t -> A) s p n : nodes s !! p = Some n -> rd f p s = Some (f n, s).
Proof. intros Hp. unfold rd. by rewrite Hp. Qed.
Lemma wr_run {A} (f : ngx_radix_node_t -> A) `{!Setter f} s p n v :
  nodes s !! p = Some n -> wr f p v s = Some (tt, s <| nodes := <[p := n <| f := v |>]> (nodes s) |>).
Proof. intros Hp. unfold wr. by rewrite Hp. Qed.
Lemma get_run {A B} (f : radix P -> A) (k : A -> M (radix P) B) s : bind (get f) k s = k (f s) s.
Proof. done. Qed.
Lemma put_run {A B} (f : radix P -> A) `{!Setter f} v (k : unit -> M (radix P) B) s : bind (put f v) k s = k tt (s <| f := v |>).
Proof. done. Qed.

(** ** Nodes of a tree *)

Lemma rep_node s K a v l r :
  rep (nodes s) NULL (plug K (T a v l r)) -> nodes s !! a = Some (mk_node (addr r) (addr l) (top K) v) /\ a <> NULL.
Proof. rewrite rep_plug. intros [_ (Ha & Hn & _)]. done. Qed.

Lemma child_run s K a v l r key k :
  rep (nodes s) NULL (plug K (T a v l r)) ->
  child key (bitat (S k)) a s = Some (addr (if Z.testbit key (Z.of_nat k) then r else l), s).
Proof.
  intros Hr. destruct (rep_node _ _ _ _ _ _ Hr) as [Hn _]. unfold child. rewrite land_bit_zero.
  destruct (Z.testbit key (Z.of_nat k)); cbn [negb]; by rewrite (radix_rd_run _ _ _ _ Hn).
Qed.

(** One step down. *)
Definition turn (b : bool) (a v : Z) (l r : tree) : frame := F b a v (if b then l else r).
Lemma fill_turn b a v l r : fill (turn b a v l r) (if b then r else l) = T a v l r.
Proof. by destruct b. Qed.

(** The tree in memory. *)
Record holds s (t : tree) : Prop := mk_holds {
  hd_rep : rep (nodes s) NULL t;
  hd_root : addr t = root s;
  hd_ne : t <> E;
  hd_res : res s (ptrs t);
  hd_height : (height t <= S key_bits)%nat
}.

Lemma radix_plug_not_E K a v l r : plug K (T a v l r) <> E.
Proof. revert a v l r. induction K as [|[[] a' v' sib] K IH]; intros a v l r; cbn [plug fill]; [done | apply IH..]. Qed.

(** Changing the node in the hole. *)
Lemma rep_put s K a v l r par v' :
  rep (nodes s) NULL (plug K (T a v l r)) -> res s (ptrs (plug K (T a v l r))) -> par = top K ->
  rep (<[a := mk_node (addr r) (addr l) par v']> (nodes s)) NULL (plug K (T a v' l r)).
Proof.
  intros Hr (FL & U & _ & Hnd & _) ->. apply NoDup_app in Hnd as [Hnd _]. rewrite radix_ptrs_plug in Hnd. cbn [ptrs] in Hnd.
  apply rep_plug in Hr as [Hc (Ha & Hn & Hl & Hr)]. apply NoDup_app in Hnd as (_ & Hd & Hnd). apply list.NoDup_cons in Hnd as [Hnin _].
  apply rep_plug. split; [|cbn [rep]; split_and!; [done | apply lookup_insert_eq | |]].
  - eapply repc_frame; [|exact Hc]. intros x Hx. apply lookup_insert_ne. intros <-. apply (Hd a Hx). by left.
  - eapply rep_frame; [|exact Hl]. intros x Hx. apply lookup_insert_ne. intros <-. set_solver.
  - eapply rep_frame; [|exact Hr]. intros x Hx. apply lookup_insert_ne. intros <-. set_solver.
Qed.

Lemma set_value_ok s K a v l r v' :
  holds s (plug K (T a v l r)) ->
  exists s', wr value a v' s = Some (tt, s') /\ holds s' (plug K (T a v' l r)).
Proof.
  intros [Hr Hroot _ Hres Hh]. destruct (rep_node _ _ _ _ _ _ Hr) as [Hn Ha]. eexists. split; [by apply wr_run|].
  assert (ptrs (plug K (T a v' l r)) ≡ₚ ptrs (plug K (T a v l r))) as Hp by (by rewrite !radix_ptrs_plug).
  constructor; [by apply (rep_put s K a v) | by rewrite (addr_plug K _ (T a v l r)) | apply radix_plug_not_E | | ].
  - eapply res_perm; [symmetry; exact Hp|]. apply res_write; [|by apply (is_Some_put _ _ _ _ Hn) | done].
    intros x Hx. apply lookup_insert_ne. intros ->. apply Hx. rewrite radix_ptrs_plug. set_solver.
  - rewrite height_plug in Hh. by rewrite height_plug.
Qed.

Context (ngx_pagesize : Z) (junk : ptr -> ngx_radix_node_t).
Context (Hpage : sizeof_ngx_radix_node_t <= ngx_pagesize).

(** ** Allocation *)

Lemma new_page_ok s X :
  res s X -> free s = NULL -> size s < sizeof_ngx_radix_node_t ->
  exists p s', new_page ngx_pagesize junk s = Some (p, s') /\ root s' = root s /\ free s' = free s /\ size s' = size s /\
    start s' = p /\
    ((p = NULL /\ nodes s' = nodes s /\ res s' X) \/
     (p <> NULL /\ (forall x, x ∈ X -> nodes s' !! x = nodes s !! x) /\ res (s' <| size := ngx_pagesize |>) X)).
Proof.
  intros (FL & U & H1 & H2 & H3 & H4 & H5 & H6) Hfree Hsize.
  assert (FL = []) as -> by (destruct FL; [done|]; destruct H1 as (Hf & Hn & _); congruence).
  rewrite (cells_nil (start s)) in H2, H3 by done. cbn [app] in H2, H3. rewrite app_nil_r in H2, H3.
  unfold sizeof_ngx_radix_node_t in *.
  destruct (pmemalign_law (pool s) U ngx_pagesize ngx_pagesize H4 ltac:(lia) ltac:(lia)) as (p & q & U' & Hrun & Ho & HU & Hnew).
  unfold new_page. rewrite Hrun. eexists p, _. split; [reflexivity|]. rsimpl. do 4 (split; [done|]).
  destruct (Z.eqb_spec p NULL) as [->|Hp]; [left|right].
  - split_and!; [done | done |]. exists [], U'. rewrite (cells_nil NULL) by done. cbn [app]. rewrite app_nil_r.
    split_and!; try done. intros a x Ha Hx. apply HU. by eapply H5.
  - destruct (Hnew Hp) as [Hpos Hfresh]. split; [done|].
    set (page := list_to_map ((fun a => (a, junk a)) <$> cells p ngx_pagesize)).
    assert (forall x, page !! x = if decide (x ∈ cells p ngx_pagesize) then Some (junk x) else None) as Hpg.
    { intros x. unfold page. destruct (decide (x ∈ cells p ngx_pagesize)) as [Hx|Hx].
      - apply elem_of_list_to_map; [|apply list_elem_of_fmap; eauto].
        rewrite <- list_fmap_compose, (list_fmap_ext _ id), list_fmap_id by done. apply cells_nodup.
      - apply not_elem_of_list_to_map_1. by rewrite <- list_fmap_compose, (list_fmap_ext _ id), list_fmap_id by done. }
    assert (forall x, is_Some (nodes s !! x) -> x ∉ cells p ngx_pagesize) as Hdisj.
    { intros x Hx Hin. apply elem_of_cells in Hin as [Ha Hb]. unfold sizeof_ngx_radix_node_t in Hb.
      destruct (Hfresh x ltac:(lia)) as [_ Hno]. apply Hno. apply (H5 x x Hx). lia. }
    assert (forall x, is_Some ((page ∪ nodes s) !! x) <-> x ∈ cells p ngx_pagesize \/ is_Some (nodes s !! x)) as Hdom.
    { intros x. rewrite lookup_union, Hpg. destruct (decide (x ∈ cells p ngx_pagesize)); [split; [auto | by destruct (nodes s !! x)]|].
      destruct (nodes s !! x); split; naive_solver. }
    split.
    + intros x Hx. rewrite lookup_union_r; [done|]. rewrite Hpg, decide_False; [done|]. apply Hdisj, H3. done.
    + exists [], U'. cbn [app]. rsimpl. rewrite Hfree. split_and!; [done | | | done | | lia].
      * apply NoDup_app. split_and!; [done | | apply cells_nodup]. intros x Hx. apply Hdisj, H3. done.
      * intros x [Hx|Hx]%elem_of_app; rewrite Hdom; [split; [right|]; by apply H3|].
        split; [by left|]. apply elem_of_cells in Hx. unfold NULL. lia.
      * intros a x [Ha|Ha]%Hdom Hx; [|apply HU; by eapply H5]. apply elem_of_cells in Ha. unfold sizeof_ngx_radix_node_t in Ha, Hx.
        apply Hfresh. lia.
Qed.

Lemma take_cell s X :
  res s X -> free s = NULL -> sizeof_ngx_radix_node_t <= size s ->
  start s <> NULL /\
  res (s <| start := start s + sizeof_ngx_radix_node_t |> <| size := size s - sizeof_ngx_radix_node_t |>) (start s :: X).
Proof.
  intros (FL & U & H1 & H2 & H3 & H4 & H5 & H6) Hfree Hsize.
  assert (FL = []) as -> by (destruct FL; [done|]; destruct H1 as (Hf & Hn & _); congruence).
  rewrite (cells_cons (start s)) in H2, H3 by done. cbn [app] in H2, H3. split; [apply H3; set_solver|].
  exists [], U. rsimpl. cbn [app]. split_and!; [done | | | done | done | lia].
  - by rewrite <- Permutation_middle in H2.
  - intros p Hp. apply H3. set_solver.
Qed.

(** The pool has just refused a page. *)
Definition starved (s : radix P) : Prop := exists q, pmemalign ngx_pagesize ngx_pagesize q = Some (NULL, pool s).
Lemma new_page_starved s s' : new_page ngx_pagesize junk s = Some (NULL, s') -> starved s'.
Proof.
  unfold new_page. destruct (pmemalign ngx_pagesize ngx_pagesize (pool s)) as [[p q]|] eqn:Hp; [|done].
  intros [= -> <-]. by exists (pool s).
Qed.

Lemma alloc_ok s X :
  res s X -> exists p s', ngx_radix_alloc ngx_pagesize junk s = Some (p, s') /\ root s' = root s /\
    (forall x, x ∈ X -> nodes s' !! x = nodes s !! x) /\
    ((p = NULL /\ res s' X /\ starved s') \/ (p <> NULL /\ res s' (p :: X))).
Proof.
  intros Hres. unfold ngx_radix_alloc. rewrite get_run. destruct (Z.eqb_spec (free s) NULL) as [Hfree|Hfree]; cbn [negb].
  - rewrite get_run. destruct (Z.ltb_spec (size s) sizeof_ngx_radix_node_t) as [Hsz|Hsz].
    + destruct (new_page_ok s X Hres Hfree Hsz) as (p & s1 & Hrun & Hroot & Hf & Hsz1 & Hst & Hor).
      destruct (Z.eqb_spec p NULL) as [Hp|Hp].
      * destruct Hor as [(_ & Hn & Hr)|(? & _)]; [|done]. exists NULL, s1. split; [|split_and!; [done | by rewrite Hn | left; split_and!; [done | done |]; apply (new_page_starved s); by rewrite <- Hp]].
        erewrite bind_run; [|erewrite bind_run by exact Hrun; rewrite Hp; reflexivity]. done.
      * destruct Hor as [(? & _)|(_ & Hn & Hr)]; [done|].
        destruct (take_cell _ _ Hr) as [Hstart Hr']; [exact (eq_trans Hf Hfree) | exact Hpage |].
        eexists p, _. split.
        { rewrite (bind_run _ _ _ true (s1 <| size := ngx_pagesize |>));
            [|erewrite bind_run by exact Hrun; by destruct (Z.eqb_spec p NULL)].
          cbn [negb]. rewrite get_run, put_run, get_run, put_run. rsimpl. rewrite Hst. reflexivity. }
        split_and!; [done | done | right]. split; [done|]. rsimpl. rsimpl_in Hr'. by rewrite Hst in Hr'.
    + destruct (take_cell _ _ Hres Hfree Hsz) as [Hstart Hr']. eexists (start s), _. split; [reflexivity|].
      split_and!; [done | done | by right].
  - destruct Hres as (FL & U & H1 & H2 & H3 & H4 & H5 & H6). destruct FL as [|a FL]; [done|].
    destruct H1 as (Ha & Hn & n & Hna & Hch). rewrite Ha. eexists a, _.
    split; [erewrite bind_run by (apply radix_rd_run; exact Hna); rewrite put_run; reflexivity|].
    split_and!; [done | done | right]. split; [done|]. exists FL, U. rsimpl. split_and!; try done.
    + cbn [app] in H2. rewrite <- Permutation_middle in H2. done.
    + intros p Hp. apply H3. set_solver.
Qed.

(** * Insertion *)

Lemma insert_walk_ok key mask s k : forall fuel K a v l r,
  (k <= fuel)%nat -> rep (nodes s) NULL (plug K (T a v l r)) ->
  exists k' K' a' v' l' r' next,
    insert_walk fuel key mask (bitat k) a a s = Some ((bitat k', a', next), s) /\
    plug K' (T a' v' l' r') = plug K (T a v l r) /\ (length K' + k' = length K + k)%nat /\ (k' <= k)%nat /\
    ((next <> NULL /\ path K' = path K ++ mpath k key mask) \/
     (next = NULL /\ exists b rest, mpath k' key mask = b :: rest /\ path K ++ mpath k key mask = path K' ++ b :: rest /\
        (if b then r' else l') = E)).
Proof.
  induction k as [|k IH]; intros fuel K a v l r Hf Hr.
  { exists O, K, a, v, l, r, a. destruct (rep_node _ _ _ _ _ _ Hr) as [_ Ha].
    split; [destruct fuel; reflexivity|]. split_and!; [done..|]. left. by rewrite app_nil_r. }
  destruct fuel as [|fuel]; [lia|]. cbn [insert_walk]. rewrite bit_land_zero.
  destruct (Z.testbit mask (Z.of_nat k)) eqn:Hm; cbn [negb].
  2:{ exists (S k), K, a, v, l, r, a. destruct (rep_node _ _ _ _ _ _ Hr) as [_ Ha]. split; [done|].
      split_and!; [done..|]. left. cbn [mpath]. by rewrite Hm, app_nil_r. }
  rewrite (bind_run _ _ _ _ _ (child_run _ _ _ _ _ _ key k Hr)). set (b := Z.testbit key (Z.of_nat k)).
  assert (mpath (S k) key mask = b :: mpath k key mask) as Hpath by (cbn [mpath]; by rewrite Hm).
  destruct (if b then r else l) as [|a1 v1 l1 r1] eqn:Hc; cbn [addr].
  - exists (S k), K, a, v, l, r, NULL. split; [done|]. split_and!; [done..|]. right. split; [done|].
    exists b, (mpath k key mask). by rewrite Hpath.
  - assert (plug (turn b a v l r :: K) (T a1 v1 l1 r1) = plug K (T a v l r)) as Hpl
      by (cbn [plug]; by rewrite <- Hc, fill_turn).
    rewrite <- Hpl in Hr. destruct (rep_node _ _ _ _ _ _ Hr) as [_ Ha1]. destruct (Z.eqb_spec a1 NULL); [done|].
    rewrite bitat_shift. destruct (IH fuel _ _ _ _ _ ltac:(lia) Hr) as (k' & K' & a' & v' & l' & r' & next & Hrun & Hp & Hlen & Hk & Hor).
    exists k', K', a', v', l', r', next. rewrite Hpath. cbn [turn path length pred] in *.
    split; [done|]. split_and!; [congruence | lia | lia |]. by rewrite <- app_assoc in Hor.
Qed.

(** A new leaf [n] below [a], on the side of the bit [b]. *)
Definition linked (b : bool) (a n : ptr) (x : ngx_radix_node_t) (h : gmap ptr ngx_radix_node_t) :=
  <[a := if b then x <| right := n |> else x <| left := n |>]> (<[n := mk_node NULL NULL a NO]> h).

Lemma link_run {B} (b : bool) s a n x y (k : unit -> M (radix P) B) :
  nodes s !! a = Some x -> nodes s !! n = Some y -> n <> a ->
  (wr right n NULL ;; wr left n NULL ;; wr parent n a ;; wr value n NO ;;
   bind (if negb b then wr left a n else wr right a n) k) s
  = k tt (s <| nodes := linked b a n x (nodes s) |>).
Proof.
  intros Ha Hn Hne.
  rewrite (bind_run _ _ _ _ _ (wr_run right s n _ NULL Hn)).
  do 3 (erewrite bind_run by (apply wr_run; rsimpl; apply lookup_insert_eq); rsimpl).
  rewrite !insert_insert_eq. unfold linked.
  destruct b; cbn [negb]; erewrite bind_run by (apply wr_run; rsimpl; rewrite lookup_insert_ne by done; exact Ha); done.
Qed.

(** The subtree that is not on the side of [b]. *)
Definition sibling (b : bool) (l r : tree) : tree := if b then l else r.

Lemma grow_link (b : bool) s a n par v l r X :
  res s (n :: ptrs (T a v l r) ++ X) -> nodes s !! a = Some (mk_node (addr r) (addr l) par v) ->
  n <> NULL -> (if b then r else l) = E ->
  let s' := s <| nodes := linked b a n (mk_node (addr r) (addr l) par v) (nodes s) |> in
  res s' (ptrs (T n NO E E) ++ (a :: ptrs (sibling b l r) ++ X)) /\ rep (nodes s') a (T n NO E E) /\ n <> a /\
  (forall x, x ∈ ptrs (sibling b l r) ++ X -> nodes s' !! x = nodes s !! x).
Proof.
  intros Hres Ha Hn HE s'.
  assert (n :: ptrs (T a v l r) ++ X ≡ₚ n :: a :: ptrs (sibling b l r) ++ X) as Hperm
    by (destruct b; cbn [sibling]; rewrite HE; cbn [ptrs]; by rewrite ?app_nil_r).
  apply (res_perm _ _ _ Hperm) in Hres. pose proof Hres as (FL & U & _ & Hnd & _).
  apply NoDup_app in Hnd as [Hnd _]. apply list.NoDup_cons in Hnd as [Hn1 Hnd]. apply list.NoDup_cons in Hnd as [Hn2 _].
  apply not_elem_of_cons in Hn1 as [Hna Hn1].
  assert (forall x, x <> a -> x <> n -> nodes s' !! x = nodes s !! x) as Hs
    by (intros x Hxa Hxn; unfold s', linked; rsimpl; by rewrite !lookup_insert_ne).
  destruct (res_in _ _ n Hres ltac:(by left)) as [[y Hy] _]. split_and!; [|split_and!; [done | | done | done] | done |].
  - apply res_write; [|intros x; unfold linked; rewrite (is_Some_put _ _ (mk_node (addr r) (addr l) par v)), (is_Some_put _ _ y); [done | done | by rewrite lookup_insert_ne] | done].
    intros x [Hx1 [Hx2 _]%not_elem_of_cons]%not_elem_of_cons. by apply Hs.
  - unfold s', linked. rsimpl. by rewrite lookup_insert_ne, lookup_insert_eq.
  - intros x Hx. apply Hs; intros ->; done.
Qed.

Lemma fill_facts (b : bool) a v n (l r t : tree) :
  (if b then r else l) = E -> (forall q, look t q = look (T n NO E E) q) ->
  let t' := fill (F b a v (sibling b l r)) t in
  addr t' = a /\ ptrs t' ≡ₚ a :: ptrs (sibling b l r) ++ ptrs t /\
  (forall q, look t' q = look (T a v l r) q) /\
  height t' = S (Nat.max (height (sibling b l r)) (height t)).
Proof.
  intros HE Hl t'. split_and!; [by destruct b | unfold t'; destruct b; cbn [fill ptrs sibling]; solve_Permutation | |].
  - intros [|b' q]; [by destruct b|]. destruct b, b'; cbn [t' fill look sibling]; rewrite ?Hl, ?HE; try done; by destruct q as [|[] ?].
  - unfold t'. destruct b; cbn [fill height sibling]; lia.
Qed.

Lemma grow_ok key mask k : forall fuel s par a v l r X,
  (k <= fuel)%nat -> res s (ptrs (T a v l r) ++ X) -> rep (nodes s) par (T a v l r) ->
  (forall b rest, mpath k key mask = b :: rest -> (if b then r else l) = E) ->
  exists n s' t', insert_grow ngx_pagesize junk fuel key mask (bitat k) a s = Some (n, s') /\
    root s' = root s /\ rep (nodes s') par t' /\ addr t' = a /\ res s' (ptrs t' ++ X) /\
    (forall x, x ∈ X -> nodes s' !! x = nodes s !! x) /\
    (forall q, look t' q = look (T a v l r) q) /\ (height t' <= Nat.max (height (T a v l r)) (S k))%nat /\
    ((n = NULL /\ starved s') \/ (n <> NULL /\ exists K v' l' r', t' = plug K (T n v' l' r') /\ path K = mpath k key mask)).
Proof.
  induction k as [|k IH]; intros fuel s par a v l r X Hf Hres Hrep Hside; pose proof Hrep as (Ha & Hn & Hl & Hr).
  { exists a, s, (T a v l r). split; [destruct fuel; reflexivity|]. split_and!; try done; [lia|].
    right. split; [done|]. by exists [], v, l, r. }
  destruct fuel as [|fuel]; [lia|]. cbn [insert_grow]. rewrite bit_land_zero.
  destruct (Z.testbit mask (Z.of_nat k)) eqn:Hm; cbn [negb].
  2:{ exists a, s, (T a v l r). split; [reflexivity|]. split_and!; try done; [lia|].
      right. split; [done|]. exists [], v, l, r. split; [done|]. cbn [mpath path]. by rewrite Hm. }
  rewrite land_bit_zero. cbn [mpath] in *. rewrite Hm in *. pose proof (Hside _ _ eq_refl) as HE. revert HE.
  generalize (Z.testbit key (Z.of_nat k)). clear Hside. intros b HE.
  destruct (alloc_ok _ _ Hres) as (n & s1 & Hrun & Hroot & Hsame & [(-> & Hres1 & Hst)|[Hnull Hres1]]).
  { rewrite (bind_run _ _ _ _ _ Hrun). exists NULL, s1, (T a v l r). split; [reflexivity|].
    split_and!; try done; [| |lia|by left]; [|intros x Hx; apply Hsame, elem_of_app; by right].
    eapply rep_frame; [|exact Hrep]. intros x Hx. apply Hsame, elem_of_app. by left. }
  rewrite (bind_run _ _ _ _ _ Hrun). destruct (Z.eqb_spec n NULL); [done|].
  assert (nodes s1 !! a = Some (mk_node (addr r) (addr l) par v)) as Hn1 by (rewrite Hsame; [done | by left]).
  destruct (grow_link b s1 a n par v l r X Hres1 Hn1 Hnull HE) as (Hres2 & Hrep2 & Hna & Hs2).
  destruct (res_in _ _ n Hres1 ltac:(by left)) as [[y Hy] _].
  rewrite (link_run _ _ _ _ _ _ _ Hn1 Hy Hna), bitat_shift. cbn [pred]. set (s2 := s1 <| nodes := _ |>) in *.
  destruct (IH fuel s2 a n NO E E (a :: ptrs (sibling b l r) ++ X)) as (m & s3 & t3 & Hrun3 & Hroot3 & Hrep3 & Haddr3 & Hres3 & Hsame3 & Hlook3 & Hh3 & Hor); [lia | done | done | intros [] ? _; done |].
  destruct (fill_facts b a v n l r t3 HE Hlook3) as (Fa & Fp & Fl & Fh).
  assert (forall x, x ∈ ptrs (sibling b l r) ++ X -> nodes s3 !! x = nodes s !! x) as Hold.
  { intros x Hx. rewrite Hsame3, Hs2, Hsame; [done | | done | by right]. apply elem_of_app in Hx as [Hx|Hx]; [|set_solver].
    apply elem_of_app. left. right. apply elem_of_app. destruct b; auto. }
  assert (nodes s3 !! a = nodes s2 !! a) as Ha3 by (apply Hsame3; by left).
  assert (rep (nodes s3) a (sibling b l r)) as Hrsib.
  { apply (rep_frame (nodes s)); [intros x Hx; apply Hold, elem_of_app; by left|]. by destruct b. }
  exists m, s3, (fill (F b a v (sibling b l r)) t3).
  split; [exact Hrun3|]. split; [exact (eq_trans Hroot3 Hroot)|]. split_and!; [ | done | | | done | |].
  - unfold s2, linked in Ha3. rsimpl_in Ha3. rewrite lookup_insert_eq in Ha3.
    destruct b; cbn [fill rep sibling] in *; (split_and!; [done | rewrite Haddr3; done | done | done]).
  - eapply res_perm; [|exact Hres3]. rewrite Fp. solve_Permutation.
  - intros x Hx. apply Hold, elem_of_app. by right.
  - rewrite Fh. cbn [height] in *. destruct b; cbn [sibling]; lia.
  - destruct Hor as [?|(Hm0 & K & v' & l' & r' & -> & Hpk)]; [by left | right]. split; [done|].
    exists (K ++ [F b a v (sibling b l r)]), v', l', r'. by rewrite radix_plug_app, path_app, Hpk.
Qed.

Lemma radix_insert_ok key mask val s t :
  holds s t ->
  exists rc s' t', ngx_radix32tree_insert ngx_pagesize junk key mask val s = Some (rc, s') /\ holds s' t' /\
    ((rc = NGX_BUSY /\ look t (prefix_of key mask) <> NO /\ s' = s /\ t' = t) \/
     (look t (prefix_of key mask) = NO /\
      ((rc = NGX_OK /\ forall q, look t' q = if decide (q = prefix_of key mask) then val else look t q) \/
       (rc = NGX_ERROR /\ starved s' /\ forall q, look t' q = look t q)))).
Proof.
  intros Ht. pose proof Ht as [Hr Hroot Hne Hres Hh]. destruct t as [|a v l r]; [done|].
  unfold ngx_radix32tree_insert. rewrite get_run, <- Hroot. cbn [addr].
  destruct (insert_walk_ok key mask s key_bits key_bits [] a v l r ltac:(lia) Hr)
    as (k & K & a1 & v1 & l1 & r1 & next & Hrun & Hpl & Hlen & Hk & Hor).
  change (bitat key_bits) with 0x80000000 in Hrun. rewrite (bind_run _ _ _ _ _ Hrun). cbn [plug path app length] in *.
  rewrite <- Hpl in Ht, Hr, Hres, Hh |- *. clear Hpl Hrun. fold (prefix_of key mask) in Hor.
  destruct (rep_node _ _ _ _ _ _ Hr) as [Hn Ha].
  assert (forall q, look (plug K (T a1 val l1 r1)) q = if decide (q = path K) then val else look (plug K (T a1 v1 l1 r1)) q) as Hput
    by (intros q; apply look_plug_value).
  destruct Hor as [[Hnext Hpath]|(-> & b & rest & Hrest & Hpath & HE)].
  - destruct (Z.eqb_spec next NULL) as [|_]; [done|]. cbn [negb]. rewrite (bind_run _ _ _ _ _ (radix_rd_run value _ _ _ Hn)). cbn [value].
    assert (look (plug K (T a1 v1 l1 r1)) (prefix_of key mask) = v1) as Hl by (by rewrite <- Hpath, <- (app_nil_r (path K)), look_plug).
    destruct (Z.eqb_spec v1 NO) as [->|Hv]; cbn [negb].
    + destruct (set_value_ok _ _ _ _ _ _ val Ht) as (s' & Hrun & Ht'). rewrite (bind_run _ _ _ _ _ Hrun).
      eexists _, s', _. split; [reflexivity|]. split; [exact Ht'|]. right. split; [done|]. left. split; [done|]. by rewrite <- Hpath.
    + eexists _, s, _. split; [reflexivity|]. split; [exact Ht|]. left. by rewrite Hl.
  - change (negb (NULL =? NULL)) with false. cbv iota.
    assert (look (plug K (T a1 v1 l1 r1)) (prefix_of key mask) = NO) as Hl by (rewrite Hpath, look_plug; cbn [look]; by rewrite HE).
    pose proof Hr as [Hc Hs]%rep_plug.
    destruct (grow_ok key mask k key_bits s (top K) a1 v1 l1 r1 (cptrs K)) as (n & s1 & t1 & Hrun & Hroot1 & Hr1 & Ha1 & Hres1 & Hsame & Hlook & Hh1 & Hres2);
      [lia | eapply res_perm; [|exact Hres]; rewrite radix_ptrs_plug; solve_Permutation | done | intros b' rest' Hb; rewrite Hrest in Hb; by simplify_eq |].
    rewrite (bind_run _ _ _ _ _ Hrun).
    assert (holds s1 (plug K t1)) as Ht1.
    { constructor.
      - apply rep_plug. split; [|done]. rewrite Ha1. by eapply repc_frame.
      - rewrite Hroot1, <- (hd_root _ _ Ht). by apply addr_plug.
      - destruct t1 as [|]; [by rewrite <- Ha1 in Ha | apply radix_plug_not_E].
      - eapply res_perm; [|exact Hres1]. rewrite radix_ptrs_plug. solve_Permutation.
      - rewrite height_plug in *. pose proof (cheight_le K _ _ (S k) Hh1). unfold key_bits in *. lia. }
    destruct Hres2 as [[-> Hst]|(Hnn & K1 & v' & l' & r' & -> & Hpk)].
    + eexists _, s1, _. split; [reflexivity|]. split; [exact Ht1|]. right. split; [done|]. right. split_and!; [done|done|].
      intros q. by apply look_plug_same.
    + destruct (Z.eqb_spec n NULL); [done|]. rewrite <- radix_plug_app in Ht1.
      destruct (set_value_ok _ _ _ _ _ _ val Ht1) as (s' & Hrun' & Ht'). rewrite (bind_run _ _ _ _ _ Hrun').
      eexists _, s', _. split; [reflexivity|]. split; [exact Ht'|]. right. split; [done|]. left. split; [done|]. intros q.
      rewrite (look_plug_value _ _ v'), path_app, Hpk, Hrest, <- Hpath. destruct (decide _); [done|].
      rewrite radix_plug_app. by apply look_plug_same.
Qed.

End Ops.

(** * Deletion *)

Section Cut.
Context {P : Type} {HP : NodePool P} {HOk : NodePoolOk HP}.
Local Open Scope prog_scope.
Implicit Types (s : radix P) (X : list ptr).

Lemma delete_walk_ok key mask s k : forall fuel K t,
  (k <= fuel)%nat -> rep (nodes s) NULL (plug K t) ->
  exists K' t', delete_walk fuel key mask (bitat k) (addr t) s = Some (addr t', s) /\ plug K' t' = plug K t /\
    (t' = E -> look (plug K t) (path K ++ mpath k key mask) = NO) /\
    (t' <> E -> path K' = path K ++ mpath k key mask).
Proof.
  induction k as [|k IH]; intros fuel K t Hf Hr.
  { exists K, t. split; [destruct fuel; cbn [delete_walk]; change (Z.land (bitat 0) mask =? 0) with true; by rewrite orb_true_r|].
    cbn [mpath]. rewrite app_nil_r. split_and!; [done | | done]. intros ->. by rewrite <- (app_nil_r (path K)), look_plug. }
  destruct fuel as [|fuel]; [lia|]. cbn [delete_walk mpath]. rewrite bit_land_zero. destruct t as [|a v l r]; cbn [addr].
  { exists K, E. change (NULL =? NULL) with true. cbn [orb]. split_and!; [done | done | | done]. intros _. by rewrite look_plug. }
  destruct (rep_node _ _ _ _ _ _ Hr) as [_ Ha]. destruct (Z.eqb_spec a NULL); [done|]. cbn [orb].
  destruct (Z.testbit mask (Z.of_nat k)) eqn:Hm; cbn [negb].
  2:{ exists K, (T a v l r). rewrite app_nil_r. done. }
  rewrite (bind_run _ _ _ _ _ (child_run _ _ _ _ _ _ key k Hr)), bitat_shift. cbn [pred].
  set (b := Z.testbit key (Z.of_nat k)).
  assert (plug (turn b a v l r :: K) (if b then r else l) = plug K (T a v l r)) as Hpl by (cbn [plug]; by rewrite fill_turn).
  rewrite <- Hpl in Hr. destruct (IH fuel _ _ ltac:(lia) Hr) as (K' & t' & Hrun & Hp & HE & Hne).
  exists K', t'. cbn [turn path] in *. rewrite <- app_assoc in HE, Hne. rewrite Hpl in HE. split_and!; [done | congruence | done | done].
Qed.

Lemma has_child_run s a x : nodes s !! a = Some x ->
  has_child a s = Some (negb (right x =? NULL) || negb (left x =? NULL), s).
Proof.
  intros Ha. unfold has_child. rewrite (bind_run _ _ _ _ _ (radix_rd_run _ _ _ _ Ha)).
  destruct (right x =? NULL); cbn [negb orb]; [by rewrite (bind_run _ _ _ _ _ (radix_rd_run _ _ _ _ Ha)) | done].
Qed.

(** A node of a tree in memory has an address. *)
Lemma rep_addr h par t : rep h par t -> addr t = NULL <-> t = E.
Proof. destruct t; [done|]. intros (Ha & _). split; [intros H; by destruct Ha | done]. Qed.

(** The part of the loop that unlinks the leaf [a] from its parent and puts it
    on the free list; the result is the parent. *)
Definition unlink (a : ptr) : M (radix P) ptr :=
  let! par := rd parent a in
  let! r := rd right par in
  (if r =? a then wr right par NULL else wr left par NULL) ;;
  let! free_ := get free in
  wr right a free_ ;;
  put free a ;;
  rd parent a.

Lemma unlink_run s (d : bool) a b p v vb other :
  nodes s !! a = Some (mk_node NULL NULL b v) ->
  nodes s !! b = Some (mk_node (if d then a else other) (if d then other else a) p vb) -> a <> b -> other <> a ->
  let nb := if d then mk_node NULL other p vb else mk_node other NULL p vb in
  unlink a s = Some (b, s <| nodes := <[a := mk_node (free s) NULL b v]> (<[b := nb]> (nodes s)) |> <| free := a |>).
Proof.
  intros Hn Hnb Hab Ho nb. unfold unlink.
  rewrite (bind_run _ _ _ _ _ (radix_rd_run parent _ _ _ Hn)). cbn [parent]. rewrite (bind_run _ _ _ _ _ (radix_rd_run right _ _ _ Hnb)).
  rewrite (bind_run _ _ _ tt (s <| nodes := <[b := nb]> (nodes s) |>)).
  2:{ unfold nb. destruct d; cbn [right]; [rewrite Z.eqb_refl; by rewrite (wr_run _ _ _ _ _ Hnb)|].
      destruct (Z.eqb_spec other a) as [Hs|_]; [done|]. by rewrite (wr_run _ _ _ _ _ Hnb). }
  rewrite get_run. erewrite bind_run by (apply wr_run; rsimpl; by rewrite lookup_insert_ne).
  rewrite put_run. rsimpl. erewrite radix_rd_run by (rsimpl; apply lookup_insert_eq). done.
Qed.

Lemma unlink_ok s d b vb sib K a v :
  rep (nodes s) NULL (plug (F d b vb sib :: K) (T a v E E)) -> res s (ptrs (plug (F d b vb sib :: K) (T a v E E))) ->
  exists s', unlink a s = Some (b, s') /\
    root s' = root s /\ rep (nodes s') NULL (plug K (fill (F d b vb sib) E)) /\
    res s' (ptrs (plug K (fill (F d b vb sib) E))).
Proof.
  intros Hr Hres. pose proof Hr as [Hc (Ha & Hn & _)]%rep_plug. cbn [addr top repc] in Hn, Hc.
  destruct Hc as (Hb & Hnb & Hsib & Hc).
  assert (ptrs (plug (F d b vb sib :: K) (T a v E E)) ≡ₚ a :: ptrs (plug K (fill (F d b vb sib) E))) as Hp.
  { cbn [plug]. rewrite !radix_ptrs_plug. destruct d; cbn [fill ptrs]; rewrite ?app_nil_r; solve_Permutation. }
  apply (res_perm _ _ _ Hp) in Hres. destruct Hres as (FL & U & H1 & H2 & H3 & H4 & H5 & H6).
  pose proof H2 as H2'. apply NoDup_app in H2' as (Hnd & Hd & _). apply list.NoDup_cons in Hnd as [Hna Hnd].
  assert (b ∈ ptrs (plug K (fill (F d b vb sib) E))) as Hbin by (rewrite radix_ptrs_plug; destruct d; cbn [fill ptrs]; set_solver).
  assert (a <> b) as Hab by (intros ->; done).
  set (nb := if d then mk_node NULL (addr sib) (top K) vb else mk_node (addr sib) NULL (top K) vb).
  assert (forall x, x ∈ cptrs K ++ ptrs sib -> x <> a /\ x <> b) as Hother.
  { intros x Hx. rewrite radix_ptrs_plug in Hna, Hnd. assert (ptrs (fill (F d b vb sib) E) ≡ₚ b :: ptrs sib) as Hf by (destruct d; cbn [fill ptrs]; by rewrite ?app_nil_r).
    rewrite Hf in Hna, Hnd. split; intros ->; [apply Hna; set_solver|].
    rewrite <- Permutation_middle in Hnd. apply list.NoDup_cons in Hnd as [Hnd _]. done. }
  exists (s <| nodes := <[a := mk_node (free s) NULL b v]> (<[b := nb]> (nodes s)) |> <| free := a |>). split_and!; [ | done | |].
  - apply (unlink_run s d a b (top K) v vb (addr sib) Hn Hnb Hab). intros Hs.
    destruct sib as [|a' v' l' r']; cbn [addr] in Hs; [by subst a|]. destruct (Hother a') as [Hne _]; [set_solver | done].
  - rsimpl. assert (forall x, x ∈ cptrs K ++ ptrs sib -> <[a := mk_node (free s) NULL b v]> (<[b := nb]> (nodes s)) !! x = nodes s !! x) as Hs.
    { intros x Hx. destruct (Hother x Hx). by rewrite !lookup_insert_ne. }
    assert (rep (<[a := mk_node (free s) NULL b v]> (<[b := nb]> (nodes s))) b sib) as Hsib'
      by (eapply rep_frame; [|exact Hsib]; intros x Hx; apply Hs; set_solver).
    apply rep_plug. split; [|unfold nb; destruct d; cbn [fill rep]; (split_and!; [done | by rewrite lookup_insert_ne, lookup_insert_eq | done | done])].
    eapply repc_frame; [intros x Hx; apply Hs; set_solver|]. by destruct d.
  - exists (a :: FL), U. rsimpl. split_and!; try done.
    + cbn [chain]. split_and!; [done | done |]. eexists. split; [apply lookup_insert_eq|]. cbn [right].
      apply (chain_frame (nodes s)); [|done]. intros x Hx. rewrite !lookup_insert_ne; [done | |].
      * intros ->. apply (Hd x); [by right | set_solver].
      * intros ->. apply (Hd x); [by left | set_solver].
    + cbn [app]. by rewrite <- Permutation_middle.
    + intros p Hp'. rewrite !lookup_insert_is_Some'. destruct (H3 p) as [H3a H3b]; [set_solver|]. auto.
    + intros p x. rewrite !lookup_insert_is_Some'. intros [<-|[<-|Hp']] Hx; [apply (H5 a) | apply (H5 b) | apply (H5 p)]; done.
Qed.

Lemma delete_up_ok K : forall fuel s a v,
  K <> [] -> (length K <= fuel)%nat -> holds s (plug K (T a v E E)) ->
  exists s' t', delete_up fuel a s = Some (tt, s') /\ holds s' t' /\
    forall q, look t' q = if decide (q = path K) then NO else look (plug K (T a v E E)) q.
Proof.
  induction K as [|[d b vb sib] K IH]; intros fuel s a v Hne Hf [Hr Hroot _ Hres Hh]; [done|].
  destruct fuel as [|fuel]; cbn [length] in Hf; [lia|].
  destruct (unlink_ok s d b vb sib K a v Hr Hres) as (s1 & Hrun & Hroot1 & Hr1 & Hres1).
  assert (forall {B} (k : ptr -> M (radix P) B),
    (let! par := rd parent a in
     let! r := rd right par in
     (if r =? a then wr right par NULL else wr left par NULL) ;;
     let! free_ := get free in
     wr right a free_ ;;
     put free a ;;
     bind (rd parent a) k) s = bind (unlink a) k s) as Hassoc by (intros B k; unfold unlink, bind; by repeat case_match).
  cbn [delete_up]. rewrite Hassoc, (bind_run _ _ _ _ _ Hrun). clear Hassoc Hrun.
  assert (forall q, look (plug K (fill (F d b vb sib) E)) q
    = if decide (q = path (F d b vb sib :: K)) then NO else look (plug (F d b vb sib :: K) (T a v E E)) q) as Hlook
    by (intros q; apply (look_plug_leaf (F d b vb sib :: K))).
  assert (exists l r, fill (F d b vb sib) E = T b vb l r /\ (l = E /\ r = E <-> sib = E)) as (l & r & Hfill & Hlr).
  { destruct d; [exists sib, E | exists E, sib]; split; [done | tauto | done | tauto]. }
  assert (holds s1 (plug K (fill (F d b vb sib) E))) as Ht1.
  { constructor; [done | | rewrite Hfill; apply radix_plug_not_E | done |].
    - rewrite Hroot1, <- Hroot. exact (addr_plug_cons (F d b vb sib) K E (T a v E E)).
    - change (plug K (fill (F d b vb sib) E)) with (plug (F d b vb sib :: K) E). rewrite height_plug in *.
      pose proof (cheight_le (F d b vb sib :: K) 0 (height (T a v E E)) 0). pose proof (cheight_ge (F d b vb sib :: K) (height (T a v E E))).
      unfold key_bits in *. cbn [length height] in *. lia. }
  rewrite Hfill in Hr1, Ht1, Hlook. destruct (rep_node _ _ _ _ _ _ Hr1) as [Hn Hb].
  rewrite (bind_run _ _ _ _ _ (has_child_run _ _ _ Hn)). cbn [right left].
  pose proof Hr1 as [_ (_ & _ & Hl & Hrr)]%rep_plug.
  destruct (negb (addr r =? NULL) || negb (addr l =? NULL)) eqn:Hc; [by exists s1, (plug K (T b vb l r))|].
  assert (l = E /\ r = E) as [-> ->].
  { destruct (Z.eqb_spec (addr r) NULL) as [H1|]; [|done]. destruct (Z.eqb_spec (addr l) NULL) as [H2|]; [|done].
    by rewrite (rep_addr _ _ _ Hl) in H2; rewrite (rep_addr _ _ _ Hrr) in H1. }
  rewrite (bind_run _ _ _ _ _ (radix_rd_run value _ _ _ Hn)). cbn [value].
  destruct (Z.eqb_spec vb NO) as [->|Hv]; cbn [negb]; [|by exists s1, (plug K (T b vb E E))].
  rewrite (bind_run _ _ _ _ _ (radix_rd_run parent _ _ _ Hn)). cbn [parent].
  destruct (Z.eqb_spec (top K) NULL) as [Htop|Htop]; [by exists s1, (plug K (T b NO E E))|].
  destruct (IH fuel s1 b NO) as (s' & t' & Hrun' & Ht' & Hlook'); [by intros -> | lia | done |].
  exists s', t'. split_and!; [done | done |]. intros q. rewrite Hlook', <- Hlook.
  destruct (decide (q = path K)) as [->|]; [|done]. rewrite <- (app_nil_r (path K)), look_plug. done.
Qed.

Lemma radix_delete_ok key mask s t :
  holds s t -> prefix_of key mask <> [] ->
  exists rc s' t', ngx_radix32tree_delete key mask s = Some (rc, s') /\ holds s' t' /\
    (forall q, look t' q = if decide (q = prefix_of key mask) then NO else look t q) /\
    (look t (prefix_of key mask) <> NO -> rc = NGX_OK) /\ (rc = NGX_OK \/ rc = NGX_ERROR).
Proof.
  intros Ht Hpne. pose proof Ht as [Hr Hroot Hne Hres Hh].
  unfold ngx_radix32tree_delete. rewrite get_run, <- Hroot.
  destruct (delete_walk_ok key mask s key_bits key_bits [] t ltac:(lia) Hr) as (K & t1 & Hrun & Hpl & HE & HK).
  change (bitat key_bits) with 0x80000000 in Hrun. rewrite (bind_run _ _ _ _ _ Hrun). cbn [plug path app] in *.
  fold (prefix_of key mask) in HE, HK. destruct t1 as [|a v l r]; cbn [addr].
  { change (NULL =? NULL) with true. eexists _, s, t. split; [reflexivity|]. split; [done|]. specialize (HE eq_refl).
    split_and!; [|by rewrite HE | by right]. intros q. destruct (decide _) as [->|]; done. }
  specialize (HK ltac:(done)). clear Hrun HE. subst t. destruct (rep_node _ _ _ _ _ _ Hr) as [Hn Ha].
  assert (look (plug K (T a v l r)) (prefix_of key mask) = v) as Hv by (by rewrite <- HK, <- (app_nil_r (path K)), look_plug).
  destruct (Z.eqb_spec a NULL); [done|]. rewrite (bind_run _ _ _ _ _ (has_child_run _ _ _ Hn)). cbn [right left].
  pose proof Hr as [_ (_ & _ & Hl & Hrr)]%rep_plug.
  destruct (negb (addr r =? NULL) || negb (addr l =? NULL)) eqn:Hc.
  - rewrite (bind_run _ _ _ _ _ (radix_rd_run value _ _ _ Hn)). cbn [value]. destruct (Z.eqb_spec v NO) as [->|Hv']; cbn [negb].
    + eexists _, s, _. split; [reflexivity|]. split; [exact Ht|]. split_and!; [|done | by right].
      intros q. destruct (decide _) as [->|]; done.
    + destruct (set_value_ok _ _ _ _ _ _ NO Ht) as (s' & Hrun & Ht'). rewrite (bind_run _ _ _ _ _ Hrun).
      eexists _, s', _. split; [reflexivity|]. split; [exact Ht'|]. split_and!; [|done | by left].
      intros q. rewrite <- HK. apply look_plug_value.
  - assert (l = E /\ r = E) as [-> ->].
    { destruct (Z.eqb_spec (addr r) NULL) as [H1|]; [|done]. destruct (Z.eqb_spec (addr l) NULL) as [H2|]; [|done].
      by rewrite (rep_addr _ _ _ Hl) in H2; rewrite (rep_addr _ _ _ Hrr) in H1. }
    destruct (delete_up_ok K (S key_bits) s a v) as (s' & t' & Hrun & Ht' & Hlook).
    { intros ->. by apply Hpne. }
    { pose proof (cheight_ge K (height (T a v E E))) as Hge. rewrite height_plug in Hh. cbn [height] in *. lia. }
    { done. }
    rewrite (bind_run _ _ _ _ _ Hrun). eexists _, s', t'. split; [reflexivity|]. split; [done|].
    split_and!; [|done | by left]. by rewrite <- HK.
Qed.

(** * Lookup *)

(** What [ngx_radix32tree_find] returns: the value of the longest of the
    prefixes of [bits] that has one. *)
Definition longest (look : list bool -> Z) (bits : list bool) (default v : Z) : Prop :=
  (v = default /\ forall m, (m <= length bits)%nat -> look (take m bits) = NO) \/
  (exists n, (n <= length bits)%nat /\ look (take n bits) = v /\ v <> NO /\
     forall m, (n < m <= length bits)%nat -> look (take m bits) = NO).

Lemma longest_node a w l r (b : bool) bits default v :
  longest (look (if b then r else l)) bits (if w =? NO then default else w) v ->
  longest (look (T a w l r)) (b :: bits) default v.
Proof.
  intros [[-> Hno]|(n & Hn & Hl & Hv & Hno)].
  - destruct (Z.eqb_spec w NO) as [->|Hw]; [left | right].
    + split; [done|]. intros [|m] Hm; [done|]. apply Hno. cbn in Hm. lia.
    + exists O. split_and!; [lia | done | done |]. intros [|m] Hm; [lia|]. apply Hno. cbn in Hm. lia.
  - right. exists (S n). cbn [length take look]. split_and!; [lia | done | done |]. intros [|m] Hm; [lia|]. apply Hno. lia.
Qed.

Lemma find_value s a x (val : Z) {B} (k : Z -> M (radix P) B) : nodes s !! a = Some x ->
  bind (rd value a) (fun v => k (if negb (v =? NO) then v else val)) s = k (if value x =? NO then val else value x) s.
Proof. intros Ha. rewrite (bind_run _ _ _ _ _ (radix_rd_run value _ _ _ Ha)). by destruct (value x =? NO). Qed.

Lemma find_loop_ok key s k : forall fuel K t val,
  (height t <= fuel)%nat -> (height t <= S k)%nat -> rep (nodes s) NULL (plug K t) ->
  exists v, find_loop fuel key (bitat k) val (addr t) s = Some (v, s) /\ longest (look t) (kbits k key) val v.
Proof.
  induction k as [|k IH]; intros fuel K t val Hf Hh Hr; destruct t as [|a w l r];
    try (exists val; split; [by destruct fuel | by left]); destruct (rep_node _ _ _ _ _ _ Hr) as [Hn Ha];
    (destruct fuel as [|fuel]; cbn [height] in *; [lia|]); cbn [find_loop addr]; destruct (Z.eqb_spec a NULL); try done.
  - assert (l = E) as -> by (destruct l; cbn [height] in *; [done | lia]).
    exists (if w =? NO then val else w). split.
    + rewrite (find_value _ _ _ _ (fun val => bind (child key (bitat 0) a) (fun node => find_loop fuel key (Z.shiftr (bitat 0) 1) val node)) Hn). cbn [value].
      unfold child. cbn [bitat]. rewrite Z.land_0_r. change (0 =? 0) with true. cbv iota.
      rewrite (bind_run _ _ _ _ _ (radix_rd_run left _ _ _ Hn)). by destruct fuel.
    + destruct (Z.eqb_spec w NO) as [->|Hw]; [left | right].
      * split; [done|]. intros [|m] Hm; [done|]. cbn in Hm. lia.
      * exists O. split_and!; [done | done | done |]. cbn. lia.
  - rewrite (find_value _ _ _ _ (fun val => bind (child key (bitat (S k)) a) (fun node => find_loop fuel key (Z.shiftr (bitat (S k)) 1) val node)) Hn). cbn [value].
    rewrite (bind_run _ _ _ _ _ (child_run _ _ _ _ _ _ key k Hr)), bitat_shift. cbn [pred].
    assert (plug (turn (Z.testbit key (Z.of_nat k)) a w l r :: K) (if Z.testbit key (Z.of_nat k) then r else l) = plug K (T a w l r)) as Hpl
      by (cbn [plug]; by rewrite fill_turn).
    rewrite <- Hpl in Hr.
    edestruct (IH fuel) as (v & Hrun & Hlong); [| |exact Hr|]; [destruct (Z.testbit key (Z.of_nat k)); lia..|].
    exists v. split; [exact Hrun|]. cbn [kbits]. by apply longest_node.
Qed.

Lemma find_ok key s t : holds s t ->
  exists v, ngx_radix32tree_find key s = Some (v, s) /\ longest (look t) (bits_of key) NO v.
Proof.
  intros [Hr Hroot _ _ Hh]. unfold ngx_radix32tree_find. rewrite get_run, <- Hroot.
  apply (find_loop_ok key s key_bits (S key_bits) [] t NO); done.
Qed.

End Cut.

(** * Creation *)

Section Create.
Context {P : Type} {HP : NodePool P} {HOk : NodePoolOk HP}.
Context (ngx_pagesize : Z) (junk : ptr -> ngx_radix_node_t).
Context (Hpage : sizeof_ngx_radix_node_t <= ngx_pagesize).
Local Open Scope prog_scope.
Implicit Types (s : radix P) (X : list ptr).

Definition blank (t : tree) : Prop := forall q, look t q = NO.

Lemma insert_blank key mask s t :
  holds s t -> blank t ->
  exists rc s' t', ngx_radix32tree_insert ngx_pagesize junk key mask NO s = Some (rc, s') /\ holds s' t' /\ blank t' /\
    (rc <> NGX_OK -> starved ngx_pagesize s').
Proof.
  intros Ht Hb. destruct (radix_insert_ok ngx_pagesize junk Hpage key mask NO s t Ht) as (rc & s' & t' & Hrun & Ht' & Hor).
  exists rc, s', t'. destruct Hor as [(_ & Hl & _)|(_ & [[-> Hl]|(_ & Hst & Hl)])]; [by rewrite Hb in Hl | |].
  - split_and!; [done | done | | done]. intros q. rewrite Hl. by destruct (decide _).
  - split_and!; [done | done | | done]. intros q. by rewrite Hl.
Qed.

Lemma preallocate_level_ok mask inc n : forall key s t,
  holds s t -> blank t -> 0 < inc -> 0 <= key -> key + inc * Z.of_nat (S n) = 2 ^ 32 ->
  exists rc s' t', preallocate_level ngx_pagesize junk (S n) key mask inc s = Some (rc, s') /\ holds s' t' /\ blank t' /\
    (rc <> NGX_OK -> starved ngx_pagesize s').
Proof.
  induction n as [|n IH]; intros key s t Ht Hb Hinc Hkey Hsum;
    destruct (insert_blank key mask s t Ht Hb) as (rc & s1 & t1 & Hrun & Ht1 & Hb1 & Hst1);
    cbn [preallocate_level]; rewrite (bind_run _ _ _ _ _ Hrun);
    (destruct (Z.eqb_spec rc NGX_OK); cbn [negb]; [|exists NGX_ERROR, s1, t1; split_and!; [done..|intros _; by apply Hst1]]).
  - assert (key + inc = 2 ^ 32) as -> by lia. change (u32 (2 ^ 32) =? 0) with true. by exists NGX_OK, s1, t1.
  - rewrite u32_small by lia. destruct (Z.eqb_spec (key + inc) 0); [lia|]. apply (IH (key + inc) s1 t1); try done; lia.
Qed.

Lemma preallocate_loop_ok n : forall k mask s t,
  (k <= 32)%nat -> holds s t -> blank t ->
  exists rc s' t', preallocate_loop ngx_pagesize junk n mask (bitat k) s = Some (rc, s') /\ holds s' t' /\ blank t' /\
    (rc <> NGX_OK -> starved ngx_pagesize s').
Proof.
  induction n as [|n IH]; intros k mask s t Hk Ht Hb; [by exists NGX_OK, s, t|]. cbn [preallocate_loop].
  set (m := Z.lor (Z.shiftr mask 1) 0x80000000).
  assert (exists rc s' t', preallocate_level ngx_pagesize junk (if bitat k =? 0 then 1%nat else Z.to_nat (2 ^ 32 / bitat k)) 0 m (bitat k) s
    = Some (rc, s') /\ holds s' t' /\ blank t' /\ (rc <> NGX_OK -> starved ngx_pagesize s')) as (rc & s1 & t1 & Hrun & Ht1 & Hb1 & Hst1).
  { destruct k as [|k]; cbn [bitat].
    - change (0 =? 0) with true. cbv iota. destruct (insert_blank 0 m s t Ht Hb) as (rc & s1 & t1 & Hrun & Ht1 & Hb1 & Hst1).
      cbn [preallocate_level]. rewrite (bind_run _ _ _ _ _ Hrun). destruct (Z.eqb_spec rc NGX_OK) as [->|]; cbn [negb];
        eexists _, s1, t1; split_and!; [done..|intros _; by apply Hst1].
    - pose proof (Z.pow_pos_nonneg 2 (Z.of_nat k)). destruct (Z.eqb_spec (2 ^ Z.of_nat k) 0); [lia|].
      assert (2 ^ 32 = 2 ^ (32 - Z.of_nat k) * 2 ^ Z.of_nat k) as Hsplit by (rewrite <- Z.pow_add_r by lia; f_equal; lia).
      rewrite Hsplit, Z.div_mul by lia. pose proof (Z.pow_pos_nonneg 2 (32 - Z.of_nat k)).
      destruct (Z.to_nat (2 ^ (32 - Z.of_nat k))) as [|j] eqn:Hj; [lia|].
      apply (preallocate_level_ok m (2 ^ Z.of_nat k) j 0 s t); try done; nia. }
  rewrite (bind_run _ _ _ _ _ Hrun). destruct (Z.eqb_spec rc NGX_OK); [|exists NGX_ERROR, s1, t1; split_and!; [done..|intros _; by apply Hst1]].
  rewrite bitat_shift. apply (IH (pred k) m s1 t1); [lia | done | done].
Qed.

Lemma radix_create_ok p U preallocate :
  owns p U -> -1 <= preallocate ->
  exists tree s, ngx_radix_tree_create ngx_pagesize junk p preallocate = Some (tree, s) /\
    ((tree = NULL /\ (palloc sizeof_ngx_radix_tree_t p = Some (NULL, pool s) \/ starved ngx_pagesize s)) \/
     exists t, holds s t /\ blank t).
Proof.
  intros Ho Hpre. unfold ngx_radix_tree_create.
  destruct (palloc_law p U sizeof_ngx_radix_tree_t Ho ltac:(done)) as (tree & p1 & U1 & Hpal & Ho1 & _). rewrite Hpal.
  destruct (Z.eqb_spec tree NULL) as [->|Htree]; [by eexists _, _; split; [|left; split; [|left]]|].
  set (s0 := mk_radix ∅ NULL p1 NULL NULL 0).
  assert (res s0 []) as Hres0.
  { exists [], U1. cbn. rewrite cells_nil by done. split_and!; try done; [constructor | set_solver |].
    intros a x [n Ha]. by rewrite lookup_empty in Ha. }
  destruct (alloc_ok ngx_pagesize junk Hpage s0 [] Hres0) as (r & s1 & Hrun & _ & _ & [(-> & Hres1 & Hst)|[Hr Hres1]]); rewrite (bind_run _ _ _ _ _ Hrun), put_run.
  { eexists NULL, _. split; [reflexivity | left; split; [done | by right]]. }
  destruct (Z.eqb_spec r NULL); [done|]. destruct (res_in _ _ r Hres1 ltac:(by left)) as [[y Hy] _].
  set (s2 := s1 <| root := r |>). assert (nodes s2 !! r = Some y) as Hy2 by exact Hy.
  rewrite (bind_run _ _ _ _ _ (wr_run right s2 r _ NULL Hy2)).
  do 3 (erewrite bind_run by (apply wr_run; rsimpl; apply lookup_insert_eq); rsimpl). rewrite !insert_insert_eq.
  set (s3 := s2 <| nodes := _ |>).
  assert (holds s3 (T r NO E E)) as Ht3.
  { constructor; [|done | done | | cbn; unfold key_bits; lia].
    - cbn [rep]. split_and!; [done | | done | done]. unfold s3. rsimpl. rewrite lookup_insert_eq. done.
    - apply res_write; [|by apply (is_Some_put _ _ _ _ Hy2) | exact Hres1]. intros x Hx. apply lookup_insert_ne. set_solver. }
  assert (blank (T r NO E E)) as Hb3 by (intros [|[] q]; done).
  destruct (Z.eqb_spec preallocate 0) as [_|Hne]; [eexists tree, s3; split; [reflexivity|]; right; by exists (T r NO E E)|].
  destruct (Z.ltb_spec preallocate (-1)) as [|_]; [lia|].
  destruct (preallocate_loop_ok (Z.to_nat (preallocate_bits ngx_pagesize preallocate)) 32 0 s3 _ ltac:(lia) Ht3 Hb3)
    as (rc & s4 & t4 & Hrun4 & Ht4 & Hb4 & Hst4).
  change (bitat 32) with 0x80000000 in Hrun4. rewrite (bind_run _ _ _ _ _ Hrun4). destruct (Z.eqb_spec rc NGX_OK).
  - eexists tree, s4. split; [reflexivity|]. right. by exists t4.
  - eexists NULL, s4. split; [reflexivity | left; split; [done | right; by apply Hst4]].
Qed.

(** * The table *)

Inductive op := Insert (key mask val : Z) | Delete (key mask : Z) | Find (key : Z).
Definition run_op (o : op) : M (radix P) Z :=
  match o with
  | Insert key mask val => ngx_radix32tree_insert ngx_pagesize junk key mask val
  | Delete key mask => ngx_radix32tree_delete key mask
  | Find key => ngx_radix32tree_find key
  end.
Fixpoint run_ops (l : list op) : M (radix P) (list Z) :=
  match l with
  | [] => ret []
  | o :: l => let! r := run_op o in let! rs := run_ops l in ret (r :: rs)
  end.
End Create.

(** What the operations mean: [D] maps prefixes to values.  An insertion fails
    only if the pool has refused a page ([no_page]), and a lookup returns the value
    of the longest prefix of the key in the table. *)
Abbreviation table := (gmap (list bool) Z).
Definition op_ok (o : op) : Prop :=
  match o with
  | Insert _ _ val => val <> NO
  | Delete key mask => prefix_of key mask <> []
  | Find _ => True
  end.
Definition step_ok (no_page : Prop) (D : table) (o : op) (r : Z) (D' : table) : Prop :=
  match o with
  | Insert key mask val =>
      match D !! prefix_of key mask with
      | Some _ => r = NGX_BUSY /\ D' = D
      | None => (r = NGX_OK /\ D' = <[prefix_of key mask := val]> D) \/ (r = NGX_ERROR /\ D' = D /\ no_page)
      end
  | Delete key mask =>
      D' = delete (prefix_of key mask) D /\
      (is_Some (D !! prefix_of key mask) -> r = NGX_OK) /\ (r = NGX_OK \/ r = NGX_ERROR)
  | Find key =>
      D' = D /\
      ((r = NO /\ forall m, (m <= key_bits)%nat -> D !! take m (bits_of key) = None) \/
       (exists n, (n <= key_bits)%nat /\ D !! take n (bits_of key) = Some r /\
          forall m, (n < m <= key_bits)%nat -> D !! take m (bits_of key) = None))
  end.
Definition agrees (t : tree) (D : table) : Prop :=
  forall q, D !! q = if decide (look t q = NO) then None else Some (look t q).

Lemma longest_agrees no_page t D key v : agrees t D -> longest (look t) (bits_of key) NO v -> step_ok no_page D (Find key) v D.
Proof.
  intros Ha Hl. split; [done|]. assert (length (bits_of key) = key_bits) as Hlen by done.
  unfold longest in Hl. rewrite Hlen in Hl. destruct Hl as [[-> Hno]|(n & Hn & Hv & Hne & Hno)]; [left | right].
  - split; [done|]. intros m Hm. by rewrite Ha, decide_True by auto.
  - exists n. split_and!; [done | by rewrite Ha, Hv, decide_False |]. intros m Hm. by rewrite Ha, decide_True by auto.
Qed.

Section Refines.
Context {P : Type} {HP : NodePool P} {HOk : NodePoolOk HP}.
Context (ngx_pagesize : Z) (junk : ptr -> ngx_radix_node_t).
Context (Hpage : sizeof_ngx_radix_node_t <= ngx_pagesize).

(** A run of the operations [l], from the tree [s] with the table [D]. *)
Inductive trace : radix P -> table -> list op -> list Z -> radix P -> table -> Prop :=
| trace_nil s D : trace s D [] [] s D
| trace_cons s D o r s1 D1 l rs s2 D2 :
    run_op ngx_pagesize junk o s = Some (r, s1) -> step_ok (starved ngx_pagesize s1) D o r D1 ->
    trace s1 D1 l rs s2 D2 -> trace s D (o :: l) (r :: rs) s2 D2.

Lemma op_refines (s : radix P) t D o :
  holds s t -> agrees t D -> op_ok o ->
  exists r s' t' D', run_op ngx_pagesize junk o s = Some (r, s') /\ holds s' t' /\ agrees t' D' /\
    step_ok (starved ngx_pagesize s') D o r D'.
Proof.
  intros Ht Ha Ho. destruct o as [key mask val|key mask|key]; cbn [run_op op_ok step_ok] in *.
  - destruct (radix_insert_ok ngx_pagesize junk Hpage key mask val s t Ht) as (rc & s' & t' & Hrun & Ht' & [(-> & Hl & -> & ->)|(Hl & Hor)]).
    { exists NGX_BUSY, s, t, D. split_and!; [done | done | done |]. by rewrite Ha, decide_False. }
    destruct Hor as [[-> Hlook]|(-> & Hst & Hlook)].
    + exists NGX_OK, s', t', (<[prefix_of key mask := val]> D). split_and!; [done | done | |].
      * intros q. rewrite Hlook. destruct (decide (q = prefix_of key mask)) as [->|Hne]; [by rewrite lookup_insert_eq, decide_False|].
        by rewrite lookup_insert_ne, Ha by done.
      * rewrite Ha, decide_True by done. by left.
    + exists NGX_ERROR, s', t', D. split_and!; [done | done | intros q; by rewrite Hlook, Ha |].
      rewrite Ha, decide_True by done. by right.
  - destruct (radix_delete_ok key mask s t Ht Ho) as (rc & s' & t' & Hrun & Ht' & Hlook & Hfound & Hrc).
    exists rc, s', t', (delete (prefix_of key mask) D). split_and!; [done | done | | done | | done].
    + intros q. rewrite Hlook. destruct (decide (q = prefix_of key mask)) as [->|Hne]; [by rewrite lookup_delete_eq, decide_True|].
      by rewrite lookup_delete_ne, Ha by done.
    + rewrite Ha. destruct (decide _) as [|Hl]; [by intros []|]. intros _. by apply Hfound.
  - destruct (find_ok key s t Ht) as (v & Hrun & Hlong). exists v, s, t, D. split; [done|]. split; [done|]. split; [done|].
    by apply (longest_agrees (starved ngx_pagesize s) t).
Qed.

Lemma ops_refine l : forall (s : radix P) t D,
  holds s t -> agrees t D -> Forall op_ok l ->
  exists rs s' D', run_ops ngx_pagesize junk l s = Some (rs, s') /\ trace s D l rs s' D'.
Proof.
  induction l as [|o l IH]; intros s t D Ht Ha Hl; [by exists [], s, D; split; [|constructor]|].
  apply Forall_cons in Hl as [Ho Hl]. destruct (op_refines s t D o Ht Ha Ho) as (r & s1 & t1 & D1 & Hrun & Ht1 & Ha1 & Hstep).
  destruct (IH s1 t1 D1 Ht1 Ha1 Hl) as (rs & s2 & D2 & Hrun2 & Htr). exists (r :: rs), s2, D2. split; [|by econstructor].
  cbn [run_ops]. rewrite (bind_run _ _ _ _ _ Hrun), (bind_run _ _ _ _ _ Hrun2). done.
Qed.
End Refines.
End RadixCorrect.
