(* ===== verification/RadixPool.v ===== *)
(** The radix tree in a memory pool: Palloc.v's pools keep the promise the tree
    relies on, and the tree made in one is a table of prefixes. *)
From stdpp Require Import base numbers gmap list.
From S2P Require Import Prelude Palloc PallocCorrect Radix RadixCorrect.
Local Open Scope Z_scope.
Import Radix RadixCorrect.

Module RadixPool.

Section Pool.
Context {HM : Palloc.Malloc} {HMok : Palloc.MallocOk HM} (pool psize : Z).

Definition pool_nodes : NodePool Palloc.heap := {|
  palloc := Palloc.ngx_palloc pool;
  pmemalign := Palloc.ngx_pmemalign pool
|}.

(** The addresses in use are the pool's heads and what it gave out. *)
Definition pool_owns (h : Palloc.heap) (U : Z -> Prop) : Prop :=
  exists bs ls, Palloc.pool_inv h pool psize bs ls /\ forall x, U x <-> Palloc.used h bs ls x.

Lemma alloc_owns h bs ls n r h' bs' ls' U :
  (forall x, U x <-> Palloc.used h bs ls x) -> PallocCorrect.alloc_ok pool psize h bs ls r n h' bs' ls' ->
  pool_owns h' (Palloc.used h' bs' ls') /\ (forall x, U x -> Palloc.used h' bs' ls' x) /\
  (r <> NULL -> 0 < r /\ forall x, r <= x < r + n -> Palloc.used h' bs' ls' x /\ ~ U x).
Proof.
  intros HU [Hi Hk Hg _ _]. split; [by exists bs', ls'|]. split.
  - intros x Hx. by apply Hk, HU.
  - intros Hr. destruct (Hg Hr) as [H0 Hgiven]. split; [done|]. intros x Hx. rewrite HU. by apply Hgiven.
Qed.

#[export] Instance pool_nodes_ok : NodePoolOk pool_nodes.
Proof.
  refine {| owns := pool_owns |}.
  - intros h U n (bs & ls & Hi & HU) Hn.
    destruct (PallocCorrect.palloc_ok _ _ _ _ _ Hi true n Hn) as (r & h' & bs' & ls' & Hrun & Hok & _).
    exists r, h', (Palloc.used h' bs' ls'). split; [exact Hrun|]. by eapply alloc_owns.
  - intros h U n a (bs & ls & Hi & HU) Hn Ha.
    destruct (PallocCorrect.pmemalign_ok _ _ _ _ _ n a Hi Hn Ha) as (r & h' & bs' & ls' & Hrun & Hok).
    exists r, h', (Palloc.used h' bs' ls'). split; [exact Hrun|]. by eapply alloc_owns.
Defined.
End Pool.

(** Deleting the empty prefix from a tree whose root is a leaf. *)
Lemma delete_root_faults {P : Type} (s : radix P) a v key :
  a <> NULL -> root s = a -> nodes s !! a = Some (mk_node NULL NULL NULL v) -> nodes s !! NULL = None ->
  ngx_radix32tree_delete key 0 s = None.
Proof.
  intros Ha Hroot Hn Hnull. unfold ngx_radix32tree_delete. rewrite get_run, Hroot.
  assert (delete_walk key_bits key 0 0x80000000 a s = Some (a, s)) as Hw.
  { cbn [delete_walk key_bits]. change (Z.land 0x80000000 0 =? 0) with true. by rewrite orb_true_r. }
  rewrite (bind_run _ _ _ _ _ Hw). destruct (Z.eqb_spec a NULL); [done|].
  rewrite (bind_run _ _ _ _ _ (has_child_run _ _ _ Hn)). cbn [right left]. change (NULL =? NULL) with true. cbn [negb orb].
  cbn [delete_up]. unfold bind at 1. unfold bind at 1. rewrite (radix_rd_run parent _ _ _ Hn). cbn [parent].
  unfold bind at 1, rd at 1. by rewrite Hnull.
Qed.

(** * The theorems *)

(** C11.  A radix tree is a table of prefixes.  In any pool that gives out
    memory once, with any preallocation, [ngx_radix_tree_create] returns NULL, and
    then the pool has refused memory, or
    an empty tree; from there every sequence of insertions (of values other than
    [NGX_RADIX_NO_VALUE]), deletions (of non-empty prefixes) and lookups runs without a fault, within the bits of a
    key and whatever the pool's memory held before, and gives the answers of a
    finite map from prefixes to values: an insertion stores the value, or says
    [NGX_BUSY] if the prefix has one, or [NGX_ERROR] if the pool has just refused a
    page, and then changes nothing; a deletion removes the prefix and no other,
    and says [NGX_OK] if it was there; and
    [ngx_radix32tree_find] returns the value of the longest prefix of the key in
    the table, or [NGX_RADIX_NO_VALUE] if there is none.  Deleting the default
    route (the empty prefix, [mask] zero) from a tree that has no other node reads
    through the root's NULL parent, with or without a value in the root: the loop
    of [ngx_radix32tree_delete] does not look whether the leaf is the root. *)
Theorem radix_tree_correct {P : Type} {HP : NodePool P} {HOk : NodePoolOk HP} (ngx_pagesize : Z)
    (junk : ptr -> ngx_radix_node_t) (p : P) U preallocate :
  owns p U -> sizeof_ngx_radix_node_t <= ngx_pagesize -> -1 <= preallocate ->
  exists tree s, ngx_radix_tree_create ngx_pagesize junk p preallocate = Some (tree, s) /\
    ((tree = NULL /\ (palloc sizeof_ngx_radix_tree_t p = Some (NULL, pool s) \/ starved ngx_pagesize s)) \/
     forall l, Forall op_ok l ->
       exists rs s' D, run_ops ngx_pagesize junk l s = Some (rs, s') /\ trace ngx_pagesize junk s ∅ l rs s' D) /\
  (forall (s : radix P) a v key,
    a <> NULL -> root s = a -> nodes s !! a = Some (mk_node NULL NULL NULL v) -> nodes s !! NULL = None ->
    ngx_radix32tree_delete key 0 s = None).
Proof.
  intros Ho Hpage Hpre. destruct (radix_create_ok ngx_pagesize junk Hpage p U preallocate Ho Hpre) as (tree & s & Hrun & Hor).
  exists tree, s. split_and!; [done| |intros ????; apply delete_root_faults]. destruct Hor as [?|(t & Ht & Hb)]; [by left | right].
  intros l Hl. apply (ops_refine ngx_pagesize junk Hpage l s t ∅ Ht); [|done].
  intros q. by rewrite Hb, decide_True, lookup_empty.
Qed.

(** * Witnesses *)

(** A pool that hands out one page and then refuses. *)
Definition page_pool : NodePool (list ptr) := {|
  palloc _ l := Some (8, l);
  pmemalign _ _ l := match l with [] => Some (NULL, []) | p :: l => Some (p, l) end
|}.
Definition no_node (a : ptr) : ngx_radix_node_t := mk_node a a a a.

(** 10.0.0.0/8 and 10.1.0.0/16: the longer prefix wins until it is deleted. *)
Definition routes : list op :=
  [Insert 0x0A000000 0xFF000000 1; Insert 0x0A010000 0xFFFF0000 2; Insert 0x0A010000 0xFFFF0000 3;
   Find 0x0A010203; Find 0x0A020203; Find 0x0B000000; Delete 0x0A010000 0xFFFF0000; Find 0x0A010203].
Example routes_found :
  match ngx_radix_tree_create (HP := page_pool) 4096 no_node [4096] 0 with
  | Some (_, s) => fst <$> run_ops (HP := page_pool) 4096 no_node routes s
  | None => None
  end = Some [NGX_OK; NGX_OK; NGX_BUSY; 2; 1; NO; NGX_OK; 1].
Proof. by vm_compute. Qed.

(** The number of levels made in advance on a platform with pages of 4096
    bytes: the divisor is the size of the tree's structure, not of a node. *)
Example preallocate_amd64 : preallocate_bits 4096 (-1) = 8.
Proof. reflexivity. Qed.

Import Palloc PallocCorrect.
#[local] Instance radix_malloc : Malloc := {| posix_memalign := bump; malloc L s := bump L NGX_POOL_ALIGNMENT s |}.
#[local] Instance radix_malloc_ok : MallocOk radix_malloc.
Proof. split; intros; by apply bump_ok. Qed.

(** A tree whose only node is the root at 64, with the value 7. *)
Definition root_only : radix heap := mk_radix {[64 := mk_node NULL NULL NULL 7]} 64 pool_heap NULL NULL 0.

(** The pool of 128 bytes has the pages of the tree from the allocator. *)
Definition new_tree : ptr * radix heap :=
  default (NULL, root_only) (ngx_radix_tree_create (HP := pool_nodes 16) 4096 no_node pool_heap 3).
Example new_tree_routes :
  fst <$> run_ops (HP := pool_nodes 16) 4096 no_node routes new_tree.2 = Some [NGX_OK; NGX_OK; NGX_BUSY; 2; 1; NO; NGX_OK; 1].
Proof. by vm_compute. Qed.

Lemma radix_tree_correct_witness :
  (exists s' D, run_ops (HP := pool_nodes 16) 4096 no_node routes new_tree.2 = Some ([NGX_OK; NGX_OK; NGX_BUSY; 2; 1; NO; NGX_OK; 1], s') /\
     trace (HP := pool_nodes 16) 4096 no_node new_tree.2 ∅ routes [NGX_OK; NGX_OK; NGX_BUSY; 2; 1; NO; NGX_OK; 1] s' D) /\
  ngx_radix32tree_delete 0x0A000000 0 root_only = None.
Proof.
  destruct (@radix_tree_correct heap (pool_nodes 16) (pool_nodes_ok 16 128) 4096 no_node pool_heap (used pool_heap [16] []) 3) as (tree & s & Hrun & Hops & Hroot).
  - exists [16], []. split; [apply pool_heap_inv | done].
  - unfold sizeof_ngx_radix_node_t. lia.
  - lia.
  - assert (new_tree = (tree, s)) as Hnew by (unfold new_tree; rewrite Hrun; reflexivity).
    assert (tree <> NULL) as Hn by (change tree with (tree, s).1; rewrite <- Hnew; by vm_compute).
    split; [|by apply (Hroot root_only 64 7 0x0A000000)].
    destruct Hops as [[Hnull _]|Hops]; [exfalso; exact (Hn Hnull)|].
    destruct (Hops routes) as (rs & s' & D & Hr & Ht); [repeat constructor; by vm_compute|].
    pose proof new_tree_routes as Hex. rewrite Hnew in Hex |- *. cbn [snd] in *. rewrite Hr in Hex. injection Hex as ->. exists s', D. exact (conj Hr Ht).
Defined.

End RadixPool.
