(* ===== verification/Shmtx.v ===== *)
(** Locks between processes: the spin lock of ngx_spinlock.c behind
    [ngx_shmtx_lock], and the accept mutex, which the worker processes take with
    [ngx_shmtx_trylock] in every pass of their loops
    (ngx_event_accept.c, ngx_event.c).

    A process moves by atomic steps: a read of the lock, a compare-and-set, or
    work on memory of its own.  The steps of several processes interleave in any
    order. *)
From stdpp Require Import base numbers gmap list.
From S2P Require Import Prelude.
Local Open Scope Z_scope.

Module Shmtx.

(** [ngx_atomic_cmp_set]: the new contents of the lock, and whether it was set. *)
Definition ngx_atomic_cmp_set (lock old set : Z) : Z * bool :=
  if lock =? old then (set, true) else (lock, false).

(** [ngx_shmtx_unlock] *)
Definition ngx_shmtx_unlock (lock ngx_pid : Z) : Z := (ngx_atomic_cmp_set lock ngx_pid 0).1.

(** A function changed at one process. *)
Definition upd {A} (f : Z -> A) (p : Z) (x : A) : Z -> A := fun q => if q =? p then x else f q.
Lemma upd_eq {A} (f : Z -> A) p x : upd f p x p = x.
Proof. unfold upd. by rewrite Z.eqb_refl. Qed.
Lemma upd_ne {A} (f : Z -> A) p q x : q <> p -> upd f p x q = f q.
Proof. intros Hne. unfold upd. by destruct (Z.eqb_spec q p). Qed.

(** * The spin lock *)

(** Where a process is in [ngx_spinlock]: at the test or the compare-and-set of
    the outer loop, at the pause [i] of [n] of the inner loop, at its test or its
    compare-and-set, or in [ngx_sched_yield]; before the call, or holding the
    lock. *)
Inductive place :=
| Out
| Test
| Set_
| Pause (n i : Z)
| Test_inner (n : Z)
| Set_inner (n : Z)
| Yield
| Holds.

Section Spinlock.
(** [ngx_ncpu] and the argument [spin]. *)
Context (ngx_ncpu spin : Z).

(** [n <<= 1] and the test of the inner loop; its start. *)
Definition spin_next (n : Z) : place :=
  let n := u64 (n * 2) in if n <? spin then Pause n 0 else Yield.
Definition spin_enter : place :=
  if 1 <? ngx_ncpu then (if 1 <? spin then Pause 1 0 else Yield) else Yield.

(** The next step of the process [value]; a process that holds the lock unlocks
    it, one that does not asks for it again. *)
Definition ngx_spinlock (value lock : Z) (p : place) : Z * place :=
  match p with
  | Out => (lock, Test)
  | Test => (lock, if lock =? 0 then Set_ else spin_enter)
  | Set_ =>
      let '(lock, ok) := ngx_atomic_cmp_set lock 0 value in
      (lock, if ok : bool then Holds else spin_enter)
  | Pause n i => (lock, if i <? n then Pause n (i + 1) else Test_inner n)
  | Test_inner n => (lock, if lock =? 0 then Set_inner n else spin_next n)
  | Set_inner n =>
      let '(lock, ok) := ngx_atomic_cmp_set lock 0 value in
      (lock, if ok : bool then Holds else spin_next n)
  | Yield => (lock, Test)
  | Holds => (ngx_shmtx_unlock lock value, Out)
  end.

Record spinners := mk_spinners { sp_lock : Z; sp_place : Z -> place }.

(** A step of the process [p]. *)
Definition spin_step (p : Z) (s : spinners) : spinners :=
  let '(lock, x) := ngx_spinlock p (sp_lock s) (sp_place s p) in
  mk_spinners lock (upd (sp_place s) p x).

(** The processes take turns as [sched] says. *)
Fixpoint spin_run (sched : nat -> Z) (s : spinners) (n : nat) : spinners :=
  match n with
  | O => s
  | S n => spin_step (sched n) (spin_run sched s n)
  end.

Definition spin_init : spinners := mk_spinners 0 (fun _ => Out).

(** Who holds the lock. *)
Definition spin_inv (s : spinners) : Prop :=
  (forall p, p <> 0 -> sp_place s p = Holds -> sp_lock s = p) /\
  (sp_lock s <> 0 -> sp_place s (sp_lock s) = Holds).

Lemma spin_enter_not : spin_enter <> Holds.
Proof. unfold spin_enter. by repeat case_match. Qed.
Lemma spin_next_not n : spin_next n <> Holds.
Proof. unfold spin_next. by repeat case_match. Qed.

(** What a step does to the lock: it takes it when it is free, gives it back
    when it is its own, or leaves it alone. *)
Inductive effect (p lock : Z) (x : place) : Z -> place -> Prop :=
| takes : lock = 0 -> x <> Holds -> effect p lock x p Holds
| gives y : x = Holds -> y <> Holds -> effect p lock x (if lock =? p then 0 else lock) y
| keeps y : x <> Holds -> y <> Holds -> effect p lock x lock y.

Lemma spinlock_effect p lock x : let r := ngx_spinlock p lock x in effect p lock x r.1 r.2.
Proof.
  pose proof spin_enter_not as H1. pose proof spin_next_not as H2. cbv zeta.
  destruct x as [| | |n i|n|n| |]; cbn [ngx_spinlock]; unfold ngx_shmtx_unlock, ngx_atomic_cmp_set.
  - by apply keeps.
  - destruct (lock =? 0); cbn [fst snd]; by apply keeps.
  - destruct (Z.eqb_spec lock 0); cbn [fst snd]; [by apply takes | by apply keeps].
  - destruct (i <? n); cbn [fst snd]; by apply keeps.
  - destruct (lock =? 0); cbn [fst snd]; by apply keeps.
  - destruct (Z.eqb_spec lock 0); cbn [fst snd]; [by apply takes | by apply keeps].
  - by apply keeps.
  - pose proof (gives p lock Holds Out eq_refl) as Hg. destruct (lock =? p); by apply Hg.
Qed.

Lemma spin_step_inv p s : p <> 0 -> spin_inv s -> spin_inv (spin_step p s).
Proof.
  intros Hp [H1 H2]. unfold spin_step. pose proof (spinlock_effect p (sp_lock s) (sp_place s p)) as He.
  destruct (ngx_spinlock p (sp_lock s) (sp_place s p)) as [l y]. cbn [fst snd] in He. unfold spin_inv. cbn [sp_lock sp_place].
  inversion He as [Hl Hx Hl' Hy | y' Hx Hy Hl' Hy' | y' Hx Hy Hl' Hy']; subst.
  - split; [|intros _; apply upd_eq]. intros q Hq0 Hq. destruct (decide (q = l)) as [|Hne]; [done|].
    rewrite upd_ne in Hq by done. specialize (H1 q Hq0 Hq). congruence.
  - pose proof (H1 p Hp Hx) as Hlp. rewrite Hlp, Z.eqb_refl. split; [|done]. intros q Hq0 Hq.
    destruct (decide (q = p)) as [->|Hne]; [by rewrite upd_eq in Hq|]. rewrite upd_ne in Hq by done. apply H1 in Hq; congruence.
  - split.
    + intros q Hq0 Hq. destruct (decide (q = p)) as [->|Hne]; [by rewrite upd_eq in Hq|]. rewrite upd_ne in Hq by done. auto.
    + intros Hl. destruct (decide (sp_lock s = p)) as [Heq|Hne]; [|rewrite upd_ne by done; auto]. specialize (H2 Hl). congruence.
Qed.

Lemma spin_run_inv sched n : (forall t, sched t <> 0) -> spin_inv (spin_run sched spin_init n).
Proof.
  intros Hs. induction n as [|n IH]; [by split|]. by apply spin_step_inv.
Qed.

(** ** Progress *)

(** The steps of its own a process is away from the compare-and-set, if it finds
    the lock free. *)
Definition distance (x : place) : nat :=
  match x with
  | Set_ | Set_inner _ => 1
  | Test | Test_inner _ => 2
  | Out | Yield => 3
  | Pause n i => 3 + Z.to_nat (n - i)
  | Holds => 0
  end.

(** With the lock free, a step takes it or comes nearer. *)
Lemma spin_nearer p x :
  x <> Holds -> let r := ngx_spinlock p 0 x in r = (p, Holds) \/ (r.1 = 0 /\ r.2 <> Holds /\ (distance r.2 < distance x)%nat).
Proof.
  intros Hx. cbv zeta. destruct x as [| | |n i|n|n| |]; cbn [ngx_spinlock]; unfold ngx_atomic_cmp_set; change (0 =? 0) with true; cbv iota;
    [right | right | left | right | right | left | right | done]; try done; cbn [fst snd distance]; try (split_and!; [done | done | lia]).
  destruct (Z.ltb_spec i n); cbn [distance]; (split_and!; [done | done | lia]).
Qed.

Context (procs : list Z) (Hprocs : procs <> []) (Hpids : 0 ∉ procs).
Context (sched : nat -> Z) (Hsched : forall t, sched t ∈ procs).
Context (Hfair : forall p t, p ∈ procs -> exists t', (t <= t')%nat /\ sched t' = p).
Abbreviation at_ t := (spin_run sched spin_init t).

(** Somebody takes the lock in the step at time [t]. *)
Definition taken_at (t : nat) : Prop := sp_lock (at_ t) = 0 /\ sp_lock (at_ (S t)) = sched t /\ sp_place (at_ (S t)) (sched t) = Holds.

Lemma sched_nz t : sched t <> 0.
Proof. intros H0. pose proof (Hsched t). by rewrite H0 in *. Qed.

(** With the lock free, somebody takes it. *)
Lemma free_taken p d : forall t, p ∈ procs -> sp_lock (at_ t) = 0 -> (distance (sp_place (at_ t) p) <= d)%nat ->
  exists t', (t <= t')%nat /\ taken_at t'.
Proof.
  induction d as [d IH] using lt_wf_ind. intros t Hp Hl Hd. destruct (Hfair p t Hp) as (t1 & Ht1 & Hs1).
  remember (t1 - t)%nat as k eqn:Hk. revert t Hl Hd Ht1 Hk. induction k as [|k IHk]; intros t Hl Hd Ht1 Hk;
    pose proof (spin_run_inv sched t sched_nz) as [HI1 _];
    assert (sp_place (at_ t) (sched t) <> Holds) as Hnh by (intros Hh; pose proof (sched_nz t); apply HI1 in Hh; congruence);
    pose proof (spin_nearer (sched t) (sp_place (at_ t) (sched t)) Hnh) as Hstep; cbv zeta in Hstep;
    assert (at_ (S t) = spin_step (sched t) (at_ t)) as Hnext by done; unfold spin_step in Hnext; rewrite Hl in Hnext;
    destruct (ngx_spinlock (sched t) 0 (sp_place (at_ t) (sched t))) as [l y];
    (destruct Hstep as [[= -> ->]|(Hl' & Hy & Hdist)];
      [exists t; split; [lia|]; unfold taken_at; rewrite Hnext; cbn [sp_lock sp_place]; by rewrite upd_eq|]); cbn [fst snd] in *.
  - assert (sched t = p) as Hst by (rewrite <- Hs1; f_equal; lia). rewrite Hst in Hdist, Hnext.
    destruct (IH (distance y)) with (t := S t) as (t' & Ht' & Htk); [lia | done | by rewrite Hnext | rewrite Hnext; cbn [sp_place]; by rewrite upd_eq |].
    exists t'. split; [lia | done].
  - destruct (decide (sched t = p)) as [Hst|Hst].
    + rewrite Hst in Hdist, Hnext.
      destruct (IH (distance y)) with (t := S t) as (t' & Ht' & Htk); [lia | done | by rewrite Hnext | rewrite Hnext; cbn [sp_place]; by rewrite upd_eq |].
      exists t'. split; [lia | done].
    + destruct (IHk (S t)) as (t' & Ht' & Htk); [by rewrite Hnext | rewrite Hnext; cbn [sp_place]; by rewrite upd_ne | lia | lia |].
      exists t'. split; [lia | done].
Qed.

(** A lock that is held is given back. *)
Lemma held_freed t : exists t', (t <= t')%nat /\ sp_lock (at_ t') = 0.
Proof.
  destruct (decide (sp_lock (at_ t) = 0)) as [|Hl]; [by exists t|].
  assert (forall t, sp_lock (at_ t) = 0 \/ sp_lock (at_ t) ∈ procs) as Hin.
  { clear t Hl. induction t as [|t IHt]; [by left|]. cbn [spin_run]. unfold spin_step.
    pose proof (spinlock_effect (sched t) (sp_lock (at_ t)) (sp_place (at_ t) (sched t))) as He. cbv zeta in He.
    destruct (ngx_spinlock _ _ _) as [l y]. cbn [sp_lock fst snd] in *.
    inversion He; subst; [right; apply Hsched | by case_match; [left | auto] | done]. }
  destruct (Hin t) as [|Hp]; [done|]. remember (sp_lock (at_ t)) as p eqn:Hpl. destruct (Hfair p t Hp) as (t1 & Ht1 & Hs1).
  remember (t1 - t)%nat as k eqn:Hk. revert t Hpl Ht1 Hk. induction k as [|k IHk]; intros t Hpl Ht1 Hk;
    pose proof (spin_run_inv sched t sched_nz) as [HI1 HI2]; rewrite <- Hpl in HI2; specialize (HI2 Hl);
    assert (at_ (S t) = spin_step (sched t) (at_ t)) as Hnext by done.
  - assert (sched t = p) as Hst by (rewrite <- Hs1; f_equal; lia). exists (S t). split; [lia|].
    rewrite Hnext. unfold spin_step. rewrite Hst, HI2, <- Hpl. cbn [ngx_spinlock sp_lock]. unfold ngx_shmtx_unlock, ngx_atomic_cmp_set. by rewrite Z.eqb_refl.
  - destruct (decide (sched t = p)) as [Hst|Hst].
    + exists (S t). split; [lia|]. rewrite Hnext. unfold spin_step. rewrite Hst, HI2, <- Hpl. cbn [ngx_spinlock sp_lock].
      unfold ngx_shmtx_unlock, ngx_atomic_cmp_set. by rewrite Z.eqb_refl.
    + destruct (IHk (S t)) as (t' & Ht' & Hfree); [|lia|lia|exists t'; split; [lia | done]].
      rewrite Hnext. unfold spin_step. pose proof (spinlock_effect (sched t) (sp_lock (at_ t)) (sp_place (at_ t) (sched t))) as He. cbv zeta in He.
      destruct (ngx_spinlock _ _ _) as [l y]. cbn [sp_lock fst snd] in *. inversion He as [? | y' Hx | ]; subst; [congruence | | done].
      apply HI1 in Hx; [congruence | apply sched_nz].
Qed.

Lemma spin_progress t : exists t', (t <= t')%nat /\ taken_at t'.
Proof.
  destruct (held_freed t) as (t1 & Ht1 & Hl). 
  assert (exists p, p ∈ procs) as [p Hp] by (clear - Hprocs; destruct procs as [|p l]; [done | exists p; by left]).
  destruct (free_taken p _ t1 Hp Hl (Nat.le_refl _)) as (t' & Ht' & Htk). exists t'. split; [lia | done].
Qed.
End Spinlock.

(** * The accept mutex *)

(** Where a worker is in a pass of [ngx_process_events_and_timers], as far as the
    mutex matters: before it, at the test and the compare-and-set of
    [ngx_shmtx_trylock], after them in [ngx_trylock_accept_mutex], at the
    unlocking of its error path, back in the caller, waiting for and handling
    events, and at the unlocking; or it has died. *)
Inductive pass := P_start | P_test | P_set | P_locked | P_failed | P_error | P_back | P_events | P_unlock | P_dead.

(** [w_held] is [ngx_accept_mutex_held], [w_disabled] is [ngx_accept_disabled],
    [w_enabled] says that the worker's backend reports connections of the
    listening sockets, [w_post] is the flag [NGX_POST_EVENTS], and [w_own] that
    its compare-and-set was the last to succeed. *)
Record worker := mk_worker {
  w_pass : pass;
  w_held : bool;
  w_disabled : Z;
  w_enabled : bool;
  w_post : bool;
  w_own : bool
}.
#[export] Instance eta_worker : Eta worker := fun x =>
  mk_worker (w_pass x) (w_held x) (w_disabled x) (w_enabled x) (w_post x) (w_own x).

(** What the step depends on besides: whether the backend took the change of
    the accept events, and what it was left with if not; and the value of
    [ngx_accept_disabled] after the events were handled. *)
Record outside := mk_outside { o_ok : bool; o_left : bool; o_disabled : Z }.

(** The next step of the worker [pid] in [ngx_trylock_accept_mutex], with
    [ngx_shmtx_trylock]; [ngx_accept_events] stays 0 and rtsig is not used. *)
Definition ngx_trylock_accept_mutex (pid : Z) (o : outside) (lock : Z) (w : worker) : Z * worker :=
  match w_pass w with
  | P_test => (lock, w <| w_pass := if lock =? 0 then P_set else P_failed |>)
  | P_set =>
      let '(lock, ok) := ngx_atomic_cmp_set lock 0 pid in
      (lock, if ok : bool then w <| w_own := true |> <| w_pass := P_locked |> else w <| w_pass := P_failed |>)
  | P_locked =>
      if w_held w then (lock, w <| w_pass := P_back |>)
      else if o_ok o then (lock, w <| w_enabled := true |> <| w_held := true |> <| w_pass := P_back |>)
      else (lock, w <| w_enabled := o_left o |> <| w_pass := P_error |>)
  | P_error => (ngx_shmtx_unlock lock pid, w <| w_own := false |> <| w_pass := P_start |>)
  | P_failed =>
      if w_held w then
        if o_ok o then (lock, w <| w_enabled := false |> <| w_held := false |> <| w_pass := P_back |>)
        else (lock, w <| w_enabled := o_left o |> <| w_pass := P_start |>)
      else (lock, w <| w_pass := P_back |>)
  | _ => (lock, w)
  end.

(** The next step in [ngx_process_events_and_timers]. *)
Definition worker_step (pid : Z) (o : outside) (lock : Z) (w : worker) : Z * worker :=
  match w_pass w with
  | P_start =>
      if 0 <? w_disabled w then
        (lock, w <| w_disabled := w_disabled w - 1 |> <| w_post := false |> <| w_pass := P_events |>)
      else (lock, w <| w_pass := P_test |>)
  | P_back => (lock, w <| w_post := w_held w |> <| w_pass := P_events |>)
  | P_events => (lock, w <| w_disabled := o_disabled o |> <| w_pass := P_unlock |>)
  | P_unlock =>
      if w_held w then (ngx_shmtx_unlock lock pid, w <| w_own := false |> <| w_pass := P_start |>)
      else (lock, w <| w_pass := P_start |>)
  | P_dead => (lock, w)
  | _ => ngx_trylock_accept_mutex pid o lock w
  end.

Record system := mk_system { s_lock : Z; s_workers : Z -> worker }.

(** A worker makes a step, or dies; the master gives back the mutex of a dead
    one ([ngx_process_get_status]). *)
Inductive event := E_step (pid : Z) (o : outside) | E_die (pid : Z) | E_reap (pid : Z).
Definition system_step (e : event) (s : system) : system :=
  match e with
  | E_step pid o =>
      let '(lock, w) := worker_step pid o (s_lock s) (s_workers s pid) in
      mk_system lock (upd (s_workers s) pid w)
  | E_die pid => mk_system (s_lock s) (upd (s_workers s) pid ((s_workers s pid) <| w_pass := P_dead |>))
  | E_reap pid =>
      match w_pass (s_workers s pid) with
      | P_dead => mk_system (ngx_atomic_cmp_set (s_lock s) pid 0).1 (upd (s_workers s) pid ((s_workers s pid) <| w_own := false |>))
      | _ => s
      end
  end.
Definition pid_of (e : event) : Z := match e with E_step p _ | E_die p | E_reap p => p end.

Definition fresh_worker : worker := mk_worker P_start false 0 false false false.
Definition system_init : system := mk_system 0 (fun _ => fresh_worker).

Inductive reachable : system -> Prop :=
| reach_init : reachable system_init
| reach_step e s : pid_of e <> 0 -> reachable s -> reachable (system_step e s).

(** What holds of one worker: it owns the mutex when the lock has its pid, and
    where it is says whether it does. *)
Definition worker_ok (lock pid : Z) (w : worker) : Prop :=
  (w_own w = true <-> lock = pid) /\
  match w_pass w with
  | P_start | P_test | P_set | P_failed => w_own w = false
  | P_locked | P_error => w_own w = true
  | P_back => w_own w = w_held w
  | P_events | P_unlock => (w_own w = true -> w_held w = true) /\ (w_post w = true -> w_own w = true)
  | P_dead => True
  end.

Lemma unlock_cases lock pid : ngx_shmtx_unlock lock pid = if lock =? pid then 0 else lock.
Proof. unfold ngx_shmtx_unlock, ngx_atomic_cmp_set. by destruct (lock =? pid). Qed.

(** A worker's own step keeps it, and nobody else gets or loses the mutex. *)
Lemma worker_step_ok pid o lock w :
  pid <> 0 -> worker_ok lock pid w ->
  let r := worker_step pid o lock w in
  worker_ok r.1 pid r.2 /\ forall q, q <> pid -> q <> 0 -> r.1 = q <-> lock = q.
Proof.
  intros Hp [H1 H2]. cbv zeta. unfold worker_step, ngx_trylock_accept_mutex, ngx_atomic_cmp_set, worker_ok.
  destruct w as [pa held dis en post own]; cbn in H1, H2.
  destruct pa; cbn [w_pass w_held w_disabled w_enabled w_post w_own]; rewrite ?unlock_cases;
    repeat match goal with
           | |- context [0 <? ?x] => destruct (Z.ltb_spec 0 x)
           | |- context [?x =? ?y] => destruct (Z.eqb_spec x y)
           | |- context [if ?b then _ else _] => destruct b eqn:?
           end; cbn; (split; [|intros q Hq Hq0]); try solve [intuition congruence]; destruct own; intuition congruence.
Qed.

Lemma system_inv s : reachable s -> forall pid, pid <> 0 -> worker_ok (s_lock s) pid (s_workers s pid).
Proof.
  induction 1 as [|e s He Hs IH]; [intros pid Hp; split; cbn; [split; congruence | done]|].
  assert (forall pid w l, worker_ok l pid w -> pid <> 0 -> (forall q, q <> pid -> q <> 0 -> l = q <-> s_lock s = q) ->
    forall q, q <> 0 -> worker_ok l q (upd (s_workers s) pid w q)) as Hupd.
  { intros pid w l Hw Hp Hl q Hq. destruct (decide (q = pid)) as [->|Hne]; [by rewrite upd_eq|]. rewrite upd_ne by done.
    destruct (IH q Hq) as [G1 G2]. split; [by rewrite Hl | done]. }
  destruct e as [pid o|pid|pid]; cbn [pid_of system_step] in *.
  - pose proof (worker_step_ok pid o (s_lock s) (s_workers s pid) He (IH pid He)) as [Hw Hl].
    destruct (worker_step _ _ _ _) as [l w]. by apply Hupd.
  - apply Hupd; [|done|done]. destruct (IH pid He) as [G1 _]. done.
  - pose proof (IH pid He) as [G1 G2]. destruct (w_pass (s_workers s pid)) eqn:Hpass; try done.
    unfold ngx_atomic_cmp_set. apply Hupd; [|done|]; destruct (Z.eqb_spec (s_lock s) pid); cbn [fst].
    + split; [cbn; split; congruence | rsimpl; by rewrite Hpass].
    + split; [cbn; split; congruence | rsimpl; by rewrite Hpass].
    + intros q Hq Hq0. cbn [s_lock]. lia.
    + done.
Qed.

(** ** One worker accepts at a time *)

(** Backends that do not fail, and workers that are not overloaded. *)
Definition calm (e : event) : Prop :=
  match e with E_step _ o => o_ok o = true /\ o_disabled o <= 0 | _ => True end.
Inductive calmly : system -> Prop :=
| calm_init : calmly system_init
| calm_step e s : pid_of e <> 0 -> calm e -> calmly s -> calmly (system_step e s).

Lemma calmly_reachable s : calmly s -> reachable s.
Proof. induction 1; [constructor | by constructor]. Qed.

Record worker_calm (w : worker) : Prop := mk_worker_calm {
  wc_enabled : w_enabled w = true -> w_held w = true;
  wc_disabled : w_disabled w <= 0;
  wc_events : w_pass w = P_events \/ w_pass w = P_unlock -> w_post w = w_held w
}.

Lemma calm_inv s : calmly s -> forall pid, worker_calm (s_workers s pid).
Proof.
  induction 1 as [|e s He Hc Hs IH]; [intros pid; constructor; cbn; naive_solver|].
  assert (forall pid w l, worker_calm w -> forall q, worker_calm (s_workers (mk_system l (upd (s_workers s) pid w)) q)) as Hupd.
  { intros pid w l Hw q. cbn. destruct (decide (q = pid)) as [->|Hne]; [by rewrite upd_eq | by rewrite upd_ne]. }
  destruct e as [pid o|pid|pid]; cbn [system_step].
  - destruct (worker_step _ _ _ _) as [l w] eqn:Hw. apply Hupd. destruct Hc as [Hok Hdis], (IH pid) as [G1 G2 G3].
    unfold worker_step, ngx_trylock_accept_mutex, ngx_atomic_cmp_set in Hw. rewrite Hok in Hw. destruct (s_workers s pid) as [pa held dis en post own]; cbn in G1, G2, G3.
    destruct pa; cbn [w_pass w_held w_disabled w_enabled w_post w_own] in Hw; repeat case_match; simplify_eq; constructor; cbn in *; try lia; intuition congruence.
  - apply Hupd. destruct (IH pid) as [G1 G2 G3]. constructor; rsimpl; [done | done | naive_solver].
  - destruct (w_pass (s_workers s pid)) eqn:Hpass; try apply IH. apply Hupd. destruct (IH pid) as [G1 G2 G3].
    constructor; rsimpl; rewrite ?Hpass; naive_solver.
Qed.

(** * The theorems *)

(** C18.  The spin lock of [ngx_shmtx_lock], for any number of processes with
    distinct non-zero pids that lock and unlock in any interleaving of their
    atomic steps, with any number of processors and any [spin]: at no time do two
    processes hold it; and it makes progress: when every process is scheduled
    again and again, somebody takes the lock again and again. *)
Theorem spinlock_correct ngx_ncpu spin procs sched :
  procs <> [] -> 0 ∉ procs -> (forall t, sched t ∈ procs) ->
  let at_ t := spin_run ngx_ncpu spin sched spin_init t in
  (forall t p q, p <> 0 -> q <> 0 -> sp_place (at_ t) p = Holds -> sp_place (at_ t) q = Holds -> p = q) /\
  ((forall p t, p ∈ procs -> exists t', (t <= t')%nat /\ sched t' = p) ->
   forall t, exists t', (t <= t')%nat /\ sp_lock (at_ t') = 0 /\ sp_lock (at_ (S t')) = sched t' /\
     sp_place (at_ (S t')) (sched t') = Holds).
Proof.
  intros Hne H0 Hs at_. split.
  - intros t p q Hp Hq Hhp Hhq.
    assert (spin_inv (at_ t)) as [HI _] by (apply spin_run_inv; intros t' Ht'; apply H0; rewrite <- Ht'; apply Hs).
    rewrite <- (HI p), <- (HI q); done.
  - intros Hfair t. by apply (spin_progress ngx_ncpu spin procs Hne H0 sched Hs Hfair).
Qed.

(** C33.  The accept mutex, for any number of workers, any interleaving of their
    steps, failing backends, and workers that die at any point: at most one
    worker owns the mutex, a worker that posts its events instead of handling
    them at once (because it believes it may accept) does own it, and after the
    master has reaped a dead worker the mutex is not its own.  While no backend
    fails and no worker is overloaded, at most one worker at a time waits for
    events with the listening sockets enabled. *)
Theorem accept_mutex_correct s :
  reachable s ->
  (forall p q, p <> 0 -> q <> 0 -> w_own (s_workers s p) = true -> w_own (s_workers s q) = true -> p = q) /\
  (forall p, p <> 0 -> w_pass (s_workers s p) = P_events -> w_post (s_workers s p) = true -> s_lock s = p) /\
  (forall p, p <> 0 -> w_pass (s_workers s p) = P_dead -> s_lock (system_step (E_reap p) s) <> p) /\
  (calmly s -> forall p q, p <> 0 -> q <> 0 ->
     w_pass (s_workers s p) = P_events -> w_enabled (s_workers s p) = true ->
     w_pass (s_workers s q) = P_events -> w_enabled (s_workers s q) = true -> p = q).
Proof.
  intros Hs. pose proof (system_inv s Hs) as HI.
  assert (forall p, p <> 0 -> w_own (s_workers s p) = true -> s_lock s = p) as Hown by (intros p Hp; apply (HI p Hp)).
  assert (forall p, p <> 0 -> w_pass (s_workers s p) = P_events -> w_post (s_workers s p) = true -> s_lock s = p) as Hpost.
  { intros p Hp Hpa Hpo. apply Hown; [done|]. destruct (HI p Hp) as [_ H]. rewrite Hpa in H. by apply H. }
  split_and!; [intros p q Hp Hq Hwp Hwq; rewrite <- (Hown p), <- (Hown q); done | done | |].
  - intros p Hp Hd. cbn [system_step]. rewrite Hd. unfold ngx_atomic_cmp_set. cbn [s_lock].
    destruct (Z.eqb_spec (s_lock s) p); cbn [fst]; congruence.
  - intros Hc p q Hp Hq Hpp Hep Hqp Heq.
    assert (forall r, r <> 0 -> w_pass (s_workers s r) = P_events -> w_enabled (s_workers s r) = true -> s_lock s = r) as Hr.
    { intros r Hr0 Hrp Hre. apply Hpost; [done | done |]. destruct (calm_inv s Hc r) as [G1 _ G3]. rewrite G3 by auto. auto. }
    rewrite <- (Hr p), <- (Hr q); done.
Qed.

(** * Witnesses *)

(** Two processes that take turns. *)
Definition turns (t : nat) : Z := if Nat.even t then 1 else 2.

Lemma spinlock_correct_witness :
  let at_ t := spin_run 2 1024 turns spin_init t in
  (forall t p q, p <> 0 -> q <> 0 -> sp_place (at_ t) p = Holds -> sp_place (at_ t) q = Holds -> p = q) /\
  (forall t, exists t', (t <= t')%nat /\ sp_lock (at_ t') = 0 /\ sp_lock (at_ (S t')) = turns t' /\
     sp_place (at_ (S t')) (turns t') = Holds).
Proof.
  destruct (spinlock_correct 2 1024 [1; 2] turns) as [Hex Hpr].
  - done.
  - set_solver by lia.
  - intros t. unfold turns. destruct (Nat.even t); set_solver.
  - split; [exact Hex|]. apply Hpr. intros p t Hp. unfold turns.
    assert (Nat.even (2 * t) = true) as Hev by (rewrite Nat.even_mul; done).
    repeat setoid_rewrite elem_of_cons in Hp. destruct Hp as [->|[->|[]%not_elem_of_nil]].
    + exists (2 * t)%nat. rewrite Hev. split; [lia | done].
    + exists (S (2 * t)). rewrite Nat.even_succ, <- Nat.negb_even, Hev. split; [lia | done].
Defined.

(** Worker 1 goes through a pass up to the wait for events. *)
Definition quiet : outside := mk_outside true false 0.
Definition waiting_system : system :=
  foldr system_step system_init (replicate 5 (E_step 1 quiet)).
Lemma waiting_system_calm : calmly waiting_system.
Proof. unfold waiting_system. cbn [foldr replicate]. repeat (apply calm_step; [done | by split |]). apply calm_init. Qed.

Lemma accept_mutex_correct_witness :
  w_pass (s_workers waiting_system 1) = P_events /\ w_post (s_workers waiting_system 1) = true /\
  s_lock waiting_system = 1 /\
  (forall q, q <> 0 -> w_pass (s_workers waiting_system q) = P_events -> w_enabled (s_workers waiting_system q) = true -> 1 = q).
Proof.
  destruct (accept_mutex_correct waiting_system) as (_ & Hpost & _ & Hone).
  - apply calmly_reachable, waiting_system_calm.
  - split_and!; [reflexivity | reflexivity | by apply Hpost |].
    intros q Hq Hqp Hqe. apply (Hone waiting_system_calm 1 q); [done | done | reflexivity | reflexivity | done | done].
Defined.

(** An overloaded worker skips the mutex but leaves its listening sockets
    enabled: worker 1 accepts enough connections to set [ngx_accept_disabled],
    releases the mutex and starts the next pass; worker 2 takes the mutex; both
    wait for events with the listening sockets enabled, and worker 1 without the
    mutex. *)
Definition busy : outside := mk_outside true false 1.
Definition overloaded : system :=
  foldr system_step system_init
    (replicate 5 (E_step 2 quiet) ++ [E_step 1 quiet; E_step 1 quiet; E_step 1 busy] ++ replicate 5 (E_step 1 quiet)).
Example overloaded_accepts :
  reachable overloaded /\ s_lock overloaded = 2 /\
  (w_pass (s_workers overloaded 1) = P_events /\ w_enabled (s_workers overloaded 1) = true) /\
  (w_pass (s_workers overloaded 2) = P_events /\ w_enabled (s_workers overloaded 2) = true).
Proof.
  split; [|by vm_compute]. unfold overloaded. cbn [foldr replicate app].
  repeat (apply reach_step; [done|]). apply reach_init.
Qed.

End Shmtx.
