(* ===== verification/World.v ===== *)
(** The state the engine works on: events, connections, the cycle's free list,
    memory pools with the objects allocated from them, and the two systems
    outside the sources, the Perl interpreter and the operating system, which
    are interfaces. *)
From stdpp Require Import base gmap list numbers.
From S2P Require Import Prelude Rbtree.
Local Open Scope Z_scope.
Import Rbtree.

Module World.

(** * The Perl interpreter *)

(** What the [Sv...] macros read of a scalar: the flags are those of [SvROK],
    [SvPOK], [SvIOK], [SvOOK] and [SvOK], [sv_pv] the bytes of the string
    buffer (all [SvLEN] of them), [sv_av] the elements of an array. *)
Inductive svtype := SVt_PV | SVt_PVAV | SVt_other.

Record sv := mk_sv {
  sv_refcnt : Z;
  sv_type : svtype;
  sv_rok : bool;
  sv_pok : bool;
  sv_iok : bool;
  sv_ook : bool;
  sv_ok : bool;
  sv_iv : Z;
  sv_rv : ptr;
  sv_pv : list Z;
  sv_cur : Z;
  sv_len : Z;
  sv_av : list ptr
}.
#[export] Instance eta_sv : Eta sv := fun x =>
  mk_sv (sv_refcnt x) (sv_type x) (sv_rok x) (sv_pok x) (sv_iok x) (sv_ook x) (sv_ok x)
    (sv_iv x) (sv_rv x) (sv_pv x) (sv_cur x) (sv_len x) (sv_av x).

(** The calls a Perl subroutine can make back into the engine. *)
Inductive api :=
| Api_close (c : ptr)
| Api_reader_start (c : ptr) (timeout : option Z)
| Api_reader_stop (c : ptr)
| Api_writer_start (c : ptr) (timeout : option Z)
| Api_writer_stop (c : ptr)
| Api_reader_stop_writer_start (c : ptr)
| Api_writer_stop_reader_start (c : ptr)
| Api_reader_timeout (c : ptr) (timeout : option Z)
| Api_writer_timeout (c : ptr) (timeout : option Z)
| Api_interval_clear (i : ptr)
| Api_timeout_clear (i : ptr).

(** What a subroutine does: it changes the interpreter's state between calls
    of the engine, and goes on with what they return. *)
Inductive script (I : Type) : Type :=
| S_return (i : I)
| S_call (a : api) (i : I) (k : Z -> I -> script I).
Arguments S_return {I}.
Arguments S_call {I}.

(** The functions and macros of the Perl API the sources use.  A call on an
    address that is not a live scalar has no result. *)
Class Perl := {
  interp : Type;
  sv_view : interp -> ptr -> option sv;
  PL_sv_undef : ptr;
  SvREFCNT_inc : ptr -> interp -> option interp;
  SvREFCNT_dec : ptr -> interp -> option interp;
  sv_setiv : ptr -> Z -> interp -> option interp;
  sv_setpv : ptr -> list Z -> interp -> option interp;
  sv_setsv : ptr -> ptr -> interp -> option interp;
  sv_chop : ptr -> Z -> interp -> option interp;
  SvGROW : ptr -> Z -> interp -> option interp;
  SvCUR_set : ptr -> Z -> interp -> option interp;
  SvIOK_on : ptr -> interp -> option interp;
  SvPOK_on : ptr -> interp -> option interp;
  SvPOK_only : ptr -> interp -> option interp;
  SvOOK_off : ptr -> interp -> option interp;
  SvOK_off : ptr -> interp -> option interp;
  SvRV_set : ptr -> ptr -> interp -> option interp;
  (** [SvPV_free], [SvPV_set(sv, NULL)] and [SvLEN_set(sv, 0)] *)
  SvPV_free : ptr -> interp -> option interp;
  SvPV_set_NULL : ptr -> interp -> option interp;
  SvLEN_set : ptr -> Z -> interp -> option interp;
  newSV : Z -> interp -> ptr * interp;
  sv_2mortal : ptr -> interp -> option interp;
  (** bytes stored through the pointer [SvPVX(sv)] at an offset *)
  sv_poke : ptr -> Z -> list Z -> interp -> option interp;
  (** [ENTER; SAVETMPS] and [FREETMPS; LEAVE] *)
  SAVETMPS : interp -> interp;
  FREETMPS : interp -> interp;
  call_sv : ptr -> list ptr -> interp -> script interp
}.

(** * The operating system *)

(** System calls: a result is [inr errno] when the call returned -1. *)
Class Kernel := {
  kern : Type;
  sys_recv : Z -> Z -> kern -> (list Z + Z) * kern;
  sys_send : Z -> list Z -> kern -> (Z + Z) * kern;
  sys_close : Z -> kern -> (unit + Z) * kern;
  sys_accept : Z -> kern -> ((Z * list Z) + Z) * kern;
  sys_socket : Z -> kern -> (Z + Z) * kern;
  sys_connect : Z -> list Z -> kern -> (unit + Z) * kern;
  sys_bind : Z -> list Z -> kern -> (unit + Z) * kern;
  sys_listen : Z -> Z -> kern -> (unit + Z) * kern;
  sys_nonblocking : Z -> kern -> (unit + Z) * kern;
  sys_setsockopt : Z -> Z -> kern -> (unit + Z) * kern;
  sys_epoll_ctl : Z -> Z -> Z -> Z -> kern -> (unit + Z) * kern;
  sys_epoll_wait : Z -> Z -> kern -> (list (Z * Z) + Z) * kern;
  sys_gettimeofday : kern -> (Z * Z) * kern;
  (** does an allocation of this size succeed *)
  sys_malloc : Z -> kern -> bool * kern
}.

(** [errno] values (Linux). *)
Definition NGX_EINTR : Z := 4.
Definition NGX_EAGAIN : Z := 11.
Definition NGX_EPIPE : Z := 32.
Definition NGX_ENETDOWN : Z := 100.
Definition NGX_ENETUNREACH : Z := 101.
Definition NGX_ECONNABORTED : Z := 103.
Definition NGX_ECONNRESET : Z := 104.
Definition NGX_ENOTCONN : Z := 107.
Definition NGX_ETIMEDOUT : Z := 110.
Definition NGX_ECONNREFUSED : Z := 111.
Definition NGX_EHOSTDOWN : Z := 112.
Definition NGX_EHOSTUNREACH : Z := 113.
Definition NGX_EINPROGRESS : Z := 115.

(** Return codes ([ngx_core.h]). *)
Definition NGX_OK : Z := 0.
Definition NGX_ERROR : Z := -1.
Definition NGX_AGAIN : Z := -2.
Definition NGX_BUSY : Z := -3.
Definition NGX_DECLINED : Z := -5.

(** * Events and connections *)

(** The functions a handler field is set to. *)
Inductive ngx_event_handler :=
| H_NULL
| H_ngxe_dummy_handler
| H_ngxe_reader_handler
| H_ngxe_writer_handler
| H_ngxe_client_init_handler
| H_ngxe_interval_callback
| H_ngxe_timeout_callback
| H_ngx_event_accept.
#[export] Instance ngx_event_handler_eq : EqDecision ngx_event_handler.
Proof. solve_decision. Defined.

(** Where the [prev] link of a posted event points: to one of the two queue
    heads or to the [next] field of another event. *)
Inductive qref := Q_NULL | Q_accept | Q_posted | Q_next (e : ptr).
#[export] Instance qref_eq : EqDecision qref.
Proof. solve_decision. Defined.

(** [struct ngx_event_s].  The timer node of the event at address [e] is the
    node at address [e] of the timer tree. *)
Record ngx_event_t := mk_event {
  ev_data : ptr;
  ev_write : bool;
  ev_accept : bool;
  ev_instance : bool;
  ev_active : bool;
  ev_disabled : bool;
  ev_ready : bool;
  ev_oneshot : bool;
  ev_eof : bool;
  ev_error : bool;
  ev_timedout : bool;
  ev_timer_set : bool;
  ev_deferred_accept : bool;
  ev_available : bool;
  ev_handler : ngx_event_handler;
  ev_index : Z;
  ev_closed : bool;
  ev_next : ptr;
  ev_prev : qref
}.
#[export] Instance eta_event : Eta ngx_event_t := fun x =>
  mk_event (ev_data x) (ev_write x) (ev_accept x) (ev_instance x) (ev_active x) (ev_disabled x)
    (ev_ready x) (ev_oneshot x) (ev_eof x) (ev_error x) (ev_timedout x) (ev_timer_set x)
    (ev_deferred_accept x) (ev_available x) (ev_handler x) (ev_index x) (ev_closed x)
    (ev_next x) (ev_prev x).

(** [ngx_memzero(ev, sizeof(ngx_event_t))] *)
Definition zero_event : ngx_event_t :=
  mk_event NULL false false false false false false false false false false false false false
    H_NULL 0 false NULL Q_NULL.

(** [struct ngx_connection_s]: the fields the engine reads or writes.  The
    function pointers [recv] and [send] are NULL or the ones of [ngx_io]. *)
Record ngx_connection_t := mk_conn {
  c_data : ptr;
  c_read : ptr;
  c_write : ptr;
  c_fd : Z;
  c_recv : bool;
  c_send : bool;
  c_listening : ptr;
  c_sent : Z;
  c_pool : ptr;
  c_sockaddr : list Z;
  c_addr_text : list Z;
  c_number : Z;
  c_log_error : Z;
  c_unexpected_eof : bool;
  c_timedout : bool;
  c_destroyed : bool;
  c_sendfile : bool;
  c_tcp_nodelay : Z;
  c_tcp_nopush : Z
}.
#[export] Instance eta_conn : Eta ngx_connection_t := fun x =>
  mk_conn (c_data x) (c_read x) (c_write x) (c_fd x) (c_recv x) (c_send x) (c_listening x)
    (c_sent x) (c_pool x) (c_sockaddr x) (c_addr_text x) (c_number x) (c_log_error x)
    (c_unexpected_eof x) (c_timedout x) (c_destroyed x) (c_sendfile x) (c_tcp_nodelay x)
    (c_tcp_nopush x).

Definition zero_conn : ngx_connection_t :=
  mk_conn NULL NULL NULL 0 false false NULL 0 NULL [] [] 0 0 false false false false 0 0.

(** [ngx_listening_t]: the fields the engine reads or writes. *)
Record ngx_listening_t := mk_listening {
  ls_fd : Z;
  ls_connection : ptr;
  ls_pool_size : Z;
  ls_addr_ntop : bool;
  ls_addr_text_max_len : Z;
  ls_sockaddr : list Z;
  ls_listen : bool
}.
#[export] Instance eta_listening : Eta ngx_listening_t := fun x =>
  mk_listening (ls_fd x) (ls_connection x) (ls_pool_size x) (ls_addr_ntop x)
    (ls_addr_text_max_len x) (ls_sockaddr x) (ls_listen x).

(** * Objects allocated from pools *)

(** [ngxe_callback_t].  [cb_args] is the array, [cb_args_n] the count. *)
Record ngxe_callback_t := mk_callback {
  cb_handler : ptr;
  cb_args : list ptr;
  cb_args_n : Z;
  cb_decremented : bool;
  cb_native_handler : ptr
}.
#[export] Instance eta_callback : Eta ngxe_callback_t := fun x =>
  mk_callback (cb_handler x) (cb_args x) (cb_args_n x) (cb_decremented x) (cb_native_handler x).

(** [ngxe_session_t] *)
Record ngxe_session_t := mk_session {
  s_reader_callback : ptr;
  s_reader_buffer : ptr;
  s_reader_timeout : Z;
  s_reader_flags : Z;
  s_writer_callback : ptr;
  s_writer_buffer : ptr;
  s_writer_timeout : Z;
  s_writer_offset : Z;
  s_writer_index : Z
}.
#[export] Instance eta_session : Eta ngxe_session_t := fun x =>
  mk_session (s_reader_callback x) (s_reader_buffer x) (s_reader_timeout x) (s_reader_flags x)
    (s_writer_callback x) (s_writer_buffer x) (s_writer_timeout x) (s_writer_offset x)
    (s_writer_index x).
Definition zero_session : ngxe_session_t := mk_session NULL NULL 0 0 NULL NULL 0 0 0.

(** [struct ngxe_interval_s] *)
Record ngxe_interval_t := mk_interval {
  i_msec : Z;
  i_callback : ptr;
  i_connection : ptr
}.
#[export] Instance eta_interval : Eta ngxe_interval_t := fun x =>
  mk_interval (i_msec x) (i_callback x) (i_connection x).

(** A pool: its cleanups, most recent first, and the addresses of the objects
    allocated from it, which end with it. *)
Inductive ngx_pool_cleanup_pt := CL_NULL | CL_ngxe_callback_cleanup | CL_ngxe_buf_cleanup.
Record ngx_pool_cleanup_t := mk_cleanup {
  cl_handler : ngx_pool_cleanup_pt;
  cl_data : ptr
}.
Record ngx_pool_t := mk_pool {
  pool_cleanup : list ngx_pool_cleanup_t;
  pool_objs : list ptr
}.
#[export] Instance eta_pool : Eta ngx_pool_t := fun x =>
  mk_pool (pool_cleanup x) (pool_objs x).

(** * The world *)

Section WithSystems.
Context {HPerl : Perl} {HKern : Kernel}.

(** [w_stale] says what happens to the memory of a destroyed pool: C gives its
    contents no meaning ([false], a read of it is a fault); an allocator that
    does not touch freed memory leaves them as they were ([true]). *)
Record world := mk_world {
  w_tree : rbstate;
  w_msec : Z;
  w_events : gmap ptr ngx_event_t;
  w_conns : gmap ptr ngx_connection_t;
  w_listenings : gmap ptr ngx_listening_t;
  w_free : ptr;
  w_free_n : Z;
  w_connection_n : Z;
  w_files : option (gmap Z ptr);
  w_files_n : Z;
  w_flags : Z;
  w_posted_accept : ptr;
  w_posted : ptr;
  w_pools : gmap ptr ngx_pool_t;
  w_sessions : gmap ptr ngxe_session_t;
  w_callbacks : gmap ptr ngxe_callback_t;
  w_intervals : gmap ptr ngxe_interval_t;
  w_next : ptr;
  w_counter : Z;
  w_accept_disabled : Z;
  w_multi_accept : bool;
  w_inherited_nonblocking : bool;
  w_timer_resolution : Z;
  w_timer_alarm : bool;
  w_pagesize : Z;
  w_stale : bool;
  w_perl : interp;
  w_kern : kern
}.
#[export] Instance eta_world : Eta world := fun x =>
  mk_world (w_tree x) (w_msec x) (w_events x) (w_conns x) (w_listenings x) (w_free x) (w_free_n x)
    (w_connection_n x) (w_files x) (w_files_n x) (w_flags x) (w_posted_accept x) (w_posted x)
    (w_pools x) (w_sessions x) (w_callbacks x) (w_intervals x) (w_next x) (w_counter x)
    (w_accept_disabled x) (w_multi_accept x) (w_inherited_nonblocking x) (w_timer_resolution x) (w_timer_alarm x)
    (w_pagesize x) (w_stale x) (w_perl x) (w_kern x).

Definition W (A : Type) : Type := R world A.
Local Open Scope run_scope.

(** Globals: [x] and [x = v]. *)
Definition rd_g {A} (f : world -> A) : W A := fun w => Done (f w) w.
Definition wr_g {A} (f : world -> A) `{!Setter f} (v : A) : W unit :=
  fun w => Done tt (w <| f := v |>).

(** [p->f] and [p->f = v] for a pointer into one of the tables. *)
Definition rd_at {X A} (m : world -> gmap ptr X) (p : ptr) (f : X -> A) : W A :=
  fun w => match m w !! p with Some x => Done (f x) w | None => Fault end.
Definition wr_at {X A} (m : world -> gmap ptr X) `{!Setter m} (p : ptr)
    (f : X -> A) `{!Setter f} (v : A) : W unit :=
  fun w => match m w !! p with
           | Some x => Done tt (w <| m := <[p := x <| f := v |>]> (m w) |>)
           | None => Fault
           end.

Definition ev_rd {A} (e : ptr) (f : ngx_event_t -> A) : W A := rd_at w_events e f.
Definition ev_wr {A} (e : ptr) (f : ngx_event_t -> A) `{!Setter f} (v : A) : W unit :=
  wr_at w_events e f v.
Definition c_rd {A} (c : ptr) (f : ngx_connection_t -> A) : W A := rd_at w_conns c f.
Definition c_wr {A} (c : ptr) (f : ngx_connection_t -> A) `{!Setter f} (v : A) : W unit :=
  wr_at w_conns c f v.
Definition s_rd {A} (s : ptr) (f : ngxe_session_t -> A) : W A := rd_at w_sessions s f.
Definition s_wr {A} (s : ptr) (f : ngxe_session_t -> A) `{!Setter f} (v : A) : W unit :=
  wr_at w_sessions s f v.
Definition cb_rd {A} (cb : ptr) (f : ngxe_callback_t -> A) : W A := rd_at w_callbacks cb f.
Definition cb_wr {A} (cb : ptr) (f : ngxe_callback_t -> A) `{!Setter f} (v : A) : W unit :=
  wr_at w_callbacks cb f v.
Definition i_rd {A} (i : ptr) (f : ngxe_interval_t -> A) : W A := rd_at w_intervals i f.

(** [c->read->f], [c->write->f] and their assignments. *)
Definition rev_rd {A} (c : ptr) (f : ngx_event_t -> A) : W A :=
  do! e := c_rd c c_read in ev_rd e f.
Definition wev_rd {A} (c : ptr) (f : ngx_event_t -> A) : W A :=
  do! e := c_rd c c_write in ev_rd e f.
Definition rev_wr {A} (c : ptr) (f : ngx_event_t -> A) `{!Setter f} (v : A) : W unit :=
  do! e := c_rd c c_read in ev_wr e f v.
Definition wev_wr {A} (c : ptr) (f : ngx_event_t -> A) `{!Setter f} (v : A) : W unit :=
  do! e := c_rd c c_write in ev_wr e f v.

(** The tree functions on the timer tree. *)
Definition tree_op {A} (m : P A) : W A :=
  fun w => match m (w_tree w) with
           | Some (a, t) => Done a (w <| w_tree := t |>)
           | None => Fault
           end.

(** Perl macros that read a scalar, and functions that change one. *)
Definition sv_rd {A} (p : ptr) (f : sv -> A) : W A :=
  fun w => match sv_view (w_perl w) p with Some x => Done (f x) w | None => Fault end.
Definition perl_do (f : interp -> option interp) : W unit :=
  fun w => match f (w_perl w) with
           | Some i => Done tt (w <| w_perl := i |>)
           | None => Fault
           end.

Definition sys {A} (f : kern -> A * kern) : W A :=
  fun w => let '(a, k) := f (w_kern w) in Done a (w <| w_kern := k |>).

(** * Rules for the accessors *)

Lemma rwp_rd_g {A} (f : world -> A) Q w : Q (f w) w -> rwp (rd_g f) Q w.
Proof. done. Qed.

Lemma rwp_rd_at {X A} (m : world -> gmap ptr X) p (f : X -> A) Q w x :
  m w !! p = Some x -> Q (f x) w -> rwp (rd_at m p f) Q w.
Proof. intros Hp HQ. unfold rwp, rd_at. by rewrite Hp. Qed.

Lemma rwp_wr_at {X A} (m : world -> gmap ptr X) `{!Setter m} p (f : X -> A) `{!Setter f} v Q w x :
  m w !! p = Some x -> Q tt (w <| m := <[p := x <| f := v |>]> (m w) |>) -> rwp (wr_at m p f v) Q w.
Proof. intros Hp HQ. unfold rwp, wr_at. by rewrite Hp. Qed.

Lemma rwp_tree_op {A} (m : P A) a t Q w :
  m (w_tree w) = Some (a, t) -> Q a (w <| w_tree := t |>) -> rwp (tree_op m) Q w.
Proof. intros Hm HQ. unfold rwp, tree_op. by rewrite Hm. Qed.

Lemma rwp_sv_rd {A} p (f : sv -> A) x Q w :
  sv_view (w_perl w) p = Some x -> Q (f x) w -> rwp (sv_rd p f) Q w.
Proof. intros Hp HQ. unfold rwp, sv_rd. by rewrite Hp. Qed.

Lemma rwp_perl_do f i Q w :
  f (w_perl w) = Some i -> Q tt (w <| w_perl := i |>) -> rwp (perl_do f) Q w.
Proof. intros Hp HQ. unfold rwp, perl_do. by rewrite Hp. Qed.

Lemma rwp_sys {A} (f : kern -> A * kern) Q w :
  Q (f (w_kern w)).1 (w <| w_kern := (f (w_kern w)).2 |>) -> rwp (sys f) Q w.
Proof. intros HQ. unfold rwp, sys. by destruct (f (w_kern w)). Qed.

(** The same as equations: what a run that starts with an accessor does. *)
Section Steps.
Context {B : Type}.

Lemma rd_g_step {A} (f : world -> A) (k : A -> W B) w : rbind (rd_g f) k w = k (f w) w.
Proof. done. Qed.

Lemma wr_g_step {A} (f : world -> A) `{!Setter f} v (k : unit -> W B) w :
  rbind (wr_g f v) k w = k tt (w <| f := v |>).
Proof. done. Qed.

Lemma rd_at_step {X A} (m : world -> gmap ptr X) p (f : X -> A) (k : A -> W B) w x :
  m w !! p = Some x -> rbind (rd_at m p f) k w = k (f x) w.
Proof. intros Hp. unfold rbind, rd_at. by rewrite Hp. Qed.

Lemma wr_at_step {X A} (m : world -> gmap ptr X) `{!Setter m} p (f : X -> A) `{!Setter f} v
    (k : unit -> W B) w x :
  m w !! p = Some x ->
  rbind (wr_at m p f v) k w = k tt (w <| m := <[p := x <| f := v |>]> (m w) |>).
Proof. intros Hp. unfold rbind, wr_at. by rewrite Hp. Qed.

Lemma tree_op_step {A} (m : P A) (k : A -> W B) w a t :
  m (w_tree w) = Some (a, t) -> rbind (tree_op m) k w = k a (w <| w_tree := t |>).
Proof. intros Hm. unfold rbind, tree_op. by rewrite Hm. Qed.

Lemma tree_rd_step {A} (m : P A) (k : A -> W B) w a :
  m (w_tree w) = Some (a, w_tree w) -> rbind (tree_op m) k w = k a w.
Proof. intros Hm. rewrite (tree_op_step _ _ _ _ _ Hm). by destruct w. Qed.

Lemma sv_rd_step {A} p (f : sv -> A) (k : A -> W B) w x :
  sv_view (w_perl w) p = Some x -> rbind (sv_rd p f) k w = k (f x) w.
Proof. intros Hp. unfold rbind, sv_rd. by rewrite Hp. Qed.

Lemma perl_do_step f (k : unit -> W B) w i :
  f (w_perl w) = Some i -> rbind (perl_do f) k w = k tt (w <| w_perl := i |>).
Proof. intros Hp. unfold rbind, perl_do. by rewrite Hp. Qed.

Lemma sys_step {A} (f : kern -> A * kern) (k : A -> W B) w a k' :
  f (w_kern w) = (a, k') -> rbind (sys f) k w = k a (w <| w_kern := k' |>).
Proof. intros Hp. unfold rbind, sys. by rewrite Hp. Qed.

Lemma bind_step {A} (m : W A) (k : A -> W B) w a w' : m w = Done a w' -> rbind m k w = k a w'.
Proof. intros Hm. unfold rbind. by rewrite Hm. Qed.

Lemma bind_assoc {A C} (m : W A) (k : A -> W C) (h : C -> W B) w :
  rbind (rbind m k) h w = rbind m (fun a => rbind (k a) h) w.
Proof. unfold rbind. by destruct (m w). Qed.

Lemma bind_ret {A} (a : A) (k : A -> W B) w : rbind (rret a) k w = k a w.
Proof. done. Qed.
End Steps.

End WithSystems.
(** * Running a program step by step

    [look] finds what is stored at an address of an updated world; [step] runs
    the first operation of the program of the goal. *)
Ltac look :=
  rsimpl;
  repeat first [ rewrite lookup_insert_eq
               | rewrite lookup_insert_ne by (first [assumption | apply not_eq_sym; assumption | congruence]) ];
  first [ eassumption | reflexivity ].
Ltac step :=
  first [ rewrite bind_assoc
        | rewrite bind_ret
        | rewrite rd_g_step
        | rewrite wr_g_step
        | erewrite rd_at_step by look
        | erewrite wr_at_step by look
        | erewrite sv_rd_step by look ];
  cbv beta.
Ltac unfold_accessors :=
  unfold rev_rd, wev_rd, rev_wr, wev_wr, ev_rd, ev_wr, c_rd, c_wr, s_rd, s_wr, cb_rd, cb_wr, i_rd.

End World.
