(* ===== verification/Systems.v ===== *)
(** Concrete systems for the witnesses: an interpreter whose scalars are a
    finite map and whose subroutines are given, and an operating system whose
    answers are given in advance.  No theorem about the engine depends on
    them. *)
From stdpp Require Import base gmap list numbers.
From S2P Require Import Prelude Rbtree World.
Local Open Scope Z_scope.
Import World.

Module Systems.

(** * The interpreter *)

Record scalars := mk_scalars {
  heap : gmap ptr sv;
  fresh : ptr
}.

Definition sv_upd (p : ptr) (f : sv -> sv) (i : scalars) : option scalars :=
  x ← heap i !! p; Some (mk_scalars (<[p := f x]> (heap i)) (fresh i)).

Definition sv_dec (p : ptr) (i : scalars) : option scalars :=
  x ← heap i !! p;
  Some (mk_scalars (if sv_refcnt x =? 1 then delete p (heap i)
                    else <[p := x <| sv_refcnt := sv_refcnt x - 1 |>]> (heap i)) (fresh i)).

Definition empty_sv : sv := mk_sv 1 SVt_PV false false false false false 0 0 [] 0 0 [].

Definition grow (n : Z) (x : sv) : sv :=
  if sv_len x <? n
  then x <| sv_pv := sv_pv x ++ replicate (Z.to_nat (n - sv_len x)) 0 |> <| sv_len := n |>
  else x.

Definition perl_of (subs : ptr -> list ptr -> scalars -> script scalars) : Perl := {|
  interp := scalars;
  sv_view i p := heap i !! p;
  PL_sv_undef := 16;
  SvREFCNT_inc p := sv_upd p (fun x => x <| sv_refcnt := sv_refcnt x + 1 |>);
  SvREFCNT_dec p := sv_dec p;
  sv_setiv p v := sv_upd p (fun x =>
    x <| sv_iv := v |> <| sv_iok := true |> <| sv_pok := false |> <| sv_rok := false |> <| sv_ok := true |>);
  sv_setpv p l := sv_upd p (fun x =>
    x <| sv_pv := l ++ [0] |> <| sv_cur := Z.of_nat (length l) |> <| sv_len := Z.of_nat (length l) + 1 |>
      <| sv_pok := true |> <| sv_iok := false |> <| sv_rok := false |> <| sv_ok := true |>);
  sv_setsv p q i := y ← heap i !! q; sv_upd p (fun x => y <| sv_refcnt := sv_refcnt x |>) i;
  sv_chop p n := sv_upd p (fun x =>
    x <| sv_pv := drop (Z.to_nat n) (sv_pv x) |> <| sv_cur := sv_cur x - n |>
      <| sv_len := sv_len x - n |> <| sv_ook := true |>);
  SvGROW p n := sv_upd p (grow n);
  SvCUR_set p n := sv_upd p (fun x => x <| sv_cur := n |>);
  SvIOK_on p := sv_upd p (fun x => x <| sv_iok := true |> <| sv_ok := true |>);
  SvPOK_on p := sv_upd p (fun x => x <| sv_pok := true |> <| sv_ok := true |>);
  SvPOK_only p := sv_upd p (fun x =>
    x <| sv_pok := true |> <| sv_iok := false |> <| sv_rok := false |> <| sv_ok := true |>);
  SvOOK_off p := sv_upd p (fun x => x <| sv_ook := false |>);
  SvOK_off p := sv_upd p (fun x =>
    x <| sv_pok := false |> <| sv_iok := false |> <| sv_rok := false |> <| sv_ok := false |>);
  SvRV_set p q := sv_upd p (fun x => x <| sv_rv := q |>);
  SvPV_free p i := Some i;
  SvPV_set_NULL p := sv_upd p (fun x => x <| sv_pv := [] |>);
  SvLEN_set p n := sv_upd p (fun x => x <| sv_len := n |>);
  newSV n i := (fresh i, mk_scalars (<[fresh i := grow (n + 1) empty_sv]> (heap i)) (fresh i + 8));
  sv_2mortal p i := Some i;
  sv_poke p off l := sv_upd p (fun x =>
    x <| sv_pv := take (Z.to_nat off) (sv_pv x) ++ l ++ drop (Z.to_nat off + length l) (sv_pv x) |>);
  SAVETMPS i := i;
  FREETMPS i := i;
  call_sv := subs
|}.

(** The same with a log of the calls, each with what its arguments were; its
    subroutines do nothing else. *)
Definition call_log : Type := list (ptr * list ptr * list (option sv)).
Definition lift (f : scalars -> option scalars) (il : scalars * call_log) : option (scalars * call_log) :=
  i ← f il.1; Some (i, il.2).
Definition logging_perl : Perl :=
  let P := perl_of (fun _ _ i => S_return i) in {|
  interp := scalars * call_log;
  sv_view il p := heap il.1 !! p;
  PL_sv_undef := @PL_sv_undef P;
  SvREFCNT_inc p := lift (@SvREFCNT_inc P p);
  SvREFCNT_dec p := lift (@SvREFCNT_dec P p);
  sv_setiv p v := lift (@sv_setiv P p v);
  sv_setpv p l := lift (@sv_setpv P p l);
  sv_setsv p q := lift (@sv_setsv P p q);
  sv_chop p n := lift (@sv_chop P p n);
  SvGROW p n := lift (@SvGROW P p n);
  SvCUR_set p n := lift (@SvCUR_set P p n);
  SvIOK_on p := lift (@SvIOK_on P p);
  SvPOK_on p := lift (@SvPOK_on P p);
  SvPOK_only p := lift (@SvPOK_only P p);
  SvOOK_off p := lift (@SvOOK_off P p);
  SvOK_off p := lift (@SvOK_off P p);
  SvRV_set p q := lift (@SvRV_set P p q);
  SvPV_free p := lift (@SvPV_free P p);
  SvPV_set_NULL p := lift (@SvPV_set_NULL P p);
  SvLEN_set p n := lift (@SvLEN_set P p n);
  newSV n il := let '(p, i) := @newSV P n il.1 in (p, (i, il.2));
  sv_2mortal p := lift (@sv_2mortal P p);
  sv_poke p off l := lift (@sv_poke P p off l);
  SAVETMPS il := il;
  FREETMPS il := il;
  call_sv h args il := S_return (il.1, il.2 ++ [(h, args, (fun p => heap il.1 !! p) <$> args)])
|}.

(** * The operating system *)

Record answers := mk_answers {
  a_recv : list (list Z + Z);
  a_send : list (Z + Z);
  a_ctl : list (unit + Z);
  a_wait : list (list (Z * Z) + Z);
  a_accept : list ((Z * list Z) + Z);
  a_socket : list (Z + Z);
  a_connect : list (unit + Z);
  a_bind : list (unit + Z);
  a_time : list (Z * Z);
  a_sent : list Z
}.
#[export] Instance eta_answers : Eta answers := fun x =>
  mk_answers (a_recv x) (a_send x) (a_ctl x) (a_wait x) (a_accept x) (a_socket x) (a_connect x)
    (a_bind x) (a_time x) (a_sent x).

Definition no_answers : answers := mk_answers [] [] [] [] [] [] [] [] [] [].

Definition answer {A} (f : answers -> list A) `{!Setter f} (d : A) (k : answers) : A * answers :=
  match f k with
  | [] => (d, k)
  | a :: l => (a, k <| f := l |>)
  end.

(** [recv] gives at most as many bytes as asked for; [send] takes at most as
    many as it is given, and [a_sent] records them. *)
Definition do_recv (size : Z) (k : answers) : (list Z + Z) * answers :=
  match answer a_recv (inr NGX_EAGAIN) k with
  | (inl l, k) => (inl (take (Z.to_nat size) l), k)
  | r => r
  end.
Definition do_send (l : list Z) (k : answers) : (Z + Z) * answers :=
  match answer a_send (inr NGX_EAGAIN) k with
  | (inl n, k) =>
      let n' := Z.max 0 (Z.min n (Z.of_nat (length l))) in
      (inl n', k <| a_sent := a_sent k ++ take (Z.to_nat n') l |>)
  | r => r
  end.

#[export] Instance scripted_kernel : Kernel := {|
  kern := answers;
  sys_recv _ := do_recv;
  sys_send _ := do_send;
  sys_close _ k := (inl tt, k);
  sys_accept _ := answer a_accept (inr NGX_EAGAIN);
  sys_socket _ := answer a_socket (inr NGX_ECONNREFUSED);
  sys_connect _ _ := answer a_connect (inl tt);
  sys_bind _ _ := answer a_bind (inl tt);
  sys_listen _ _ k := (inl tt, k);
  sys_nonblocking _ k := (inl tt, k);
  sys_setsockopt _ _ k := (inl tt, k);
  sys_epoll_ctl _ _ _ _ := answer a_ctl (inl tt);
  sys_epoll_wait _ _ := answer a_wait (inl []);
  sys_gettimeofday := answer a_time (0, 0);
  sys_malloc _ k := (true, k)
|}.

(** The same kernel beside a record of the calls that open, connect and close
    sockets and that change what epoll watches. *)
Definition traced {A T} (f : answers -> A * answers) (note : A -> T -> T) (k : answers * T) : A * (answers * T) :=
  let '(r, a) := f k.1 in (r, (a, note r k.2)).
Definition tracing_kernel {T} (on_close : Z -> T -> T) (on_socket : Z -> Z + Z -> T -> T)
    (on_connect : Z -> list Z -> unit + Z -> T -> T) (on_ctl : Z -> Z -> Z -> Z -> unit + Z -> T -> T) : Kernel :=
  let quiet {A} (_ : A) (t : T) := t in {|
  kern := answers * T;
  sys_recv fd n := traced (sys_recv fd n) quiet;
  sys_send fd l := traced (sys_send fd l) quiet;
  sys_close fd := traced (sys_close fd) (fun _ => on_close fd);
  sys_accept fd := traced (sys_accept fd) quiet;
  sys_socket f := traced (sys_socket f) (on_socket f);
  sys_connect s l := traced (sys_connect s l) (on_connect s l);
  sys_bind s l := traced (sys_bind s l) quiet;
  sys_listen s n := traced (sys_listen s n) quiet;
  sys_nonblocking s := traced (sys_nonblocking s) quiet;
  sys_setsockopt s n := traced (sys_setsockopt s n) quiet;
  sys_epoll_ctl op fd e d := traced (sys_epoll_ctl op fd e d) (on_ctl op fd e d);
  sys_epoll_wait n t := traced (sys_epoll_wait n t) quiet;
  sys_gettimeofday := traced sys_gettimeofday quiet;
  sys_malloc n := traced (sys_malloc n) quiet
|}.

(** A subroutine that does nothing. *)
Definition no_subs (sub : ptr) (args : list ptr) (i : scalars) : script scalars := S_return i.

(** * A small world

    One free connection at address 100 whose events are at addresses 110 and
    120, and an interpreter with the given scalars. *)
Definition node0 : Rbtree.ngx_rbtree_node_t := Rbtree.mk_node 0 0 0 0 0.

Definition small_world {P : Perl} (i : @interp P) (k : answers) : @world P scripted_kernel :=
  mk_world (Rbtree.mk_rb (list_to_map [(8, node0); (110, node0); (120, node0)]) 8) 1000
    (list_to_map [(110, zero_event <| ev_data := 100 |>);
                  (120, zero_event <| ev_data := 100 |> <| ev_write := true |>)])
    (list_to_map [(100, zero_conn <| c_read := 110 |> <| c_write := 120 |> <| c_fd := -1 |>)])
    ∅ 100 1 1 None 0 100 NULL NULL ∅ ∅ ∅ ∅ 1000 0 0 false false 0 false 4096 false i k.

(** The same world with another kernel. *)
Definition with_kernel {P : Perl} {K : Kernel} (k : @kern K) (w : @world P scripted_kernel) : @world P K :=
  mk_world (@w_tree P scripted_kernel w) (@w_msec P scripted_kernel w) (@w_events P scripted_kernel w) (@w_conns P scripted_kernel w)
    (@w_listenings P scripted_kernel w) (@w_free P scripted_kernel w) (@w_free_n P scripted_kernel w)
    (@w_connection_n P scripted_kernel w) (@w_files P scripted_kernel w) (@w_files_n P scripted_kernel w)
    (@w_flags P scripted_kernel w) (@w_posted_accept P scripted_kernel w) (@w_posted P scripted_kernel w)
    (@w_pools P scripted_kernel w) (@w_sessions P scripted_kernel w) (@w_callbacks P scripted_kernel w)
    (@w_intervals P scripted_kernel w) (@w_next P scripted_kernel w) (@w_counter P scripted_kernel w)
    (@w_accept_disabled P scripted_kernel w) (@w_multi_accept P scripted_kernel w)
    (@w_inherited_nonblocking P scripted_kernel w) (@w_timer_resolution P scripted_kernel w)
    (@w_timer_alarm P scripted_kernel w) (@w_pagesize P scripted_kernel w) (@w_stale P scripted_kernel w)
    (@w_perl P scripted_kernel w) k.

End Systems.
