(* ===== verification/Timer.v ===== *)
(** The event timers: nginx/src/event/ngx_event_timer.c and ngx_event_timer.h. *)
From stdpp Require Import base gmap list numbers sorting.
From S2P Require Import Prelude Rbtree RbtreeRep RbtreeInsert RbtreeCorrect RbtreeTheorems World Systems.
Local Open Scope Z_scope.
Import Rbtree RbtreeRep RbtreeInsert RbtreeTheorems World.

Module Timer.

(** * The code *)

Definition NGX_TIMER_INFINITE : Z := u64 (-1).
Definition NGX_TIMER_LAZY_DELAY : Z := 300.

(** The address of the static [ngx_event_timer_sentinel]. *)
Definition ngx_event_timer_sentinel : ptr := 8.

(** The macro [ngx_abs] at [ngx_msec_int_t]. *)
Definition ngx_abs (v : Z) : Z := if 0 <=? v then v else s64 (- v).

Section Timer.
Context {HPerl : Perl} {HKern : Kernel}.
Local Open Scope run_scope.

Definition ngx_event_timer_init : W Z :=
  tree_op (ngx_rbtree_init ngx_event_timer_sentinel) ;;; rret NGX_OK.

Definition ngx_event_find_timer : W Z :=
  do! root := tree_op rd_root in
  if root =? ngx_event_timer_sentinel then rret NGX_TIMER_INFINITE
  else
    do! node := tree_op (ngx_rbtree_min root ngx_event_timer_sentinel) in
    do! key := tree_op (rd key node) in
    do! msec := rd_g w_msec in
    let timer := s64 (s64 key - s64 msec) in
    rret (u64 (if 0 <? timer then timer else 0)).

Definition ngx_event_del_timer (ev : ptr) : W unit :=
  tree_op (ngx_rbtree_delete ngx_event_timer_sentinel ev) ;;;
  ev_wr ev ev_timer_set false.

(** The second half of [ngx_event_add_timer]: link the event in with a key. *)
Definition add_timer_insert (ev : ptr) (key : Z) : W unit :=
  tree_op (set_key ev key) ;;;
  tree_op (ngx_rbtree_insert ngx_rbtree_insert_timer_value ngx_event_timer_sentinel ev) ;;;
  ev_wr ev ev_timer_set true.

Definition ngx_event_add_timer (ev : ptr) (timer : Z) : W unit :=
  do! msec := rd_g w_msec in
  let key' := u64 (msec + timer) in
  do! timer_set := ev_rd ev ev_timer_set in
  if timer_set then
    do! old := tree_op (rd key ev) in
    let diff := s64 (u64 (key' - old)) in
    if ngx_abs diff <? NGX_TIMER_LAZY_DELAY then rret tt
    else ngx_event_del_timer ev ;;; add_timer_insert ev key'
  else add_timer_insert ev key'.

(** One iteration of the loop of [ngx_event_expire_timers]; [call ev] is the
    call [ev->handler(ev)].  The result says whether the loop goes on. *)
Definition expire_timers_step (call : ptr -> W unit) : W bool :=
  do! root := tree_op rd_root in
  if root =? ngx_event_timer_sentinel then rret false
  else
    do! node := tree_op (ngx_rbtree_min root ngx_event_timer_sentinel) in
    do! key := tree_op (rd key node) in
    do! msec := rd_g w_msec in
    if s64 (s64 key - s64 msec) <=? 0 then
      let ev := node in
      tree_op (ngx_rbtree_delete ngx_event_timer_sentinel ev) ;;;
      ev_wr ev ev_timer_set false ;;;
      ev_wr ev ev_timedout true ;;;
      call ev ;;;
      rret true
    else rret false.

(** The loop has no bound of its own: a handler may set an expired timer. *)
Fixpoint ngx_event_expire_timers (call : ptr -> W unit) (fuel : nat) : W unit :=
  match fuel with
  | O => fun _ => NoFuel
  | S fuel =>
      do! more := expire_timers_step call in
      if more then ngx_event_expire_timers call fuel else rret tt
  end.

(** * The invariant *)

(** [timers base w L]: the timer tree holds the events [L], by deadline; the
    flag [timer_set] of an event says whether it is in the tree; deadlines lie
    in one window of half the range of [ngx_msec_t]. *)
Record timers (base : Z) (w : world) (L : list (Z * Z)) : Prop := mk_timers {
  tm_holds : holds ngx_event_timer_sentinel (w_tree w) L;
  tm_ordered : ordered less_timer L;
  tm_window : forall x, x ∈ L -> in_window base x.2;
  tm_set : forall e ev, w_events w !! e = Some ev -> (ev_timer_set ev = true <-> e ∈ L.*1);
  tm_event : forall e, e ∈ L.*1 -> is_Some (w_events w !! e);
  tm_node : forall e, is_Some (w_events w !! e) ->
    is_Some (nodes (w_tree w) !! e) /\ e <> ngx_event_timer_sentinel
}.

(** The world after a change of the timer of [e]. *)
Definition with_timer (w : world) (e : ptr) (t : rbstate) (ev : ngx_event_t) : world :=
  w <| w_tree := t |> <| w_events := <[e := ev]> (w_events w) |>.

Lemma timers_unique base w L e k k' : timers base w L -> (e, k) ∈ L -> (e, k') ∈ L -> k = k'.
Proof.
  intros Ht H1 H2. destruct (holds_key _ _ _ _ _ (tm_holds _ _ _ Ht) H1) as (n & Hn & <-).
  destruct (holds_key _ _ _ _ _ (tm_holds _ _ _ Ht) H2) as (n' & Hn' & <-). congruence.
Qed.

Lemma in_split_pair (L : list (Z * Z)) e : e ∈ L.*1 -> exists L1 k L2, L = L1 ++ (e, k) :: L2.
Proof.
  intros ([e' k] & -> & Hin)%list_elem_of_fmap. apply list_elem_of_split in Hin as (L1 & L2 & ->). eauto.
Qed.

Lemma holds_not_in s st L1 p k L2 :
  holds s st (L1 ++ (p, k) :: L2) -> p ∉ s :: (L1 ++ L2).*1.
Proof.
  intros Hh%holds_nodup. rewrite fmap_app in Hh. simpl in Hh.
  rewrite <- Permutation_middle, Permutation_swap, <- fmap_app in Hh.
  by apply list.NoDup_cons in Hh as [? _].
Qed.

Lemma ordered_remove less L1 x L2 : ordered less (L1 ++ x :: L2) -> ordered less (L1 ++ L2).
Proof.
  rewrite !ordered_app. intros (H1 & H2 & H3). apply StronglySorted_inv in H2 as [H2 _].
  split_and!; [done | done | set_solver].
Qed.

(** ** Deleting *)

Lemma del_timer_ok base w L1 e k L2 ev :
  timers base w (L1 ++ (e, k) :: L2) -> w_events w !! e = Some ev ->
  exists t, ngx_event_del_timer e w = Done tt (with_timer w e t (ev <| ev_timer_set := false |>)) /\
    timers base (with_timer w e t (ev <| ev_timer_set := false |>)) (L1 ++ L2).
Proof.
  intros Ht Hev. destruct (delete_spec _ _ _ _ _ _ (tm_holds _ _ _ Ht)) as (t & Hrun & Hh & Hdom).
  exists t. split.
  { unfold ngx_event_del_timer, rbind, tree_op, ev_wr, wr_at. rewrite Hrun. simpl. by rewrite Hev. }
  pose proof (holds_not_in _ _ _ _ _ _ (tm_holds _ _ _ Ht)) as Hnin.
  constructor; simpl.
  - done.
  - by eapply ordered_remove, tm_ordered.
  - intros x Hx. apply (tm_window _ _ _ Ht). set_solver.
  - intros e' ev' [[<- <-]|[Hne Hl]]%lookup_insert_Some; [set_solver|].
    rewrite (tm_set _ _ _ Ht e' ev' Hl). rewrite !fmap_app. set_solver.
  - intros e' He'. destruct (decide (e = e')) as [<-|Hne]; [by rewrite lookup_insert_eq|].
    rewrite lookup_insert_ne by done. apply (tm_event _ _ _ Ht). set_solver.
  - intros e' He'. destruct (tm_node _ _ _ Ht e') as [Hn Hs].
    { destruct (decide (e = e')) as [<-|Hne]; [by eexists|]. by rewrite lookup_insert_ne in He'. }
    split; [|done]. apply elem_of_dom. rewrite Hdom. by apply elem_of_dom.
Qed.

(** ** Inserting *)

Lemma add_insert_ok base w L e key' ev :
  timers base w L -> w_events w !! e = Some ev -> e ∉ L.*1 -> in_window base key' ->
  exists t L1 L2, L = L1 ++ L2 /\
    add_timer_insert e key' w = Done tt (with_timer w e t (ev <| ev_timer_set := true |>)) /\
    timers base (with_timer w e t (ev <| ev_timer_set := true |>)) (L1 ++ (e, key') :: L2).
Proof.
  intros Ht Hev Hnin Hwin.
  destruct (tm_node _ _ _ Ht e) as [[n Hn] Hs]; [by eexists|].
  set (t0 := mk_rb (<[e := mk_node key' (left n) (right n) (parent n) (color n)]> (nodes (w_tree w)))
               (root (w_tree w))).
  assert (Hh0 : holds ngx_event_timer_sentinel t0 L).
  { eapply holds_frame; [apply (tm_holds _ _ _ Ht) | done |].
    intros p Hp. simpl. apply lookup_insert_ne. set_solver. }
  destruct (insert_spec less_timer (in_window base) ngx_event_timer_sentinel t0 L e
    (mk_node key' (left n) (right n) (parent n) (color n)))
    as (t & L1 & L2 & Hrun & HL & Hh & Hord & _);
    [done | apply (tm_ordered _ _ _ Ht) | apply (tm_window _ _ _ Ht) | done
    | apply lookup_insert_eq | set_solver |].
  pose proof (insert_dom _ _ _ _ _ _ Hrun) as Hdom. simpl in *.
  exists t, L1, L2. split; [done|]. split.
  { unfold add_timer_insert. rewrite (tree_op_step _ _ _ tt t0) by (unfold set_key, wr; by rewrite Hn).
    rewrite (tree_op_step _ _ _ tt t) by apply Hrun.
    unfold ev_wr, wr_at. simpl. by rewrite Hev. }
  constructor; simpl.
  - done.
  - done.
  - intros x Hx. rewrite <- Permutation_middle in Hx. apply elem_of_cons in Hx as [->|Hx]; [done|].
    apply (tm_window _ _ _ Ht). by rewrite HL.
  - intros e' ev'. rewrite fmap_app. simpl. intros [[<- <-]|[Hne Hl]]%lookup_insert_Some; [set_solver|].
    rewrite (tm_set _ _ _ Ht e' ev' Hl), HL, fmap_app. set_solver.
  - intros e' He'. destruct (decide (e = e')) as [<-|Hne]; [by rewrite lookup_insert_eq|].
    rewrite lookup_insert_ne by done. apply (tm_event _ _ _ Ht). rewrite HL, fmap_app.
    rewrite fmap_app in He'. set_solver.
  - intros e' He'. destruct (tm_node _ _ _ Ht e') as [Hn' Hs'].
    { destruct (decide (e = e')) as [<-|Hne]; [by eexists|]. by rewrite lookup_insert_ne in He'. }
    split; [|done]. apply elem_of_dom. rewrite Hdom, dom_insert_L. apply elem_of_union_r.
    by apply elem_of_dom.
Qed.

(** ** Time arithmetic *)

(** The milliseconds from [now] to the deadline [k]. *)
Definition remaining (base now k : Z) : Z := Z.max 0 (u64 (k - base) - u64 (now - base)).

Lemma timer_diff base now k :
  in_window base now -> in_window base k ->
  s64 (s64 k - s64 now) = u64 (k - base) - u64 (now - base).
Proof.
  intros [Hn1 Hn2] [Hk1 Hk2].
  pose proof (s64_range (s64 k - s64 now)) as Hr.
  destruct (s64_mod (s64 k - s64 now)) as [q Hq].
  destruct (s64_mod k) as [qa Hqa], (s64_mod now) as [qb Hqb].
  pose proof (u64_range (k - base)) as Hra. pose proof (u64_range (now - base)) as Hrb.
  destruct (u64_mod (k - base)) as [ra Hua], (u64_mod (now - base)) as [rb' Hub]. lia.
Qed.

Lemma lazy_diff base a b :
  in_window base a -> in_window base b ->
  s64 (u64 (a - b)) = u64 (a - base) - u64 (b - base).
Proof.
  intros [Hn1 Hn2] [Hk1 Hk2].
  pose proof (s64_range (u64 (a - b))) as Hr. destruct (s64_mod (u64 (a - b))) as [q Hq].
  destruct (u64_mod (a - b)) as [qa Hqa].
  pose proof (u64_range (a - base)) as Hra. pose proof (u64_range (b - base)) as Hrb.
  destruct (u64_mod (a - base)) as [ra Hua], (u64_mod (b - base)) as [rb' Hub]. lia.
Qed.

Lemma abs_small d : - 2 ^ 63 < d < 2 ^ 63 -> ngx_abs d = Z.abs d.
Proof.
  intros Hd. unfold ngx_abs. destruct (Z.leb_spec 0 d); [lia|].
  unfold s64, wrapS. rewrite Z.mod_small; lia.
Qed.

Lemma ordered_head base L e k :
  ordered less_timer ((e, k) :: L) -> (forall x, x ∈ (e, k) :: L -> in_window base x.2) ->
  forall x, x ∈ (e, k) :: L -> u64 (k - base) <= u64 (x.2 - base).
Proof.
  intros Hord Hw x Hx. apply StronglySorted_inv in Hord as [_ Hall]. rewrite Forall_forall in Hall.
  pose proof (Hw _ Hx) as Hwx. pose proof (Hw (e, k) ltac:(set_solver)) as Hwk.
  apply elem_of_cons in Hx as [->|Hx]; [simpl; lia|].
  pose proof (Hall _ Hx) as Hl. unfold by_key in Hl. rewrite (less_timer_window base) in Hl by done. simpl in Hl. lia.
Qed.

Lemma find_timer_ok base w L :
  timers base w L -> in_window base (w_msec w) ->
  ngx_event_find_timer w = Done (match L with [] => NGX_TIMER_INFINITE
                                 | (_, k) :: _ => remaining base (w_msec w) k end) w.
Proof.
  intros Ht Hnow. pose proof (tm_holds _ _ _ Ht) as Hh.
  unfold ngx_event_find_timer. rewrite (tree_rd_step _ _ _ (root (w_tree w))) by done.
  destruct L as [|[e k] L].
  - by rewrite (proj2 (holds_nil_root _ _ _ Hh) eq_refl).
  - assert (root (w_tree w) <> ngx_event_timer_sentinel) as Hr
      by (intros Hr; by apply (holds_nil_root _ _ _ Hh) in Hr).
    apply Z.eqb_neq in Hr. rewrite Hr.
    rewrite (tree_rd_step _ _ _ e) by (by eapply min_spec).
    destruct (holds_key _ _ _ e k Hh) as (n & Hn & Hk); [set_solver|].
    assert (in_window base k) as Hwk by (apply (tm_window _ _ _ Ht (e, k)); set_solver).
    rewrite (tree_rd_step _ _ _ k) by (unfold rd; rewrite Hn; by rewrite Hk).
    rewrite rd_g_step. cbv zeta. rewrite (timer_diff base) by done. unfold rret. f_equal.
    unfold remaining. destruct Hnow, Hwk. pose proof (u64_range (k - base)).
    pose proof (u64_range (w_msec w - base)).
    destruct (Z.ltb_spec 0 (u64 (k - base) - u64 (w_msec w - base)));
      unfold u64 at 1, wrapU; rewrite Z.mod_small; lia.
Qed.

Lemma find_timer_least base w L :
  timers base w L -> in_window base (w_msec w) ->
  exists r, ngx_event_find_timer w = Done r w /\
    (forall x, x ∈ L -> r <= remaining base (w_msec w) x.2) /\
    (L = [] -> r = NGX_TIMER_INFINITE) /\
    (L <> [] -> exists x, x ∈ L /\ r = remaining base (w_msec w) x.2).
Proof.
  intros Ht Hnow. eexists. split; [by apply (find_timer_ok base w L)|].
  destruct L as [|[e k] L]; [split_and!; set_solver|]. split_and!; [|done|].
  - intros x Hx. pose proof (ordered_head base L e k (tm_ordered _ _ _ Ht) (tm_window _ _ _ Ht) x Hx).
    unfold remaining. lia.
  - intros _. exists (e, k). split; [set_solver | done].
Qed.

(** ** Setting a timer *)

(** What [ngx_event_add_timer] does to the deadlines: the event gets the new
    one, or keeps one that is less than [NGX_TIMER_LAZY_DELAY] away from it;
    the others stay. *)
Definition timer_updated (base : Z) (e key' : Z) (L L' : list (Z * Z)) : Prop :=
  (forall x, x.1 <> e -> x ∈ L' <-> x ∈ L) /\
  (exists k, (e, k) ∈ L' /\ Z.abs (u64 (key' - base) - u64 (k - base)) < NGX_TIMER_LAZY_DELAY /\
     (k = key' \/ (e, k) ∈ L)).

Lemma timer_updated_insert base e key' L1 L2 L :
  (forall x, x.1 <> e -> x ∈ L1 ++ L2 <-> x ∈ L) ->
  timer_updated base e key' L (L1 ++ (e, key') :: L2).
Proof.
  intros HL. split.
  - intros x Hx. rewrite <- (HL x Hx), <- Permutation_middle, elem_of_cons. naive_solver.
  - exists key'. unfold NGX_TIMER_LAZY_DELAY. split_and!; [set_solver | lia | by left].
Qed.

Lemma add_timer_ok base w L e ev timer :
  timers base w L -> w_events w !! e = Some ev -> in_window base (u64 (w_msec w + timer)) ->
  exists t L',
    ngx_event_add_timer e timer w = Done tt (with_timer w e t (ev <| ev_timer_set := true |>)) /\
    timers base (with_timer w e t (ev <| ev_timer_set := true |>)) L' /\
    timer_updated base e (u64 (w_msec w + timer)) L L'.
Proof.
  intros Ht Hev Hwin. unfold ngx_event_add_timer. rewrite rd_g_step. cbv zeta.
  set (key' := u64 (w_msec w + timer)) in *.
  unfold ev_rd. rewrite (rd_at_step _ _ _ _ _ _ Hev).
  pose proof (tm_set _ _ _ Ht e ev Hev) as Hset.
  destruct (ev_timer_set ev) eqn:Hs.
  - destruct (in_split_pair L e) as (L1 & k & L2 & ->); [by apply Hset|].
    destruct (holds_key _ _ _ e k (tm_holds _ _ _ Ht)) as (n & Hn & Hk); [set_solver|].
    assert (in_window base k) as Hwk by (apply (tm_window _ _ _ Ht (e, k)); set_solver).
    rewrite (tree_rd_step _ _ _ k) by (unfold rd; rewrite Hn; by rewrite Hk).
    rewrite (lazy_diff base) by done. pose proof (u64_range (key' - base)). pose proof (u64_range (k - base)).
    rewrite abs_small by (destruct Hwin, Hwk; lia).
    destruct (Z.ltb_spec (Z.abs (u64 (key' - base) - u64 (k - base))) NGX_TIMER_LAZY_DELAY).
    + exists (w_tree w), (L1 ++ (e, k) :: L2).
      assert (with_timer w e (w_tree w) (ev <| ev_timer_set := true |>) = w) as ->.
      { unfold with_timer. rewrite insert_id; [by destruct w|]. rewrite Hev.
        destruct ev; simpl in *; congruence. }
      split_and!; [done | done |]. split; [done|]. exists k. split_and!; [set_solver | done | right; set_solver].
    + destruct (del_timer_ok _ _ _ _ _ _ _ Ht Hev) as (t1 & Hrun1 & Ht1).
      rewrite (bind_step _ _ _ _ _ Hrun1).
      destruct (add_insert_ok base _ (L1 ++ L2) e key' (ev <| ev_timer_set := false |>) Ht1)
        as (t2 & L3 & L4 & HL & Hrun2 & Ht2); [apply lookup_insert_eq | |done|].
      { pose proof (holds_not_in _ _ _ _ _ _ (tm_holds _ _ _ Ht)). set_solver. }
      exists t2, (L3 ++ (e, key') :: L4). rewrite Hrun2.
      assert (with_timer (with_timer w e t1 (ev <| ev_timer_set := false |>)) e t2
               (ev <| ev_timer_set := false |> <| ev_timer_set := true |>)
             = with_timer w e t2 (ev <| ev_timer_set := true |>)) as Hw
        by (unfold with_timer; simpl; by rewrite insert_insert_eq).
      rewrite Hw in *. split_and!; [done | done |]. apply timer_updated_insert.
      intros x Hx. rewrite <- HL, <- Permutation_middle, elem_of_cons. naive_solver.
  - destruct (add_insert_ok base _ L e key' ev Ht Hev) as (t2 & L3 & L4 & -> & Hrun2 & Ht2); [|done|].
    { intros Hin. by apply Hset in Hin. }
    exists t2, (L3 ++ (e, key') :: L4). split_and!; [done | done |]. by apply timer_updated_insert.
Qed.

(** ** Expiring timers *)

Lemma expire_step_stop base w L call :
  timers base w L -> in_window base (w_msec w) ->
  match L with [] => True | (e, k) :: _ => u64 (w_msec w - base) < u64 (k - base) end ->
  expire_timers_step call w = Done false w.
Proof.
  intros Ht Hnow HL. pose proof (tm_holds _ _ _ Ht) as Hh. unfold expire_timers_step.
  rewrite (tree_rd_step _ _ _ (root (w_tree w))) by done.
  destruct L as [|[e k] L]; [by rewrite (proj2 (holds_nil_root _ _ _ Hh) eq_refl)|].
  assert (root (w_tree w) <> ngx_event_timer_sentinel) as Hr%Z.eqb_neq
    by (intros Hr; by apply (holds_nil_root _ _ _ Hh) in Hr). rewrite Hr.
  rewrite (tree_rd_step _ _ _ e) by (by eapply min_spec).
  destruct (holds_key _ _ _ e k Hh) as (n & Hn & Hk); [set_solver|].
  rewrite (tree_rd_step _ _ _ k) by (unfold rd; rewrite Hn; by rewrite Hk).
  rewrite rd_g_step, (timer_diff base); [|done | apply (tm_window _ _ _ Ht (e, k)); set_solver].
  destruct (Z.leb_spec (u64 (k - base) - u64 (w_msec w - base)) 0); [lia | done].
Qed.

(** The event as its handler finds it. *)
Definition timed_out (ev : ngx_event_t) : ngx_event_t :=
  ev <| ev_timer_set := false |> <| ev_timedout := true |>.

Lemma expire_step_fire base w e k L call ev :
  timers base w ((e, k) :: L) -> in_window base (w_msec w) ->
  u64 (k - base) <= u64 (w_msec w - base) -> w_events w !! e = Some ev ->
  exists t, timers base (with_timer w e t (timed_out ev)) L /\
    expire_timers_step call w =
      (call e ;;; rret true)%run (with_timer w e t (timed_out ev)).
Proof.
  intros Ht Hnow Hk Hev. pose proof (tm_holds _ _ _ Ht) as Hh.
  destruct (del_timer_ok base w [] e k L ev Ht Hev) as (t & Hrun & Ht').
  exists t. split.
  - destruct Ht' as [H1 H2 H3 H4 H5 H6]. simpl in *. constructor; simpl; [done..| | |].
    + intros e' ev' [[<- <-]|[Hne Hl]]%lookup_insert_Some.
      * apply (H4 e (ev <| ev_timer_set := false |>)). apply lookup_insert_eq.
      * apply H4. by rewrite lookup_insert_ne.
    + intros e' He'. destruct (decide (e = e')) as [<-|Hne]; [by rewrite lookup_insert_eq|].
      specialize (H5 _ He'). by rewrite lookup_insert_ne in *.
    + intros e' He'. apply H6. destruct (decide (e = e')) as [<-|Hne]; [by rewrite lookup_insert_eq|].
      by rewrite lookup_insert_ne in *.
  - unfold expire_timers_step. rewrite (tree_rd_step _ _ _ (root (w_tree w))) by done.
    assert (root (w_tree w) <> ngx_event_timer_sentinel) as Hr%Z.eqb_neq
      by (intros Hr; by apply (holds_nil_root _ _ _ Hh) in Hr). rewrite Hr.
    rewrite (tree_rd_step _ _ _ e) by (by eapply min_spec).
    destruct (holds_key _ _ _ e k Hh) as (n & Hn & Hk'); [set_solver|].
    rewrite (tree_rd_step _ _ _ k) by (unfold rd; rewrite Hn; by rewrite Hk').
    rewrite rd_g_step, (timer_diff base); [|done | apply (tm_window _ _ _ Ht (e, k)); set_solver].
    destruct (Z.leb_spec (u64 (k - base) - u64 (w_msec w - base)) 0); [|lia]. cbv zeta.
    unfold ngx_event_del_timer in Hrun. unfold rbind at 1 in Hrun.
    destruct (tree_op _ w) as [[] w1| |] eqn:Hdel; [|done..].
    rewrite (bind_step _ _ _ _ _ Hdel), (bind_step _ _ _ _ _ Hrun).
    unfold ev_wr. erewrite wr_at_step by apply lookup_insert_eq.
    unfold with_timer, timed_out. simpl. by rewrite insert_insert_eq.
Qed.

(** A deadline that has passed. *)
Definition expired (base now : Z) (x : Z * Z) : Prop := u64 (x.2 - base) <= u64 (now - base).

Lemma expired_head base now e k L :
  ordered less_timer ((e, k) :: L) -> (forall x, x ∈ (e, k) :: L -> in_window base x.2) ->
  u64 (now - base) < u64 (k - base) -> forall x, x ∈ (e, k) :: L -> ~ expired base now x.
Proof.
  intros Hord Hw Hk x Hx. pose proof (ordered_head _ _ _ _ Hord Hw x Hx). unfold expired. lia.
Qed.

Lemma timers_nil_head base now L :
  match L with [] => True | (e, k) :: _ => u64 (now - base) < u64 (k - base) end \/
  exists e k L', L = (e, k) :: L' /\ expired base now (e, k).
Proof.
  destruct L as [|[e k] L]; [by left|].
  destruct (Z.lt_ge_cases (u64 (now - base)) (u64 (k - base))); [by left|].
  right. exists e, k, L. split; [done|]. unfold expired. simpl. lia.
Qed.

Lemma not_expired base w L :
  timers base w L ->
  match L with [] => True | (e, k) :: _ => u64 (w_msec w - base) < u64 (k - base) end ->
  forall x, x ∈ L -> ~ expired base (w_msec w) x.
Proof.
  intros Ht HL. destruct L as [|[e k] L]; [set_solver|].
  eapply expired_head; [apply (tm_ordered _ _ _ Ht) | apply (tm_window _ _ _ Ht) | done].
Qed.

Section Expire.
Context (base : Z) (call : ptr -> W unit).

(** A handler that may do anything to the timers but break them. *)
Definition safe_handler : Prop := forall e w L, timers base w L ->
  rsafe (call e) (fun _ w' => (exists L', timers base w' L') /\ w_msec w' = w_msec w) w.

Lemma expire_safe_ok (Hcall : safe_handler) fuel w L :
  timers base w L -> in_window base (w_msec w) ->
  rsafe (ngx_event_expire_timers call fuel)
    (fun _ w' => exists L', timers base w' L' /\ w_msec w' = w_msec w /\
       forall x, x ∈ L' -> ~ expired base (w_msec w') x) w.
Proof.
  revert w L. induction fuel as [|fuel IH]; intros w L Ht Hnow; [done|].
  cbn [ngx_event_expire_timers]. destruct (timers_nil_head base (w_msec w) L)
    as [Hstop | (e' & k' & L' & -> & Hexp)].
  { unfold rsafe. rewrite (bind_step _ _ _ false w) by (by eapply expire_step_stop). simpl.
    exists L. split_and!; [done | done | by eapply not_expired]. }
  destruct (tm_event _ _ _ Ht e') as [ev Hev]; [set_solver|].
  destruct (expire_step_fire base w e' k' L' call ev Ht Hnow Hexp Hev) as (t & Ht1 & Hstep).
  apply rsafe_bind. unfold rsafe at 1. rewrite Hstep.
  pose proof (Hcall e' _ _ Ht1) as Hs. unfold rsafe at 1 in Hs. unfold rbind.
  destruct (call e' _) as [[] w2| |]; [|done..]. destruct Hs as ((L2 & Ht2) & Hms). simpl in Hms.
  eapply rsafe_mono; [eapply IH; [done | by rewrite Hms]|].
  intros [] w' (L3 & Ht3 & Hms3 & Hne). exists L3. split_and!; [done | congruence | done].
Qed.

#[export] Instance expired_dec now x : Decision (expired base now x).
Proof. unfold expired. apply _. Defined.

(** What is known of the world between two handlers, and a record of the calls. *)
Context (I : world -> list (Z * Z) -> Prop) (HI : forall w L, I w L -> timers base w L).
Context {B : Type} (log : world -> list B) (label : ptr -> B).

(** A handler that is called for the event [e], whose timer has just been
    removed: it returns and is recorded, leaves the clock and the other timers
    alone, and arms [e] again, if at all, for a time to come. *)
Definition firing_handler : Prop := forall e k L w t ev,
  I w ((e, k) :: L) -> w_events w !! e = Some ev -> timers base (with_timer w e t (timed_out ev)) L ->
  exists w' L', call e (with_timer w e t (timed_out ev)) = Done tt w' /\ I w' L' /\
    w_msec w' = w_msec w /\ log w' = log w ++ [label e] /\
    filter (fun x => x.1 <> e) L' = L /\ (forall x, x ∈ L' -> x.1 = e -> ~ expired base (w_msec w) x).

Lemma filter_expired_skip now e (L L' : list (Z * Z)) :
  filter (fun x => x.1 <> e) L' = L -> (forall x, x ∈ L' -> x.1 = e -> ~ expired base now x) ->
  filter (expired base now) L' = filter (expired base now) L.
Proof.
  intros <- He. rewrite list_filter_filter. induction L' as [|x L' IH]; [done|].
  rewrite !filter_cons. rewrite IH by set_solver.
  destruct (decide (expired base now x)) as [Hx|Hx]; destruct (decide (expired base now x /\ x.1 <> e)) as [Hy|Hy]; try done.
  - destruct Hy. split; [done|]. intros Heq. by apply (He x); [left|..].
  - by destruct Hy.
Qed.

Lemma expire_firing_ok (Hcall : firing_handler) fuel w L :
  I w L -> in_window base (w_msec w) -> (length (filter (expired base (w_msec w)) L) < fuel)%nat ->
  exists w' L', ngx_event_expire_timers call fuel w = Done tt w' /\ I w' L' /\ w_msec w' = w_msec w /\
    log w' = log w ++ (label ∘ fst <$> filter (expired base (w_msec w)) L) /\
    (forall x, x ∈ L' -> ~ expired base (w_msec w) x) /\
    filter (fun x => x.1 ∉ (filter (expired base (w_msec w)) L).*1) L' =
      filter (fun x => x.1 ∉ (filter (expired base (w_msec w)) L).*1) L.
Proof.
  revert w L. induction fuel as [|fuel IH]; intros w L Hw Hnow Hlen; [lia|]. pose proof (HI _ _ Hw) as Ht.
  destruct (timers_nil_head base (w_msec w) L) as [Hstop | (e & k & L0 & -> & Hexp)].
  { exists w, L. cbn [ngx_event_expire_timers].
    rewrite (filter_none (expired base (w_msec w)) L) by (by eapply not_expired). cbn [fmap list_fmap]. rewrite app_nil_r.
    split_and!; [| done | done | done | by eapply not_expired | done].
    by rewrite (bind_step _ _ _ false w) by (by eapply expire_step_stop). }
  destruct (tm_event _ _ _ Ht e) as [ev Hev]; [set_solver|].
  destruct (expire_step_fire base w e k L0 call ev Ht Hnow Hexp Hev) as (t & Ht1 & Hstep).
  destruct (Hcall e k L0 w t ev Hw Hev Ht1) as (w2 & L2 & Hrun2 & HI2 & Hms & Hlog & Hf & Hne).
  rewrite filter_cons, decide_True in Hlen |- * by done. cbn [length fmap list_fmap fst] in *.
  pose proof (filter_expired_skip _ _ _ _ Hf Hne) as Hfe.
  destruct (IH w2 L2 HI2) as (w' & L' & Hrun & HI' & Hms' & Hlog' & Hdone & Hrest); [by rewrite Hms | rewrite Hms, Hfe; lia|].
  rewrite Hms, Hfe in *. exists w', L'. split_and!; [| done | done | | done |].
  - cbn [ngx_event_expire_timers]. rewrite (bind_step _ _ _ true w2); [done|]. rewrite Hstep. by rewrite (bind_step _ _ _ _ _ Hrun2).
  - rewrite Hlog', Hlog. rewrite <- app_assoc. done.
  - set (F := (filter (expired base (w_msec w)) L0).*1) in *.
    assert (forall l : list (Z * Z), filter (fun x => x.1 ∉ e :: F) l = filter (fun x => x.1 <> e) (filter (fun x => x.1 ∉ F) l)) as Hsplit.
    { intros l. rewrite list_filter_filter. apply list_filter_iff. intros x. rewrite not_elem_of_cons. done. }
    rewrite Hsplit, Hrest, filter_cons, decide_False by (cbn; set_solver).
    rewrite (Hsplit L0). clearbody F. subst L0. rewrite !list_filter_filter. apply list_filter_iff. intros x. tauto.
Qed.
End Expire.

(** Deleting a timer that is not in the tree: the links of a removed node are
    NULL, and the search for its successor reads through them. *)
Lemma del_timer_unset w e n :
  nodes (w_tree w) !! e = Some n -> left n = NULL -> right n = NULL ->
  nodes (w_tree w) !! NULL = None -> ngx_event_del_timer e w = Fault.
Proof.
  intros Hn Hl Hr H0.
  assert (ngx_rbtree_min NULL ngx_event_timer_sentinel (w_tree w) = None) as Hmin.
  { unfold ngx_rbtree_min, with_fuel, fuel_of, ngx_rbtree_min_loop, bind, rd. by rewrite H0. }
  assert (ngx_rbtree_delete ngx_event_timer_sentinel e (w_tree w) = None) as Hdel.
  { unfold ngx_rbtree_delete, delete_choose, bind, rd. rewrite Hn, Hl.
    change (NULL =? ngx_event_timer_sentinel) with false. cbv iota beta. rewrite Hn, Hr.
    change (NULL =? ngx_event_timer_sentinel) with false. cbv iota beta. by rewrite Hmin. }
  unfold ngx_event_del_timer, rbind, tree_op. by rewrite Hdel.
Qed.

End Timer.

(** * The theorems *)

(** C6.  The timers refine a finite map from events to deadlines.
    [ngx_event_add_timer] on any event, armed or not, returns, keeps the
    timer invariant and changes the deadline of no other event; the event ends
    armed, with the deadline asked for or, when it was armed already, with its
    old one, and then the two are less than 300 milliseconds apart.
    [ngx_event_del_timer] on an armed event returns, keeps the timer
    invariant, disarms that event and no other.  [ngx_event_find_timer] returns
    the time the event loop may sleep: no armed event's deadline comes earlier,
    one comes exactly then, and the sleep is unbounded only when no event is
    armed. *)
Theorem timer_ops_correct {HPerl : Perl} {HKern : Kernel} base w L e ev :
  timers base w L -> w_events w !! e = Some ev ->
  (forall timer, in_window base (u64 (w_msec w + timer)) ->
    exists w' L', ngx_event_add_timer e timer w = Done tt w' /\ timers base w' L' /\
      (forall x, x.1 <> e -> x ∈ L' <-> x ∈ L) /\
      (exists k, (e, k) ∈ L' /\
         Z.abs (u64 (u64 (w_msec w + timer) - base) - u64 (k - base)) < NGX_TIMER_LAZY_DELAY /\
         (k = u64 (w_msec w + timer) \/ (e, k) ∈ L))) /\
  (ev_timer_set ev = true ->
    exists w' L', ngx_event_del_timer e w = Done tt w' /\ timers base w' L' /\
      (e ∉ L'.*1) /\ (forall x, x.1 <> e -> x ∈ L' <-> x ∈ L)) /\
  (in_window base (w_msec w) ->
    exists r, ngx_event_find_timer w = Done r w /\
      (forall x, x ∈ L -> r <= remaining base (w_msec w) x.2) /\
      (L = [] -> r = NGX_TIMER_INFINITE) /\
      (L <> [] -> exists x, x ∈ L /\ r = remaining base (w_msec w) x.2)).
Proof.
  intros Ht Hev. split_and!; [| |apply find_timer_least, Ht].
  - intros timer Hwin. destruct (add_timer_ok _ _ _ _ _ _ Ht Hev Hwin) as (t & L' & Hrun & Ht' & Hup).
    by exists (with_timer w e t (ev <| ev_timer_set := true |>)), L'.
  - intros Hset. destruct (in_split_pair L e) as (L1 & k & L2 & ->).
    { by apply (tm_set _ _ _ Ht e ev Hev). }
    destruct (del_timer_ok _ _ _ _ _ _ _ Ht Hev) as (t & Hrun & Ht').
    pose proof (holds_not_in _ _ _ _ _ _ (tm_holds _ _ _ Ht)) as Hnin.
    eexists _, (L1 ++ L2). split_and!; [done | done | set_solver |].
    intros x Hx. rewrite <- Permutation_middle, elem_of_cons. naive_solver.
Qed.

(** C9.  [ngx_event_expire_timers] with handlers that may arm their own event
    again for a time to come, and leave the other timers alone: the loop ends,
    it has called the handlers of exactly the events whose deadline had passed,
    once each, earliest deadline first; no event is left due, and the timers of
    the other events are as they were.  With handlers that set and delete any
    timers, as long as each leaves the timers well formed and the clock alone,
    the loop makes no invalid access, and when it ends no event with a passed
    deadline is left armed. *)
Theorem expire_timers_correct {HPerl : Perl} {HKern : Kernel} {B} base call fuel w L :
  timers base w L -> in_window base (w_msec w) ->
  (forall I (log : world -> list B) label,
     (forall w L, I w L -> timers base w L) -> firing_handler base call I log label -> I w L -> (length L < fuel)%nat ->
     let due := filter (expired base (w_msec w)) L in
     exists w' L', ngx_event_expire_timers call fuel w = Done tt w' /\ I w' L' /\
       log w' = log w ++ (label <$> due.*1) /\ (forall x, x ∈ L' -> ~ expired base (w_msec w) x) /\
       filter (fun x => x.1 ∉ due.*1) L' = filter (fun x => x.1 ∉ due.*1) L) /\
  (safe_handler base call ->
     rsafe (ngx_event_expire_timers call fuel)
       (fun _ w' => exists L', timers base w' L' /\ w_msec w' = w_msec w /\
          forall x, x ∈ L' -> ~ expired base (w_msec w') x) w).
Proof.
  intros Ht Hnow. split; [|intros Hsafe; by eapply expire_safe_ok].
  intros I log label HI Hcall Hw Hfuel due. destruct (expire_firing_ok base call I HI log label Hcall fuel w L Hw Hnow)
    as (w' & L' & Hrun & HI' & _ & Hlog & Hdone & Hrest);
    [|exists w', L'; rewrite Hlog, list_fmap_compose; by split_and!].
  pose proof (length_filter (expired base (w_msec w)) L). lia.
Qed.

(** [ngx_event_del_timer] on an event whose timer has been removed (its
    links are NULL) reads through a NULL pointer. *)
Theorem del_timer_twice_faults {HPerl : Perl} {HKern : Kernel} w e n :
  nodes (w_tree w) !! e = Some n -> left n = NULL -> right n = NULL ->
  nodes (w_tree w) !! NULL = None -> ngx_event_del_timer e w = Fault.
Proof. apply del_timer_unset. Qed.

(** * Witnesses *)

Import Systems.
Local Existing Instance scripted_kernel.

Definition demo_perl : Perl := perl_of no_subs.
Local Existing Instance demo_perl.

(** The read event 110 of the small world, armed for [k]; the time is 1000. *)
Definition timed_world (k : Z) : world :=
  (small_world (mk_scalars ∅ 1000 : interp) no_answers)
    <| w_tree := mk_rb (list_to_map [(8, node0); (110, mk_node k 8 8 0 0); (120, node0)]) 110 |>
    <| w_events := list_to_map [(110, zero_event <| ev_data := 100 |> <| ev_timer_set := true |>);
                                (120, zero_event <| ev_data := 100 |> <| ev_write := true |>)] |>.

Lemma timed_world_timers k : 0 <= k < 2 ^ 63 -> timers 0 (timed_world k) [(110, k)].
Proof.
  intros Hk. constructor.
  - exists node0, 0, (T 0 E 110 k E), 1%nat. split_and!; [|repeat econstructor | done].
    constructor; [done | by repeat split | | done]. apply (bool_decide_unpack _). by vm_compute.
  - repeat constructor.
  - intros x ->%list_elem_of_singleton. unfold in_window, u64, wrapU. simpl. rewrite Z.mod_small; lia.
  - intros e ev. simpl. rewrite !lookup_insert_Some, lookup_empty. intros [[<- <-]|[? [[<- <-]|[? ?]]]]; [|..|done].
    + set_solver.
    + set_solver by lia.
  - intros e He. simpl in He. apply list_elem_of_singleton in He as ->. by eexists.
  - intros e [ev He]. simpl in He. rewrite !lookup_insert_Some, lookup_empty in He.
    destruct He as [[<- _]|[? [[<- _]|[? ?]]]]; [split; [by eexists | done]..|done].
Qed.

Lemma timer_ops_correct_witness :
  (exists w' L', ngx_event_add_timer 110 30000 (timed_world 1500) = Done tt w' /\ timers 0 w' L' /\
     (forall x, x.1 <> 110 -> x ∈ L' <-> x ∈ [(110, 1500)]) /\
     (exists k, (110, k) ∈ L' /\ Z.abs (u64 (31000 - 0) - u64 (k - 0)) < NGX_TIMER_LAZY_DELAY /\
        (k = 31000 \/ (110, k) ∈ [(110, 1500)]))) /\
  (exists w' L', ngx_event_del_timer 110 (timed_world 1500) = Done tt w' /\ timers 0 w' L' /\
     (110 ∉ L'.*1) /\ (forall x, x.1 <> 110 -> x ∈ L' <-> x ∈ [(110, 1500)])) /\
  (exists r, ngx_event_find_timer (timed_world 1500) = Done r (timed_world 1500) /\
     (forall x, x ∈ [(110, 1500)] -> r <= remaining 0 1000 x.2) /\
     ([(110, 1500)] = [] -> r = NGX_TIMER_INFINITE) /\
     ([(110, 1500)] <> [] -> exists x, x ∈ [(110, 1500)] /\ r = remaining 0 1000 x.2)).
Proof.
  destruct (timer_ops_correct 0 (timed_world 1500) [(110, 1500)] 110
           (zero_event <| ev_data := 100 |> <| ev_timer_set := true |>)) as (Hadd & Hdel & Hfind).
  - apply timed_world_timers. lia.
  - reflexivity.
  - split_and!; [apply (Hadd 30000); by vm_compute | by apply Hdel | apply Hfind; by vm_compute].
Defined.

(** A handler that records its event. *)
Definition record_handler (e : ptr) : W unit :=
  fun w => Done tt (w <| w_kern := (w_kern w : answers) <| a_sent := a_sent (w_kern w) ++ [e] |> |>).

Lemma record_handler_fires base :
  firing_handler base record_handler (timers base) (fun w => a_sent (w_kern w)) id.
Proof.
  intros e k L w t ev Ht Hev Ht'. eexists _, L.
  assert (e ∉ L.*1) as He.
  { pose proof (holds_not_in ngx_event_timer_sentinel (w_tree w) [] e k L (tm_holds _ _ _ Ht)). set_solver. }
  split_and!; [reflexivity | by destruct Ht'; constructor | done | done | |].
  - apply filter_all. intros x Hx Heq. subst e. apply He. apply list_elem_of_fmap. eauto.
  - intros x Hx <-. destruct He. apply list_elem_of_fmap. eauto.
Qed.

Lemma expire_timers_correct_witness :
  (exists w' L',
     ngx_event_expire_timers record_handler 2 (timed_world 900) = Done tt w' /\ timers 0 w' L' /\
     a_sent (w_kern w') = [] ++ (id <$> [(110, 900)].*1) /\ (forall x, x ∈ L' -> ~ expired 0 1000 x) /\
     filter (fun x => x.1 ∉ [(110, 900)].*1) L' = []) /\
  rsafe (ngx_event_expire_timers record_handler 2)
    (fun _ w' => exists L', timers 0 w' L' /\ w_msec w' = 1000 /\
       forall x, x ∈ L' -> ~ expired 0 (w_msec w') x) (timed_world 900).
Proof.
  destruct (expire_timers_correct (B := Z) 0 record_handler 2 (timed_world 900) [(110, 900)]) as [Hfire Hsafe].
  - apply timed_world_timers. lia.
  - by vm_compute.
  - split; [|apply Hsafe; intros e w L Ht; unfold rsafe, record_handler; split; [exists L; by destruct Ht; constructor | done]].
    apply (Hfire (timers 0) (fun w => a_sent (w_kern w)) id); [done | apply record_handler_fires | apply timed_world_timers; lia | simpl; lia].
Defined.

Lemma del_timer_twice_faults_witness : ngx_event_del_timer 120 (timed_world 1500) = Fault.
Proof. apply (del_timer_twice_faults (timed_world 1500) 120 node0); reflexivity. Defined.

End Timer.
