(* ===== verification/Event.v ===== *)
(** Events: the posted queues (ngx_event_posted.c, ngx_event_posted.h), the
    interface to the event backend ([ngx_event_actions_t]), its clients
    [ngx_handle_read_event] and [ngx_handle_write_event] (ngx_event.c), and the
    epoll backend (ngx_epoll_module.c). *)
From stdpp Require Import base gmap list numbers.
From S2P Require Import Prelude Rbtree World.
Local Open Scope Z_scope.
Import World.

Module Event.

(** * Constants *)

Definition NGX_USE_LEVEL_EVENT : Z := 1.
Definition NGX_USE_CLEAR_EVENT : Z := 4.
Definition NGX_USE_GREEDY_EVENT : Z := 32.
Definition NGX_USE_EPOLL_EVENT : Z := 64.
Definition NGX_USE_RTSIG_EVENT : Z := 128.
Definition NGX_USE_AIO_EVENT : Z := 256.
Definition NGX_USE_EVENTPORT_EVENT : Z := 4096.

Definition NGX_CLOSE_EVENT : Z := 1.
Definition NGX_DISABLE_EVENT : Z := 2.

Definition EPOLLIN : Z := 1.
Definition EPOLLOUT : Z := 4.
Definition EPOLLERR : Z := 8.
Definition EPOLLHUP : Z := 16.
Definition EPOLLET : Z := 2 ^ 31.
Definition EPOLL_CTL_ADD : Z := 1.
Definition EPOLL_CTL_DEL : Z := 2.
Definition EPOLL_CTL_MOD : Z := 3.

Definition NGX_READ_EVENT : Z := EPOLLIN.
Definition NGX_WRITE_EVENT : Z := EPOLLOUT.
Definition NGX_LEVEL_EVENT : Z := 0.
Definition NGX_CLEAR_EVENT : Z := EPOLLET.
Definition NGX_LOWAT_EVENT : Z := 0.

Definition NGX_UPDATE_TIME : Z := 1.
Definition NGX_POST_EVENTS : Z := 2.
Definition NGX_POST_THREAD_EVENTS : Z := 4.

(** [flags & bit] as a condition. *)
Definition has (flags bit : Z) : bool := negb (Z.land flags bit =? 0).

Section Event.
Context {HPerl : Perl} {HKern : Kernel}.
Local Open Scope run_scope.

(** * The posted queues *)

(** [*q] and [*q = v] for the pointer [prev] of a posted event. *)
Definition q_wr (q : qref) (v : ptr) : W unit :=
  match q with
  | Q_NULL => rfault
  | Q_accept => wr_g w_posted_accept v
  | Q_posted => wr_g w_posted v
  | Q_next e => ev_wr e ev_next v
  end.
Definition q_rd (q : qref) : W ptr :=
  match q with
  | Q_NULL => rfault
  | Q_accept => rd_g w_posted_accept
  | Q_posted => rd_g w_posted
  | Q_next e => ev_rd e ev_next
  end.

Definition ngx_locked_post_event (ev : ptr) (queue : qref) : W unit :=
  do! prev := ev_rd ev ev_prev in
  if decide (prev = Q_NULL) then
    do! head := q_rd queue in
    ev_wr ev ev_next head ;;;
    ev_wr ev ev_prev queue ;;;
    q_wr queue ev ;;;
    do! next := ev_rd ev ev_next in
    when negb (next =? NULL) then ev_wr next ev_prev (Q_next ev)
  else rret tt.

Definition ngx_delete_posted_event (ev : ptr) : W unit :=
  do! prev := ev_rd ev ev_prev in
  do! next := ev_rd ev ev_next in
  q_wr prev next ;;;
  do! next := ev_rd ev ev_next in
  (when negb (next =? NULL) then
     do! prev := ev_rd ev ev_prev in ev_wr next ev_prev prev) ;;;
  ev_wr ev ev_prev Q_NULL.

(** [call ev] is the call [ev->handler(ev)]; a handler may post events. *)
Fixpoint ngx_event_process_posted (call : ptr -> W unit) (posted : qref) (fuel : nat) : W unit :=
  match fuel with
  | O => fun _ => NoFuel
  | S fuel =>
      do! ev := q_rd posted in
      if ev =? NULL then rret tt
      else
        ngx_delete_posted_event ev ;;;
        call ev ;;;
        ngx_event_process_posted call posted fuel
  end.

(** * The event backend *)

End Event.

(** [ngx_event_actions]: what a backend offers.  [ngx_add_conn] and
    [ngx_del_conn] may be NULL. *)
Class EventActions {HPerl : Perl} {HKern : Kernel} := {
  ngx_add_event : ptr -> Z -> Z -> W Z;
  ngx_del_event : ptr -> Z -> Z -> W Z;
  ngx_add_conn : option (ptr -> W Z);
  ngx_del_conn : option (ptr -> Z -> W Z)
}.

Section Handle.
Context {HPerl : Perl} {HKern : Kernel} {HAct : EventActions}.
Local Open Scope run_scope.

Definition ngx_handle_read_event (rev : ptr) (flags : Z) : W Z :=
  do! ngx_event_flags := rd_g w_flags in
  do! active := ev_rd rev ev_active in
  do! ready := ev_rd rev ev_ready in
  if has ngx_event_flags NGX_USE_CLEAR_EVENT then
    if negb active && negb ready then
      do! rc := ngx_add_event rev NGX_READ_EVENT NGX_CLEAR_EVENT in
      if rc =? NGX_ERROR then rret NGX_ERROR else rret NGX_OK
    else rret NGX_OK
  else if has ngx_event_flags NGX_USE_LEVEL_EVENT then
    if negb active && negb ready then
      do! rc := ngx_add_event rev NGX_READ_EVENT NGX_LEVEL_EVENT in
      if rc =? NGX_ERROR then rret NGX_ERROR else rret NGX_OK
    else if active && (ready || has flags NGX_CLOSE_EVENT) then
      do! rc := ngx_del_event rev NGX_READ_EVENT (Z.lor NGX_LEVEL_EVENT flags) in
      if rc =? NGX_ERROR then rret NGX_ERROR else rret NGX_OK
    else rret NGX_OK
  else if has ngx_event_flags NGX_USE_EVENTPORT_EVENT then
    if negb active && negb ready then
      do! rc := ngx_add_event rev NGX_READ_EVENT 0 in
      if rc =? NGX_ERROR then rret NGX_ERROR else rret NGX_OK
    else
      do! oneshot := ev_rd rev ev_oneshot in
      if oneshot && negb ready then
        do! rc := ngx_del_event rev NGX_READ_EVENT 0 in
        if rc =? NGX_ERROR then rret NGX_ERROR else rret NGX_OK
      else rret NGX_OK
  else rret NGX_OK.

(** [lowat] is always 0 in the engine; [ngx_send_lowat] is an argument. *)
Definition ngx_handle_write_event (ngx_send_lowat : ptr -> Z -> W Z) (wev : ptr) (lowat : Z) : W Z :=
  do! rc := (if lowat =? 0 then rret NGX_OK
             else do! c := ev_rd wev ev_data in ngx_send_lowat c lowat) in
  if rc =? NGX_ERROR then rret NGX_ERROR else
  do! ngx_event_flags := rd_g w_flags in
  do! active := ev_rd wev ev_active in
  do! ready := ev_rd wev ev_ready in
  if has ngx_event_flags NGX_USE_CLEAR_EVENT then
    if negb active && negb ready then
      do! rc := ngx_add_event wev NGX_WRITE_EVENT
        (Z.lor NGX_CLEAR_EVENT (if lowat =? 0 then 0 else NGX_LOWAT_EVENT)) in
      if rc =? NGX_ERROR then rret NGX_ERROR else rret NGX_OK
    else rret NGX_OK
  else if has ngx_event_flags NGX_USE_LEVEL_EVENT then
    if negb active && negb ready then
      do! rc := ngx_add_event wev NGX_WRITE_EVENT NGX_LEVEL_EVENT in
      if rc =? NGX_ERROR then rret NGX_ERROR else rret NGX_OK
    else if active && ready then
      do! rc := ngx_del_event wev NGX_WRITE_EVENT NGX_LEVEL_EVENT in
      if rc =? NGX_ERROR then rret NGX_ERROR else rret NGX_OK
    else rret NGX_OK
  else if has ngx_event_flags NGX_USE_EVENTPORT_EVENT then
    if negb active && negb ready then
      do! rc := ngx_add_event wev NGX_WRITE_EVENT 0 in
      if rc =? NGX_ERROR then rret NGX_ERROR else rret NGX_OK
    else
      do! oneshot := ev_rd wev ev_oneshot in
      if oneshot && ready then
        do! rc := ngx_del_event wev NGX_WRITE_EVENT 0 in
        if rc =? NGX_ERROR then rret NGX_ERROR else rret NGX_OK
      else rret NGX_OK
  else rret NGX_OK.

End Handle.

(** * The epoll backend *)

Section Epoll.
Context {HPerl : Perl} {HKern : Kernel}.
Local Open Scope run_scope.

(** [(uintptr_t) c | ev->instance] *)
Definition tag (c : ptr) (instance : bool) : Z := Z.lor c (Z.b2z instance).

Definition ngx_epoll_add_event (ev : ptr) (event flags : Z) : W Z :=
  do! c := ev_rd ev ev_data in
  do! e := (if event =? NGX_READ_EVENT then c_rd c c_write else c_rd c c_read) in
  let prev := if event =? NGX_READ_EVENT then EPOLLOUT else EPOLLIN in
  do! active := ev_rd e ev_active in
  let op := if active then EPOLL_CTL_MOD else EPOLL_CTL_ADD in
  let events := if active then Z.lor (u32 event) prev else u32 event in
  do! instance := ev_rd ev ev_instance in
  do! fd := c_rd c c_fd in
  do! rc := sys (sys_epoll_ctl op fd (Z.lor events (u32 flags)) (tag c instance)) in
  match rc with
  | inr _ => rret NGX_ERROR
  | inl _ => ev_wr ev ev_active true ;;; rret NGX_OK
  end.

Definition ngx_epoll_del_event (ev : ptr) (event flags : Z) : W Z :=
  if has flags NGX_CLOSE_EVENT then ev_wr ev ev_active false ;;; rret NGX_OK
  else
    do! c := ev_rd ev ev_data in
    do! e := (if event =? NGX_READ_EVENT then c_rd c c_write else c_rd c c_read) in
    let prev := if event =? NGX_READ_EVENT then EPOLLOUT else EPOLLIN in
    do! active := ev_rd e ev_active in
    do! instance := ev_rd ev ev_instance in
    let op := if active then EPOLL_CTL_MOD else EPOLL_CTL_DEL in
    let events := if active then Z.lor prev (u32 flags) else 0 in
    let data := if active then tag c instance else NULL in
    do! fd := c_rd c c_fd in
    do! rc := sys (sys_epoll_ctl op fd events data) in
    match rc with
    | inr _ => rret NGX_ERROR
    | inl _ => ev_wr ev ev_active false ;;; rret NGX_OK
    end.

Definition ngx_epoll_add_connection (c : ptr) : W Z :=
  do! instance := rev_rd c ev_instance in
  do! fd := c_rd c c_fd in
  do! rc := sys (sys_epoll_ctl EPOLL_CTL_ADD fd
                   (Z.lor EPOLLIN (Z.lor EPOLLOUT EPOLLET)) (tag c instance)) in
  match rc with
  | inr _ => rret NGX_ERROR
  | inl _ => rev_wr c ev_active true ;;; wev_wr c ev_active true ;;; rret NGX_OK
  end.

Definition ngx_epoll_del_connection (c : ptr) (flags : Z) : W Z :=
  if has flags NGX_CLOSE_EVENT then
    rev_wr c ev_active false ;;; wev_wr c ev_active false ;;; rret NGX_OK
  else
    do! fd := c_rd c c_fd in
    do! rc := sys (sys_epoll_ctl EPOLL_CTL_DEL fd 0 NULL) in
    match rc with
    | inr _ => rret NGX_ERROR
    | inl _ => rev_wr c ev_active false ;;; wev_wr c ev_active false ;;; rret NGX_OK
    end.

#[export] Instance epoll_actions : EventActions := {|
  ngx_add_event := ngx_epoll_add_event;
  ngx_del_event := ngx_epoll_del_event;
  ngx_add_conn := Some ngx_epoll_add_connection;
  ngx_del_conn := Some ngx_epoll_del_connection
|}.

(** The part of [ngx_time_update] the events depend on. *)
Definition time_update_msec : W unit :=
  do! tv := sys sys_gettimeofday in
  wr_g w_msec (u64 (tv.1 * 1000 + tv.2 / 1000)).

(** Without threads [NGX_POST_THREAD_EVENTS] is not passed. *)
Definition process_ready (call : ptr -> W unit) (flags : Z) (ev : ptr) (queue : qref) : W unit :=
  ev_wr ev ev_ready true ;;;
  if has flags NGX_POST_EVENTS then ngx_locked_post_event ev queue
  else call ev.

(** The body of the loop over the events [epoll_wait] returned. *)
Definition epoll_process_one (call : ptr -> W unit) (flags : Z) (events data : Z) : W unit :=
  let instance := Z.odd data in
  let c := Z.land data (Z.lnot 1) in
  do! rev := c_rd c c_read in
  do! fd := c_rd c c_fd in
  do! rinst := ev_rd rev ev_instance in
  if (fd =? -1) || negb (Bool.eqb rinst instance) then rret tt
  else
    let revents :=
      if has events (Z.lor EPOLLERR EPOLLHUP) && negb (has events (Z.lor EPOLLIN EPOLLOUT))
      then Z.lor events (Z.lor EPOLLIN EPOLLOUT) else events in
    do! ractive := ev_rd rev ev_active in
    (when has revents EPOLLIN && ractive then
       do! accept := ev_rd rev ev_accept in
       process_ready call flags rev (if accept then Q_accept else Q_posted)) ;;;
    do! wev := c_rd c c_write in
    do! wactive := ev_rd wev ev_active in
    when has revents EPOLLOUT && wactive then process_ready call flags wev Q_posted.

Fixpoint epoll_process_list (call : ptr -> W unit) (flags : Z) (l : list (Z * Z)) : W unit :=
  match l with
  | [] => rret tt
  | (events, data) :: l =>
      epoll_process_one call flags events data ;;; epoll_process_list call flags l
  end.

Definition ngx_epoll_process_events (call : ptr -> W unit) (nevents timer flags : Z) : W Z :=
  do! r := sys (sys_epoll_wait (s32 nevents) (s32 timer)) in
  do! alarm := rd_g w_timer_alarm in
  (when has flags NGX_UPDATE_TIME || alarm then time_update_msec) ;;;
  match r with
  | inr err =>
      if (err =? NGX_EINTR) && alarm then wr_g w_timer_alarm false ;;; rret NGX_OK
      else rret NGX_ERROR
  | inl [] => if timer =? u64 (-1) then rret NGX_ERROR else rret NGX_OK
  | inl l => epoll_process_list call flags l ;;; rret NGX_OK
  end.

End Epoll.
End Event.
