(* ===== verification/PostedQueue.v ===== *)
(** The posted queues hold linked lists: what [ngx_post_event],
    [ngx_delete_posted_event] and [ngx_event_process_posted] do to them. *)
From stdpp Require Import base numbers gmap list.
From S2P Require Import Prelude Rbtree World Systems Event.
Local Open Scope Z_scope.
Import World Event.

Module PostedQueue.

(** * Representation *)

(** [seg m from p L e]: the pointer [p], stored at [from], starts the events
    [L], linked both ways, and the last link is [e]. *)
Fixpoint seg (m : gmap ptr ngx_event_t) (from : qref) (p : ptr) (L : list ptr) (e : ptr) : Prop :=
  match L with
  | [] => p = e
  | x :: L => p = x /\ x <> NULL /\
      exists ev, m !! x = Some ev /\ ev_prev ev = from /\ seg m (Q_next x) (ev_next ev) L e
  end.

(** Where the link after [L] is stored. *)
Definition end_ref (from : qref) (L : list ptr) : qref :=
  match last L with Some x => Q_next x | None => from end.

Lemma seg_app m from p L1 L2 e :
  seg m from p (L1 ++ L2) e <->
  exists q, seg m from p L1 q /\ seg m (end_ref from L1) q L2 e.
Proof.
  revert from p. induction L1 as [|x L1 IH]; intros from p; simpl.
  - unfold end_ref. simpl. naive_solver.
  - assert (end_ref from (x :: L1) = end_ref (Q_next x) L1) as ->.
    { unfold end_ref. rewrite last_cons. by destruct (last L1). }
    setoid_rewrite IH. naive_solver.
Qed.

Lemma seg_frame m m' from p L e :
  (forall x, x ∈ L -> exists ev ev', m !! x = Some ev /\ m' !! x = Some ev' /\
     ev_next ev' = ev_next ev /\ ev_prev ev' = ev_prev ev) ->
  seg m from p L e -> seg m' from p L e.
Proof.
  revert from p. induction L as [|x L IH]; intros from p HL; simpl; [done|].
  intros (-> & Hx & ev & Hm & Hp & Hseg). split_and!; [done | done |].
  destruct (HL x) as (ev0 & ev' & H0 & H' & Hn & Hpr); [set_solver|]. simplify_eq.
  exists ev'. split_and!; [done | congruence |]. rewrite Hn. apply IH; [set_solver | done].
Qed.

Lemma seg_insert_ne m from p L e y ev :
  y ∉ L -> seg m from p L e -> seg (<[y := ev]> m) from p L e.
Proof.
  revert from p. induction L as [|x L IH]; intros from p Hy; simpl; [done|].
  intros (-> & Hx & ev' & Hm & Hp & Hseg). split_and!; [done | done |].
  exists ev'. rewrite lookup_insert_ne by set_solver. split_and!; [done | done | apply IH; set_solver].
Qed.

Lemma seg_prev m from p L e x : x ∈ L -> seg m from p L e ->
  exists ev, m !! x = Some ev /\ (ev_prev ev = from \/ exists y, y ∈ L /\ ev_prev ev = Q_next y).
Proof.
  revert from p. induction L as [|y L IH]; intros from p Hx; simpl; [set_solver|].
  intros (-> & Hy & ev & Hm & Hp & Hseg). apply elem_of_cons in Hx as [->|Hx]; [eauto|].
  destruct (IH _ _ Hx Hseg) as (ev' & Hm' & [Hp'|(z & Hz & Hp')]); exists ev'; (split; [done|]);
    right; eexists; (split; [|done]); set_solver.
Qed.

Section Queue.
Context {HPerl : Perl} {HKern : Kernel}.

(** A queue head. *)
Definition is_head (q : qref) : Prop := q = Q_accept \/ q = Q_posted.
Definition head_of (q : qref) (w : world) : ptr :=
  match q with Q_accept => w_posted_accept w | Q_posted => w_posted w | _ => NULL end.

(** The queue [q] holds the events [L], no event twice. *)
Definition posted (q : qref) (w : world) (L : list ptr) : Prop :=
  is_head q /\ NoDup L /\ seg (w_events w) q (head_of q w) L NULL.

Lemma posted_prev q w L x ev :
  posted q w L -> x ∈ L -> w_events w !! x = Some ev -> ev_prev ev <> Q_NULL.
Proof.
  intros (Hq & _ & Hseg) Hx Hev. destruct (seg_prev _ _ _ _ _ _ Hx Hseg) as (ev' & Hm & Hp).
  simplify_eq. destruct Hq as [-> | ->], Hp as [Hp|(y & _ & Hp)]; congruence.
Qed.

(** Assigning a queue head. *)
Definition set_head (q : qref) (v : ptr) (w : world) : world :=
  match q with
  | Q_accept => w <| w_posted_accept := v |>
  | Q_posted => w <| w_posted := v |>
  | _ => w
  end.

Lemma q_wr_head q v (k : unit -> W unit) w : is_head q -> rbind (q_wr q v) k w = k tt (set_head q v w).
Proof. by intros [-> | ->]. Qed.
Lemma q_rd_head {B} q (k : ptr -> W B) w : is_head q -> rbind (q_rd q) k w = k (head_of q w) w.
Proof. by intros [-> | ->]. Qed.
Lemma set_head_events q v w : w_events (set_head q v w) = w_events w.
Proof. by destruct q. Qed.
Lemma head_set_head q v w : is_head q -> head_of q (set_head q v w) = v.
Proof. by intros [-> | ->]. Qed.
Lemma head_set_head_ne q q' v w : q <> q' -> head_of q (set_head q' v w) = head_of q w.
Proof. by destruct q, q'. Qed.
Lemma head_with_events q m w : head_of q (w <| w_events := m |>) = head_of q w.
Proof. by destruct q. Qed.

(** * Posting *)

Lemma post_event_new q w L e ev :
  posted q w L -> w_events w !! e = Some ev -> ev_prev ev = Q_NULL -> e <> NULL ->
  exists w', ngx_locked_post_event e q w = Done tt w' /\ posted q w' (e :: L) /\
    (forall q' L', q' <> q -> posted q' w L' -> posted q' w' L').
Proof.
  intros Hpost Hev Hprev He. pose proof Hpost as (Hq & Hnd & Hseg).
  assert (HeL : e ∉ L) by (intros Hin; by eapply posted_prev in Hpost).
  unfold ngx_locked_post_event, ev_rd, ev_wr. rewrite (rd_at_step _ _ _ _ _ _ Hev).
  rewrite Hprev, decide_True by done. rewrite q_rd_head by done.
  rewrite (wr_at_step _ _ _ _ _ _ _ Hev).
  erewrite wr_at_step by (rsimpl; apply lookup_insert_eq).
  rewrite q_wr_head by done.
  erewrite rd_at_step by (rewrite set_head_events; rsimpl; apply lookup_insert_eq).
  rsimpl. rewrite insert_insert_eq.
  set (ev1 := ev <| ev_next := head_of q w |> <| ev_prev := q |>).
  set (w1 := w <| w_events := <[e := ev1]> (w_events w) |>).
  assert (Hmono : forall q' L', q' <> q -> posted q' w L' ->
    q' <> q /\ (e ∉ L') /\ head_of q' (set_head q e w1) = head_of q' w).
  { intros q' L' Hne Hp'. split_and!; [done | | by rewrite head_set_head_ne].
    intros Hin. by eapply (posted_prev q' w L' e ev). }
  destruct L as [|x L].
  - simpl in Hseg. rewrite Hseg. exists (set_head q e w1). split; [done|]. split.
    + split_and!; [done | repeat constructor; set_solver |]. rewrite head_set_head, set_head_events by done.
      split_and!; [done | done |]. exists ev1. unfold w1. rsimpl. rewrite lookup_insert_eq.
      split_and!; [done | done |]. unfold ev1. rsimpl. by rewrite Hseg.
    + intros q' L' Hne Hp'. destruct (Hmono q' L' Hne Hp') as (_ & HeL' & Hh).
      destruct Hp' as (Hq' & Hnd' & Hseg'). split_and!; [done | done |].
      rewrite Hh, set_head_events. unfold w1. rsimpl. by apply seg_insert_ne.
  - destruct Hseg as (Hh & Hx & evx & Hmx & Hpx & Hseg). rewrite Hh.
    destruct (Z.eqb_spec x NULL) as [|_]; [done|]. cbn [negb].
    assert (e <> x) as Hex by set_solver.
    assert (Hx1 : w_events (set_head q e w1) !! x = Some evx)
      by (rewrite set_head_events; unfold w1; rsimpl; by rewrite lookup_insert_ne).
    unfold wr_at. rewrite Hx1.
    eexists. split; [reflexivity|]. rewrite set_head_events. split.
    + split_and!; [done | by constructor |].
      rewrite head_with_events, head_set_head by done. rsimpl. split_and!; [done | done |].
      exists ev1. unfold w1. rsimpl. rewrite lookup_insert_ne, lookup_insert_eq by done.
      split_and!; [done | done |]. unfold ev1 at 2. rsimpl. split_and!; [done | done |].
      eexists. rewrite lookup_insert_eq. split_and!; [done | done |]. rsimpl.
      apply seg_insert_ne; [by apply list.NoDup_cons in Hnd as [? _]|].
      apply seg_insert_ne; [set_solver | done].
    + intros q' L' Hne Hp'. destruct (Hmono q' L' Hne Hp') as (_ & HeL' & Hh').
      destruct Hp' as (Hq' & Hnd' & Hseg'). split_and!; [done | done |].
      rewrite head_with_events, Hh'. unfold w1. rsimpl.
      assert (x ∉ L') as HxL'.
      { intros Hin. destruct (seg_prev _ _ _ _ _ _ Hin Hseg') as (evx' & Hmx' & Hp2).
        rewrite Hmx in Hmx'. injection Hmx' as <-.
        destruct Hq as [Hq|Hq], Hp2 as [Hp2|(y & _ & Hp2)]; congruence. }
      apply seg_insert_ne; [done|]. by apply seg_insert_ne.
Qed.

Lemma post_event_again w q e ev :
  w_events w !! e = Some ev -> ev_prev ev <> Q_NULL -> ngx_locked_post_event e q w = Done tt w.
Proof.
  intros Hev Hprev. unfold ngx_locked_post_event, ev_rd. rewrite (rd_at_step _ _ _ _ _ _ Hev).
  by rewrite decide_False.
Qed.

(** * Deleting *)

Lemma seg_last m from p L x e e' ev :
  m !! x = Some ev -> NoDup (L ++ [x]) -> seg m from p (L ++ [x]) e ->
  seg (<[x := ev <| ev_next := e' |>]> m) from p (L ++ [x]) e'.
Proof.
  intros Hx Hnd (q & H1 & H2)%seg_app. apply seg_app. exists q. split.
  - apply seg_insert_ne; [|done]. rewrite Permutation_app_comm in Hnd. by apply list.NoDup_cons in Hnd as [? _].
  - destruct H2 as (-> & Hnx & ev' & Hm & Hp & Hn). simplify_eq. split_and!; [done | done |].
    eexists. by rewrite lookup_insert_eq.
Qed.

Lemma end_ref_snoc from L x : end_ref from (L ++ [x]) = Q_next x.
Proof. unfold end_ref. by rewrite last_snoc. Qed.

Lemma end_ref_ne from L : from <> Q_NULL -> end_ref from L <> Q_NULL.
Proof. unfold end_ref. by destruct (last L). Qed.

(** Nothing but events and queue heads changed. *)
Definition same_rest (w w' : world) : Prop :=
  exists m a p, w' = w <| w_events := m |> <| w_posted_accept := a |> <| w_posted := p |>.

Lemma same_rest_trans w1 w2 w3 : same_rest w1 w2 -> same_rest w2 w3 -> same_rest w1 w3.
Proof. intros (m & a & p & ->) (m' & a' & p' & ->). by exists m', a', p'. Qed.
Lemma same_rest_events w m : same_rest w (w <| w_events := m |>).
Proof. exists m, (w_posted_accept w), (w_posted w). by destruct w. Qed.
Lemma same_rest_head w q v : same_rest w (set_head q v w).
Proof.
  destruct q; [exists (w_events w), (w_posted_accept w), (w_posted w)
    | exists (w_events w), v, (w_posted w) | exists (w_events w), (w_posted_accept w), v
    | exists (w_events w), (w_posted_accept w), (w_posted w)]; by destruct w.
Qed.

(** An event without its links. *)
Definition strip (ev : ngx_event_t) : ngx_event_t := ev <| ev_next := NULL |> <| ev_prev := Q_NULL |>.

Lemma strip_insert (m : gmap ptr ngx_event_t) e ev ev' :
  m !! e = Some ev -> strip ev' = strip ev -> strip <$> <[e := ev']> m = strip <$> m.
Proof. intros He Hs. rewrite fmap_insert, Hs. apply insert_id. by rewrite lookup_fmap, He. Qed.

(** What [*(prev) = next] does to the part of the queue before the event. *)
Lemma q_wr_end q w L1 e next (k : unit -> W unit) :
  is_head q -> NoDup L1 -> seg (w_events w) q (head_of q w) L1 e ->
  exists w1, rbind (q_wr (end_ref q L1) next) k w = k tt w1 /\
    seg (w_events w1) q (head_of q w1) L1 next /\
    (forall x, x ∉ L1 -> w_events w1 !! x = w_events w !! x) /\
    (forall q', is_head q' -> q' <> q -> head_of q' w1 = head_of q' w) /\
    same_rest w w1 /\ strip <$> w_events w1 = strip <$> w_events w.
Proof.
  intros Hq Hnd Hseg. destruct L1 as [|x L1 _] using rev_ind.
  - exists (set_head q next w). unfold end_ref. simpl. rewrite q_wr_head by done.
    split_and!; [done | by rewrite head_set_head | by rewrite set_head_events | | apply same_rest_head
      | by rewrite set_head_events].
    intros. by rewrite head_set_head_ne.
  - rewrite end_ref_snoc. apply seg_app in Hseg as Hs. destruct Hs as (p & _ & (_ & _ & ev & Hev & _)).
    unfold q_wr, ev_wr. rewrite (wr_at_step _ _ _ _ _ _ _ Hev).
    eexists. split; [reflexivity|]. rsimpl. split_and!.
    + rewrite ?head_with_events. by eapply seg_last.
    + intros y Hy. rewrite lookup_insert_ne by set_solver. done.
    + intros. by rewrite ?head_with_events.
    + apply same_rest_events.
    + by eapply strip_insert.
Qed.

Lemma delete_posted_ok q w L1 e L2 :
  posted q w (L1 ++ e :: L2) ->
  exists w', ngx_delete_posted_event e w = Done tt w' /\ posted q w' (L1 ++ L2) /\
    (exists ev, w_events w' !! e = Some ev /\ ev_prev ev = Q_NULL) /\
    (forall x, x ∉ L1 ++ e :: L2 -> w_events w' !! x = w_events w !! x) /\
    (forall q', is_head q' -> q' <> q -> head_of q' w' = head_of q' w) /\
    same_rest w w' /\ strip <$> w_events w' = strip <$> w_events w.
Proof.
  intros (Hq & Hnd & (p & Hs1 & Hs2)%seg_app). destruct Hs2 as (-> & He & ev & Hev & Hprev & Hs2).
  rewrite list.NoDup_app, list.NoDup_cons in Hnd. destruct Hnd as (Hnd1 & Hd & He2 & Hnd2).
  assert (e ∉ L1) as He1 by set_solver.
  unfold ngx_delete_posted_event, ev_rd at 1 2. rewrite !(rd_at_step _ _ _ _ _ _ Hev), Hprev.
  destruct (q_wr_end q w L1 e (ev_next ev) (fun _ => 
    (do! next := ev_rd e ev_next in
     (when negb (next =? NULL) then do! prev := ev_rd e ev_prev in ev_wr next ev_prev prev) ;;;
     ev_wr e ev_prev Q_NULL)%run) Hq Hnd1 Hs1) as (w1 & Hrun & Hseg1 & Hsame & Hheads & Hrest & Hstrip).
  rewrite Hrun. clear Hrun. assert (Hev1 : w_events w1 !! e = Some ev) by (by rewrite Hsame).
  unfold ev_rd, ev_wr. rewrite (rd_at_step _ _ _ _ _ _ Hev1).
  destruct L2 as [|x L2].
  - simpl in Hs2. rewrite Hs2. cbn [negb Z.eqb NULL]. rewrite bind_ret. unfold wr_at. rewrite Hev1.
    eexists. split; [reflexivity|]. rewrite app_nil_r. rsimpl. split_and!.
    + split_and!; [done | done |]. rsimpl. apply seg_insert_ne; [done | by rewrite <- Hs2].
    + eexists. by rewrite lookup_insert_eq.
    + intros x Hx. rewrite lookup_insert_ne by set_solver. apply Hsame. set_solver.
    + intros. rewrite ?head_with_events. by apply Hheads.
    + eapply same_rest_trans; [done | apply same_rest_events].
    + rewrite <- Hstrip. by eapply strip_insert.
  - destruct Hs2 as (Hn & Hx & evx & Hmx & Hpx & Hs2). rewrite Hn in *.
    destruct (Z.eqb_spec x NULL) as [|_]; [done|]. cbn [negb]. apply list.NoDup_cons in Hnd2 as [Hx2 Hnd2].
    assert (Hmx1 : w_events w1 !! x = Some evx) by (rewrite Hsame; set_solver).
    rewrite bind_assoc, (rd_at_step _ _ _ _ _ _ Hev1), (wr_at_step _ _ _ _ _ _ _ Hmx1), Hprev.
    assert (x <> e) as Hxe by set_solver.
    unfold wr_at. rsimpl. rewrite lookup_insert_ne, Hev1 by done.
    eexists. split; [reflexivity|]. rsimpl. split_and!.
    + split_and!; [done | apply list.NoDup_app; split_and!; [done | set_solver | by constructor] |].
      rsimpl. apply seg_app. exists x. split.
      * apply seg_insert_ne; [done|]. apply seg_insert_ne; [set_solver | done].
      * split_and!; [done | done |]. eexists. rewrite lookup_insert_ne, lookup_insert_eq by done.
        split_and!; [done | done |]. rsimpl. apply seg_insert_ne; [set_solver|]. apply seg_insert_ne; [done|].
        eapply seg_frame; [|done]. intros y Hy. destruct (seg_prev _ _ _ _ _ _ Hy Hs2) as (evy & Hmy & _).
        exists evy, evy. rewrite Hsame by set_solver. done.
    + eexists. rewrite lookup_insert_eq. done.
    + intros y Hy. rewrite !lookup_insert_ne by set_solver. apply Hsame. set_solver.
    + intros. rewrite ?head_with_events. by apply Hheads.
    + eapply same_rest_trans; [done | apply same_rest_events].
    + rewrite <- Hstrip, (strip_insert _ e ev); [by eapply strip_insert | by rewrite lookup_insert_ne | done].
Qed.

(** * Processing *)

(** A handler that posts nothing, returns, and is recorded. *)
Definition quiet_handler (q : qref) (call : ptr -> W unit) (log : world -> list ptr) : Prop :=
  forall e w L, posted q w L -> exists w', call e w = Done tt w' /\ posted q w' L /\ log w' = log w ++ [e].

Lemma process_posted_ok q call log w L :
  quiet_handler q call log -> (forall w w', same_rest w w' -> log w' = log w) -> posted q w L ->
  exists w', ngx_event_process_posted call q (S (length L)) w = Done tt w' /\ posted q w' [] /\
    log w' = log w ++ L.
Proof.
  intros Hcall Hlog. revert w. induction L as [|e L IH]; intros w Hp; pose proof Hp as (Hq & Hnd & Hseg).
  - exists w. cbn [ngx_event_process_posted length]. rewrite q_rd_head by done. simpl in Hseg. rewrite Hseg.
    split_and!; [done | done | by rewrite app_nil_r].
  - destruct Hseg as (Hh & He & _).
    destruct (delete_posted_ok q w [] e L Hp) as (w1 & Hrun1 & Hp1 & _ & _ & _ & Hrest & _).
    destruct (Hcall e w1 L Hp1) as (w2 & Hrun2 & Hp2 & Hl2).
    destruct (IH w2 Hp2) as (w' & Hrun & Hp' & Hl'). exists w'. split_and!; [|done|].
    + cbn [length]. cbn [ngx_event_process_posted]. rewrite q_rd_head by done. rewrite Hh.
      destruct (Z.eqb_spec e NULL); [done|].
      by rewrite (bind_step _ _ _ _ _ Hrun1), (bind_step _ _ _ _ _ Hrun2).
    + rewrite Hl', Hl2, (Hlog _ _ Hrest). by rewrite <- app_assoc.
Qed.

End Queue.

(** * The theorems *)

(** C12.  [ngx_post_event] puts an event that is not posted at the front of
    the queue and leaves the other queue alone; an event that is posted
    already stays where it is, in whichever queue.  [ngx_delete_posted_event]
    unlinks a posted event wherever it is in its queue, keeps the order of the
    rest, and marks the event not posted.  [ngx_event_process_posted] with
    handlers that post nothing ends, has called the handler of every posted event
    exactly once, the event posted last first, and leaves the queue empty. *)
Theorem posted_queue_correct {HPerl : Perl} {HKern : Kernel} q w L :
  posted q w L ->
  (forall e ev, w_events w !! e = Some ev -> e <> NULL ->
    (ev_prev ev = Q_NULL -> exists w', ngx_locked_post_event e q w = Done tt w' /\
       posted q w' (e :: L) /\ (forall q' L', q' <> q -> posted q' w L' -> posted q' w' L')) /\
    (ev_prev ev <> Q_NULL -> ngx_locked_post_event e q w = Done tt w)) /\
  (forall L1 e L2, L = L1 ++ e :: L2 ->
    exists w', ngx_delete_posted_event e w = Done tt w' /\ posted q w' (L1 ++ L2) /\
      (exists ev, w_events w' !! e = Some ev /\ ev_prev ev = Q_NULL) /\
      (forall x, x ∉ L1 ++ e :: L2 -> w_events w' !! x = w_events w !! x)) /\
  (forall call log, quiet_handler q call log -> (forall w w', same_rest w w' -> log w' = log w) ->
    exists w', ngx_event_process_posted call q (S (length L)) w = Done tt w' /\ posted q w' [] /\
      log w' = log w ++ L).
Proof.
  intros Hp. split_and!.
  - intros e ev Hev He. split; intros Hprev; [by eapply post_event_new | by eapply post_event_again].
  - intros L1 e L2 ->. destruct (delete_posted_ok _ _ _ _ _ Hp) as (w' & ? & ? & ? & ? & _). by exists w'.
  - intros call log Hcall Hlog. by apply process_posted_ok.
Qed.

(** * Witnesses *)

Import Systems.
Local Existing Instance scripted_kernel.
Definition queue_perl : Perl := perl_of no_subs.
Local Existing Instance queue_perl.

(** The queue of ordinary events holds the write event 120. *)
Definition queue_world : world :=
  (small_world (mk_scalars ∅ 1000 : interp) no_answers)
    <| w_events := list_to_map [(110, zero_event <| ev_data := 100 |>);
                                (120, zero_event <| ev_data := 100 |> <| ev_prev := Q_posted |>)] |>
    <| w_posted := 120 |>.

Lemma queue_world_posted : posted Q_posted queue_world [120].
Proof.
  split_and!; [by right | repeat constructor; set_solver |]. split_and!; [done | done |].
  eexists. split_and!; [reflexivity | reflexivity | reflexivity].
Qed.

Definition record_posted (e : ptr) : W unit :=
  fun w => Done tt (w <| w_kern := (w_kern w : answers) <| a_sent := a_sent (w_kern w) ++ [e] |> |>).

Lemma posted_queue_correct_witness :
  (exists w', ngx_locked_post_event 110 Q_posted queue_world = Done tt w' /\ posted Q_posted w' [110; 120]) /\
  (exists w', ngx_delete_posted_event 120 queue_world = Done tt w' /\ posted Q_posted w' ([] ++ [])) /\
  (exists w', ngx_event_process_posted record_posted Q_posted 2 queue_world = Done tt w' /\
    posted Q_posted w' [] /\ a_sent (w_kern w') = [] ++ [120]).
Proof.
  destruct (posted_queue_correct Q_posted queue_world [120] queue_world_posted) as (Hpost & Hdel & Hproc). split_and!.
  - destruct (Hpost 110 (zero_event <| ev_data := 100 |>) ltac:(reflexivity) ltac:(done)) as [Hnew _].
    destruct (Hnew ltac:(reflexivity)) as (w' & Hrun & Hw' & _). by exists w'.
  - destruct (Hdel [] 120 [] eq_refl) as (w' & Hrun & Hw' & _). by exists w'.
  - apply (Hproc record_posted (fun w => a_sent (w_kern w))).
    + intros e w L (Hq & Hnd & Hseg). eexists. split_and!; [reflexivity | | done]. by split_and!.
    + intros w w' (m & a & p & ->). reflexivity.
Defined.

End PostedQueue.
