(* ===== verification/Backend.v ===== *)
(** What an event backend promises to the rest of the engine, that the epoll
    backend keeps the promise, and what [ngx_handle_read_event] and
    [ngx_handle_write_event] make the kernel watch with it. *)
From stdpp Require Import base numbers gmap list.
From S2P Require Import Prelude Rbtree World Systems Event.
Local Open Scope Z_scope.
Import World Event.

Module Backend.

Section Wf.
Context {HPerl : Perl} {HKern : Kernel}.

(** A connection with its two events, which point back to it. *)
Record wf_conn (w : world) (c : ptr) (x : ngx_connection_t) (er ew : ngx_event_t) : Prop := mk_wf {
  wf_c : w_conns w !! c = Some x;
  wf_r : w_events w !! c_read x = Some er;
  wf_w : w_events w !! c_write x = Some ew;
  wf_ne : c_read x <> c_write x;
  wf_rdata : ev_data er = c;
  wf_wdata : ev_data ew = c
}.

(** The world with event [e] replaced. *)
Definition put_event (e : ptr) (ev : ngx_event_t) (w : world) : world :=
  w <| w_events := <[e := ev]> (w_events w) |>.

End Wf.

(** The promise of a backend: adding an event activates it or, on an error,
    changes nothing the engine sees, and adding a connection does so with both
    its events; deleting events when their descriptor is being closed
    deactivates them and cannot fail. *)
Class EventActionsOk {HPerl : Perl} {HKern : Kernel} (HAct : EventActions) : Prop := {
  add_event_spec : forall w c x er ew e ev type flags,
    wf_conn w c x er ew -> w_events w !! e = Some ev -> ev_data ev = c ->
    exists k, ngx_add_event e type flags w
                = Done NGX_OK (put_event e (ev <| ev_active := true |>) (w <| w_kern := k |>)) \/
              ngx_add_event e type flags w = Done NGX_ERROR (w <| w_kern := k |>);
  del_event_close : forall w e ev type,
    w_events w !! e = Some ev ->
    ngx_del_event e type NGX_CLOSE_EVENT w = Done NGX_OK (put_event e (ev <| ev_active := false |>) w);
  del_conn_close : forall del w c x er ew,
    ngx_del_conn = Some del -> wf_conn w c x er ew ->
    del c NGX_CLOSE_EVENT w = Done NGX_OK
      (put_event (c_write x) (ew <| ev_active := false |>)
         (put_event (c_read x) (er <| ev_active := false |>) w));
  add_conn_spec : forall add w c x er ew,
    ngx_add_conn = Some add -> wf_conn w c x er ew ->
    exists k, add c w = Done NGX_OK
                (put_event (c_write x) (ew <| ev_active := true |>)
                   (put_event (c_read x) (er <| ev_active := true |>) (w <| w_kern := k |>))) \/
              add c w = Done NGX_ERROR (w <| w_kern := k |>)
}.

Section Epoll.
Context {HPerl : Perl} {HKern : Kernel}.

#[export] Instance epoll_actions_ok : EventActionsOk epoll_actions.
Proof.
  split.
  - intros w c x er ew e ev type flags [Hc Hr Hw _ _ _] He Hd.
    cbn [ngx_add_event epoll_actions]. unfold ngx_epoll_add_event, ev_rd, c_rd, ev_wr.
    rewrite (rd_at_step _ _ _ _ _ _ He), Hd.
    assert (Hother : exists eo, (if type =? NGX_READ_EVENT then rd_at w_conns c c_write
               else rd_at w_conns c c_read) w = Done eo w /\ is_Some (w_events w !! eo)).
    { destruct (type =? NGX_READ_EVENT); eexists; unfold rd_at; rewrite Hc; split; eauto. }
    destruct Hother as (eo & Hrun & [evo Heo]). rewrite (bind_step _ _ _ _ _ Hrun). cbv zeta.
    rewrite (rd_at_step _ _ _ _ _ _ Heo), (rd_at_step _ _ _ _ _ _ He), (rd_at_step _ _ _ _ _ _ Hc).
    match goal with |- context [sys ?f] => destruct (f (w_kern w)) as [r k] eqn:Hsys end.
    exists k. rewrite (sys_step _ _ _ _ _ Hsys). destruct r as [u|err]; [left|by right].
    by erewrite wr_at_step by (rsimpl; exact He).
  - intros w e ev type He. cbn [ngx_del_event epoll_actions]. unfold ngx_epoll_del_event, ev_wr.
    change (has NGX_CLOSE_EVENT NGX_CLOSE_EVENT) with true. cbv iota.
    by rewrite (wr_at_step _ _ _ _ _ _ _ He).
  - intros del w c x er ew [= <-] [Hc Hr Hw Hne _ _].
    unfold ngx_epoll_del_connection. unfold_accessors.
    change (has NGX_CLOSE_EVENT NGX_CLOSE_EVENT) with true. cbv iota. repeat step. done.
  - intros add w c x er ew [= <-] [Hc Hr Hw Hne _ _].
    unfold ngx_epoll_add_connection. unfold_accessors. repeat step.
    match goal with |- context [sys ?f] => destruct (f (w_kern w)) as [r k] eqn:Hsys end.
    exists k. rewrite (sys_step _ _ _ _ _ Hsys). destruct r as [u|err]; [left|by right]. repeat step. done.
Qed.

End Epoll.

Section Handle.
Context {HPerl : Perl} {HKern : Kernel} {HAct : EventActions} {HOk : EventActionsOk HAct}.

Lemma handle_read_ok w c x er ew flags :
  wf_conn w c x er ew -> has (w_flags w) NGX_USE_CLEAR_EVENT = true ->
  exists k,
    ((ev_active er || ev_ready er = true) /\
     ngx_handle_read_event (c_read x) flags w = Done NGX_OK w) \/
    ngx_handle_read_event (c_read x) flags w
      = Done NGX_OK (put_event (c_read x) (er <| ev_active := true |>) (w <| w_kern := k |>)) \/
    ngx_handle_read_event (c_read x) flags w = Done NGX_ERROR (w <| w_kern := k |>).
Proof.
  intros Hwf Hcl. pose proof Hwf as [Hc Hr Hw _ Hd _].
  unfold ngx_handle_read_event, ev_rd. rewrite rd_g_step, !(rd_at_step _ _ _ _ _ _ Hr), Hcl.
  destruct (ev_active er); [by exists (w_kern w); left|].
  destruct (ev_ready er); [by exists (w_kern w); left|]. cbn [negb andb].
  destruct (add_event_spec w c x er ew (c_read x) er NGX_READ_EVENT NGX_CLEAR_EVENT Hwf Hr Hd)
    as (k & [Hrun | Hrun]); exists k; right; [left | right]; by rewrite (bind_step _ _ _ _ _ Hrun).
Qed.

Lemma handle_write_ok low w c x er ew :
  wf_conn w c x er ew -> has (w_flags w) NGX_USE_CLEAR_EVENT = true ->
  exists k,
    ((ev_active ew || ev_ready ew = true) /\
     ngx_handle_write_event low (c_write x) 0 w = Done NGX_OK w) \/
    ngx_handle_write_event low (c_write x) 0 w
      = Done NGX_OK (put_event (c_write x) (ew <| ev_active := true |>) (w <| w_kern := k |>)) \/
    ngx_handle_write_event low (c_write x) 0 w = Done NGX_ERROR (w <| w_kern := k |>).
Proof.
  intros Hwf Hcl. pose proof Hwf as [Hc Hr Hw _ _ Hd].
  unfold ngx_handle_write_event, ev_rd. cbn [Z.eqb]. rewrite bind_ret. cbv iota.
  change (NGX_OK =? NGX_ERROR) with false. cbv iota.
  rewrite rd_g_step, !(rd_at_step _ _ _ _ _ _ Hw), Hcl.
  destruct (ev_active ew); [by exists (w_kern w); left|].
  destruct (ev_ready ew); [by exists (w_kern w); left|]. cbn [negb andb].
  destruct (add_event_spec w c x er ew (c_write x) ew NGX_WRITE_EVENT (Z.lor NGX_CLEAR_EVENT 0) Hwf Hw Hd)
    as (k & [Hrun | Hrun]); exists k; right; [left | right]; by rewrite (bind_step _ _ _ _ _ Hrun).
Qed.

End Handle.

(** What the kernel watches, as [epoll_ctl] documents it: for each descriptor the
    requested events and the data to report with them.  A successful call sets or
    removes the descriptor's entry, a refused one leaves the list alone. *)
Class EpollLaws (HKern : Kernel) := {
  interest : kern -> Z -> option (Z * Z);
  interest_law : forall op fd events data k, let '(r, k') := sys_epoll_ctl op fd events data k in
    forall fd', interest k' fd' =
      match r with
      | inr _ => interest k fd'
      | inl _ => if fd' =? fd then if op =? EPOLL_CTL_DEL then None else Some (events, data) else interest k fd'
      end
}.

(** The directions in which a connection's active events are to be watched. *)
Definition epoll_mask (er ew : ngx_event_t) : Z :=
  Z.lor (Z.lor (if ev_active er then EPOLLIN else 0) (if ev_active ew then EPOLLOUT else 0)) EPOLLET.

Section Watched.
Context {HPerl : Perl} {HKern : Kernel} {HLaws : EpollLaws HKern}.

(** The interest list agrees with the [active] flags of the connection's events. *)
Definition watched (k : kern) (c : ptr) (x : ngx_connection_t) (er ew : ngx_event_t) : Prop :=
  ev_active er || ev_active ew = true ->
  interest k (c_fd x) = Some (epoll_mask er ew, tag c (ev_instance er)).

(** What the call [m] does for the event [e] of value [ev]; [pair] makes the two
    events of the connection [c] from a value of [e]. *)
Definition handled (m : W Z) (w : world) (c : ptr) (x : ngx_connection_t) (e : ptr) (ev : ngx_event_t)
    (pair : ngx_event_t -> ngx_event_t * ngx_event_t) : Prop :=
  exists rc k ev', m w = Done rc (put_event e ev' (w <| w_kern := k |>)) /\
    watched k c x (pair ev').1 (pair ev').2 /\
    (forall fd, fd <> c_fd x -> interest k fd = interest (w_kern w) fd) /\
    if ev_active ev || ev_ready ev then rc = NGX_OK /\ k = w_kern w /\ ev' = ev
    else
      let on := pair (ev <| ev_active := true |>) in
      let op := if ev_active (pair ev).1 || ev_active (pair ev).2 then EPOLL_CTL_MOD else EPOLL_CTL_ADD in
      exists r, sys_epoll_ctl op (c_fd x) (epoll_mask on.1 on.2) (tag c (ev_instance ev)) (w_kern w) = (r, k) /\
        match r with
        | inl _ => rc = NGX_OK /\ ev' = ev <| ev_active := true |>
        | inr _ => rc = NGX_ERROR /\ ev' = ev
        end.

Lemma put_event_id e ev w k :
  w_events w !! e = Some ev -> put_event e ev (w <| w_kern := k |>) = w <| w_kern := k |>.
Proof. intros He. unfold put_event. rewrite insert_id by (rsimpl; done). by destruct w. Qed.

Lemma handled_idle (m : W Z) w c x e ev pair :
  w_events w !! e = Some ev -> ev_active ev || ev_ready ev = true ->
  watched (w_kern w) c x (pair ev).1 (pair ev).2 -> m w = Done NGX_OK w -> handled m w c x e ev pair.
Proof.
  intros He Hon Hk Hrun. exists NGX_OK, (w_kern w), ev. rewrite (put_event_id _ _ _ _ He), Hrun, Hon.
  split_and!; [by destruct w | done..].
Qed.

Lemma handled_ctl (m : W Z) w c x e ev pair r k (on := pair (ev <| ev_active := true |>)) :
  w_events w !! e = Some ev -> ev_active ev || ev_ready ev = false ->
  ev_instance on.1 = ev_instance ev ->
  watched (w_kern w) c x (pair ev).1 (pair ev).2 ->
  sys_epoll_ctl (if ev_active (pair ev).1 || ev_active (pair ev).2 then EPOLL_CTL_MOD else EPOLL_CTL_ADD)
    (c_fd x) (epoll_mask on.1 on.2) (tag c (ev_instance ev)) (w_kern w) = (r, k) ->
  m w = match r with
        | inl _ => Done NGX_OK (put_event e (ev <| ev_active := true |>) (w <| w_kern := k |>))
        | inr _ => Done NGX_ERROR (w <| w_kern := k |>)
        end ->
  handled m w c x e ev pair.
Proof.
  intros He Hoff Hin Hk Hctl Hrun.
  epose proof (interest_law _ _ _ _ _) as Hlaw. erewrite Hctl in Hlaw. destruct r as [u|err].
  - exists NGX_OK, k, (ev <| ev_active := true |>). rewrite Hoff. split_and!; [done | | | by exists (inl u)].
    + intros _. fold on. rewrite Hlaw, Z.eqb_refl, Hin. by destruct (ev_active (pair ev).1 || _).
    + intros fd Hfd. rewrite Hlaw. by destruct (Z.eqb_spec fd (c_fd x)).
  - exists NGX_ERROR, k, ev. rewrite (put_event_id _ _ _ _ He), Hoff. split_and!; [done | | by intros | by exists (inr err)].
    intros Hany. rewrite Hlaw. by apply Hk.
Qed.

(** Adding one direction, when [other] is the event of the other one. *)
Lemma epoll_add_run w c x er ew e ev other type :
  wf_conn w c x er ew -> ev_active ev = false ->
  (e = c_read x /\ ev = er /\ other = ew /\ type = NGX_READ_EVENT \/
   e = c_write x /\ ev = ew /\ other = er /\ type = NGX_WRITE_EVENT) ->
  ngx_epoll_add_event e type NGX_CLEAR_EVENT w =
  match sys_epoll_ctl (if ev_active other then EPOLL_CTL_MOD else EPOLL_CTL_ADD) (c_fd x)
          (Z.lor (Z.lor type (if ev_active other then Z.lxor (Z.lor EPOLLIN EPOLLOUT) type else 0)) EPOLLET)
          (tag c (ev_instance ev)) (w_kern w) with
  | (inl _, k) => Done NGX_OK (put_event e (ev <| ev_active := true |>) (w <| w_kern := k |>))
  | (inr _, k) => Done NGX_ERROR (w <| w_kern := k |>)
  end.
Proof.
  intros [Hc Hr Hw Hne Hdr Hdw] _ [(-> & -> & -> & ->)|(-> & -> & -> & ->)]; unfold ngx_epoll_add_event; unfold_accessors.
  - rewrite (rd_at_step _ _ _ _ _ _ Hr), Hdr. change (NGX_READ_EVENT =? NGX_READ_EVENT) with true. cbv iota zeta.
    rewrite (rd_at_step _ _ _ _ _ _ Hc), (rd_at_step _ _ _ _ _ _ Hw), (rd_at_step _ _ _ _ _ _ Hr), (rd_at_step _ _ _ _ _ _ Hc).
    destruct (ev_active ew); unfold rbind at 1, sys; (match goal with |- context [let '(_, _) := ?t in _] => set (t1 := t) end);
      (match goal with |- _ = match ?t with _ => _ end => change t with t1 end); destruct t1 as [[?|?] ?];
      [by erewrite wr_at_step by (rsimpl; exact Hr) | done | by erewrite wr_at_step by (rsimpl; exact Hr) | done].
  - rewrite (rd_at_step _ _ _ _ _ _ Hw), Hdw. change (NGX_WRITE_EVENT =? NGX_READ_EVENT) with false. cbv iota zeta.
    rewrite (rd_at_step _ _ _ _ _ _ Hc), (rd_at_step _ _ _ _ _ _ Hr), (rd_at_step _ _ _ _ _ _ Hw), (rd_at_step _ _ _ _ _ _ Hc).
    destruct (ev_active er); unfold rbind at 1, sys; (match goal with |- context [let '(_, _) := ?t in _] => set (t1 := t) end);
      (match goal with |- _ = match ?t with _ => _ end => change t with t1 end); destruct t1 as [[?|?] ?];
      [by erewrite wr_at_step by (rsimpl; exact Hw) | done | by erewrite wr_at_step by (rsimpl; exact Hw) | done].
Qed.

Lemma handle_read_epoll w c x er ew flags :
  wf_conn w c x er ew -> has (w_flags w) NGX_USE_CLEAR_EVENT = true -> watched (w_kern w) c x er ew ->
  handled (ngx_handle_read_event (HAct := epoll_actions) (c_read x) flags) w c x (c_read x) er (fun er => (er, ew)).
Proof.
  intros Hwf Hcl Hk. pose proof Hwf as [_ Hr _ _ _ _].
  destruct (ev_active er || ev_ready er) eqn:Hon.
  - apply handled_idle; [done..|]. unfold ngx_handle_read_event, ev_rd. rewrite rd_g_step, !(rd_at_step _ _ _ _ _ _ Hr), Hcl.
    by destruct (ev_active er), (ev_ready er).
  - pose proof Hon as [Ha Hrd]%orb_false_iff.
    assert (Hrun := epoll_add_run w c x er ew _ _ _ _ Hwf Ha (or_introl (conj eq_refl (conj eq_refl (conj eq_refl eq_refl))))).
    destruct (sys_epoll_ctl _ _ _ _ (w_kern w)) as [r k] eqn:Hctl in Hrun.
    eapply (handled_ctl _ _ _ _ _ _ _ r k); [done | done | done | done | |].
    + cbn [fst snd]. rewrite Ha. unfold epoll_mask. rsimpl. rewrite <- Hctl. by destruct (ev_active ew).
    + unfold ngx_handle_read_event, ev_rd. rewrite rd_g_step, !(rd_at_step _ _ _ _ _ _ Hr), Hcl, Ha, Hrd. cbn [negb andb].
      destruct r; by rewrite (bind_step _ _ _ _ _ Hrun).
Qed.

Lemma handle_write_epoll low w c x er ew :
  wf_conn w c x er ew -> ev_instance er = ev_instance ew -> has (w_flags w) NGX_USE_CLEAR_EVENT = true -> watched (w_kern w) c x er ew ->
  handled (ngx_handle_write_event (HAct := epoll_actions) low (c_write x) 0) w c x (c_write x) ew (fun ew => (er, ew)).
Proof.
  intros Hwf Hin Hcl Hk. pose proof Hwf as [_ _ Hw _ _ _].
  destruct (ev_active ew || ev_ready ew) eqn:Hon.
  - apply handled_idle; [done..|]. unfold ngx_handle_write_event, ev_rd. change (0 =? 0) with true. cbv iota. rewrite bind_ret.
    change (NGX_OK =? NGX_ERROR) with false. cbv iota. rewrite rd_g_step, !(rd_at_step _ _ _ _ _ _ Hw), Hcl.
    by destruct (ev_active ew), (ev_ready ew).
  - pose proof Hon as [Ha Hrd]%orb_false_iff.
    assert (Hrun := epoll_add_run w c x er ew _ _ _ _ Hwf Ha (or_intror (conj eq_refl (conj eq_refl (conj eq_refl eq_refl))))).
    destruct (sys_epoll_ctl _ _ _ _ (w_kern w)) as [r k] eqn:Hctl in Hrun.
    eapply (handled_ctl _ _ _ _ _ _ _ r k); [done | done | done | done | |].
    + cbn [fst snd]. rewrite Ha, orb_false_r. unfold epoll_mask. rsimpl. rewrite <- Hctl. by destruct (ev_active er).
    + unfold ngx_handle_write_event, ev_rd. change (0 =? 0) with true. cbv iota. rewrite bind_ret.
      change (NGX_OK =? NGX_ERROR) with false. cbv iota.
      rewrite rd_g_step, !(rd_at_step _ _ _ _ _ _ Hw), Hcl, Ha, Hrd. cbn [negb andb].
      destruct r; by rewrite (bind_step _ _ _ _ _ Hrun).
Qed.
End Watched.

(** * The theorems *)

(** C15.  [ngx_handle_read_event], and [ngx_handle_write_event] without a
    low-water mark, with the epoll backend.  The kernel's interest list has the
    connection's descriptor with exactly the directions whose events are active,
    edge-triggered and tagged with the connection and its instance, and both calls
    keep it so.  An event that is active or ready costs no system call and the
    result is [NGX_OK].  Otherwise there is one [epoll_ctl], which adds the
    direction of the event to the one that is already watched: when the kernel
    accepts it the event becomes active and the result is [NGX_OK], and when the
    kernel refuses it nothing changes and the result is [NGX_ERROR].  What the
    kernel watches on other descriptors, and the rest of the state, stay. *)
Theorem handle_events_correct {HPerl : Perl} {HKern : Kernel} {HLaws : EpollLaws HKern} low w c x er ew flags :
  wf_conn w c x er ew -> ev_instance er = ev_instance ew -> has (w_flags w) NGX_USE_CLEAR_EVENT = true ->
  watched (w_kern w) c x er ew ->
  handled (ngx_handle_read_event (HAct := epoll_actions) (c_read x) flags) w c x (c_read x) er (fun er => (er, ew)) /\
  handled (ngx_handle_write_event (HAct := epoll_actions) low (c_write x) 0) w c x (c_write x) ew (fun ew => (er, ew)).
Proof.
  intros Hwf Hin Hcl Hk. split; [by apply handle_read_epoll | by apply handle_write_epoll].
Qed.

(** * Witnesses *)

Import Systems.
Local Existing Instance scripted_kernel.
Definition backend_perl : Perl := perl_of no_subs.
Local Existing Instance backend_perl.

Definition backend_world : world := small_world (mk_scalars ∅ 1000 : interp) no_answers.
Definition backend_conn : ngx_connection_t :=
  zero_conn <| c_read := 110 |> <| c_write := 120 |> <| c_fd := -1 |>.
Definition backend_rev : ngx_event_t := zero_event <| ev_data := 100 |>.
Definition backend_wev : ngx_event_t := zero_event <| ev_data := 100 |> <| ev_write := true |>.

Lemma backend_world_wf : wf_conn backend_world 100 backend_conn backend_rev backend_wev.
Proof. by split. Qed.

(** The kernel of the witnesses with its interest list. *)
Definition watching_kernel : Kernel :=
  tracing_kernel (fun fd (t : gmap Z (Z * Z)) => delete fd t) (fun _ _ t => t) (fun _ _ _ t => t)
    (fun op fd events data r t =>
       match r with
       | inl _ => if op =? EPOLL_CTL_DEL then delete fd t else <[fd := (events, data)]> t
       | inr _ => t
       end).
#[local] Instance watching_laws : EpollLaws watching_kernel.
Proof.
  refine (Build_EpollLaws watching_kernel (fun (k : @kern watching_kernel) fd => k.2 !! fd) _).
  intros op fd events data k. cbn [watching_kernel tracing_kernel sys_epoll_ctl]. unfold traced.
  destruct (sys_epoll_ctl (Kernel := scripted_kernel) _ _ _ _ _) as [[u|err] a]; [|done]. intros fd'. cbn [snd].
  destruct (Z.eqb_spec fd' fd) as [->|Hne], (op =? EPOLL_CTL_DEL);
    rewrite ?lookup_delete_eq, ?lookup_insert_eq, ?lookup_delete_ne, ?lookup_insert_ne; done.
Defined.

(** A connection that is watched for reading, on a kernel that takes one more
    direction and one that refuses it. *)
Definition watched_rev : ngx_event_t := backend_rev <| ev_active := true |>.
Definition watched_conn : ngx_connection_t := backend_conn <| c_fd := 5 |>.
Definition watched_world (a : answers) : @world backend_perl watching_kernel :=
  with_kernel (K := watching_kernel) (a, {[ 5 := (Z.lor EPOLLIN EPOLLET, tag 100 false) ]})
    (backend_world <| w_conns := <[100 := watched_conn]> (w_conns backend_world) |> <| w_events := <[110 := watched_rev]> (w_events backend_world) |>).
Lemma watched_world_wf a : wf_conn (watched_world a) 100 watched_conn watched_rev backend_wev.
Proof. by split. Qed.

Lemma handle_events_correct_witness :
  (handled (ngx_handle_read_event 110 0) (watched_world no_answers) 100 watched_conn 110 watched_rev (fun er => (er, backend_wev)) /\
   handled (ngx_handle_write_event (fun _ _ => rfault) 120 0) (watched_world no_answers) 100 watched_conn 120 backend_wev (fun ew => (watched_rev, ew))) /\
  (handled (ngx_handle_read_event 110 0) (watched_world (no_answers <| a_ctl := [inr 28] |>)) 100 watched_conn 110 watched_rev (fun er => (er, backend_wev)) /\
   handled (ngx_handle_write_event (fun _ _ => rfault) 120 0) (watched_world (no_answers <| a_ctl := [inr 28] |>)) 100 watched_conn 120 backend_wev (fun ew => (watched_rev, ew))).
Proof.
  split.
  - apply (handle_events_correct (fun _ _ => rfault) (watched_world no_answers) 100 watched_conn watched_rev backend_wev 0).
    + apply watched_world_wf.
    + reflexivity.
    + reflexivity.
    + intros _. reflexivity.
  - apply (handle_events_correct (fun _ _ => rfault) (watched_world (no_answers <| a_ctl := [inr 28] |>)) 100 watched_conn watched_rev backend_wev 0).
    + apply watched_world_wf.
    + reflexivity.
    + reflexivity.
    + intros _. reflexivity.
Defined.

End Backend.
