(* ===== verification/Connection.v ===== *)
(** Connections: the free list and the closing of ngx_connection.c, and the
    socket operations of ngx_recv.c and ngx_send.c. *)
From stdpp Require Import base gmap list numbers.
From S2P Require Import Prelude Rbtree World Timer Event.
Local Open Scope Z_scope.
Import World Timer Event.

Module Connection.

Definition NGX_INVALID_INDEX : Z := 0xd0d0d0d0.

(** [ngx_connection_log_error_e] *)
Definition NGX_ERROR_ALERT : Z := 0.
Definition NGX_ERROR_ERR : Z := 1.
Definition NGX_ERROR_INFO : Z := 2.
Definition NGX_ERROR_IGNORE_ECONNRESET : Z := 3.
Definition NGX_ERROR_IGNORE_EINVAL : Z := 4.

Section Connection.
Context {HPerl : Perl} {HKern : Kernel}.
Local Open Scope run_scope.

(** [ngx_memzero] of an event and of a connection, the timer node included. *)
Definition memzero_event (e : ptr) : W unit :=
  fun w => match w_events w !! e, Rbtree.nodes (w_tree w) !! e with
           | Some _, Some _ =>
               Done tt (w <| w_events := <[e := zero_event]> (w_events w) |>
                          <| w_tree := Rbtree.mk_rb
                               (<[e := Rbtree.mk_node 0 NULL NULL NULL 0]> (Rbtree.nodes (w_tree w)))
                               (Rbtree.root (w_tree w)) |>)
           | _, _ => Fault
           end.
Definition memzero_conn (c : ptr) : W unit :=
  fun w => match w_conns w !! c with
           | Some _ => Done tt (w <| w_conns := <[c := zero_conn]> (w_conns w) |>)
           | None => Fault
           end.

(** [ngx_cycle->files[s] = v] when [ngx_cycle->files] is set. *)
Definition files_wr (s : Z) (v : ptr) : W unit :=
  fun w => match w_files w with
           | None => Done tt w
           | Some files => if (0 <=? s) && (s <? w_files_n w)
                           then Done tt (w <| w_files := Some (<[s := v]> files) |>)
                           else Fault
           end.

Definition ngx_get_connection (s : Z) : W ptr :=
  do! files := rd_g w_files in
  do! files_n := rd_g w_files_n in
  if (match files with Some _ => true | None => false end) && (files_n <=? u64 s) then rret NULL
  else
    do! c := rd_g w_free in
    if c =? NULL then rret NULL
    else
      do! next := c_rd c c_data in
      wr_g w_free next ;;;
      do! n := rd_g w_free_n in
      wr_g w_free_n (u64 (n - 1)) ;;;
      files_wr s c ;;;
      do! rev := c_rd c c_read in
      do! wev := c_rd c c_write in
      memzero_conn c ;;;
      c_wr c c_read rev ;;;
      c_wr c c_write wev ;;;
      c_wr c c_fd s ;;;
      do! instance := ev_rd rev ev_instance in
      memzero_event rev ;;;
      memzero_event wev ;;;
      ev_wr rev ev_instance (negb instance) ;;;
      ev_wr wev ev_instance (negb instance) ;;;
      ev_wr rev ev_index NGX_INVALID_INDEX ;;;
      ev_wr wev ev_index NGX_INVALID_INDEX ;;;
      ev_wr rev ev_data c ;;;
      ev_wr wev ev_data c ;;;
      ev_wr wev ev_write true ;;;
      rret c.

Definition ngx_free_connection (c : ptr) : W unit :=
  do! free := rd_g w_free in
  c_wr c c_data free ;;;
  wr_g w_free c ;;;
  do! n := rd_g w_free_n in
  wr_g w_free_n (u64 (n + 1)) ;;;
  do! fd := c_rd c c_fd in
  files_wr fd NULL.

(** [ngx_connection_error]: the error is logged, or ignored with result 0. *)
Definition ngx_connection_error (c : ptr) (err : Z) : W Z :=
  do! log_error := c_rd c c_log_error in
  if (err =? NGX_ECONNRESET) && (log_error =? NGX_ERROR_IGNORE_ECONNRESET) then rret 0
  else rret NGX_ERROR.

(** * Socket operations *)

(** The loop of [ngx_unix_recv] (without kqueue) repeats [recv] when a signal
    interrupted it.  [buf] is the buffer of the scalar [sv] from [off] on. *)
Fixpoint ngx_unix_recv (fuel : nat) (c : ptr) (sv : ptr) (off size : Z) : W Z :=
  match fuel with
  | O => fun _ => NoFuel
  | S fuel =>
      do! rev := c_rd c c_read in
      do! fd := c_rd c c_fd in
      do! r := sys (sys_recv fd size) in
      match r with
      | inl [] =>
          ev_wr rev ev_ready false ;;;
          ev_wr rev ev_eof true ;;;
          rret 0
      | inl l =>
          let n := Z.of_nat (length l) in
          perl_do (sv_poke sv off l) ;;;
          do! ngx_event_flags := rd_g w_flags in
          (when (n <? size) && negb (has ngx_event_flags NGX_USE_GREEDY_EVENT)
           then ev_wr rev ev_ready false) ;;;
          rret n
      | inr err =>
          if err =? NGX_EINTR then ngx_unix_recv fuel c sv off size
          else
            do! n := (if err =? NGX_EAGAIN then rret NGX_AGAIN else ngx_connection_error c err) in
            ev_wr rev ev_ready false ;;;
            (when n =? NGX_ERROR then ev_wr rev ev_error true) ;;;
            rret n
      end
  end.

Fixpoint ngx_unix_send (fuel : nat) (c : ptr) (buf : list Z) : W Z :=
  match fuel with
  | O => fun _ => NoFuel
  | S fuel =>
      do! wev := c_rd c c_write in
      do! fd := c_rd c c_fd in
      let size := Z.of_nat (length buf) in
      do! r := sys (sys_send fd buf) in
      match r with
      | inl n =>
          if 0 <? n then
            (when n <? size then ev_wr wev ev_ready false) ;;;
            do! sent := c_rd c c_sent in
            c_wr c c_sent (sent + n) ;;;
            rret n
          else ev_wr wev ev_ready false ;;; rret n
      | inr err =>
          if (err =? NGX_EAGAIN) || (err =? NGX_EINTR) then
            ev_wr wev ev_ready false ;;;
            if err =? NGX_EAGAIN then rret NGX_AGAIN else ngx_unix_send fuel c buf
          else
            ev_wr wev ev_error true ;;;
            do! rc := ngx_connection_error c err in
            rret NGX_ERROR
      end
  end.

End Connection.

Section Close.
Context {HPerl : Perl} {HKern : Kernel} {HAct : EventActions}.
Local Open Scope run_scope.

(** The parts of [ngx_close_connection]: the timers, the backend, the posted
    queues, and the release of the connection and its descriptor.  What it
    logs when [close] fails is left out. *)
Definition close_timers (rev wev : ptr) : W unit :=
  do! rset := ev_rd rev ev_timer_set in
  (when rset then ngx_event_del_timer rev) ;;;
  do! wset := ev_rd wev ev_timer_set in
  when wset then ngx_event_del_timer wev.

Definition close_events (c rev wev : ptr) : W unit :=
  match ngx_del_conn with
  | Some del_conn => do! rc := del_conn c NGX_CLOSE_EVENT in rret tt
  | None =>
      do! ra := ev_rd rev ev_active in
      do! rd := ev_rd rev ev_disabled in
      (when ra || rd then
         do! rc := ngx_del_event rev NGX_READ_EVENT NGX_CLOSE_EVENT in rret tt) ;;;
      do! wa := ev_rd wev ev_active in
      do! wd := ev_rd wev ev_disabled in
      when wa || wd then
        do! rc := ngx_del_event wev NGX_WRITE_EVENT NGX_CLOSE_EVENT in rret tt
  end.

Definition close_posted (rev wev : ptr) : W unit :=
  do! rprev := ev_rd rev ev_prev in
  (when negb (bool_decide (rprev = Q_NULL)) then ngx_delete_posted_event rev) ;;;
  do! wprev := ev_rd wev ev_prev in
  when negb (bool_decide (wprev = Q_NULL)) then ngx_delete_posted_event wev.

Definition close_release (c rev wev : ptr) : W unit :=
  ev_wr rev ev_closed true ;;;
  ev_wr wev ev_closed true ;;;
  ngx_free_connection c ;;;
  do! fd := c_rd c c_fd in
  c_wr c c_fd (-1) ;;;
  do! rc := sys (sys_close fd) in
  rret tt.

Definition ngx_close_connection (c : ptr) : W unit :=
  do! fd := c_rd c c_fd in
  if fd =? -1 then rret tt
  else
    do! rev := c_rd c c_read in
    do! wev := c_rd c c_write in
    close_timers rev wev ;;;
    close_events c rev wev ;;;
    close_posted rev wev ;;;
    close_release c rev wev.

End Close.
End Connection.
