(* ===== verification/FreeList.v ===== *)
(** The free list of connections: what [ngx_get_connection] and
    [ngx_free_connection] do to it and to the connection. *)
From stdpp Require Import base numbers gmap list.
From S2P Require Import Prelude Rbtree RbtreeRep RbtreeInsert RbtreeTheorems World Systems Timer Event Backend Connection.
Local Open Scope Z_scope.
Import World Timer Event Backend Connection.

Module FreeList.

(** [chain d p F]: following [d] from [p] gives the connections [F]. *)
Fixpoint chain (d : gmap ptr ptr) (p : ptr) (F : list ptr) : Prop :=
  match F with
  | [] => p = NULL
  | c :: F => p = c /\ c <> NULL /\ exists n, d !! c = Some n /\ chain d n F
  end.

Lemma chain_insert_ne d p F c n : c ∉ F -> chain d p F -> chain (<[c := n]> d) p F.
Proof.
  revert p. induction F as [|c' F IH]; intros p Hc; simpl; [done|].
  intros (-> & Hn & n' & Hd & Hch). split_and!; [done | done |]. exists n'.
  rewrite lookup_insert_ne by set_solver. split; [done | apply IH; set_solver].
Qed.

Section FreeList.
Context {HPerl : Perl} {HKern : Kernel}.

(** The free connections are [F], the first to be used first; none is twice in
    the list, and [free_connection_n] counts them. *)
Definition free_list (w : world) (F : list ptr) : Prop :=
  NoDup F /\ chain (c_data <$> w_conns w) (w_free w) F /\
  w_free_n w = Z.of_nat (length F) /\ Z.of_nat (length F) < 2 ^ 64.

Lemma free_list_frame w w' F :
  c_data <$> w_conns w' = c_data <$> w_conns w -> w_free w' = w_free w -> w_free_n w' = w_free_n w ->
  free_list w F -> free_list w' F.
Proof. intros Hd Hf Hn. unfold free_list. by rewrite Hd, Hf, Hn. Qed.

(** ** Freeing *)

Definition freed (c : ptr) (x : ngx_connection_t) (w : world) : world :=
  w <| w_conns := <[c := x <| c_data := w_free w |>]> (w_conns w) |>
    <| w_free := c |> <| w_free_n := u64 (w_free_n w + 1) |>.

Lemma free_connection_run w c x :
  w_conns w !! c = Some x -> w_files w = None -> ngx_free_connection c w = Done tt (freed c x w).
Proof.
  intros Hc Hf. unfold ngx_free_connection. unfold_accessors. repeat step.
  unfold files_wr. rsimpl. by rewrite Hf.
Qed.

Lemma freed_list w c x F :
  w_conns w !! c = Some x -> c ∉ F -> c <> NULL -> Z.of_nat (length F) + 1 < 2 ^ 64 ->
  free_list w F -> free_list (freed c x w) (c :: F).
Proof.
  intros Hc HcF Hnull Hlen (Hnd & Hch & Hn & Hb). unfold free_list, freed. rsimpl. rewrite Hn.
  split_and!; [by constructor | | rewrite u64_small by lia; simpl; lia | simpl; lia].
  split_and!; [done | done |]. exists (w_free w). rewrite fmap_insert, lookup_insert_eq.
  split; [done | by apply chain_insert_ne].
Qed.

(** ** Taking one *)

Definition node_zero : Rbtree.ngx_rbtree_node_t := Rbtree.mk_node 0 NULL NULL NULL 0.

Definition fresh_conn (r wv : ptr) (fd : Z) : ngx_connection_t :=
  zero_conn <| c_read := r |> <| c_write := wv |> <| c_fd := fd |>.
Definition fresh_event (c : ptr) (instance write : bool) : ngx_event_t :=
  zero_event <| ev_instance := instance |> <| ev_index := NGX_INVALID_INDEX |>
    <| ev_data := c |> <| ev_write := write |>.

Definition taken (c : ptr) (x : ngx_connection_t) (er : ngx_event_t) (s : Z) (w : world) : world :=
  w <| w_free := c_data x |> <| w_free_n := u64 (w_free_n w - 1) |>
    <| w_conns := <[c := fresh_conn (c_read x) (c_write x) s]> (w_conns w) |>
    <| w_events := <[c_write x := fresh_event c (negb (ev_instance er)) true]>
                     (<[c_read x := fresh_event c (negb (ev_instance er)) false]> (w_events w)) |>
    <| w_tree := Rbtree.mk_rb (<[c_write x := node_zero]> (<[c_read x := node_zero]>
                   (Rbtree.nodes (w_tree w)))) (Rbtree.root (w_tree w)) |>.

Lemma memzero_event_run w e ev n :
  w_events w !! e = Some ev -> Rbtree.nodes (w_tree w) !! e = Some n ->
  memzero_event e w = Done tt (w <| w_events := <[e := zero_event]> (w_events w) |>
    <| w_tree := Rbtree.mk_rb (<[e := node_zero]> (Rbtree.nodes (w_tree w))) (Rbtree.root (w_tree w)) |>).
Proof. intros He Hn. unfold memzero_event. by rewrite He, Hn. Qed.

Lemma insert2_collapse {A} (m : gmap ptr A) a b x x' y y' :
  a <> b -> <[b := y]> (<[a := x]> (<[b := y']> (<[a := x']> m))) = <[b := y]> (<[a := x]> m).
Proof.
  intros Hne. apply map_eq. intros e. destruct (decide (e = b)) as [->|]; [by rewrite !lookup_insert_eq|].
  rewrite !(lookup_insert_ne _ b) by done. destruct (decide (e = a)) as [->|]; [by rewrite !lookup_insert_eq|].
  by rewrite !lookup_insert_ne by done.
Qed.

Lemma init_events_run w r wv c i er ew :
  w_events w !! r = Some er -> w_events w !! wv = Some ew -> r <> wv ->
  (ev_wr r ev_instance i ;;; ev_wr wv ev_instance i ;;;
   ev_wr r ev_index NGX_INVALID_INDEX ;;; ev_wr wv ev_index NGX_INVALID_INDEX ;;;
   ev_wr r ev_data c ;;; ev_wr wv ev_data c ;;; ev_wr wv ev_write true ;;; rret c)%run w
  = Done c (w <| w_events :=
      <[wv := ew <| ev_instance := i |> <| ev_index := NGX_INVALID_INDEX |> <| ev_data := c |> <| ev_write := true |>]>
     (<[r := er <| ev_instance := i |> <| ev_index := NGX_INVALID_INDEX |> <| ev_data := c |>]> (w_events w)) |>).
Proof.
  intros Hr Hw Hne. unfold_accessors. repeat step. rsimpl. unfold rret. f_equal.
  match goal with |- w <| w_events := ?a |> = w <| w_events := ?b |> => enough (a = b) as -> by done end.
  apply map_eq. intros e. rewrite insert_insert_eq.
  destruct (decide (e = r)) as [->|].
  - rewrite lookup_insert_ne, lookup_insert_eq by done.
    by rewrite lookup_insert_ne, lookup_insert_eq by done.
  - destruct (decide (e = wv)) as [->|]; [by rewrite !lookup_insert_eq|].
    by rewrite !lookup_insert_ne by done.
Qed.

Lemma get_connection_run w c x er ew s :
  wf_conn w c x er ew -> w_free w = c -> c <> NULL -> w_files w = None ->
  is_Some (Rbtree.nodes (w_tree w) !! c_read x) -> is_Some (Rbtree.nodes (w_tree w) !! c_write x) ->
  ngx_get_connection s w = Done c (taken c x er s w).
Proof.
  intros [Hc Hr Hw Hne _ _] Hfree Hnull Hf [nr Hnr] [nw Hnw].
  unfold ngx_get_connection, c_rd, c_wr, ev_rd. do 2 step. rewrite Hf. cbn [andb]. step. rewrite Hfree.
  destruct (Z.eqb_spec c NULL) as [|_]; [done|]. do 4 step.
  erewrite bind_step by (unfold files_wr; rsimpl; by rewrite Hf). do 2 step.
  erewrite bind_step by (unfold memzero_conn; rsimpl; rewrite Hc; reflexivity).
  rsimpl. do 4 step.
  erewrite bind_step by (eapply memzero_event_run; look).
  erewrite bind_step by (eapply memzero_event_run; [look | rsimpl; cbn [Rbtree.nodes]; look]).
  etrans; [eapply init_events_run; look || done|]. rsimpl. rewrite !insert_insert_eq. f_equal.
  unfold taken, fresh_conn, fresh_event. rewrite insert2_collapse by done. reflexivity.
Qed.

(** * Invariants *)

Lemma taken_list w c x er s F :
  w_conns w !! c = Some x -> free_list w (c :: F) -> free_list (taken c x er s w) F.
Proof.
  intros Hc (Hnd & (Hf & _ & n & Hd & Hch) & Hn & Hb). apply list.NoDup_cons in Hnd as [HcF Hnd].
  rewrite lookup_fmap, Hc in Hd. injection Hd as <-. unfold free_list, taken. rsimpl. rewrite Hn.
  split_and!; [done | | | simpl in Hb; lia].
  - rewrite fmap_insert. by apply chain_insert_ne.
  - simpl length in *. rewrite u64_small; lia.
Qed.

Lemma taken_timers base w c x er ew s L :
  wf_conn w c x er ew -> timers base w L -> ev_timer_set er = false -> ev_timer_set ew = false ->
  timers base (taken c x er s w) L.
Proof.
  intros [Hc Hr Hw Hne _ _] Ht Hsr Hsw.
  assert (HrL : c_read x ∉ L.*1) by (intros Hin; apply (tm_set _ _ _ Ht _ _ Hr) in Hin; congruence).
  assert (HwL : c_write x ∉ L.*1) by (intros Hin; apply (tm_set _ _ _ Ht _ _ Hw) in Hin; congruence).
  assert (Hdom : forall e, is_Some (w_events (taken c x er s w) !! e) <-> is_Some (w_events w !! e)).
  { intros e. unfold taken. rsimpl. rewrite !lookup_insert_is_Some'. naive_solver. }
  constructor.
  - eapply RbtreeTheorems.holds_frame; [apply (tm_holds _ _ _ Ht) | done |].
    intros p Hp. unfold taken. rsimpl. cbn [Rbtree.nodes].
    destruct (tm_node _ _ _ Ht (c_read x)) as [_ ?]; [by eexists|].
    destruct (tm_node _ _ _ Ht (c_write x)) as [_ ?]; [by eexists|].
    rewrite !lookup_insert_ne by set_solver. done.
  - apply (tm_ordered _ _ _ Ht).
  - apply (tm_window _ _ _ Ht).
  - intros e ev. unfold taken. rsimpl. rewrite !lookup_insert_Some.
    intros [[<- <-]|[_ [[<- <-]|[_ He]]]]; [set_solver.. | by apply (tm_set _ _ _ Ht)].
  - intros e He. apply Hdom. by apply (tm_event _ _ _ Ht).
  - intros e He. apply Hdom in He. destruct (tm_node _ _ _ Ht e He) as [Hn Hs]. split; [|done].
    unfold taken. rsimpl. cbn [Rbtree.nodes]. rewrite !lookup_insert_is_Some'. auto.
Qed.

End FreeList.

(** * The theorems *)

(** C17.  [ngx_get_connection] takes the first free connection and hands it
    out as if new: everything but its two events' addresses is zeroed, the
    events are zeroed too, both get the opposite of the last [instance] bit,
    the timers and the other connections and events stay.  With no free
    connection it returns NULL and changes nothing.  [ngx_free_connection]
    followed by [ngx_get_connection] gives the same connection again: the free
    list is a stack. *)
Theorem free_list_correct {HPerl : Perl} {HKern : Kernel} base w c x er ew s F L :
  wf_conn w c x er ew -> timers base w L -> w_files w = None ->
  (free_list w (c :: F) -> ev_timer_set er = false -> ev_timer_set ew = false ->
   exists w', ngx_get_connection s w = Done c w' /\ free_list w' F /\ timers base w' L /\
    w_conns w' = <[c := fresh_conn (c_read x) (c_write x) s]> (w_conns w) /\
    wf_conn w' c (fresh_conn (c_read x) (c_write x) s)
      (fresh_event c (negb (ev_instance er)) false) (fresh_event c (negb (ev_instance er)) true) /\
    (forall e, e <> c_read x -> e <> c_write x -> w_events w' !! e = w_events w !! e)) /\
  (free_list w [] -> ngx_get_connection s w = Done NULL w) /\
  (free_list w F -> c ∉ F -> c <> NULL -> Z.of_nat (length F) + 1 < 2 ^ 64 ->
   exists w1 w2, ngx_free_connection c w = Done tt w1 /\ free_list w1 (c :: F) /\
     ngx_get_connection s w1 = Done c w2).
Proof.
  intros Hwf Ht Hfiles. pose proof Hwf as [Hc Hr Hw Hne Hdr Hdw]. split_and!.
  - intros Hfl Hsr Hsw. pose proof Hfl as (_ & (Hfree & Hnull & _) & _). exists (taken c x er s w). split_and!.
    + apply (get_connection_run w c x er ew); [done.. | |]; apply (tm_node _ _ _ Ht); by eexists.
    + by apply taken_list.
    + by eapply taken_timers.
    + done.
    + split; [unfold taken; rsimpl; apply lookup_insert_eq | unfold taken; look | unfold taken; look | done..].
    + intros e H1 H2. unfold taken. rsimpl. by rewrite !lookup_insert_ne by done.
  - intros (_ & Hch & _). simpl in Hch.
    unfold ngx_get_connection. do 2 step. rewrite Hfiles. cbn [andb]. step. by rewrite Hch.
  - intros Hfl HcF Hnull Hlen.
    exists (freed c x w), (taken c (x <| c_data := w_free w |>) er s (freed c x w)).
    split_and!; [by apply free_connection_run | by apply freed_list |].
    apply (get_connection_run _ c _ er ew); [|done..| |].
    + split; [unfold freed; look | done..].
    + apply (tm_node _ _ _ Ht (c_read x)). by eexists.
    + apply (tm_node _ _ _ Ht (c_write x)). by eexists.
Qed.

(** * Witnesses *)

Import Systems.
Local Existing Instance scripted_kernel.
Definition free_perl : Perl := perl_of no_subs.
Local Existing Instance free_perl.

Definition free_world : world := small_world (mk_scalars ∅ 1000 : interp) no_answers.
Definition free_conn : ngx_connection_t :=
  zero_conn <| c_read := 110 |> <| c_write := 120 |> <| c_fd := -1 |>.
Definition free_rev : ngx_event_t := zero_event <| ev_data := 100 |>.
Definition free_wev : ngx_event_t := zero_event <| ev_data := 100 |> <| ev_write := true |>.

Lemma free_world_wf : wf_conn free_world 100 free_conn free_rev free_wev.
Proof. by split. Qed.

(** No timer is armed when the tree is empty and no event says so. *)
Lemma timers_nil base (w : world) :
  w_tree w = Rbtree.mk_rb (list_to_map [(8, node0); (110, node0); (120, node0)]) 8 ->
  (forall e ev, w_events w !! e = Some ev -> ev_timer_set ev = false /\ (e = 110 \/ e = 120)) ->
  timers base w [].
Proof.
  intros Htree Hev. constructor; [|constructor|set_solver| |set_solver|].
  - rewrite Htree. exists node0, 0, RbtreeRep.E, 0%nat. split_and!; [|constructor|done].
    constructor; [done | done | apply (bool_decide_unpack _); by vm_compute | done].
  - intros e ev He. destruct (Hev e ev He) as [-> _]. set_solver.
  - intros e [ev He]. rewrite Htree. destruct (Hev e ev He) as [_ [-> | ->]]; (split; [by eexists | done]).
Qed.

Lemma free_world_timers : timers 0 free_world [].
Proof.
  apply timers_nil; [done|]. intros e ev. simpl. rewrite !lookup_insert_Some, lookup_empty.
  intros [[<- <-]|[? [[<- <-]|[? ?]]]]; [by auto..|done].
Qed.

Lemma free_list_correct_witness :
  exists w', ngx_get_connection 7 free_world = Done 100 w' /\ free_list w' [] /\ timers 0 w' [] /\
    w_conns w' = <[100 := fresh_conn 110 120 7]> (w_conns free_world).
Proof.
  destruct (free_list_correct 0 free_world 100 free_conn free_rev free_wev 7 [] []) as (Hget & _ & _).
  - apply free_world_wf.
  - apply free_world_timers.
  - reflexivity.
  - destruct Hget as (w' & Hrun & Hf & Ht & Hc & _).
    + split_and!; [repeat constructor; set_solver | split_and!; [done | done |] | done | done].
      exists 0. done.
    + reflexivity.
    + reflexivity.
    + by exists w'.
Defined.

End FreeList.
