(* ===== verification/Close.v ===== *)
(** The invariant of timers, posted queues and free list together, and the
    closing of a connection ([ngx_close_connection]) with respect to it. *)
From stdpp Require Import base numbers gmap list.
From S2P Require Import Prelude Rbtree RbtreeRep RbtreeTheorems World Systems Timer Event PostedQueue Backend Connection FreeList.
Local Open Scope Z_scope.
Import World Timer Event PostedQueue Backend Connection FreeList.

Module Close.

Ltac run_to H := rewrite (bind_step _ _ _ _ _ H); cbv beta.

Section Close.
Context {HPerl : Perl} {HKern : Kernel}.

(** [inv base w L LA LP F]: [L] are the armed timers, [LA] and [LP] the posted
    events, [F] the free connections. *)
Record inv (base : Z) (w : world) (L : list (Z * Z)) (LA LP F : list ptr) : Prop := mk_inv {
  iv_timers : timers base w L;
  iv_accept : posted Q_accept w LA;
  iv_posted : posted Q_posted w LP;
  iv_links : forall e ev, w_events w !! e = Some ev -> ev_prev ev <> Q_NULL -> e ∈ LA ++ LP;
  iv_free : free_list w F;
  iv_files : w_files w = None
}.

(** ** What the parts depend on *)

Lemma timers_frame base w w' L :
  w_tree w' = w_tree w ->
  ev_timer_set <$> w_events w' = ev_timer_set <$> w_events w ->
  timers base w L -> timers base w' L.
Proof.
  intros Htree Hset [H1 H2 H3 H4 H5 H6].
  assert (Hl : forall e, ev_timer_set <$> w_events w' !! e = ev_timer_set <$> w_events w !! e).
  { intros e. rewrite <- !lookup_fmap. by rewrite Hset. }
  assert (Hs : forall e, is_Some (w_events w' !! e) <-> is_Some (w_events w !! e)).
  { intros e. specialize (Hl e). rewrite <- (fmap_is_Some ev_timer_set), Hl. apply fmap_is_Some. }
  constructor; [by rewrite Htree | done | done | | |].
  - intros e ev He. specialize (Hl e). rewrite He in Hl.
    destruct (w_events w !! e) as [ev0|] eqn:He0; [|done]. injection Hl as ->. by apply H4.
  - intros e He. apply Hs. by apply H5.
  - intros e He. rewrite Htree. apply H6. by apply Hs.
Qed.

Definition links (ev : ngx_event_t) : ptr * qref := (ev_next ev, ev_prev ev).

Lemma posted_frame q w w' L :
  head_of q w' = head_of q w -> links <$> w_events w' = links <$> w_events w ->
  posted q w L -> posted q w' L.
Proof.
  intros Hh Hl (Hq & Hnd & Hseg). split_and!; [done | done |]. rewrite Hh.
  eapply seg_frame; [|done]. intros x Hx. destruct (seg_prev _ _ _ _ _ _ Hx Hseg) as (ev & Hev & _).
  assert (links <$> w_events w' !! x = Some (links ev)) as Hx'.
  { rewrite <- lookup_fmap, Hl, lookup_fmap, Hev. done. }
  destruct (w_events w' !! x) as [ev'|] eqn:Hev'; [|done]. injection Hx' as Hn Hp.
  exists ev, ev'. done.
Qed.

Lemma fmap_put {A} (g : ngx_event_t -> A) (m : gmap ptr ngx_event_t) e ev ev' :
  m !! e = Some ev -> g ev' = g ev -> g <$> <[e := ev']> m = g <$> m.
Proof. intros He Hg. rewrite fmap_insert, Hg. apply insert_id. by rewrite lookup_fmap, He. Qed.

(** An event changed in anything but its timer flag and its links. *)
Lemma inv_put_event base w L LA LP F e ev ev' :
  inv base w L LA LP F -> w_events w !! e = Some ev ->
  ev_timer_set ev' = ev_timer_set ev -> links ev' = links ev ->
  inv base (put_event e ev' w) L LA LP F.
Proof.
  intros [H1 H2 H3 H4 H5 H6] He Ht Hl. constructor.
  - apply (timers_frame base w); [done | | done]. by eapply fmap_put.
  - apply (posted_frame _ w); [done | | done]. by eapply fmap_put.
  - apply (posted_frame _ w); [done | | done]. by eapply fmap_put.
  - intros e' ev0. unfold put_event. rsimpl. intros [[<- <-]|[_ He']]%lookup_insert_Some Hp; [|by eapply H4].
    apply (H4 e ev); [done|]. injection Hl as _ Hl. congruence.
  - done.
  - done.
Qed.

(** Parts of the world the invariant does not mention. *)
Lemma inv_kern base w L LA LP F k : inv base w L LA LP F -> inv base (w <| w_kern := k |>) L LA LP F.
Proof. intros [[] ? ? ? ? ?]. by constructor; [constructor | ..]. Qed.
Lemma inv_perl base w L LA LP F i : inv base w L LA LP F -> inv base (w <| w_perl := i |>) L LA LP F.
Proof. intros [[] ? ? ? ? ?]. by constructor; [constructor | ..]. Qed.

Lemma inv_put_conn base w L LA LP F c x x' :
  inv base w L LA LP F -> w_conns w !! c = Some x -> c_data x' = c_data x ->
  inv base (w <| w_conns := <[c := x']> (w_conns w) |>) L LA LP F.
Proof.
  intros [[] ? ? ? (Hnd & Hch & Hn & Hb) ?] Hc Hd. constructor; [by constructor | done.. | | done].
  split_and!; [done | | done | done]. rsimpl. rewrite fmap_insert, Hd, insert_id; [done|].
  by rewrite lookup_fmap, Hc.
Qed.

(** ** Disarming an event *)

Lemma with_timer_id w e ev :
  w_events w !! e = Some ev -> ev_timer_set ev = false ->
  with_timer w e (w_tree w) (ev <| ev_timer_set := false |>) = w.
Proof.
  intros He Hs. unfold with_timer. rewrite insert_id; [by destruct w|]. rewrite He.
  destruct ev; simpl in *; congruence.
Qed.

Lemma disarm_timers base w L e ev :
  timers base w L -> w_events w !! e = Some ev ->
  exists t L', (if ev_timer_set ev then ngx_event_del_timer e else rret tt) w
      = Done tt (with_timer w e t (ev <| ev_timer_set := false |>)) /\
    timers base (with_timer w e t (ev <| ev_timer_set := false |>)) L' /\
    (forall y, y ∈ L' <-> y ∈ L /\ y.1 <> e).
Proof.
  intros Ht He. destruct (ev_timer_set ev) eqn:Hs.
  - destruct (in_split_pair L e) as (L1 & k & L2 & ->); [by apply (tm_set _ _ _ Ht e ev He)|].
    destruct (del_timer_ok _ _ _ _ _ _ _ Ht He) as (t & Hrun & Ht').
    exists t, (L1 ++ L2). split_and!; [done | done |].
    pose proof (holds_not_in _ _ _ _ _ _ (tm_holds _ _ _ Ht)) as Hnin.
    intros y. rewrite <- Permutation_middle, elem_of_cons. split; [|naive_solver].
    intros Hy. split; [by right|]. intros <-. apply Hnin. right. apply list_elem_of_fmap. eauto.
  - exists (w_tree w), L. rewrite with_timer_id by done. split_and!; [done | done |].
    intros y. split; [|naive_solver]. intros Hy. split; [done|]. intros <-.
    assert (ev_timer_set ev = true); [|congruence]. apply (tm_set _ _ _ Ht _ _ He).
    apply list_elem_of_fmap. eauto.
Qed.

Lemma inv_disarm base w L LA LP F e ev :
  inv base w L LA LP F -> w_events w !! e = Some ev ->
  exists t L', (if ev_timer_set ev then ngx_event_del_timer e else rret tt) w
      = Done tt (with_timer w e t (ev <| ev_timer_set := false |>)) /\
    inv base (with_timer w e t (ev <| ev_timer_set := false |>)) L' LA LP F /\
    (forall y, y ∈ L' <-> y ∈ L /\ y.1 <> e).
Proof.
  intros [H1 H2 H3 H4 H5 H6] He. destruct (disarm_timers _ _ _ _ _ H1 He) as (t & L' & Hrun & Ht & HL).
  exists t, L'. split_and!; [done | | done]. constructor; [done | | | | done | done].
  - apply (posted_frame _ w); [done | | done]. by eapply fmap_put.
  - apply (posted_frame _ w); [done | | done]. by eapply fmap_put.
  - intros e' ev0. unfold with_timer. rsimpl. intros [[<- <-]|[_ He']]%lookup_insert_Some Hp; [|by eapply H4].
    by apply (H4 e ev).
Qed.

(** ** Taking an event off its queue *)

Lemma head_ne : Q_accept <> Q_posted.
Proof. done. Qed.

Lemma strip_links_inv (m m' : gmap ptr ngx_event_t) :
  strip <$> m' = strip <$> m -> ev_timer_set <$> m' = ev_timer_set <$> m.
Proof.
  intros Hs. assert (forall m : gmap ptr ngx_event_t, ev_timer_set <$> m = ev_timer_set <$> (strip <$> m)) as Hf.
  { intros m0. rewrite <- map_fmap_compose. done. }
  by rewrite Hf, Hs, <- Hf.
Qed.

(** The other queue does not contain the event, and its links stay. *)
Lemma other_queue_same q q' w w' L L' :
  q <> q' -> posted q w L -> posted q' w L' ->
  (forall x, x ∉ L -> w_events w' !! x = w_events w !! x) -> head_of q' w' = head_of q' w ->
  (forall x, x ∈ L -> x ∉ L') -> posted q' w' L'.
Proof.
  intros Hne (Hq & _ & _) (Hq' & Hnd' & Hseg') Hsame Hh Hdisj. split_and!; [done | done |]. rewrite Hh.
  eapply seg_frame; [|done]. intros x Hx. destruct (seg_prev _ _ _ _ _ _ Hx Hseg') as (ev & Hev & _).
  exists ev, ev. rewrite Hsame; [done|]. intros Hin. by eapply Hdisj.
Qed.

(** Whose queue an event is in is determined by its links. *)
Lemma queues_disjoint q q' w L L' x :
  q <> q' -> posted q w L -> posted q' w L' -> x ∈ L -> x ∉ L'.
Proof.
  intros Hne (Hq & Hnd & Hseg) (Hq' & Hnd' & Hseg') Hx.
  apply list_elem_of_split in Hx as (L1 & L2 & ->). clear Hnd Hnd'. revert x L2 Hseg.
  induction L1 as [|y L1 IH] using rev_ind; intros x L2 Hseg Hx'.
  - destruct Hseg as (_ & _ & ev & Hev & Hprev & _).
    destruct (seg_prev _ _ _ _ _ _ Hx' Hseg') as (ev' & Hev' & Hp).
    rewrite Hev in Hev'. injection Hev' as <-.
    destruct Hp as [Hp|(z & _ & Hp)]; [congruence|]. destruct Hq as [Hq|Hq]; congruence.
  - pose proof Hseg as Hseg0. apply seg_app in Hseg0 as (p & _ & (_ & _ & ev & Hev & Hprev & _)).
    rewrite end_ref_snoc in Hprev.
    destruct (seg_prev _ _ _ _ _ _ Hx' Hseg') as (ev' & Hev' & Hp).
    rewrite Hev in Hev'. injection Hev' as <-. destruct Hp as [Hp|(z & Hz & Hp)].
    + destruct Hq' as [Hq'|Hq']; congruence.
    + rewrite <- app_assoc in Hseg. rewrite Hprev in Hp. injection Hp as <-. by eapply IH.
Qed.

Lemma inv_unpost_in q q' w base L LA LP F Lq Lq' e :
  inv base w L LA LP F -> q <> q' -> posted q w Lq -> posted q' w Lq' -> is_head q' -> e ∈ Lq ->
  exists w' Lq2, ngx_delete_posted_event e w = Done tt w' /\ timers base w' L /\ free_list w' F /\
    w_files w' = None /\ posted q w' Lq2 /\ posted q' w' Lq' /\ (forall y, y ∈ Lq2 <-> y ∈ Lq /\ y <> e) /\
    (exists ev, w_events w' !! e = Some ev /\ ev_prev ev = Q_NULL) /\
    (forall y, y ∉ Lq -> w_events w' !! y = w_events w !! y) /\
    strip <$> w_events w' = strip <$> w_events w /\ same_rest w w'.
Proof.
  intros [H1 H2 H3 H4 H5 H6] Hne Hp Hp' Hq' He. apply list_elem_of_split in He as (L1 & L2 & ->).
  destruct (delete_posted_ok _ _ _ _ _ Hp) as (w' & Hrun & Hp2 & He' & Hsame & Hheads & Hrest & Hstrip).
  exists w', (L1 ++ L2). pose proof Hp as (_ & Hnd & _). rewrite <- Permutation_middle in Hnd.
  apply list.NoDup_cons in Hnd as [Hnin _].
  split_and!; [done | | | | done | | | done | done | done | done].
  - apply (timers_frame base w); [|by apply strip_links_inv | done]. by destruct Hrest as (m & a & p & ->).
  - destruct Hrest as (m & a & p & ->). done.
  - destruct Hrest as (m & a & p & ->). done.
  - eapply other_queue_same; [exact Hne | exact Hp | exact Hp' | exact Hsame | by apply Hheads |].
    intros x Hx. eapply (queues_disjoint q q'); [done | exact Hp | exact Hp' | exact Hx].
  - intros y. rewrite <- Permutation_middle, elem_of_cons. split; [|naive_solver].
    intros Hy. split; [by right|]. intros ->. done.
Qed.

(** After the call the event is on no queue; nothing but links changed. *)
Lemma inv_unpost base w L LA LP F e ev :
  inv base w L LA LP F -> w_events w !! e = Some ev ->
  exists w' LA' LP' ev', (if negb (bool_decide (ev_prev ev = Q_NULL))
      then ngx_delete_posted_event e else rret tt) w = Done tt w' /\
    inv base w' L LA' LP' F /\
    (forall y, y ∈ LA' <-> y ∈ LA /\ y <> e) /\ (forall y, y ∈ LP' <-> y ∈ LP /\ y <> e) /\
    w_events w' !! e = Some ev' /\ ev_prev ev' = Q_NULL /\
    strip <$> w_events w' = strip <$> w_events w /\ same_rest w w'.
Proof.
  intros Hinv He. pose proof Hinv as [H1 H2 H3 H4 H5 H6].
  pose proof head_ne as Hne.
  destruct (bool_decide_reflect (ev_prev ev = Q_NULL)) as [Hp|Hp]; cbn [negb].
  { exists w, LA, LP, ev. split_and!; [done | done | | | done | done | done |].
    - intros y. split; [|naive_solver]. intros Hy. split; [done|]. intros ->. by eapply (posted_prev Q_accept).
    - intros y. split; [|naive_solver]. intros Hy. split; [done|]. intros ->. by eapply (posted_prev Q_posted).
    - exists (w_events w), (w_posted_accept w), (w_posted w). by destruct w. }
  assert (Hlinks : forall w' LA' LP',
    (forall y, y ∈ LA' <-> y ∈ LA /\ y <> e) -> (forall y, y ∈ LP' <-> y ∈ LP /\ y <> e) ->
    (exists ev, w_events w' !! e = Some ev /\ ev_prev ev = Q_NULL) ->
    (forall y, y ∉ LA ++ LP -> w_events w' !! y = w_events w !! y) ->
    forall y ev, w_events w' !! y = Some ev -> ev_prev ev <> Q_NULL -> y ∈ LA' ++ LP').
  { intros w' LA' LP' HA HP (ev0 & Hev0 & Hp0) Hsame y evy Hy Hpy.
    assert (y <> e) as Hye by (intros ->; simplify_eq).
    destruct (decide (y ∈ LA ++ LP)) as [Hin|Hin].
    - apply elem_of_app. apply elem_of_app in Hin as [Hin|Hin]; [left; by apply HA | right; by apply HP].
    - rewrite Hsame in Hy by done. by destruct (Hin (H4 _ _ Hy Hpy)). }
  pose proof (H4 _ _ He Hp) as Hin. apply elem_of_app in Hin as [Hin|Hin].
  - destruct (inv_unpost_in Q_accept Q_posted w base L LA LP F LA LP e Hinv Hne H2 H3 ltac:(by right) Hin)
      as (w' & LA' & Hrun & Ht & Hf & Hfi & Hp1 & Hp2 & HA & Hev & Hsame & Hstrip & Hrest).
    pose proof Hev as (ev' & Hev' & Hpr).
    assert (HP : forall y, y ∈ LP <-> y ∈ LP /\ y <> e).
    { intros y. split; [|naive_solver]. intros Hy. split; [done|]. intros ->.
      by eapply (queues_disjoint Q_accept Q_posted w LA LP e). }
    exists w', LA', LP, ev'. split_and!; [done | | done | done | done | done | done | done].
    constructor; [done | done | done | | done | done].
    eapply (Hlinks w' LA' LP); [done | done | done |]. intros y Hy. apply Hsame. set_solver.
  - destruct (inv_unpost_in Q_posted Q_accept w base L LA LP F LP LA e Hinv (not_eq_sym Hne) H3 H2 ltac:(by left) Hin)
      as (w' & LP' & Hrun & Ht & Hf & Hfi & Hp1 & Hp2 & HP & Hev & Hsame & Hstrip & Hrest).
    pose proof Hev as (ev' & Hev' & Hpr).
    assert (HA : forall y, y ∈ LA <-> y ∈ LA /\ y <> e).
    { intros y. split; [|naive_solver]. intros Hy. split; [done|]. intros ->.
      by eapply (queues_disjoint Q_posted Q_accept w LP LA e). }
    exists w', LA, LP', ev'. split_and!; [done | | done | done | done | done | done | done].
    constructor; [done | done | done | | done | done].
    eapply (Hlinks w' LA LP'); [done | done | done |]. intros y Hy. apply Hsame. set_solver.
Qed.

Lemma strip_lookup w w' e ev :
  strip <$> w_events w' = strip <$> w_events w -> w_events w !! e = Some ev ->
  exists ev', w_events w' !! e = Some ev' /\ strip ev' = strip ev.
Proof.
  intros Hs He. assert (strip <$> w_events w' !! e = Some (strip ev)) as H.
  { by rewrite <- lookup_fmap, Hs, lookup_fmap, He. }
  destruct (w_events w' !! e) as [ev'|]; [|done].
  change (Some (strip ev') = Some (strip ev)) in H. exists ev'. split; [done | congruence].
Qed.

(** What [strip] keeps. *)
Lemma strip_eq {A} (f : ngx_event_t -> A) ev ev' :
  (forall ev, f (strip ev) = f ev) -> strip ev' = strip ev -> f ev' = f ev.
Proof. intros Hf Hs. by rewrite <- (Hf ev'), Hs, Hf. Qed.

Lemma inv_unposted base w L LA LP F e ev :
  inv base w L LA LP F -> w_events w !! e = Some ev -> e ∉ LA -> e ∉ LP -> ev_prev ev = Q_NULL.
Proof.
  intros Hinv He HA HP. destruct (decide (ev_prev ev = Q_NULL)) as [|Hp]; [done|].
  pose proof (iv_links _ _ _ _ _ _ Hinv e ev He Hp). set_solver.
Qed.

Lemma inv_freed base w L LA LP F c x :
  inv base w L LA LP F -> w_conns w !! c = Some x -> c ∉ F -> c <> NULL ->
  Z.of_nat (length F) + 1 < 2 ^ 64 -> inv base (freed c x w) L LA LP (c :: F).
Proof.
  intros [[] ? ? ? ? ?] Hc Hnin Hnull Hlen. constructor; [by constructor | done.. | | done].
  by apply freed_list.
Qed.

Context {HAct : EventActions} {HOk : EventActionsOk HAct}.

Lemma inactive_id w e ev :
  w_events w !! e = Some ev -> ev_active ev = false -> put_event e (ev <| ev_active := false |>) w = w.
Proof.
  intros He Ha. unfold put_event. rewrite insert_id; [by destruct w|]. rewrite He.
  destruct ev; simpl in *; congruence.
Qed.

Lemma close_events_run w c x er ew :
  wf_conn w c x er ew ->
  close_events c (c_read x) (c_write x) w
  = Done tt (put_event (c_write x) (ew <| ev_active := false |>)
              (put_event (c_read x) (er <| ev_active := false |>) w)).
Proof.
  intros Hwf. pose proof Hwf as [Hc Hr Hw Hne _ _]. unfold close_events.
  destruct ngx_del_conn as [del|] eqn:Hdel.
  { by rewrite (bind_step _ _ _ _ _ (del_conn_close del w c x er ew Hdel Hwf)). }
  unfold ev_rd. do 2 step. rewrite (bind_step _ _ _ tt (put_event (c_read x) (er <| ev_active := false |>) w)).
  2:{ destruct (ev_active er) eqn:Ha; cbn [orb]; [by rewrite (bind_step _ _ _ _ _ (del_event_close _ _ _ _ Hr))|].
      destruct (ev_disabled er); [by rewrite (bind_step _ _ _ _ _ (del_event_close _ _ _ _ Hr))|].
      by rewrite inactive_id. }
  assert (Hw' : w_events (put_event (c_read x) (er <| ev_active := false |>) w) !! c_write x = Some ew)
    by (unfold put_event; rsimpl; by rewrite lookup_insert_ne).
  rewrite !(rd_at_step _ _ _ _ _ _ Hw').
  destruct (ev_active ew) eqn:Ha; cbn [orb]; [by rewrite (bind_step _ _ _ _ _ (del_event_close _ _ _ _ Hw'))|].
  destruct (ev_disabled ew); [by rewrite (bind_step _ _ _ _ _ (del_event_close _ _ _ _ Hw'))|].
  by rewrite (inactive_id _ (c_write x) ew).
Qed.

(** An event after its connection was closed. *)
Record closed_event (ev ev' : ngx_event_t) : Prop := mk_closed {
  ce_closed : ev_closed ev' = true;
  ce_active : ev_active ev' = false;
  ce_timer : ev_timer_set ev' = false;
  ce_prev : ev_prev ev' = Q_NULL;
  ce_instance : ev_instance ev' = ev_instance ev;
  ce_data : ev_data ev' = ev_data ev
}.

(** The parts of [ngx_close_connection]. *)

Lemma close_timers_run base w L LA LP F c x er ew :
  inv base w L LA LP F -> wf_conn w c x er ew ->
  exists t L', let w' := with_timer (with_timer w (c_read x) t (er <| ev_timer_set := false |>))
                 (c_write x) t (ew <| ev_timer_set := false |>) in
    close_timers (c_read x) (c_write x) w = Done tt w' /\
    inv base w' L' LA LP F /\ (forall y, y ∈ L' <-> y ∈ L /\ y.1 <> c_read x /\ y.1 <> c_write x) /\
    wf_conn w' c x (er <| ev_timer_set := false |>) (ew <| ev_timer_set := false |>).
Proof.
  intros Hinv [Hc Hr Hw Hne Hdr Hdw]. unfold close_timers, ev_rd. step.
  destruct (inv_disarm _ _ _ _ _ _ _ _ Hinv Hr) as (t1 & L1 & Hrun1 & Hinv1 & HL1).
  run_to Hrun1. set (w1 := with_timer w (c_read x) t1 _) in *.
  assert (Hw1 : w_events w1 !! c_write x = Some ew) by (unfold w1, with_timer; look).
  step. destruct (inv_disarm _ _ _ _ _ _ _ _ Hinv1 Hw1) as (t2 & L2 & Hrun2 & Hinv2 & HL2).
  exists t2, L2. cbv zeta. split; [exact Hrun2|].
  split_and!; [done | intros y; rewrite HL2, HL1; naive_solver |].
  split; [exact Hc | unfold with_timer; look | unfold with_timer; look | exact Hne | exact Hdr | exact Hdw].
Qed.

(** The list [l'] is [l] without the events [r] and [wv]. *)
Definition others (r wv : ptr) (l l' : list ptr) : Prop := forall y, y ∈ l' <-> y ∈ l /\ y <> r /\ y <> wv.

Lemma close_posted_run base w L LA LP F r wv er ew :
  inv base w L LA LP F -> w_events w !! r = Some er -> w_events w !! wv = Some ew -> r <> wv ->
  exists w' LA' LP' er' ew',
    close_posted r wv w = Done tt w' /\
    inv base w' L LA' LP' F /\ same_rest w w' /\
    w_events w' !! r = Some er' /\ ev_prev er' = Q_NULL /\ strip er' = strip er /\
    w_events w' !! wv = Some ew' /\ ev_prev ew' = Q_NULL /\ strip ew' = strip ew /\
    others r wv LA LA' /\ others r wv LP LP'.
Proof.
  intros Hinv Hr Hw Hne. unfold close_posted, ev_rd. step.
  destruct (inv_unpost _ _ _ _ _ _ _ _ Hinv Hr)
    as (w4 & LA4 & LP4 & er4 & Hrun4 & Hinv4 & HA4 & HP4 & Hr4 & Hpr4 & Hs4 & Hrest4).
  run_to Hrun4. destruct (strip_lookup _ _ _ _ Hs4 Hw) as (ew4 & Hw4 & Hsw4).
  step. destruct (inv_unpost _ _ _ _ _ _ _ _ Hinv4 Hw4)
    as (w5 & LA5 & LP5 & ew5 & Hrun5 & Hinv5 & HA5 & HP5 & Hw5 & Hpw5 & Hs5 & Hrest5).
  destruct (strip_lookup _ _ _ _ Hs5 Hr4) as (er5 & Hr5 & Hsr5).
  assert (Hpr5 : ev_prev er5 = Q_NULL).
  { eapply inv_unposted; [exact Hinv5 | exact Hr5 | |]; [rewrite HA5, HA4 | rewrite HP5, HP4]; naive_solver. }
  destruct (strip_lookup _ _ _ _ Hs4 Hr) as (er4' & Hr4' & Hsr4). rewrite Hr4 in Hr4'. injection Hr4' as <-.
  destruct (strip_lookup _ _ _ _ Hs5 Hw4) as (ew5' & Hw5' & Hsw5). rewrite Hw5 in Hw5'. injection Hw5' as <-.
  exists w5, LA5, LP5, er5, ew5.
  split_and!; [done | done | by eapply same_rest_trans | done | done | congruence | done | done | congruence | |].
  - intros y. rewrite HA5, HA4. tauto.
  - intros y. rewrite HP5, HP4. tauto.
Qed.

(** The last call of the system was [close(fd)]. *)
Definition fd_closed (fd : Z) (w : world) : Prop := exists k, w_kern w = (sys_close fd k).2.

Lemma close_release_run base w L LA LP F c x er ew :
  inv base w L LA LP F -> w_conns w !! c = Some x ->
  w_events w !! c_read x = Some er -> w_events w !! c_write x = Some ew -> c_read x <> c_write x ->
  c ∉ F -> c <> NULL -> Z.of_nat (length F) + 1 < 2 ^ 64 ->
  exists k, let w1 := put_event (c_write x) (ew <| ev_closed := true |>)
                        (put_event (c_read x) (er <| ev_closed := true |>) w) in
            let w' := (freed c x w1) <| w_conns := <[c := x <| c_data := w_free w |> <| c_fd := -1 |>]>
                        (w_conns (freed c x w1)) |> <| w_kern := k |> in
    close_release c (c_read x) (c_write x) w = Done tt w' /\
    inv base w' L LA LP (c :: F) /\ fd_closed (c_fd x) w'.
Proof.
  intros Hinv Hc Hr Hw Hne HcF Hnull Hlen. unfold close_release, ev_wr. step. step.
  set (w1 := (w <| w_events := _ |>) <| w_events := _ |>).
  assert (Hinv1 : inv base w1 L LA LP F).
  { eapply (inv_put_event _ _ _ _ _ _ (c_write x) ew); [|unfold put_event; look|done|done].
    eapply (inv_put_event _ _ _ _ _ _ (c_read x) er); [done | exact Hr | done | done]. }
  assert (Hc1 : w_conns w1 !! c = Some x) by exact Hc.
  run_to (free_connection_run w1 c x Hc1 (iv_files _ _ _ _ _ _ Hinv1)).
  assert (Hinv2 : inv base (freed c x w1) L LA LP (c :: F)) by (by apply inv_freed).
  assert (Hc2 : w_conns (freed c x w1) !! c = Some (x <| c_data := w_free w |>)) by (unfold freed; look).
  unfold c_rd, c_wr. step. step.
  match goal with |- context [sys ?f] => destruct (f (w_kern w1)) as [r k] eqn:Hsys end.
  rewrite (sys_step _ _ _ r k) by exact Hsys. exists k. cbv zeta. split; [done|].
  split; [|exists (w_kern w1); change (k = (sys_close (c_fd x) (w_kern w1)).2); symmetry; exact (f_equal snd Hsys)].
  apply inv_kern. eapply inv_put_conn; [exact Hinv2 | exact Hc2 | done].
Qed.

Lemma close_connection_ok base w L LA LP F c x er ew :
  inv base w L LA LP F -> wf_conn w c x er ew -> c_fd x <> -1 ->
  c ∉ F -> c <> NULL -> Z.of_nat (length F) + 1 < 2 ^ 64 ->
  exists w' L' LA' LP' er' ew', ngx_close_connection c w = Done tt w' /\
    inv base w' L' LA' LP' (c :: F) /\
    (forall y, y ∈ L' <-> y ∈ L /\ y.1 <> c_read x /\ y.1 <> c_write x) /\
    w_conns w' = <[c := x <| c_data := w_free w |> <| c_fd := -1 |>]> (w_conns w) /\
    w_events w' !! c_read x = Some er' /\ w_events w' !! c_write x = Some ew' /\
    closed_event er er' /\ closed_event ew ew' /\
    (w_pools w' = w_pools w /\ w_sessions w' = w_sessions w /\ w_callbacks w' = w_callbacks w /\
     w_perl w' = w_perl w /\ w_stale w' = w_stale w /\ w_intervals w' = w_intervals w /\
     w_listenings w' = w_listenings w) /\
    others (c_read x) (c_write x) LA LA' /\ others (c_read x) (c_write x) LP LP' /\ fd_closed (c_fd x) w'.
Proof.
  intros Hinv Hwf Hfd HcF Hnull Hlen. pose proof Hwf as [Hc Hr Hw Hne Hdr Hdw].
  unfold ngx_close_connection, c_rd. step. destruct (Z.eqb_spec (c_fd x) (-1)) as [|_]; [done|].
  do 2 step.
  destruct (close_timers_run base w L LA LP F c x er ew Hinv Hwf) as (t & L' & Hrun1 & Hinv2 & HL & Hwf2).
  run_to Hrun1. set (w2 := with_timer _ (c_write x) _ _) in *.
  run_to (close_events_run _ _ _ _ _ Hwf2).
  pose proof Hwf2 as [_ Hr2 Hw2 _ _ _].
  set (er3 := er <| ev_timer_set := false |> <| ev_active := false |>).
  set (ew3 := ew <| ev_timer_set := false |> <| ev_active := false |>).
  set (w3 := put_event (c_write x) _ (put_event (c_read x) _ w2)).
  assert (Hinv3 : inv base w3 L' LA LP F).
  { eapply (inv_put_event _ _ _ _ _ _ (c_write x)); [|unfold put_event; look|done|done].
    eapply (inv_put_event _ _ _ _ _ _ (c_read x)); [done | exact Hr2 | done | done]. }
  edestruct (close_posted_run base w3 L' LA LP F (c_read x) (c_write x) er3 ew3)
    as (w4 & LA4 & LP4 & er4 & ew4 & Hrun4 & Hinv4 & Hrest & Hr4 & Hpr4 & Hsr & Hw4 & Hpw4 & Hsw & HoA & HoP);
    [exact Hinv3 | unfold w3, put_event; look | unfold w3, put_event; look | exact Hne |].
  run_to Hrun4. destruct Hrest as (m & a & p & Hrest).
  destruct (close_release_run base w4 L' LA4 LP4 F c x er4 ew4 Hinv4) as (k & Hrun5 & Hinv5 & Hfdc);
    [by rewrite Hrest | done.. |].
  exists ((freed c x (put_event (c_write x) (ew4 <| ev_closed := true |>)
            (put_event (c_read x) (er4 <| ev_closed := true |>) w4)))
          <| w_conns := <[c := x <| c_data := w_free w |> <| c_fd := -1 |>]>
              (<[c := x <| c_data := w_free w |>]> (w_conns w)) |> <| w_kern := k |>).
  exists L', LA4, LP4, (er4 <| ev_closed := true |>), (ew4 <| ev_closed := true |>).
  rewrite Hrest in Hrun5, Hinv5, Hfdc |- *.
  split; [exact Hrun5|]. split; [exact Hinv5|]. split; [exact HL|].
  split; [rsimpl; by rewrite insert_insert_eq|].
  split; [unfold freed, put_event; look|]. split; [unfold freed, put_event; look|].
  split_and!; [| |done.. ]; constructor; rsimpl; try done;
    match goal with |- ?f ?e = _ => first [by apply (strip_eq f er3 e) | by apply (strip_eq f ew3 e)] end.
Qed.

End Close.

(** * The theorems *)

(** C19.  [ngx_close_connection] of an open connection, with any backend: it
    returns, and afterwards neither of its events is armed, active or posted,
    both are marked closed, the descriptor is closed and set to -1 and the
    connection is the first of the free list; the other timers and the other posted events stay,
    and timers, queues and free list are well formed again. *)
Theorem close_connection_correct {HPerl : Perl} {HKern : Kernel} {HAct : EventActions}
    {HOk : EventActionsOk HAct} base w L LA LP F c x er ew :
  inv base w L LA LP F -> wf_conn w c x er ew -> c_fd x <> -1 ->
  c ∉ F -> c <> NULL -> Z.of_nat (length F) + 1 < 2 ^ 64 ->
  exists w' L' LA' LP' er' ew', ngx_close_connection c w = Done tt w' /\
    inv base w' L' LA' LP' (c :: F) /\
    (forall y, y ∈ L' <-> y ∈ L /\ y.1 <> c_read x /\ y.1 <> c_write x) /\
    w_conns w' !! c = Some (x <| c_data := w_free w |> <| c_fd := -1 |>) /\
    w_events w' !! c_read x = Some er' /\ w_events w' !! c_write x = Some ew' /\
    closed_event er er' /\ closed_event ew ew' /\
    others (c_read x) (c_write x) LA LA' /\ others (c_read x) (c_write x) LP LP' /\ fd_closed (c_fd x) w'.
Proof.
  intros Hinv Hwf Hfd HcF Hnull Hlen.
  destruct (close_connection_ok base w L LA LP F c x er ew Hinv Hwf Hfd HcF Hnull Hlen)
    as (w' & L' & LA' & LP' & er' & ew' & H1 & H2 & H3 & H4 & H5 & H6 & H7 & H8 & _ & H9 & H10 & H11).
  exists w', L', LA', LP', er', ew'. split_and!; try done. rewrite H4. apply lookup_insert_eq.
Qed.

(** ** Stale events *)

Lemma tag_odd c b : Z.even c = true -> Z.odd (tag c b) = b.
Proof.
  intros He. unfold tag. rewrite <- Z.bit0_odd, Z.lor_spec, !Z.bit0_odd, <- (Z.negb_even c), He. by destruct b.
Qed.
Lemma tag_land c b : Z.even c = true -> Z.land (tag c b) (Z.lnot 1) = c.
Proof.
  intros He. apply Z.bits_inj'. intros n Hn. unfold tag.
  rewrite Z.land_spec, Z.lor_spec, Z.lnot_spec by done.
  destruct (decide (n = 0)) as [->|Hn0].
  - rewrite !Z.bit0_odd, <- (Z.negb_even c), He. simpl. by rewrite andb_false_r.
  - assert (Z.testbit 1 n = false) as ->.
    { change 1 with (2 ^ 0). apply Z.pow2_bits_false. lia. }
    destruct b; simpl Z.b2z; [|by rewrite Z.bits_0, orb_false_r, andb_true_r].
    assert (Z.testbit 1 n = false) as ->; [|by rewrite orb_false_r, andb_true_r].
    change 1 with (2 ^ 0). apply Z.pow2_bits_false. lia.
Qed.

Lemma stale_dropped {HPerl : Perl} {HKern : Kernel} w c x er call flags events b :
  w_conns w !! c = Some x -> w_events w !! c_read x = Some er -> Z.even c = true ->
  c_fd x = -1 \/ ev_instance er <> b ->
  epoll_process_one call flags events (tag c b) w = Done tt w.
Proof.
  intros Hc Hr He Hst. unfold epoll_process_one. cbv zeta. rewrite tag_odd, tag_land by done.
  unfold_accessors. do 3 step. destruct Hst as [-> | Hi]; [done|].
  destruct (c_fd x =? -1); [done|]. by destruct (ev_instance er), b.
Qed.

(** C20.  An event the kernel reports for a connection that was closed since
    it was registered is dropped, also when the connection structure has been
    taken again for a new descriptor in between: it changes nothing and no
    handler is called. *)
Theorem stale_event_ignored {HPerl : Perl} {HKern : Kernel} {HAct : EventActions}
    {HOk : EventActionsOk HAct} base w L LA LP F c x er ew s call flags events :
  inv base w L LA LP F -> wf_conn w c x er ew -> c_fd x <> -1 ->
  c ∉ F -> c <> NULL -> Z.of_nat (length F) + 1 < 2 ^ 64 -> Z.even c = true ->
  exists w1 w2, ngx_close_connection c w = Done tt w1 /\ ngx_get_connection s w1 = Done c w2 /\
    epoll_process_one call flags events (tag c (ev_instance er)) w1 = Done tt w1 /\
    epoll_process_one call flags events (tag c (ev_instance er)) w2 = Done tt w2.
Proof.
  intros Hinv Hwf Hfd HcF Hnull Hlen Heven. pose proof Hwf as [Hc Hr Hw Hne Hdr Hdw].
  destruct (close_connection_ok base w L LA LP F c x er ew Hinv Hwf Hfd HcF Hnull Hlen)
    as (w1 & L' & LA' & LP' & er' & ew' & Hrun & Hinv1 & _ & Hc1 & Hr1 & Hw1 & [] & [] & _).
  set (x1 := x <| c_data := w_free w |> <| c_fd := -1 |>) in *.
  assert (Hx1 : w_conns w1 !! c = Some x1) by (rewrite Hc1; apply lookup_insert_eq).
  assert (Hwf1 : wf_conn w1 c x1 er' ew') 
    by (split; [exact Hx1 | exact Hr1 | exact Hw1 | exact Hne | congruence | congruence]).
  pose proof (iv_timers _ _ _ _ _ _ Hinv1) as Ht1.
  destruct (iv_free _ _ _ _ _ _ Hinv1) as (_ & (Hfree & _) & _).
  exists w1, (taken c x1 er' s w1). split_and!; [done | | |].
  - apply (get_connection_run w1 c x1 er' ew'); [done | done | done | apply (iv_files _ _ _ _ _ _ Hinv1) | |];
      apply (tm_node _ _ _ Ht1); by eexists.
  - eapply stale_dropped; [exact Hx1 | exact Hr1 | done | by left].
  - eapply stale_dropped; [unfold taken; look | | done |].
    + unfold taken, fresh_conn. rsimpl. rewrite lookup_insert_ne, lookup_insert_eq by done. reflexivity.
    + right. unfold fresh_event. rsimpl. rewrite ce_instance0. by destruct (ev_instance er).
Qed.

(** * Witnesses *)

Import Systems.
Local Existing Instance scripted_kernel.
Definition close_perl : Perl := perl_of no_subs.
Local Existing Instance close_perl.

(** The connection 100 is open on descriptor 5, with its read timer armed. *)
Definition open_rev : ngx_event_t :=
  zero_event <| ev_data := 100 |> <| ev_timer_set := true |> <| ev_active := true |>.
Definition open_wev : ngx_event_t :=
  zero_event <| ev_data := 100 |> <| ev_write := true |> <| ev_prev := Q_posted |>.
Definition open_conn : ngx_connection_t :=
  zero_conn <| c_read := 110 |> <| c_write := 120 |> <| c_fd := 5 |>.
Definition open_world : world :=
  (small_world (mk_scalars ∅ 1000 : interp) no_answers)
    <| w_tree := Rbtree.mk_rb (list_to_map [(8, node0); (110, Rbtree.mk_node 1500 8 8 0 0); (120, node0)]) 110 |>
    <| w_events := list_to_map [(110, open_rev); (120, open_wev)] |>
    <| w_conns := list_to_map [(100, open_conn)] |>
    <| w_free := NULL |> <| w_free_n := 0 |> <| w_posted := 120 |>.

Lemma open_world_inv : inv 0 open_world [(110, 1500)] [] [120] [].
Proof.
  constructor.
  - constructor.
    + exists node0, 0, (RbtreeRep.T 0 RbtreeRep.E 110 1500 RbtreeRep.E), 1%nat.
      split_and!; [|repeat econstructor | done].
      constructor; [done | by repeat split | | done]. apply (bool_decide_unpack _). by vm_compute.
    + repeat constructor.
    + intros x ->%list_elem_of_singleton. by vm_compute.
    + intros e ev. simpl. rewrite !lookup_insert_Some, lookup_empty.
      intros [[<- <-]|[? [[<- <-]|[? ?]]]]; [set_solver | set_solver by lia | done].
    + intros e He. simpl in He. apply list_elem_of_singleton in He as ->. by eexists.
    + intros e [ev He]. simpl in He. rewrite !lookup_insert_Some, lookup_empty in He.
      destruct He as [[<- _]|[? [[<- _]|[? ?]]]]; [split; [by eexists | done]..|done].
  - split_and!; [by left | constructor | done].
  - split_and!; [by right | repeat constructor; set_solver |]. split_and!; [done | done |].
    exists open_wev. done.
  - intros e ev. simpl. rewrite !lookup_insert_Some, lookup_empty.
    intros [[<- <-]|[? [[<- <-]|[? ?]]]] Hp; [done | set_solver | done].
  - split_and!; [constructor | done | done | done].
  - done.
Qed.

Lemma open_world_wf : wf_conn open_world 100 open_conn open_rev open_wev.
Proof. by split. Qed.

Lemma close_connection_correct_witness :
  exists w' L' LA' LP' er' ew', ngx_close_connection 100 open_world = Done tt w' /\
    inv 0 w' L' LA' LP' [100] /\
    (forall y, y ∈ L' <-> y ∈ [(110, 1500)] /\ y.1 <> 110 /\ y.1 <> 120) /\
    w_conns w' !! 100 = Some (open_conn <| c_data := NULL |> <| c_fd := -1 |>) /\
    w_events w' !! 110 = Some er' /\ w_events w' !! 120 = Some ew' /\
    closed_event open_rev er' /\ closed_event open_wev ew' /\
    others 110 120 [] LA' /\ others 110 120 [120] LP' /\ fd_closed 5 w'.
Proof.
  apply (close_connection_correct 0 open_world [(110, 1500)] [] [120] [] 100 open_conn open_rev open_wev).
  - apply open_world_inv.
  - apply open_world_wf.
  - done.
  - set_solver.
  - done.
  - done.
Defined.

Lemma stale_event_ignored_witness :
  exists w1 w2, ngx_close_connection 100 open_world = Done tt w1 /\ ngx_get_connection 6 w1 = Done 100 w2 /\
    epoll_process_one (fun _ => rfault) 0 EPOLLIN (tag 100 false) w1 = Done tt w1 /\
    epoll_process_one (fun _ => rfault) 0 EPOLLIN (tag 100 false) w2 = Done tt w2.
Proof.
  apply (stale_event_ignored 0 open_world [(110, 1500)] [] [120] [] 100 open_conn open_rev open_wev).
  - apply open_world_inv.
  - apply open_world_wf.
  - done.
  - set_solver.
  - done.
  - done.
  - reflexivity.
Defined.

End Close.
