(* ===== verification/Callback.v ===== *)
(** Callbacks and their reference counts (ngxe_xs.c), buffers (ngxe_bufs.c),
    and the end of a pool as the engine sees it ([ngx_destroy_pool]). *)
From stdpp Require Import base gmap list numbers.
From S2P Require Import Prelude Rbtree World.
Local Open Scope Z_scope.
Import World.

Module Callback.

Section Callback.
Context {HPerl : Perl} {HKern : Kernel}.
Local Open Scope run_scope.

(** A loop over a list of addresses. *)
Fixpoint for_each (f : ptr -> W unit) (l : list ptr) : W unit :=
  match l with
  | [] => rret tt
  | p :: l => f p ;;; for_each f l
  end.

(** [cb->args[i]] *)
Definition cb_arg (cb : ptr) (i : nat) : W ptr :=
  do! args := cb_rd cb cb_args in
  match args !! i with Some p => rret p | None => rfault end.

(** [cb->args[0]], ..., [cb->args[n - 1]] *)
Definition cb_args_upto (cb : ptr) (n : Z) : W (list ptr) :=
  do! args := cb_rd cb cb_args in
  if n <=? Z.of_nat (length args) then rret (take (Z.to_nat n) args) else rfault.

Definition ngxe_callback_dec (cb : ptr) : W unit :=
  do! decremented := cb_rd cb cb_decremented in
  if decremented then rret tt
  else
    do! handler := cb_rd cb cb_handler in
    (when negb (handler =? NULL) then perl_do (SvREFCNT_dec handler)) ;;;
    do! args_n := cb_rd cb cb_args_n in
    do! args := cb_args_upto cb args_n in
    for_each (fun p => perl_do (SvREFCNT_dec p)) args ;;;
    cb_wr cb cb_args_n 0 ;;;
    cb_wr cb cb_decremented true.

(** What the Perl subroutine does; [rec a] runs the function of the engine it
    calls. *)
Fixpoint run_script (rec : api -> W Z) (s : script interp) : W unit :=
  match s with
  | S_return i => wr_g w_perl i
  | S_call a i k =>
      wr_g w_perl i ;;;
      do! r := rec a in
      do! i' := rd_g w_perl in
      run_script rec (k r i')
  end.

(** [call_sv(handler, G_VOID|G_DISCARD)] with the arguments on the stack. *)
Definition do_call_sv (rec : api -> W Z) (handler : ptr) (args : list ptr) : W unit :=
  do! i := rd_g w_perl in run_script rec (call_sv handler args i).

(** [ngxe_callback].  No function of the sources stores a native handler; a
    non-NULL one would not be a valid function. *)
Definition ngxe_callback (rec : api -> W Z) (cb : ptr) (decrefcnts : bool) : W unit :=
  do! arg0 := cb_arg cb 0 in
  do! c := sv_rd arg0 sv_iv in
  do! handler := cb_rd cb cb_handler in
  if handler =? NULL then
    do! native := cb_rd cb cb_native_handler in
    if negb (native =? NULL) then rfault else rret tt
  else
    do! n := cb_rd cb cb_args_n in
    do! args := cb_args_upto cb n in
    do! i := rd_g w_perl in
    wr_g w_perl (SAVETMPS i) ;;;
    perl_do (SvREFCNT_inc handler) ;;;
    for_each (fun p => perl_do (SvREFCNT_inc p)) args ;;;
    do_call_sv rec handler args ;;;
    do! args := cb_args_upto cb n in
    for_each (fun p => perl_do (SvREFCNT_dec p)) args ;;;
    do! handler := cb_rd cb cb_handler in
    perl_do (SvREFCNT_dec handler) ;;;
    (when decrefcnts then ngxe_callback_dec cb) ;;;
    do! i := rd_g w_perl in
    wr_g w_perl (FREETMPS i).

Definition ngxe_callback_cleanup (cb : ptr) : W unit :=
  do! decremented := cb_rd cb cb_decremented in
  if decremented then rret tt else ngxe_callback_dec cb.

(** * Buffers (built without [NGXE_READER_USE_BUFS]) *)

Definition ngxe_buf (svlen : Z) : W ptr :=
  do! i := rd_g w_perl in
  let '(sv, i) := newSV svlen i in
  wr_g w_perl i ;;;
  perl_do (sv_2mortal sv) ;;;
  perl_do (SvPOK_only sv) ;;;
  perl_do (SvCUR_set sv 0) ;;;
  perl_do (SvREFCNT_inc sv) ;;;
  rret sv.

Definition ngxe_buffree (sv : ptr) : W unit :=
  do! type := sv_rd sv sv_type in
  do! len := sv_rd sv sv_len in
  do! pv := sv_rd sv sv_pv in
  (when (match type with SVt_PV => true | _ => false end)
        && negb (match pv with [] => true | _ => false end) && negb (len =? 0) then
     (perl_do (SvPV_free sv) ;;;
      perl_do (SvPV_set_NULL sv) ;;;
      perl_do (SvLEN_set sv 0))) ;;;
  perl_do (SvOK_off sv) ;;;
  perl_do (SvREFCNT_dec sv).

Definition ngxe_buf_cleanup (data : ptr) : W unit := ngxe_buffree data.

(** The size classes of the macro [ngxe_buf_svgrow]. *)
Definition buf_class (pagesize s : Z) : Z :=
  if s <=? 4080 then 4080
  else if s <=? 32768 then 32768 + pagesize - 16
  else if s <=? 262144 then 262144 + pagesize - 16
  else if s <=? 1048576 then 1048576 + pagesize - 16
  else if s <=? 4194304 then 4194304
  else s.

Definition ngxe_buf_svgrow (sv : ptr) (s : Z) : W unit :=
  do! pagesize := rd_g w_pagesize in
  perl_do (SvGROW sv (buf_class pagesize s)).

(** * Pools *)

(** Objects come from a pool; an allocation may fail. *)
Definition pool_alloc (pool : ptr) (size : Z) : W ptr :=
  do! ok := sys (sys_malloc size) in
  if ok : bool then
    fun w => match w_pools w !! pool with
             | Some p =>
                 Done (w_next w)
                   (w <| w_pools := <[pool := p <| pool_objs := w_next w :: pool_objs p |>]> (w_pools w) |>
                      <| w_next := w_next w + 16 |>)
             | None => Fault
             end
  else rret NULL.

Definition run_cleanup (cln : ngx_pool_cleanup_t) : W unit :=
  match cl_handler cln with
  | CL_NULL => rret tt
  | CL_ngxe_callback_cleanup => ngxe_callback_cleanup (cl_data cln)
  | CL_ngxe_buf_cleanup => ngxe_buf_cleanup (cl_data cln)
  end.
Fixpoint run_cleanups (l : list ngx_pool_cleanup_t) : W unit :=
  match l with
  | [] => rret tt
  | cln :: l => run_cleanup cln ;;; run_cleanups l
  end.

(** The memory goes back to the allocator. *)
Definition drop_objs {A} (l : list ptr) (m : gmap ptr A) : gmap ptr A :=
  foldr delete m l.
Definition free_objs (l : list ptr) : W unit :=
  fun w => Done tt
    (if w_stale w then w
     else w <| w_sessions := drop_objs l (w_sessions w) |>
            <| w_callbacks := drop_objs l (w_callbacks w) |>
            <| w_intervals := drop_objs l (w_intervals w) |>).

(** [ngx_destroy_pool]: the cleanup handlers, most recent first, then the
    memory. *)
Definition ngx_destroy_pool (pool : ptr) : W unit :=
  do! cleanups := rd_at w_pools pool pool_cleanup in
  run_cleanups cleanups ;;;
  do! objs := rd_at w_pools pool pool_objs in
  free_objs objs ;;;
  fun w => Done tt (w <| w_pools := delete pool (w_pools w) |>).

End Callback.
End Callback.
