(* ===== verification/Refcount.v ===== *)
(** Reference counts of callbacks: what [ngxe_callback_dec], [ngxe_callback]
    and [ngxe_callback_cleanup] do to the counts of the scalars a callback
    holds, and what happens when a callback's own pool goes away. *)
From stdpp Require Import base numbers gmap list.
From S2P Require Import Prelude Rbtree World Systems Callback.
Local Open Scope Z_scope.
Import World Callback.

Module Refcount.

(** What perlapi documents of reference counts and temporaries, the parts used
    here.  [temp i p]: the next [FREETMPS] may change [p], a temporary made since
    the last [SAVETMPS] or a scalar that one of them refers to.  [reaches i p q]:
    [p] refers to [q], directly or through other scalars, so that the end of [p]
    may change [q].  Taking and giving back references makes no temporary and no
    new reference between scalars, nor does the end of the temporaries. *)
Definition linked {HPerl : Perl} (temp : interp -> ptr -> Prop) (reaches : interp -> ptr -> ptr -> Prop) (i i' : interp) : Prop :=
  (forall p, temp i' p -> temp i p) /\ (forall p q, reaches i' p q -> reaches i p q).

Class RefcountLaws (HPerl : Perl) := {
  temp : interp -> ptr -> Prop;
  reaches : interp -> ptr -> ptr -> Prop;
  inc_law : forall i p x, sv_view i p = Some x ->
    exists i', SvREFCNT_inc p i = Some i' /\
      sv_view i' p = Some (x <| sv_refcnt := sv_refcnt x + 1 |>) /\
      (forall q, q <> p -> sv_view i' q = sv_view i q) /\ linked temp reaches i i';
  dec_law : forall i p x, sv_view i p = Some x -> 1 < sv_refcnt x ->
    exists i', SvREFCNT_dec p i = Some i' /\
      sv_view i' p = Some (x <| sv_refcnt := sv_refcnt x - 1 |>) /\
      (forall q, q <> p -> sv_view i' q = sv_view i q) /\ linked temp reaches i i';
  (** the last reference: the scalar ends *)
  last_law : forall i p x, sv_view i p = Some x -> sv_refcnt x = 1 ->
    exists i', SvREFCNT_dec p i = Some i' /\ sv_view i' p = None /\
      (forall q, q <> p -> ~ reaches i p q -> sv_view i' q = sv_view i q) /\ linked temp reaches i i';
  save_law : forall i p, sv_view (SAVETMPS i) p = sv_view i p;
  save_temps : forall i p, ~ temp (SAVETMPS i) p;
  save_reaches : forall i p q, reaches (SAVETMPS i) p q -> reaches i p q;
  free_law : forall i p, ~ temp i p -> sv_view (FREETMPS i) p = sv_view i p;
  free_reaches : forall i p q, reaches (FREETMPS i) p q -> reaches i p q
}.

(** The calls of subroutines as an observer of the interpreter records them, each
    with what its arguments were: moving references and temporaries records
    none. *)
Class CallLog (HPerl : Perl) := {
  calls : interp -> list (ptr * list ptr * list (option sv));
  calls_inc : forall i p i', SvREFCNT_inc p i = Some i' -> calls i' = calls i;
  calls_dec : forall i p i', SvREFCNT_dec p i = Some i' -> calls i' = calls i;
  calls_save : forall i, calls (SAVETMPS i) = calls i;
  calls_free : forall i, calls (FREETMPS i) = calls i
}.

Section Refcount.
Context {HPerl : Perl} {HKern : Kernel} {HLaws : RefcountLaws HPerl}.

(** The count of every scalar of [l] changes by [d]; the others stay. *)
Definition counts_moved (d : Z) (l : list ptr) (i i' : interp) : Prop :=
  forall p, sv_view i' p =
    if bool_decide (p ∈ l) then (fun x => x <| sv_refcnt := sv_refcnt x + d |>) <$> sv_view i p
    else sv_view i p.

Lemma counts_moved_nil i : counts_moved 0 [] i i.
Proof. intros p. by rewrite bool_decide_eq_false_2 by set_solver. Qed.

Lemma refcnt_add0 (o : option sv) : (fun x => x <| sv_refcnt := sv_refcnt x + 0 |>) <$> o = o.
Proof. destruct o as [[]|]; [|done]. simpl. by rewrite Z.add_0_r. Qed.

Lemma counts_moved_trans d d' l i1 i2 i3 :
  counts_moved d l i1 i2 -> counts_moved d' l i2 i3 -> counts_moved (d + d') l i1 i3.
Proof.
  intros H1 H2 p. rewrite H2, H1. case_bool_decide; [|done].
  destruct (sv_view i1 p) as [x|]; [|done]. simpl. by rewrite Z.add_assoc.
Qed.

Lemma counts_moved_same l i1 i2 : counts_moved 0 l i1 i2 <-> forall p, sv_view i2 p = sv_view i1 p.
Proof.
  split; intros H p; rewrite (H p); case_bool_decide; try done; by rewrite refcnt_add0.
Qed.

Lemma counts_moved_cons d p l i i1 i2 :
  p ∉ l -> counts_moved d [p] i i1 -> counts_moved d l i1 i2 -> counts_moved d (p :: l) i i2.
Proof.
  intros Hp H1 H2 q. rewrite H2, H1.
  destruct (decide (q ∈ l)) as [Hq|Hq], (decide (q = p)) as [->|Hne]; try done.
  - rewrite bool_decide_eq_true_2 by done. rewrite !bool_decide_eq_false_2, bool_decide_eq_true_2 by set_solver. done.
  - rewrite bool_decide_eq_false_2 by done. by rewrite !bool_decide_eq_true_2 by set_solver.
  - by rewrite !bool_decide_eq_false_2 by set_solver.
Qed.

(** The scalars of [l] are live with a count above [n]. *)
Definition held (n : Z) (l : list ptr) (i : interp) : Prop :=
  forall p, p ∈ l -> exists x, sv_view i p = Some x /\ n < sv_refcnt x.

Lemma held_moved n d l i i' : held n l i -> counts_moved d l i i' -> held (n + d) l i'.
Proof.
  intros Hh Hm p Hp. destruct (Hh p Hp) as (x & Hx & Hn). rewrite Hm, bool_decide_eq_true_2, Hx by done.
  eexists. split; [done|]. rsimpl. lia.
Qed.

Lemma held_mono n m l l' i : n <= m -> l' ⊆ l -> held m l i -> held n l' i.
Proof. intros Hn Hl Hh p Hp. destruct (Hh p) as (x & Hx & Hm); [set_solver|]. exists x. split; [done | lia]. Qed.

Abbreviation links i i' := (linked temp reaches i i').
Lemma linked_refl i : links i i.
Proof. by split. Qed.
Lemma linked_trans i1 i2 i3 : links i1 i2 -> links i2 i3 -> links i1 i3.
Proof. intros [T1 R1] [T2 R2]. split; eauto. Qed.

(** No scalar of [l] is reachable from one of them, and none is a temporary. *)
Definition apart (l : list ptr) (i : interp) : Prop := forall p q, p ∈ l -> q ∈ l -> ~ reaches i p q.
Definition no_temps (l : list ptr) (i : interp) : Prop := forall p, p ∈ l -> ~ temp i p.
Lemma apart_linked l i i' : links i i' -> apart l i -> apart l i'.
Proof. intros [_ Hr] Ha p q Hp Hq Hpq. exact (Ha p q Hp Hq (Hr _ _ Hpq)). Qed.
Lemma no_temps_linked l i i' : links i i' -> no_temps l i -> no_temps l i'.
Proof. intros [Ht _] Ha p Hp Hpt. exact (Ha p Hp (Ht _ Hpt)). Qed.

Lemma inc_one w p x :
  sv_view (w_perl w) p = Some x ->
  exists i', perl_do (SvREFCNT_inc p) w = Done tt (w <| w_perl := i' |>) /\ counts_moved 1 [p] (w_perl w) i' /\ links (w_perl w) i'.
Proof.
  intros Hp. destruct (inc_law _ _ _ Hp) as (i' & Hrun & Hv & Ho & Hk). exists i'. unfold perl_do. rewrite Hrun.
  split_and!; [done| |done]. intros q. destruct (decide (q = p)) as [->|Hne].
  - rewrite bool_decide_eq_true_2, Hv, Hp by set_solver. done.
  - rewrite bool_decide_eq_false_2, Ho by set_solver. done.
Qed.

Lemma dec_one w p x :
  sv_view (w_perl w) p = Some x -> 1 < sv_refcnt x ->
  exists i', perl_do (SvREFCNT_dec p) w = Done tt (w <| w_perl := i' |>) /\ counts_moved (-1) [p] (w_perl w) i' /\ links (w_perl w) i'.
Proof.
  intros Hp Hn. destruct (dec_law _ _ _ Hp Hn) as (i' & Hrun & Hv & Ho & Hk). exists i'. unfold perl_do. rewrite Hrun.
  split_and!; [done| |done]. intros q. destruct (decide (q = p)) as [->|Hne].
  - rewrite bool_decide_eq_true_2, Hv, Hp by set_solver. done.
  - rewrite bool_decide_eq_false_2, Ho by set_solver. done.
Qed.

Lemma held_frame n d l p i i' : p ∉ l -> held n l i -> counts_moved d [p] i i' -> held n l i'.
Proof.
  intros Hp Hh Hm q Hq. destruct (Hh q Hq) as (x & Hx & Hn). exists x. split; [|done].
  by rewrite Hm, bool_decide_eq_false_2 by set_solver.
Qed.

(** A loop that moves the count of each scalar of a list by [d]. *)
Lemma move_all (op : ptr -> W unit) d n w l :
  (forall w p x, sv_view (w_perl w) p = Some x -> n < sv_refcnt x ->
     exists i', op p w = Done tt (w <| w_perl := i' |>) /\ counts_moved d [p] (w_perl w) i' /\ links (w_perl w) i') ->
  NoDup l -> held n l (w_perl w) ->
  exists i', for_each op l w = Done tt (w <| w_perl := i' |>) /\ counts_moved d l (w_perl w) i' /\ links (w_perl w) i'.
Proof.
  intros Hop. revert w. induction l as [|p l IH]; intros w Hnd Hh.
  { exists (w_perl w). split_and!; [by destruct w| |apply linked_refl]. intros p. by rewrite bool_decide_eq_false_2 by set_solver. }
  apply list.NoDup_cons in Hnd as [Hp Hnd]. destruct (Hh p) as (x & Hx & Hn); [set_solver|].
  destruct (Hop w p x Hx Hn) as (i1 & Hrun1 & Hm1 & Hk1).
  destruct (IH (w <| w_perl := i1 |>) Hnd) as (i2 & Hrun2 & Hm2 & Hk2).
  { eapply held_frame; [done | | done]. eapply held_mono; [| |exact Hh]; [lia | set_solver]. }
  exists i2. cbn [for_each]. rewrite (bind_step _ _ _ _ _ Hrun1).
  split_and!; [done | by eapply counts_moved_cons | by eapply linked_trans].
Qed.
Lemma inc_all w l :
  NoDup l -> held 0 l (w_perl w) ->
  exists i', for_each (fun p => perl_do (SvREFCNT_inc p)) l w = Done tt (w <| w_perl := i' |>) /\
    counts_moved 1 l (w_perl w) i' /\ links (w_perl w) i'.
Proof. apply move_all. intros w' p x Hx _. by eapply inc_one. Qed.
Lemma dec_all w l :
  NoDup l -> held 1 l (w_perl w) ->
  exists i', for_each (fun p => perl_do (SvREFCNT_dec p)) l w = Done tt (w <| w_perl := i' |>) /\
    counts_moved (-1) l (w_perl w) i' /\ links (w_perl w) i'.
Proof. apply move_all. intros w' p x. by apply dec_one. Qed.

(** ** Giving back references that may be the last *)

Definition drop_view (o : option sv) : option sv :=
  x ← o; if sv_refcnt x =? 1 then None else Some (x <| sv_refcnt := sv_refcnt x - 1 |>).

(** Every scalar of [l] has a reference less or, if that was the last one, has
    ended; no scalar changes besides that an ended one did not refer to. *)
Definition dropped (l : list ptr) (i i' : interp) : Prop :=
  (forall p, p ∈ l -> sv_view i' p = drop_view (sv_view i p)) /\
  (forall q, q ∉ l -> (forall p x, p ∈ l -> sv_view i p = Some x -> sv_refcnt x = 1 -> ~ reaches i p q) ->
     sv_view i' q = sv_view i q).

Lemma drop_one w p x :
  sv_view (w_perl w) p = Some x -> 0 < sv_refcnt x ->
  exists i', perl_do (SvREFCNT_dec p) w = Done tt (w <| w_perl := i' |>) /\ dropped [p] (w_perl w) i' /\ links (w_perl w) i'.
Proof.
  intros Hp Hn. unfold dropped, drop_view, perl_do. destruct (decide (sv_refcnt x = 1)) as [H1|H1].
  - destruct (last_law _ _ _ Hp H1) as (i' & Hrun & Hv & Ho & Hk). exists i'. rewrite Hrun. split_and!; [done| | |done].
    + intros q ->%list_elem_of_singleton. rewrite Hv, Hp. cbn. by rewrite H1.
    + intros q Hq Hr. apply Ho; [set_solver|]. by eapply Hr; [set_solver|..].
  - destruct (dec_law _ _ _ Hp ltac:(lia)) as (i' & Hrun & Hv & Ho & Hk). exists i'. rewrite Hrun. split_and!; [done| | |done].
    + intros q ->%list_elem_of_singleton. rewrite Hv, Hp. cbn. by destruct (Z.eqb_spec (sv_refcnt x) 1).
    + intros q Hq _. apply Ho. set_solver.
Qed.

Lemma drop_all w l :
  NoDup l -> held 0 l (w_perl w) -> apart l (w_perl w) ->
  exists i', for_each (fun p => perl_do (SvREFCNT_dec p)) l w = Done tt (w <| w_perl := i' |>) /\
    dropped l (w_perl w) i' /\ links (w_perl w) i'.
Proof.
  revert w. induction l as [|p l IH]; intros w Hnd Hh Ha.
  { exists (w_perl w). split_and!; [by destruct w|split; [by intros q Hq%not_elem_of_nil|done]|apply linked_refl]. }
  apply list.NoDup_cons in Hnd as [Hp Hnd]. destruct (Hh p) as (x & Hx & Hn); [set_solver|].
  destruct (drop_one w p x Hx Hn) as (i1 & Hrun1 & [Hd1 Hf1] & Hk1).
  assert (forall q, q ∈ l -> sv_view i1 q = sv_view (w_perl w) q) as Hl.
  { intros q Hq. apply Hf1; [set_solver|]. intros p' y ->%list_elem_of_singleton _ _. apply Ha; set_solver. }
  destruct (IH (w <| w_perl := i1 |>) Hnd) as (i2 & Hrun2 & [Hd2 Hf2] & Hk2); rsimpl.
  { intros q Hq. rewrite (Hl q Hq). apply Hh. set_solver. }
  { eapply apart_linked; [exact Hk1|]. intros a b Hq Hq'. apply Ha; set_solver. }
  rsimpl_in Hf2. rsimpl_in Hd2. exists i2. cbn [for_each]. rewrite (bind_step _ _ _ _ _ Hrun1).
  split_and!; [done | split | by eapply linked_trans].
  - intros q [->|Hq]%elem_of_cons; [|by rewrite (Hd2 q Hq), Hl].
    rewrite Hf2, Hd1; [done | set_solver | done |]. intros p' y Hp' _ _ Hr. apply (Ha p' p); [set_solver | set_solver | by apply Hk1].
  - intros q Hq Hr. rewrite Hf2, Hf1; [done | set_solver | | set_solver |].
    + intros p' y ->%list_elem_of_singleton. apply Hr. set_solver.
    + intros p' y Hp' Hy H1 Hpq. rewrite (Hl p' Hp') in Hy. apply (Hr p' y); [set_solver | done | done | by apply Hk1].
Qed.

(** ** The log *)

Lemma inc_calls {HLog : CallLog HPerl} l : forall w w',
  for_each (fun p => perl_do (SvREFCNT_inc p)) l w = Done tt w' -> calls (w_perl w') = calls (w_perl w).
Proof.
  induction l as [|p l IH]; intros w w' Hrun; cbn [for_each] in Hrun; [by injection Hrun as <-|].
  unfold rbind, perl_do in Hrun. destruct (SvREFCNT_inc p (w_perl w)) as [i|] eqn:Hi; [|done].
  apply IH in Hrun. rewrite Hrun. by apply calls_inc in Hi.
Qed.
Lemma dec_calls {HLog : CallLog HPerl} l : forall w w',
  for_each (fun p => perl_do (SvREFCNT_dec p)) l w = Done tt w' -> calls (w_perl w') = calls (w_perl w).
Proof.
  induction l as [|p l IH]; intros w w' Hrun; cbn [for_each] in Hrun; [by injection Hrun as <-|].
  unfold rbind, perl_do in Hrun. destruct (SvREFCNT_dec p (w_perl w)) as [i|] eqn:Hi; [|done].
  apply IH in Hrun. rewrite Hrun. by apply calls_dec in Hi.
Qed.

(** * Callbacks *)

Ltac run_to H := rewrite (bind_step _ _ _ _ _ H); cbv beta.

(** A callback with a Perl handler that still holds its scalars, none of which
    refers to another one. *)
Record live_callback (w : world) (cb : ptr) (x : ngxe_callback_t) : Prop := mk_live {
  lc_cb : w_callbacks w !! cb = Some x;
  lc_handler : cb_handler x <> NULL;
  lc_n : cb_args_n x = Z.of_nat (length (cb_args x));
  lc_args : cb_args x <> [];
  lc_dec : cb_decremented x = false;
  lc_nodup : NoDup (cb_handler x :: cb_args x);
  lc_held : held 0 (cb_handler x :: cb_args x) (w_perl w);
  lc_apart : apart (cb_handler x :: cb_args x) (w_perl w)
}.

Lemma args_upto_run w cb x :
  w_callbacks w !! cb = Some x -> cb_args_upto cb (Z.of_nat (length (cb_args x))) w = Done (cb_args x) w.
Proof.
  intros Hcb. unfold cb_args_upto, cb_rd. step. rewrite Z.leb_refl, Nat2Z.id, firstn_all. done.
Qed.

(** The callback after it has let go of its scalars. *)
Definition released (x : ngxe_callback_t) : ngxe_callback_t :=
  x <| cb_args_n := 0 |> <| cb_decremented := true |>.

Lemma callback_dec_ok w cb x :
  live_callback w cb x ->
  exists i', ngxe_callback_dec cb w
      = Done tt (w <| w_perl := i' |> <| w_callbacks := <[cb := released x]> (w_callbacks w) |>) /\
    dropped (cb_handler x :: cb_args x) (w_perl w) i' /\ links (w_perl w) i' /\
    (forall HLog : CallLog HPerl, calls i' = calls (w_perl w)).
Proof.
  intros [Hcb Hh Hn _ Hd Hnd Hheld Hap]. unfold ngxe_callback_dec, cb_rd, cb_wr. step. rewrite Hd. step.
  destruct (Z.eqb_spec (cb_handler x) NULL) as [|_]; [done|]. cbn [negb].
  destruct (drop_all w _ Hnd Hheld Hap) as (i' & Hrun & Hdrop & Hk).
  assert (forall HLog : CallLog HPerl, calls i' = calls (w_perl w)) as Hlog by (intros HLog; exact (dec_calls _ _ _ Hrun)).
  cbn [for_each] in Hrun.
  unfold rbind at 1 in Hrun. destruct (perl_do (SvREFCNT_dec (cb_handler x)) w) as [[] w1| |] eqn:H1; [|done..].
  rewrite (bind_step _ _ _ _ _ H1). cbv beta. unfold perl_do in H1.
  destruct (SvREFCNT_dec (cb_handler x) (w_perl w)) as [i1|]; [|done]. injection H1 as <-. step.
  rewrite Hn. erewrite bind_step by (apply args_upto_run; exact Hcb). cbv beta.
  run_to Hrun. exists i'. split; [|done].
  step. unfold wr_at. rsimpl. rewrite lookup_insert_eq. unfold released. rsimpl. by rewrite insert_insert_eq.
Qed.

(** The counts of the scalars of [l] have changed by [d]. *)
Definition counts_changed (d : Z) (l : list ptr) (i i' : interp) : Prop :=
  forall p, p ∈ l -> sv_refcnt <$> sv_view i' p = (fun x => sv_refcnt x + d) <$> sv_view i p.

Lemma moved_changed d l l' i i' : l ⊆ l' -> counts_moved d l' i i' -> counts_changed d l i i'.
Proof.
  intros Hl Hm p Hp. rewrite Hm, bool_decide_eq_true_2 by set_solver. by destruct (sv_view i p).
Qed.
Lemma changed_trans d d' l i1 i2 i3 :
  counts_changed d l i1 i2 -> counts_changed d' l i2 i3 -> counts_changed (d + d') l i1 i3.
Proof.
  intros H1 H2 p Hp. specialize (H1 p Hp). specialize (H2 p Hp).
  destruct (sv_view i1 p), (sv_view i2 p), (sv_view i3 p); simplify_eq/=; try done. f_equal. lia.
Qed.
Lemma same_changed l i i' :
  (forall p, p ∈ l -> sv_view i' p = sv_view i p) -> counts_changed 0 l i i'.
Proof. intros H p Hp. rewrite H by done. destruct (sv_view i p); [|done]. simpl. by rewrite Z.add_0_r. Qed.

Lemma held_changed n d l i i' : held n l i -> counts_changed d l i i' -> held (n + d) l i'.
Proof.
  intros Hh Hc p Hp. destruct (Hh p Hp) as (x & Hx & Hn). specialize (Hc p Hp). rewrite Hx in Hc.
  destruct (sv_view i' p) as [x'|]; [|done]. injection Hc as Hc. exists x'. split; [done | lia].
Qed.

(** ** A whole call *)

(** What the subroutine does in between: it returns, keeps the callback, gives
    back every reference it takes to the scalars it was called with, and makes
    none of them refer to another one or a temporary. *)
Definition keeps_callback (m : W unit) (l : list ptr) : Prop :=
  forall w, held 1 l (w_perl w) -> apart l (w_perl w) -> no_temps l (w_perl w) ->
    exists w', m w = Done tt w' /\ w_callbacks w' = w_callbacks w /\
      counts_changed 0 l (w_perl w) (w_perl w') /\ apart l (w_perl w') /\ no_temps l (w_perl w').

Definition after_call (d : bool) (x : ngxe_callback_t) : ngxe_callback_t := if d then released x else x.

(** Grouping the first statements of a program. *)
Lemma seq2 {B} (m1 m2 : W unit) (k : unit -> W B) w :
  rbind m1 (fun _ => rbind m2 k) w = rbind (rbind m1 (fun _ => m2)) k w.
Proof. by rewrite bind_assoc. Qed.
Lemma seq3 {A B C} (m1 : W unit) (m2 : W A) (m3 : A -> W C) (k : C -> W B) w :
  rbind m1 (fun _ => rbind m2 (fun a => rbind (m3 a) k)) w
  = rbind (rbind m1 (fun _ => rbind m2 m3)) k w.
Proof. unfold rbind. destruct (m1 w); [|done..]. by destruct (m2 _). Qed.

(** The scalars of [l] as the subroutine sees them, with one more reference
    each. *)
Definition seen (l : list ptr) (i i' : interp) : Prop :=
  forall p, p ∈ l -> sv_view i' p = (fun y => y <| sv_refcnt := sv_refcnt y + 1 |>) <$> sv_view i p.

Lemma seen_changed l i i' : seen l i i' -> counts_changed 1 l i i'.
Proof. intros H p Hp. rewrite H by done. by destruct (sv_view i p). Qed.

(** The first half of a call: the references it takes. *)
Lemma take_refs w h args :
  NoDup (h :: args) -> held 0 (h :: args) (w_perl w) ->
  exists i', (perl_do (SvREFCNT_inc h) ;;; for_each (fun p => perl_do (SvREFCNT_inc p)) args)%run w
      = Done tt (w <| w_perl := i' |>) /\ counts_moved 1 (h :: args) (w_perl w) i' /\ links (w_perl w) i' /\
    (forall HLog : CallLog HPerl, calls i' = calls (w_perl w)).
Proof.
  intros Hnd Hh. destruct (inc_all w (h :: args) Hnd Hh) as (i' & Hrun & Hm & Hk).
  exists i'. split_and!; [exact Hrun | done | done |]. intros HLog. exact (inc_calls _ _ _ Hrun).
Qed.
Lemma moved_seen l i i' : counts_moved 1 l i i' -> seen l i i'.
Proof. intros Hm p Hp. by rewrite Hm, bool_decide_eq_true_2. Qed.

(** The second half: the references it gives back, which are not the last. *)
Lemma give_refs w cb x :
  w_callbacks w !! cb = Some x -> NoDup (cb_handler x :: cb_args x) ->
  held 1 (cb_handler x :: cb_args x) (w_perl w) ->
  exists i', (for_each (fun p => perl_do (SvREFCNT_dec p)) (cb_args x) ;;;
       do! handler := cb_rd cb cb_handler in perl_do (SvREFCNT_dec handler))%run w
      = Done tt (w <| w_perl := i' |>) /\ counts_moved (-1) (cb_handler x :: cb_args x) (w_perl w) i' /\ links (w_perl w) i' /\
    (forall HLog : CallLog HPerl, calls i' = calls (w_perl w)).
Proof.
  intros Hcb Hnd Hh. apply list.NoDup_cons in Hnd as [Hnin Hnd].
  destruct (dec_all w (cb_args x) Hnd) as (i1 & Hrun1 & Hm1 & Hk1).
  { eapply held_mono; [| |exact Hh]; [lia | set_solver]. }
  destruct (Hh (cb_handler x)) as (y & Hy & Hn); [set_solver|].
  destruct (dec_one (w <| w_perl := i1 |>) (cb_handler x) y) as (i2 & Hrun2 & Hm2 & Hk2); [|done|].
  { rsimpl. by rewrite Hm1, bool_decide_eq_false_2. }
  exists i2. run_to Hrun1. unfold cb_rd. step. split_and!; [exact Hrun2 | | by eapply linked_trans |].
  - intros p. rewrite (Hm2 p). rsimpl. rewrite (Hm1 p). destruct (decide (p = cb_handler x)) as [->|Hne].
    + rewrite bool_decide_eq_true_2, bool_decide_eq_false_2, bool_decide_eq_true_2 by set_solver. done.
    + rewrite bool_decide_eq_false_2 by set_solver. destruct (decide (p ∈ cb_args x)).
      * by rewrite !bool_decide_eq_true_2 by set_solver.
      * by rewrite !bool_decide_eq_false_2 by set_solver.
  - intros HLog. pose proof (dec_calls _ _ _ Hrun1) as Hc1. rsimpl_in Hc1. rewrite <- Hc1.
    unfold perl_do in Hrun2. destruct (SvREFCNT_dec _ _) as [i|] eqn:Hi; [|done]. injection Hrun2 as ->. exact (calls_dec _ _ _ Hi).
Qed.

(** The counts after a call: those of before, or less the callback's own. *)
Definition counts_after (d : bool) (l : list ptr) (i i' : interp) : Prop :=
  forall p, p ∈ l -> sv_refcnt <$> sv_view i' p = sv_refcnt <$> (if d then drop_view (sv_view i p) else sv_view i p).

Lemma drop_count o o' : sv_refcnt <$> o = sv_refcnt <$> o' -> sv_refcnt <$> drop_view o = sv_refcnt <$> drop_view o'.
Proof.
  destruct o as [x|], o' as [y|]; try done. cbn. intros [= H]. rewrite H. by destruct (sv_refcnt y =? 1).
Qed.

Lemma callback_ok rec w cb x d :
  live_callback w cb x ->
  keeps_callback (do_call_sv rec (cb_handler x) (cb_args x)) (cb_handler x :: cb_args x) ->
  exists i1 w3 i', seen (cb_handler x :: cb_args x) (w_perl w) i1 /\
    apart (cb_handler x :: cb_args x) i1 /\ no_temps (cb_handler x :: cb_args x) i1 /\
    do_call_sv rec (cb_handler x) (cb_args x) (w <| w_perl := i1 |>) = Done tt w3 /\
    ngxe_callback rec cb d w
      = Done tt (w3 <| w_perl := i' |> <| w_callbacks := <[cb := after_call d x]> (w_callbacks w) |>) /\
    counts_after d (cb_handler x :: cb_args x) (w_perl w) i' /\
    (forall HLog : CallLog HPerl, calls i1 = calls (w_perl w) /\ calls i' = calls (w_perl w3)).
Proof.
  intros Hl Hkeep. pose proof Hl as [Hcb Hh Hn Hne Hd Hnd Hheld Hap].
  destruct (cb_args x !! 0%nat) as [a0|] eqn:H0; [|by destruct (cb_args x)].
  destruct (Hheld a0) as (y & Hy & _); [apply elem_of_cons; right; by eapply list_elem_of_lookup_2|].
  set (l := cb_handler x :: cb_args x) in *.
  unfold ngxe_callback, cb_arg, cb_rd. do 2 step. rewrite H0. step. step. step.
  destruct (Z.eqb_spec (cb_handler x) NULL) as [|_]; [done|]. step. rewrite Hn.
  erewrite bind_step by (apply args_upto_run; exact Hcb). cbv beta. step. step.
  set (w1 := w <| w_perl := SAVETMPS (w_perl w) |>).
  assert (Hheld1 : held 0 l (w_perl w1)).
  { intros p Hp. destruct (Hheld p Hp) as (z & Hz & Hzn). exists z. unfold w1. rsimpl. by rewrite save_law. }
  destruct (take_refs w1 (cb_handler x) (cb_args x) Hnd Hheld1) as (i2 & Hrun2 & Hm2 & Hk2 & Hlog2). fold l in Hm2.
  assert (apart l i2) as Hap2.
  { eapply apart_linked; [exact Hk2|]. intros p q Hp Hq Hr. apply (Hap p q Hp Hq). by apply save_reaches. }
  assert (no_temps l i2) as Ht2.
  { eapply no_temps_linked; [exact Hk2|]. intros p Hp. apply save_temps. }
  assert (seen l (w_perl w) i2) as Hseen.
  { intros p Hp. rewrite (moved_seen _ _ _ Hm2 p Hp). unfold w1. rsimpl. by rewrite save_law. }
  rewrite seq2. run_to Hrun2. set (w2 := w1 <| w_perl := i2 |>).
  assert (held 1 l i2) as Hheld2 by (eapply held_mono; [| |exact (held_changed _ _ _ _ _ Hheld (seen_changed _ _ _ Hseen))]; [lia | done]).
  destruct (Hkeep w2 Hheld2 Hap2 Ht2) as (w3 & Hrun3 & Hcb3 & Hc3 & Hap3 & Ht3).
  change (w_callbacks w2) with (w_callbacks w) in Hcb3.
  run_to Hrun3. assert (w_callbacks w3 !! cb = Some x) as Hx3 by by rewrite Hcb3.
  erewrite bind_step by (apply args_upto_run; exact Hx3). cbv beta.
  destruct (give_refs w3 cb x Hx3 Hnd) as (i4 & Hrun4 & Hm4 & Hk4 & Hlog4).
  { eapply held_mono; [| |exact (held_changed _ _ _ _ _ Hheld2 Hc3)]; [lia | done]. }
  rewrite seq3. run_to Hrun4. set (w4 := w3 <| w_perl := i4 |>).
  assert (counts_changed 0 l (w_perl w) (w_perl w4)) as Hc14.
  { replace 0 with (1 + (0 + -1)) by done. eapply changed_trans; [exact (seen_changed _ _ _ Hseen)|].
    eapply changed_trans; [exact Hc3|]. by eapply moved_changed. }
  assert (forall p, p ∈ l -> sv_refcnt <$> sv_view i4 p = sv_refcnt <$> sv_view (w_perl w) p) as Hsame.
  { intros p Hp. change i4 with (w_perl w4). rewrite (Hc14 p Hp). destruct (sv_view (w_perl w) p); [|done]. cbn. by rewrite Z.add_0_r. }
  destruct d.
  - destruct (callback_dec_ok w4 cb x) as (i5 & Hrun5 & [Hd5 _] & Hk5 & Hlog5).
    { split; try done; [|by eapply apart_linked]. eapply held_mono; [| |exact (held_changed _ _ _ _ _ Hheld Hc14)]; [lia | done]. }
    run_to Hrun5. step. unfold wr_g. exists i2, w3, (FREETMPS i5).
    split_and!; [done | done | done | exact Hrun3 | by rewrite <- Hcb3 | |].
    + intros p Hp. rewrite free_law, (Hd5 p Hp); [|by eapply no_temps_linked, Hp; [exact Hk5|]; eapply no_temps_linked].
      apply drop_count. exact (Hsame p Hp).
    + intros HLog. rewrite Hlog2, calls_free, Hlog5. split; [exact (calls_save _) | exact (Hlog4 _)].
  - step. step. unfold wr_g. exists i2, w3, (FREETMPS i4).
    split_and!; [done | done | done | exact Hrun3 | | |].
    + rewrite insert_id by done. rewrite <- Hcb3. by destruct w3.
    + intros p Hp. rewrite free_law by (by eapply no_temps_linked). exact (Hsame p Hp).
    + intros HLog. rewrite Hlog2, calls_free. split; [exact (calls_save _) | exact (Hlog4 _)].
Qed.

(** * The theorems *)

(** C21.  For a callback that holds live scalars, none of which refers to another
    one of them: [ngxe_callback_dec] gives back exactly one reference to the handler
    and to every argument, where a scalar whose last reference that was ends, and
    changes no other scalar but those an ended one refers to; it works once: a
    second call, or the pool's cleanup handler after it, changes nothing.  A whole
    [ngxe_callback] around a subroutine that returns, gives back what it takes and
    leaves the scalars neither temporary nor referring to each other, returns; the
    counts of handler and arguments are what they were, or one less each (with
    the last reference the scalar ends) when the caller asked for the callback's
    own references to be dropped, which is then recorded in the callback. *)
Theorem callback_balanced w cb x :
  live_callback w cb x ->
  (exists w', ngxe_callback_dec cb w = Done tt w' /\
    dropped (cb_handler x :: cb_args x) (w_perl w) (w_perl w') /\
    ngxe_callback_dec cb w' = Done tt w' /\ ngxe_callback_cleanup cb w' = Done tt w') /\
  (forall rec d, keeps_callback (do_call_sv rec (cb_handler x) (cb_args x)) (cb_handler x :: cb_args x) ->
    exists w', ngxe_callback rec cb d w = Done tt w' /\
      counts_after d (cb_handler x :: cb_args x) (w_perl w) (w_perl w') /\
      w_callbacks w' = <[cb := after_call d x]> (w_callbacks w)).
Proof.
  intros Hl. split; [|intros rec d Hkeep;
    destruct (callback_ok rec w cb x d Hl Hkeep) as (i1 & w3 & i' & _ & _ & _ & _ & Hrun & Hc & _); eexists; split; [exact Hrun | done]].
  destruct (callback_dec_ok w cb x Hl) as (i' & Hrun & Hm & _).
  set (w' := _ <| w_callbacks := _ |>) in Hrun. exists w'. split; [done|]. split; [done|].
  assert (w_callbacks w' !! cb = Some (released x)) as Hcb by (unfold w'; look).
  split; [unfold ngxe_callback_dec | unfold ngxe_callback_cleanup]; unfold cb_rd; by step.
Qed.

End Refcount.

(** * Witnesses *)

Import Systems.
Local Existing Instance scripted_kernel.

(** The interpreters of the witnesses have no temporaries. *)
Definition refers (i : scalars) (p q : ptr) : Prop := exists x, heap i !! p = Some x /\ sv_rok x = true /\ sv_rv x = q.
Lemma refers_insert i p x y f a b :
  heap i !! p = Some x -> sv_rok y = sv_rok x -> sv_rv y = sv_rv x -> refers (mk_scalars (<[p := y]> (heap i)) f) a b -> refers i a b.
Proof.
  intros Hp H1 H2 (z & Hz & Hr & Hq). cbn in Hz. apply lookup_insert_Some in Hz as [[<- <-]|[_ Hz]]; [|by exists z].
  exists x. split_and!; [done | congruence | congruence].
Qed.

#[export] Instance perl_of_refcounts subs : RefcountLaws (perl_of subs).
Proof.
  refine {| temp (_ : @interp (perl_of subs)) _ := False; reaches (i : @interp (perl_of subs)) p q := refers i p q |};
    cbn [perl_of sv_view SvREFCNT_inc SvREFCNT_dec SAVETMPS FREETMPS interp].
  - intros i p x Hp. unfold sv_upd. rewrite Hp. eexists. split; [done|]. cbn.
    split_and!; [apply lookup_insert_eq | intros q Hq; by apply lookup_insert_ne |]. split; [done|]. intros a b. by apply (refers_insert i p x).
  - intros i p x Hp Hn. unfold sv_dec. rewrite Hp. cbn. destruct (Z.eqb_spec (sv_refcnt x) 1); [lia|].
    eexists. split; [done|]. cbn. split_and!; [apply lookup_insert_eq | intros q Hq; by apply lookup_insert_ne |].
    split; [done|]. intros a b. by apply (refers_insert i p x).
  - intros i p x Hp Hn. unfold sv_dec. rewrite Hp. cbn. rewrite Hn. eexists. split; [done|]. cbn.
    split_and!; [apply lookup_delete_eq | intros q Hq _; by apply lookup_delete_ne |].
    split; [done|]. intros a b (z & Hz & Hr). exists z. cbn in Hz. by apply lookup_delete_Some in Hz as [_ ?].
  - done.
  - tauto.
  - done.
  - done.
  - done.
Defined.

#[export] Instance logging_refcounts : RefcountLaws logging_perl.
Proof.
  refine {| temp (_ : @interp logging_perl) _ := False; reaches (i : @interp logging_perl) p q := refers i.1 p q |};
    cbn [logging_perl sv_view SvREFCNT_inc SvREFCNT_dec SAVETMPS FREETMPS interp]; unfold lift.
  - intros [i l] p x Hp. destruct (@inc_law _ (perl_of_refcounts no_subs) i p x Hp) as (i' & Hrun & H). exists (i', l). split; [|exact H]. cbn in Hrun |- *. by rewrite Hrun.
  - intros [i l] p x Hp Hn. destruct (@dec_law _ (perl_of_refcounts no_subs) i p x Hp Hn) as (i' & Hrun & H). exists (i', l). split; [|exact H]. cbn in Hrun |- *. by rewrite Hrun.
  - intros [i l] p x Hp Hn. destruct (@last_law _ (perl_of_refcounts no_subs) i p x Hp Hn) as (i' & Hrun & H). exists (i', l). split; [|exact H]. cbn in Hrun |- *. by rewrite Hrun.
  - done.
  - tauto.
  - done.
  - done.
  - done.
Defined.
#[export] Instance logging_log : CallLog logging_perl.
Proof.
  refine {| calls (i : @interp logging_perl) := i.2 |}; cbn [logging_perl SvREFCNT_inc SvREFCNT_dec SAVETMPS FREETMPS interp].
  - intros [i l] p i'. unfold lift. cbn [fst snd]. destruct (SvREFCNT_inc _ _); [|done]. by intros [= <-].
  - intros [i l] p i'. unfold lift. cbn [fst snd]. destruct (SvREFCNT_dec _ _); [|done]. by intros [= <-].
  - done.
  - done.
Defined.

Definition refcount_perl : Perl := perl_of no_subs.
Local Existing Instance refcount_perl.

(** The handler and the second argument are held by nobody else. *)
Definition shared_sv : sv := empty_sv <| sv_refcnt := 2 |>.
Definition some_callback : ngxe_callback_t := mk_callback 200 [208; 216] 2 false NULL.
Definition callback_world : world :=
  (small_world (mk_scalars (list_to_map [(200, empty_sv); (208, shared_sv); (216, empty_sv)]) 1000 : interp)
     no_answers) <| w_callbacks := {[ 300 := some_callback ]} |>.

Lemma callback_world_live : live_callback callback_world 300 some_callback.
Proof.
  split; try done.
  - repeat constructor; set_solver by lia.
  - intros p Hp. cbn in Hp. repeat setoid_rewrite elem_of_cons in Hp.
    destruct Hp as [->|[->|[->|[]%not_elem_of_nil]]]; by eexists.
  - intros p q Hp _ (x & Hx & Hr & _). cbn in Hp. repeat setoid_rewrite elem_of_cons in Hp.
    destruct Hp as [->|[->|[->|[]%not_elem_of_nil]]]; cbn in Hx; by injection Hx as <-.
Qed.

Lemma callback_balanced_witness :
  (exists w', ngxe_callback_dec 300 callback_world = Done tt w' /\
    dropped [200; 208; 216] (w_perl callback_world) (w_perl w') /\
    ngxe_callback_dec 300 w' = Done tt w' /\ ngxe_callback_cleanup 300 w' = Done tt w') /\
  (exists w', ngxe_callback (fun _ => rfault) 300 true callback_world = Done tt w' /\
    counts_after true [200; 208; 216] (w_perl callback_world) (w_perl w') /\
    w_callbacks w' = <[300 := released some_callback]> (w_callbacks callback_world)).
Proof.
  destruct (callback_balanced callback_world 300 some_callback callback_world_live) as [Hdec Hcall].
  split; [exact Hdec|]. apply (Hcall (fun _ => rfault) true).
  intros w _ Ha Ht. exists w. split_and!; [by destruct w | done | | done | done].
  intros p Hp. cbn. destruct (heap (w_perl w) !! p) as [y|]; [|done]. cbn. by rewrite Z.add_0_r.
Defined.

End Refcount.
