(* ===== verification/Session.v ===== *)
(** The sessions of Nginx::Engine: ngxe_connection.c.

    A handler is split at its labels: the part from a label on is a definition
    of its own, and [goto] is a call of the corresponding task of [rec].  The
    same [rec] runs the engine's functions when Perl code calls them, and
    event handlers called through their event. *)
From stdpp Require Import base gmap list numbers strings.
From S2P Require Import Prelude Rbtree World Timer Event Connection Callback.
Local Open Scope Z_scope.
Import World Timer Event Connection Callback.

Module Session.

(** Calls and jumps whose target may lead back to the caller. *)
Inductive task :=
| T_api (a : api)
| T_handler (ev : ptr)
| T_reader_recvagain (ev c s cb svbuf : ptr)
| T_rvpv_sendagain (c s cb svbuf : ptr) (cur : Z)
| T_rvpvav_nextbuf (c s cb : ptr)
| T_rvpvav_sendagain (c s cb svbuf : ptr) (cur : Z)
| T_writer_sendagain (c s cb svbuf : ptr) (cur : Z).

Section Session.
Context {HPerl : Perl} {HKern : Kernel} {HAct : EventActions}.
Local Open Scope run_scope.

(** [n] bytes at offset [off] of the string buffer of [sv]. *)
Definition sv_bytes (sv : ptr) (off n : Z) : W (list Z) :=
  do! pv := sv_rd sv sv_pv in
  if (0 <=? off) && (0 <=? n) && (off + n <=? Z.of_nat (length pv))
  then rret (take (Z.to_nat n) (drop (Z.to_nat off) pv)) else rfault.

Section Rec.
Context (rec : task -> W Z) (fuel : nat).

Definition goto (t : task) : W unit := do! r := rec t in rret tt.
Definition callback (cb : ptr) (decrefcnts : bool) : W unit :=
  ngxe_callback (fun a => rec (T_api a)) cb decrefcnts.

(** [c->recv(c, buf + off, size)] and [c->send(c, buf, size)]. *)
Definition conn_recv (c sv : ptr) (off size : Z) : W Z :=
  do! recv := c_rd c c_recv in
  if recv : bool then ngx_unix_recv fuel c sv off size else rfault.
Definition conn_send (c : ptr) (buf : list Z) : W Z :=
  do! send := c_rd c c_send in
  if send : bool then ngx_unix_send fuel c buf else rfault.

Definition handle_read_event (c : ptr) : W Z :=
  do! rev := c_rd c c_read in ngx_handle_read_event rev 0.
Definition handle_write_event (c : ptr) : W Z :=
  do! wev := c_rd c c_write in ngx_handle_write_event (fun _ _ => rfault) wev 0.

(** [if (ev->timer_set) ngx_del_timer(ev);] *)
Definition disarm (ev : ptr) : W unit :=
  do! timer_set := ev_rd ev ev_timer_set in
  when timer_set then ngx_event_del_timer ev.

(** [if (!c->read->timer_set && s->reader_timeout)
       ngx_add_timer(c->read, s->reader_timeout);] and the same for the writer. *)
Definition arm_reader (c s : ptr) : W unit :=
  do! rev := c_rd c c_read in
  do! timer_set := ev_rd rev ev_timer_set in
  do! timeout := s_rd s s_reader_timeout in
  when negb timer_set && negb (timeout =? 0) then ngx_event_add_timer rev (u64 timeout).
Definition arm_writer (c s : ptr) : W unit :=
  do! wev := c_rd c c_write in
  do! timer_set := ev_rd wev ev_timer_set in
  do! timeout := s_rd s s_writer_timeout in
  when negb timer_set && negb (timeout =? 0) then ngx_event_add_timer wev (u64 timeout).

(** The error argument of a callback: a number and a text. *)
Definition set_error (cb : ptr) (code : Z) (text : string) : W unit :=
  do! arg := cb_arg cb 1 in
  perl_do (sv_setiv arg code) ;;;
  perl_do (sv_setpv arg (bytes text)) ;;;
  perl_do (SvIOK_on arg).

Definition ngxe_dummy_handler (ev : ptr) : W unit := rret tt.

Definition ngxe_close (c : ptr) : W unit :=
  if c =? NULL then rret tt
  else
    do! destroyed := c_rd c c_destroyed in
    if destroyed : bool then rret tt
    else
      c_wr c c_destroyed true ;;;
      do! pool := c_rd c c_pool in
      ngx_close_connection c ;;;
      ngx_destroy_pool pool.

(** The error path of every handler: tell the callback, then close. *)
Definition fail_with (c cb : ptr) (code : Z) (text : string) : W unit :=
  set_error cb code text ;;;
  callback cb true ;;;
  ngxe_close c.

(** * Reader *)

Definition ngxe_reader_start (c : ptr) : W unit :=
  if c =? NULL then rret tt
  else
    do! s := c_rd c c_data in
    do! cb := s_rd s s_reader_callback in
    do! rev := c_rd c c_read in
    ev_wr rev ev_handler H_ngxe_reader_handler ;;;
    disarm rev ;;;
    do! rc := handle_read_event c in
    if negb (rc =? NGX_OK) then fail_with c cb (-2) "Event error"
    else arm_reader c s.

Definition ngxe_reader_stop (c : ptr) : W unit :=
  if c =? NULL then rret tt
  else
    do! rev := c_rd c c_read in
    disarm rev ;;;
    ev_wr rev ev_handler H_ngxe_dummy_handler.

Definition ngxe_writer_start (c : ptr) : W unit :=
  if c =? NULL then rret tt
  else
    do! s := c_rd c c_data in
    do! cb := s_rd s s_writer_callback in
    do! wev := c_rd c c_write in
    ev_wr wev ev_handler H_ngxe_writer_handler ;;;
    disarm wev ;;;
    do! rc := handle_write_event c in
    if negb (rc =? NGX_OK) then fail_with c cb (-2) "Event error"
    else
      arm_writer c s ;;;
      do! ready := wev_rd c ev_ready in
      when ready then
        do! wev := c_rd c c_write in goto (T_handler wev).

Definition ngxe_writer_stop (c : ptr) : W unit :=
  if c =? NULL then rret tt
  else
    do! wev := c_rd c c_write in
    disarm wev ;;;
    ev_wr wev ev_handler H_ngxe_dummy_handler.

(** Is there something in the writer's buffer after the reader's callback. *)
Definition reader_has_output (s : ptr) : W bool :=
  do! wcb := s_rd s s_writer_callback in
  do! wbuf := s_rd s s_writer_buffer in
  if (wcb =? NULL) || (wbuf =? NULL) then rret false
  else
    do! rok := sv_rd wbuf sv_rok in
    if rok : bool then rret true
    else
      do! pok := sv_rd wbuf sv_pok in
      do! cur := sv_rd wbuf sv_cur in
      rret (pok && (0 <? cur)).

(** [CALLBACK:] *)
Definition reader_CALLBACK (ev c s cb svbuf : ptr) : W unit :=
  callback cb false ;;;
  do! destroyed := c_rd c c_destroyed in
  if destroyed : bool then rret tt
  else
    do! rh := rev_rd c ev_handler in
    if decide (rh = H_ngxe_dummy_handler) then rret tt
    else
      do! wh := wev_rd c ev_handler in
      if negb (bool_decide (wh = H_ngxe_dummy_handler)) then rret tt
      else
        do! output := reader_has_output s in
        if output : bool then
          s_wr s s_writer_offset 0 ;;;
          s_wr s s_writer_index 0 ;;;
          ngxe_reader_stop c ;;;
          ngxe_writer_start c
        else
          do! rc := handle_read_event c in
          if negb (rc =? NGX_OK) then fail_with c cb (-2) "Event error"
          else
            do! ready := rev_rd c ev_ready in
            if ready : bool then goto (T_reader_recvagain ev c s cb svbuf)
            else arm_reader c s.

(** What follows when [recv] gave data: wait for more, or call back. *)
Definition reader_check_min (ev c s cb svbuf : ptr) : W unit :=
  do! cur := sv_rd svbuf sv_cur in
  do! len := sv_rd svbuf sv_len in
  do! arg := cb_arg cb 4 in
  do! min_len := sv_rd arg sv_iv in
  if (cur + 1 <? u64 min_len) && (cur + 1 <? len) then
    do! rc := handle_read_event c in
    if negb (rc =? NGX_OK) then fail_with c cb (-2) "Event error"
    else
      do! ready := rev_rd c ev_ready in
      if ready : bool then goto (T_reader_recvagain ev c s cb svbuf)
      else arm_reader c s
  else reader_CALLBACK ev c s cb svbuf.

(** What follows the [recv] of [RECVAGAIN:] at offset [cur], [n] its result. *)
Definition reader_received (ev c s cb svbuf : ptr) (cur n : Z) : W unit :=
  if (n =? NGX_ERROR) || (n =? 0) then fail_with c cb 1 "Read error"
  else if 0 <? n then
    perl_do (SvCUR_set svbuf (cur + n)) ;;;
    do! rc := handle_read_event c in
    if negb (rc =? NGX_OK) then fail_with c cb (-2) "Event error"
    else
      arm_reader c s ;;;
      reader_check_min ev c s cb svbuf
  else if n =? NGX_AGAIN then arm_reader c s
  else reader_check_min ev c s cb svbuf.

(** [RECVAGAIN:] *)
Definition reader_RECVAGAIN (ev c s cb svbuf : ptr) : W unit :=
  do! cur := sv_rd svbuf sv_cur in
  do! len := sv_rd svbuf sv_len in
  (when len =? cur + 1 then ngxe_buf_svgrow svbuf (len + 16384)) ;;;
  do! cur := sv_rd svbuf sv_cur in
  do! len := sv_rd svbuf sv_len in
  if len <=? cur + 1 then reader_CALLBACK ev c s cb svbuf
  else
    do! n := conn_recv c svbuf cur (len - cur - 1) in
    reader_received ev c s cb svbuf cur n.

Definition ngxe_reader_handler (ev : ptr) : W unit :=
  do! c := ev_rd ev ev_data in
  if c =? NULL then rret tt
  else
    do! s := c_rd c c_data in
    if s =? NULL then rret tt
    else
      do! cb := s_rd s s_reader_callback in
      if cb =? NULL then rret tt
      else
        do! svbuf := s_rd s s_reader_buffer in
        if svbuf =? NULL then rret tt
        else
          do! timedout := ev_rd ev ev_timedout in
          if timedout : bool then
            c_wr c c_timedout true ;;;
            fail_with c cb (-1) "Operation timed out"
          else
            do! rev := c_rd c c_read in
            disarm rev ;;;
            reader_RECVAGAIN ev c s cb svbuf.

(** * Writer: a reference to a string *)

(** What follows a callback while the connection lives: send more, wait, or go
    back to reading. *)
Definition rvpv_AFTERCALLBACK (c s cb : ptr) : W unit :=
  do! destroyed := c_rd c c_destroyed in
  if destroyed : bool then rret tt
  else
    do! wh := wev_rd c ev_handler in
    if decide (wh = H_ngxe_dummy_handler) then rret tt
    else
      do! wbuf := s_rd s s_writer_buffer in
      do! ok := sv_rd wbuf sv_ok in
      do! rok := sv_rd wbuf sv_rok in
      do! more := (if ok && rok then
                     do! rv := sv_rd wbuf sv_rv in
                     do! cur := sv_rd rv sv_cur in rret (0 <? cur)
                   else rret false) in
      if more : bool then
        do! svbuf := sv_rd wbuf sv_rv in
        do! svcur := sv_rd svbuf sv_cur in
        do! off := s_rd s s_writer_offset in
        let cur := s64 (svcur - off) in
        do! ready := wev_rd c ev_ready in
        if ready : bool then goto (T_rvpv_sendagain c s cb svbuf cur)
        else
          do! rc := handle_write_event c in
          if negb (rc =? NGX_OK) then
            s_wr s s_writer_offset 0 ;;;
            fail_with c cb (-2) "Event error"
          else arm_writer c s
      else
        do! rcb := s_rd s s_reader_callback in
        do! rbuf := s_rd s s_reader_buffer in
        when negb (rcb =? NULL) && negb (rbuf =? NULL) then
          (ngxe_writer_stop c ;;; ngxe_reader_start c).

(** [$_[3] = undef]: the end of [ngxe_rvpv_writer_handler] and of
    [ngxe_rvpvav_writer_handler] once everything is sent. *)
Definition clear_writer_buffer (s : ptr) : W unit :=
  do! wbuf := s_rd s s_writer_buffer in
  do! rv := sv_rd wbuf sv_rv in
  perl_do (SvREFCNT_dec rv) ;;;
  perl_do (SvRV_set wbuf PL_sv_undef) ;;;
  perl_do (sv_setsv wbuf PL_sv_undef).

(** What follows the [send] of [SENDAGAIN:] at offset [off], [n] its result. *)
Definition rvpv_sent (c s cb svbuf : ptr) (cur off n : Z) : W unit :=
  if (n =? NGX_ERROR) || (n =? 0) then
    s_wr s s_writer_offset 0 ;;;
    fail_with c cb 1 "Write error"
  else if 0 <? n then
    s_wr s s_writer_offset (s32 (off + n)) ;;;
    do! svcur := sv_rd svbuf sv_cur in
    let cur := s64 (svcur - s32 (off + n)) in
    if 0 <? cur then
      wev_wr c ev_ready false ;;;
      do! rc := handle_write_event c in
      if negb (rc =? NGX_OK) then
        s_wr s s_writer_offset 0 ;;;
        fail_with c cb (-2) "Event error"
      else arm_writer c s
    else
      s_wr s s_writer_offset 0 ;;;
      clear_writer_buffer s ;;;
      callback cb false ;;;
      rvpv_AFTERCALLBACK c s cb
  else if n =? NGX_AGAIN then
    do! rc := handle_write_event c in
    if negb (rc =? NGX_OK) then
      s_wr s s_writer_offset 0 ;;;
      fail_with c cb (-2) "Event error"
    else
      do! ready := wev_rd c ev_ready in
      if ready : bool then goto (T_rvpv_sendagain c s cb svbuf cur)
      else arm_writer c s
  else
    clear_writer_buffer s ;;;
    callback cb false ;;;
    rvpv_AFTERCALLBACK c s cb.

(** [SENDAGAIN:] *)
Definition rvpv_SENDAGAIN (c s cb svbuf : ptr) (cur : Z) : W unit :=
  do! off := s_rd s s_writer_offset in
  do! buf := sv_bytes svbuf off cur in
  do! n := conn_send c buf in
  rvpv_sent c s cb svbuf cur off n.

Definition ngxe_rvpv_writer_handler (ev : ptr) : W unit :=
  do! c := ev_rd ev ev_data in
  do! s := c_rd c c_data in
  do! cb := s_rd s s_writer_callback in
  do! wbuf := s_rd s s_writer_buffer in
  do! svbuf := sv_rd wbuf sv_rv in
  perl_do (SvPOK_on svbuf) ;;;
  do! timedout := ev_rd ev ev_timedout in
  if timedout : bool then
    c_wr c c_timedout true ;;;
    fail_with c cb (-1) "Operation timed out"
  else
    do! wev := c_rd c c_write in
    disarm wev ;;;
    do! svcur := sv_rd svbuf sv_cur in
    do! off := s_rd s s_writer_offset in
    let cur := s64 (svcur - off) in
    if cur <=? 0 then
      s_wr s s_writer_offset 0 ;;;
      callback cb false ;;;
      rvpv_AFTERCALLBACK c s cb
    else rvpv_SENDAGAIN c s cb svbuf cur.

(** * Writer: a reference to an array of references to strings *)

(** [DONE:] *)
Definition rvpvav_DONE (c s cb : ptr) : W unit :=
  clear_writer_buffer s ;;;
  callback cb false ;;;
  do! destroyed := c_rd c c_destroyed in
  if destroyed : bool then rret tt
  else
    do! wh := wev_rd c ev_handler in
    if decide (wh = H_ngxe_dummy_handler) then rret tt
    else
      do! wbuf := s_rd s s_writer_buffer in
      do! ok := sv_rd wbuf sv_ok in
      do! rok := sv_rd wbuf sv_rok in
      if ok && rok then
        s_wr s s_writer_offset 0 ;;;
        s_wr s s_writer_index 0 ;;;
        do! ready := wev_rd c ev_ready in
        if ready : bool then goto (T_rvpvav_nextbuf c s cb)
        else
          do! rc := handle_write_event c in
          if negb (rc =? NGX_OK) then
            s_wr s s_writer_offset 0 ;;;
            fail_with c cb (-2) "Event error"
          else arm_writer c s
      else
        do! rcb := s_rd s s_reader_callback in
        do! rbuf := s_rd s s_reader_buffer in
        when negb (rcb =? NULL) && negb (rbuf =? NULL) then
          (ngxe_writer_stop c ;;; ngxe_reader_start c).

(** What follows the [send] of [SENDAGAIN:] at offset [off], [n] its result. *)
Definition rvpvav_sent (c s cb svbuf : ptr) (cur off n : Z) : W unit :=
  if (n =? NGX_ERROR) || (n =? 0) then
    s_wr s s_writer_offset 0 ;;;
    s_wr s s_writer_index 0 ;;;
    fail_with c cb 1 "Write error"
  else if 0 <? n then
    s_wr s s_writer_offset (s32 (off + n)) ;;;
    do! svcur := sv_rd svbuf sv_cur in
    let cur := s64 (svcur - s32 (off + n)) in
    do! wev := c_rd c c_write in
    disarm wev ;;;
    if 0 <? cur then
      wev_wr c ev_ready false ;;;
      do! rc := handle_write_event c in
      if negb (rc =? NGX_OK) then
        s_wr s s_writer_offset 0 ;;;
        fail_with c cb (-2) "Event error"
      else arm_writer c s
    else
      s_wr s s_writer_offset 0 ;;;
      do! index := s_rd s s_writer_index in
      s_wr s s_writer_index (s32 (index + 1)) ;;;
      goto (T_rvpvav_nextbuf c s cb)
  else if n =? NGX_AGAIN then
    do! rc := handle_write_event c in
    if negb (rc =? NGX_OK) then
      s_wr s s_writer_offset 0 ;;;
      fail_with c cb (-2) "Event error"
    else
      do! ready := wev_rd c ev_ready in
      if ready : bool then goto (T_rvpvav_sendagain c s cb svbuf cur)
      else arm_writer c s
  else rvpvav_DONE c s cb.

(** [SENDAGAIN:] *)
Definition rvpvav_SENDAGAIN (c s cb svbuf : ptr) (cur : Z) : W unit :=
  do! off := s_rd s s_writer_offset in
  do! buf := sv_bytes svbuf off cur in
  do! n := conn_send c buf in
  rvpvav_sent c s cb svbuf cur off n.

(** [NEXTBUF:] *)
Definition rvpvav_NEXTBUF (c s cb : ptr) : W unit :=
  do! wbuf := s_rd s s_writer_buffer in
  do! av := sv_rd wbuf sv_rv in
  do! elts := sv_rd av sv_av in
  let avlen := Z.of_nat (length elts) - 1 in
  do! index := s_rd s s_writer_index in
  if avlen <? index then rvpvav_DONE c s cb
  else
    do! elt := (match elts !! Z.to_nat index with
                | Some p => if (0 <=? index) && negb (p =? NULL) then rret p else rfault
                | None => rfault
                end) in
    do! ok := sv_rd elt sv_ok in
    do! rok := sv_rd elt sv_rok in
    if negb ok || negb rok then
      s_wr s s_writer_offset 0 ;;;
      s_wr s s_writer_index 0 ;;;
      fail_with c cb 1 "Buffer is not a SCALAR REF"
    else
      do! svbuf := sv_rd elt sv_rv in
      perl_do (SvPOK_on svbuf) ;;;
      do! svcur := sv_rd svbuf sv_cur in
      do! off := s_rd s s_writer_offset in
      let cur := s64 (svcur - off) in
      if cur <=? 0 then
        s_wr s s_writer_offset 0 ;;;
        s_wr s s_writer_index (s32 (index + 1)) ;;;
        goto (T_rvpvav_nextbuf c s cb)
      else rvpvav_SENDAGAIN c s cb svbuf cur.

Definition ngxe_rvpvav_writer_handler (ev : ptr) : W unit :=
  do! c := ev_rd ev ev_data in
  do! s := c_rd c c_data in
  do! cb := s_rd s s_writer_callback in
  do! timedout := ev_rd ev ev_timedout in
  if timedout : bool then
    c_wr c c_timedout true ;;;
    fail_with c cb (-1) "Operation timed out"
  else
    do! wev := c_rd c c_write in
    disarm wev ;;;
    rvpvav_NEXTBUF c s cb.

(** * Writer: a string *)

Definition writer_AFTERCALLBACK (c s cb svbuf : ptr) : W unit :=
  do! destroyed := c_rd c c_destroyed in
  if destroyed : bool then rret tt
  else
    do! wh := wev_rd c ev_handler in
    if decide (wh = H_ngxe_dummy_handler) then rret tt
    else
      do! cur := sv_rd svbuf sv_cur in
      if 0 <? cur then
        do! ready := wev_rd c ev_ready in
        if ready : bool then goto (T_writer_sendagain c s cb svbuf cur)
        else
          do! rc := handle_write_event c in
          if negb (rc =? NGX_OK) then fail_with c cb (-2) "Event error"
          else arm_writer c s
      else
        do! rcb := s_rd s s_reader_callback in
        do! rbuf := s_rd s s_reader_buffer in
        when negb (rcb =? NULL) && negb (rbuf =? NULL) then
          (ngxe_writer_stop c ;;; ngxe_reader_start c).

(** What follows the [send] of [SENDAGAIN:], [n] its result. *)
Definition writer_sent (c s cb svbuf : ptr) (cur n : Z) : W unit :=
  if (n =? NGX_ERROR) || (n =? 0) then fail_with c cb 1 "Write error"
  else if 0 <? n then
    perl_do (sv_chop svbuf n) ;;;
    do! cur := sv_rd svbuf sv_cur in
    if 0 <? cur then
      wev_wr c ev_ready false ;;;
      do! rc := handle_write_event c in
      if negb (rc =? NGX_OK) then fail_with c cb (-2) "Event error"
      else arm_writer c s
    else
      (when cur =? 0 then
         (perl_do (SvOOK_off svbuf) ;;; perl_do (SvCUR_set svbuf 0))) ;;;
      callback cb false ;;;
      writer_AFTERCALLBACK c s cb svbuf
  else if n =? NGX_AGAIN then
    do! rc := handle_write_event c in
    if negb (rc =? NGX_OK) then fail_with c cb (-2) "Event error"
    else
      do! ready := wev_rd c ev_ready in
      if ready : bool then goto (T_writer_sendagain c s cb svbuf cur)
      else arm_writer c s
  else
    callback cb false ;;;
    writer_AFTERCALLBACK c s cb svbuf.

(** [SENDAGAIN:] *)
Definition writer_SENDAGAIN (c s cb svbuf : ptr) (cur : Z) : W unit :=
  do! buf := sv_bytes svbuf 0 cur in
  do! n := conn_send c buf in
  writer_sent c s cb svbuf cur n.

Definition ngxe_writer_handler (ev : ptr) : W unit :=
  do! c := ev_rd ev ev_data in
  if c =? NULL then rret tt
  else
    do! s := c_rd c c_data in
    if s =? NULL then rret tt
    else
      do! cb := s_rd s s_writer_callback in
      if cb =? NULL then rret tt
      else
        do! svbuf := s_rd s s_writer_buffer in
        if svbuf =? NULL then rret tt
        else
          do! rok := sv_rd svbuf sv_rok in
          if rok : bool then
            do! rv := sv_rd svbuf sv_rv in
            do! type := sv_rd rv sv_type in
            match type with
            | SVt_PV => ngxe_rvpv_writer_handler ev
            | SVt_PVAV => ngxe_rvpvav_writer_handler ev
            | SVt_other => fail_with c cb 1 "Unsupported buffer type"
            end
          else
            do! timedout := ev_rd ev ev_timedout in
            if timedout : bool then
              c_wr c c_timedout true ;;;
              fail_with c cb (-1) "Operation timed out"
            else
              do! wev := c_rd c c_write in
              disarm wev ;;;
              do! cur := sv_rd svbuf sv_cur in
              if cur =? 0 then
                do! ook := sv_rd svbuf sv_ook in
                (when ook then perl_do (SvOOK_off svbuf)) ;;;
                perl_do (SvCUR_set svbuf 0) ;;;
                callback cb false ;;;
                writer_AFTERCALLBACK c s cb svbuf
              else writer_SENDAGAIN c s cb svbuf cur.

(** * Clients *)

Definition ngxe_client_init_handler (ev : ptr) : W unit :=
  do! c := ev_rd ev ev_data in
  if c =? NULL then rret tt
  else
    rev_wr c ev_handler H_ngxe_dummy_handler ;;;
    wev_wr c ev_handler H_ngxe_dummy_handler ;;;
    do! s := c_rd c c_data in
    if s =? NULL then rret tt
    else
      do! cb := s_rd s s_writer_callback in
      if cb =? NULL then rret tt
      else
        do! error := ev_rd ev ev_error in
        if error : bool then fail_with c cb (-1) "Connect error"
        else
          do! timedout := ev_rd ev ev_timedout in
          if timedout : bool then
            c_wr c c_timedout true ;;;
            fail_with c cb (-1) "Operation timed out"
          else
            do! wev := c_rd c c_write in
            disarm wev ;;;
            callback cb true.

(** * Timers of the API (ngxe_timer.c) *)

Definition ngxe_interval_callback (ev : ptr) : W unit :=
  do! c := ev_rd ev ev_data in
  do! interval := c_rd c c_data in
  do! msec := i_rd interval i_msec in
  ngx_event_add_timer ev (u64 msec) ;;;
  do! cb := i_rd interval i_callback in
  callback cb false.

Definition ngxe_timeout_callback (ev : ptr) : W unit :=
  do! c := ev_rd ev ev_data in
  do! interval := c_rd c c_data in
  do! cb := i_rd interval i_callback in
  callback cb true ;;;
  do! pool := c_rd c c_pool in
  ngx_destroy_pool pool ;;;
  ngx_free_connection c.

End Rec.
End Session.
End Session.
