(* ===== verification/Server.v ===== *)
(** Connections made and accepted: ngx_event_accept.c, ngx_event_connect.c,
    the listening sockets of ngxe_ngx.c, and the rest of ngxe_connection.c
    ([ngxe_create_peer], [ngxe_server_init_connection], [ngxe_server_create]). *)
From stdpp Require Import base gmap list numbers strings.
From S2P Require Import Prelude Rbtree World Timer Event Connection Callback Session Inet.
Local Open Scope Z_scope.
Import World Timer Event Connection Callback Session.

Module Server.

Definition NGX_TCP_NODELAY_DISABLED : Z := 2.
Definition NGX_TCP_NOPUSH_DISABLED : Z := 2.
Definition NGX_INET_ADDRSTRLEN : Z := 15.
Definition NGX_SOCKADDR_STRLEN : Z := 115.
Definition NGX_LISTEN_BACKLOG : Z := 511.
Definition SOCK_STREAM : Z := 1.

(** Sizes of the structures allocated, on a 64-bit platform. *)
Definition sizeof_sockaddr_in : Z := 16.
Definition sizeof_ngxe_session_t : Z := 72.
Definition sizeof_ngx_addr_t : Z := 32.
Definition sizeof_ngx_str_t : Z := 16.
Definition sizeof_ngx_log_t : Z := 48.
Definition sizeof_ngx_peer_connection_t : Z := 88.
Definition sizeof_ngx_listening_t : Z := 208.

(** The layout of a [struct sockaddr_in] in memory, and back. *)
Definition sockaddr_bytes (family port : Z) (addr : list Z) : list Z :=
  [family; 0; port mod 256; port / 256] ++ addr ++ replicate 8 0.
Definition sockaddr_of (l : list Z) : Inet.sockaddr_in :=
  let at_ i := default 0 (l !! i) in
  Inet.mk_sin (at_ 0%nat) (at_ 2%nat + 256 * at_ 3%nat) (take 4 (drop 4 l)).

(** [ngx_peer_connection_t] *)
Record ngx_peer_connection_t := mk_peer {
  pc_connection : ptr;
  pc_sockaddr : list Z;
  pc_local : option (list Z);
  pc_rcvbuf : Z;
  pc_log_error : Z
}.
#[export] Instance eta_peer : Eta ngx_peer_connection_t := fun x =>
  mk_peer (pc_connection x) (pc_sockaddr x) (pc_local x) (pc_rcvbuf x) (pc_log_error x).

Section Server.
Context {HPerl : Perl} {HKern : Kernel} {HAct : EventActions}.
Local Open Scope run_scope.

(** [ngx_create_pool] *)
Definition ngx_create_pool (size : Z) : W ptr :=
  do! ok := sys (sys_malloc size) in
  if ok : bool then
    fun w => Done (w_next w)
      (w <| w_pools := <[w_next w := mk_pool [] []]> (w_pools w) |> <| w_next := w_next w + 16 |>)
  else rret NULL.

(** [ngx_pcalloc(pool, sizeof(ngxe_session_t))] *)
Definition pcalloc_session (pool : ptr) : W ptr :=
  do! p := pool_alloc pool sizeof_ngxe_session_t in
  if p =? NULL then rret NULL
  else (fun w => Done p (w <| w_sessions := <[p := zero_session]> (w_sessions w) |>)).

Definition ngx_close_accepted_connection (c : ptr) : W unit :=
  ngx_free_connection c ;;;
  do! fd := c_rd c c_fd in
  c_wr c c_fd (-1) ;;;
  do! rc := sys (sys_close fd) in
  do! pool := c_rd c c_pool in
  when negb (pool =? NULL) then ngx_destroy_pool pool.

Definition ls_rd {A} (ls : ptr) (f : ngx_listening_t -> A) : W A := rd_at w_listenings ls f.
Definition ls_wr {A} (ls : ptr) (f : ngx_listening_t -> A) `{!Setter f} (v : A) : W unit :=
  wr_at w_listenings ls f v.

(** * Outgoing connections *)

(** The exit [failed:] of [ngx_event_connect_peer]. *)
Definition connect_failed (pc : ngx_peer_connection_t) (c : ptr) (s : Z) :
    W (Z * ngx_peer_connection_t) :=
  ngx_free_connection c ;;;
  do! rc := sys (sys_close s) in
  rret (NGX_ERROR, pc).

(** From the call of [connect] on; [rc] is its result. *)
Definition connect_finish (pc : ngx_peer_connection_t) (c : ptr) (s : Z) (rc : unit + Z) :
    W (Z * ngx_peer_connection_t) :=
  do! rev := c_rd c c_read in
  do! wev := c_rd c c_write in
  let in_progress := match rc with inl _ => false | inr _ => true end in
  if match rc with inl _ => false | inr err => negb (err =? NGX_EINPROGRESS) end then
    rret (NGX_DECLINED, pc)
  else
    match ngx_add_conn with
    | Some _ =>
        if in_progress then rret (NGX_AGAIN, pc)
        else ev_wr wev ev_ready true ;;; rret (NGX_OK, pc)
    | None =>
        do! flags := rd_g w_flags in
        let event := if has flags NGX_USE_CLEAR_EVENT then NGX_CLEAR_EVENT else NGX_LEVEL_EVENT in
        do! r := ngx_add_event rev NGX_READ_EVENT event in
        if negb (r =? NGX_OK) then connect_failed pc c s
        else if in_progress then
          do! r := ngx_add_event wev NGX_WRITE_EVENT event in
          if negb (r =? NGX_OK) then connect_failed pc c s else rret (NGX_AGAIN, pc)
        else ev_wr wev ev_ready true ;;; rret (NGX_OK, pc)
    end.

(** [ngx_event_connect_peer]; [pc->get] is [ngx_event_get_peer], which
    returns [NGX_OK].  The aio backends are left out. *)
Definition ngx_event_connect_peer (pc : ngx_peer_connection_t) : W (Z * ngx_peer_connection_t) :=
  do! r := sys (sys_socket (default 0 (pc_sockaddr pc !! 0%nat))) in
  match r with
  | inr _ => rret (NGX_ERROR, pc)
  | inl s =>
      do! c := ngx_get_connection s in
      if c =? NULL then
        do! rc := sys (sys_close s) in
        rret (NGX_ERROR, pc)
      else
        do! r := (if pc_rcvbuf pc =? 0 then rret (inl tt) else sys (sys_setsockopt s (pc_rcvbuf pc))) in
        if match r with inr _ => true | inl _ => false end then connect_failed pc c s
        else
          do! r := sys (sys_nonblocking s) in
          if match r with inr _ => true | inl _ => false end then connect_failed pc c s
          else
            do! r := (match pc_local pc with None => rret (inl tt) | Some a => sys (sys_bind s a) end) in
            if match r with inr _ => true | inl _ => false end then connect_failed pc c s
            else
              c_wr c c_recv true ;;;
              c_wr c c_send true ;;;
              c_wr c c_sendfile true ;;;
              c_wr c c_log_error (pc_log_error pc) ;;;
              (when negb (default 0 (pc_sockaddr pc !! 0%nat) =? Inet.AF_INET) then
                 (c_wr c c_tcp_nopush NGX_TCP_NOPUSH_DISABLED ;;;
                  c_wr c c_tcp_nodelay NGX_TCP_NODELAY_DISABLED)) ;;;
              let pc := pc <| pc_connection := c |> in
              do! counter := rd_g w_counter in
              c_wr c c_number counter ;;;
              wr_g w_counter (u64 (counter + 1)) ;;;
              do! r := (match ngx_add_conn with Some add_conn => add_conn c | None => rret NGX_OK end) in
              if r =? NGX_ERROR then connect_failed pc c s
              else
                do! rc := sys (sys_connect s (pc_sockaddr pc)) in
                connect_finish pc c s rc
  end.

(** [ngxe_create_peer]: the peer, or NULL when an allocation failed. *)
Definition ngxe_create_peer (pool : ptr) (bindaddr addr port : Z) : W (option ngx_peer_connection_t) :=
  do! local := pool_alloc pool sizeof_ngx_addr_t in
  if local =? NULL then rret None
  else
    do! localsin := pool_alloc pool sizeof_sockaddr_in in
    if localsin =? NULL then rret None
    else
      (** [local] gets the address [addr] and is not used after that *)
      do! sin := pool_alloc pool sizeof_sockaddr_in in
      if sin =? NULL then rret None
      else
        let sockaddr := sockaddr_bytes Inet.AF_INET (Inet.ntohs (u16 port)) (Inet.bytes_of_u32 addr) in
        do! peer := pool_alloc pool sizeof_ngx_peer_connection_t in
        if peer =? NULL then rret None
        else
          do! name := pool_alloc pool sizeof_ngx_str_t in
          if name =? NULL then rret None
          else rret (Some (mk_peer NULL sockaddr None 0 NGX_ERROR_ERR)).

(** * Listening sockets *)

(** [ngx_ngxe_create_listening] for an IPv4 address. *)
Definition ngx_ngxe_create_listening (pool : ptr) (sockaddr : list Z) : W ptr :=
  do! ls := pool_alloc pool sizeof_ngx_listening_t in
  if ls =? NULL then rret NULL
  else
    do! sa := pool_alloc pool (Z.of_nat (length sockaddr)) in
    if sa =? NULL then rret NULL
    else
      let text := Inet.ngx_sock_ntop (sockaddr_of sockaddr) NGX_SOCKADDR_STRLEN true in
      let max_len := if Inet.sin_family (sockaddr_of sockaddr) =? Inet.AF_INET
                     then NGX_INET_ADDRSTRLEN else NGX_SOCKADDR_STRLEN in
      do! data := pool_alloc pool (Z.of_nat (length text)) in
      if data =? NULL then rret NULL
      else (fun w => Done ls
             (w <| w_listenings := <[ls := mk_listening (-1) NULL 0 false max_len sockaddr false]>
                                     (w_listenings w) |>)).

(** [ngx_ngxe_open_listening_socket].  The flags [ignore] and [inherited] are
    zero and [fd] is -1 on a listening socket just created. *)
Definition ngx_ngxe_open_listening_socket (ls : ptr) : W unit :=
  do! fd := ls_rd ls ls_fd in
  if negb (fd =? -1) then rret tt
  else
    do! sockaddr := ls_rd ls ls_sockaddr in
    do! r := sys (sys_socket (default 0 (sockaddr !! 0%nat))) in
    match r with
    | inr _ => rret tt
    | inl s =>
        do! r := sys (sys_setsockopt s 1) in
        if match r with inr _ => true | inl _ => false end then
          do! rc := sys (sys_close s) in rret tt
        else
          do! flags := rd_g w_flags in
          do! r := (if has flags NGX_USE_AIO_EVENT then rret (inl tt) else sys (sys_nonblocking s)) in
          if match r with inr _ => true | inl _ => false end then
            do! rc := sys (sys_close s) in rret tt
          else
            do! r := sys (sys_bind s sockaddr) in
            if match r with inr _ => true | inl _ => false end then
              do! rc := sys (sys_close s) in rret tt
            else
              do! r := sys (sys_listen s NGX_LISTEN_BACKLOG) in
              if match r with inr _ => true | inl _ => false end then
                do! rc := sys (sys_close s) in rret tt
              else
                ls_wr ls ls_listen true ;;;
                ls_wr ls ls_fd s
    end.

Definition ngx_ngxe_add_listening_connection (ls : ptr) : W Z :=
  do! fd := ls_rd ls ls_fd in
  do! c := ngx_get_connection fd in
  if c =? NULL then rret NGX_ERROR
  else
    c_wr c c_listening ls ;;;
    ls_wr ls ls_connection c ;;;
    do! rev := c_rd c c_read in
    ev_wr rev ev_accept true ;;;
    ev_wr rev ev_handler H_ngx_event_accept ;;;
    do! flags := rd_g w_flags in
    do! r := (if has flags NGX_USE_RTSIG_EVENT then
                match ngx_add_conn with Some add_conn => add_conn c | None => rfault end
              else ngx_add_event rev NGX_READ_EVENT 0) in
    if r =? NGX_ERROR then rret NGX_ERROR else rret NGX_OK.

Definition ngxe_server_create (addr port : Z) : W ptr :=
  do! pool := ngx_create_pool 256 in
  if pool =? NULL then rret NULL
  else
    do! sin := pool_alloc pool sizeof_sockaddr_in in
    if sin =? NULL then rret NULL
    else
      let sockaddr := sockaddr_bytes Inet.AF_INET (Inet.ntohs (u16 port)) (Inet.bytes_of_u32 addr) in
      do! ls := ngx_ngxe_create_listening pool sockaddr in
      if ls =? NULL then rret NULL
      else
        ls_wr ls ls_pool_size 256 ;;;
        ls_wr ls ls_addr_ntop true ;;;
        ngx_ngxe_open_listening_socket ls ;;;
        do! rc := ngx_ngxe_add_listening_connection ls in
        if negb (rc =? NGX_OK) then rret NULL
        else
          do! c := ls_rd ls ls_connection in
          c_wr c c_pool pool ;;;
          rret ls.

(** * Accepted connections *)

Section Rec.
Context (rec : task -> W Z).

Definition ngxe_server_init_connection (c : ptr) : W unit :=
  do! pool := c_rd c c_pool in
  do! s := pcalloc_session pool in
  if s =? NULL then ngxe_close c
  else
    c_wr c c_data s ;;;
    rev_wr c ev_handler H_ngxe_dummy_handler ;;;
    wev_wr c ev_handler H_ngxe_dummy_handler ;;;
    do! ls := c_rd c c_listening in
    do! lc := ls_rd ls ls_connection in
    do! cb := c_rd lc c_data in
    do! arg0 := cb_arg cb 0 in
    perl_do (sv_setiv arg0 c) ;;;
    do! arg1 := cb_arg cb 1 in
    do! text := c_rd c c_addr_text in
    perl_do (sv_setpv arg1 text) ;;;
    callback rec cb false.

(** The part of the loop body of [ngx_event_accept] for a new socket [s] of
    the peer [sa].  The result says whether the loop goes on ([continue] or
    the end of the body) or the function returns. *)
Definition accept_one (ev ls : ptr) (s : Z) (sa : list Z) : W bool :=
  do! connection_n := rd_g w_connection_n in
  do! free_n := rd_g w_free_n in
  wr_g w_accept_disabled (s64 (connection_n / 8 - free_n)) ;;;
  do! c := ngx_get_connection s in
  if c =? NULL then
    do! rc := sys (sys_close s) in rret false
  else
    do! pool_size := ls_rd ls ls_pool_size in
    do! pool := ngx_create_pool pool_size in
    c_wr c c_pool pool ;;;
    if pool =? NULL then ngx_close_accepted_connection c ;;; rret false
    else
      do! p := pool_alloc pool (Z.of_nat (length sa)) in
      if p =? NULL then ngx_close_accepted_connection c ;;; rret false
      else
        c_wr c c_sockaddr sa ;;;
        do! log := pool_alloc pool sizeof_ngx_log_t in
        if log =? NULL then ngx_close_accepted_connection c ;;; rret false
        else
          do! inherited := rd_g w_inherited_nonblocking in
          do! flags := rd_g w_flags in
          do! r := (if negb inherited
                       && negb (has flags (Z.lor NGX_USE_AIO_EVENT NGX_USE_RTSIG_EVENT))
                    then sys (sys_nonblocking s) else rret (inl tt)) in
          if match r with inr _ => true | inl _ => false end
          then ngx_close_accepted_connection c ;;; rret false
          else
            c_wr c c_recv true ;;;
            c_wr c c_send true ;;;
            c_wr c c_listening ls ;;;
            c_wr c c_unexpected_eof true ;;;
            do! rev := c_rd c c_read in
            do! wev := c_rd c c_write in
            ev_wr wev ev_ready true ;;;
            (when has flags (Z.lor NGX_USE_AIO_EVENT NGX_USE_RTSIG_EVENT)
             then ev_wr rev ev_ready true) ;;;
            do! deferred := ev_rd ev ev_deferred_accept in
            (when deferred then ev_wr rev ev_ready true) ;;;
            do! counter := rd_g w_counter in
            c_wr c c_number counter ;;;
            wr_g w_counter (u64 (counter + 1)) ;;;
            do! addr_ntop := ls_rd ls ls_addr_ntop in
            do! max_len := ls_rd ls ls_addr_text_max_len in
            do! text := (if addr_ntop : bool then
                           do! data := pool_alloc pool max_len in
                           if data =? NULL then rret None
                           else
                             let text := Inet.ngx_sock_ntop (sockaddr_of sa) max_len false in
                             c_wr c c_addr_text text ;;;
                             rret (match text with [] => None | _ => Some text end)
                         else rret (Some [])) in
            match text with
            | None => ngx_close_accepted_connection c ;;; rret false
            | Some _ =>
                do! r := (match ngx_add_conn with
                          | Some add_conn =>
                              if has flags NGX_USE_EPOLL_EVENT then rret NGX_OK else add_conn c
                          | None => rret NGX_OK
                          end) in
                if r =? NGX_ERROR then ngx_close_accepted_connection c ;;; rret false
                else ngxe_server_init_connection c ;;; rret true
            end.

(** The loop of [ngx_event_accept], without kqueue. *)
Fixpoint accept_loop (fuel : nat) (ev lc ls : ptr) : W unit :=
  match fuel with
  | O => fun _ => NoFuel
  | S fuel =>
      do! lfd := c_rd lc c_fd in
      do! r := sys (sys_accept lfd) in
      do! more := (match r with
                   | inr err => rret (err =? NGX_ECONNABORTED)
                   | inl (s, sa) => accept_one ev ls s sa
                   end) in
      if more : bool then
        do! available := ev_rd ev ev_available in
        when available then accept_loop fuel ev lc ls
      else rret tt
  end.

Definition ngx_event_accept (fuel : nat) (ev : ptr) : W unit :=
  do! flags := rd_g w_flags in
  do! multi_accept := rd_g w_multi_accept in
  ev_wr ev ev_available (if has flags NGX_USE_RTSIG_EVENT then true else multi_accept) ;;;
  do! lc := ev_rd ev ev_data in
  do! ls := c_rd lc c_listening in
  ev_wr ev ev_ready false ;;;
  accept_loop fuel ev lc ls.

End Rec.
End Server.
End Server.
