(* ===== verification/Engine.v ===== *)
(** The engine put together: the functions Perl code calls (Engine.xs), the
    dispatch of event handlers, the event loop ([ngx_process_events_and_timers]
    of ngx_event.c and [ngxe_loop] of Engine.xs), and the recursion through
    callbacks, tied with fuel. *)
From stdpp Require Import base gmap list numbers strings.
From S2P Require Import Prelude Rbtree World Timer Event Connection Callback Session Server.
Local Open Scope Z_scope.
Import World Timer Event Connection Callback Session Server.

Module Engine.

Section Engine.
Context {HPerl : Perl} {HKern : Kernel} {HAct : EventActions}.
Local Open Scope run_scope.

(** * The functions of Engine.xs *)

(** The checks most functions start with; [k] goes on with the session.  A
    function that gives up returns [undef], here 0. *)
Definition xs_session (c : ptr) (k : ptr -> W Z) : W Z :=
  if c =? NULL then rret 0
  else
    do! pool := c_rd c c_pool in
    if pool =? NULL then rret 0
    else
      do! s := c_rd c c_data in
      if s =? NULL then rret 0 else k s.

Definition xs_interval_clear (p : ptr) : W unit :=
  do! c := i_rd p i_connection in
  do! cb := i_rd p i_callback in
  ngxe_callback_dec cb ;;;
  do! rev := c_rd c c_read in
  ngx_event_del_timer rev ;;;
  do! pool := c_rd c c_pool in
  ngx_destroy_pool pool ;;;
  ngx_free_connection c.

Definition run_api (rec : task -> W Z) (a : api) : W Z :=
  match a with
  | Api_close c => ngxe_close c ;;; rret 0
  | Api_reader_start c timeout =>
      xs_session c (fun s =>
        (match timeout with Some t => s_wr s s_reader_timeout (s32 t) | None => rret tt end) ;;;
        ngxe_reader_start rec c ;;; rret 0)
  | Api_reader_stop c => ngxe_reader_stop c ;;; rret 0
  | Api_writer_start c timeout =>
      xs_session c (fun s =>
        (match timeout with Some t => s_wr s s_writer_timeout (s32 t) | None => rret tt end) ;;;
        ngxe_writer_start rec c ;;; rret 0)
  | Api_writer_stop c => ngxe_writer_stop c ;;; rret 0
  | Api_reader_stop_writer_start c =>
      ngxe_reader_stop c ;;; ngxe_writer_start rec c ;;; rret 0
  | Api_writer_stop_reader_start c =>
      ngxe_writer_stop c ;;; ngxe_reader_start rec c ;;; rret 0
  | Api_reader_timeout c timeout =>
      xs_session c (fun s =>
        do! old := s_rd s s_reader_timeout in
        (match timeout with Some t => s_wr s s_reader_timeout (s32 t) | None => rret tt end) ;;;
        rret old)
  | Api_writer_timeout c timeout =>
      xs_session c (fun s =>
        do! old := s_rd s s_writer_timeout in
        (match timeout with Some t => s_wr s s_writer_timeout (s32 t) | None => rret tt end) ;;;
        rret old)
  | Api_interval_clear p => xs_interval_clear p ;;; rret 0
  | Api_timeout_clear p => xs_interval_clear p ;;; rret 0
  end.

(** * Dispatch *)

(** [ev->handler(ev)] *)
Definition run_handler (rec : task -> W Z) (fuel : nat) (ev : ptr) : W unit :=
  do! h := ev_rd ev ev_handler in
  match h with
  | H_NULL => rfault
  | H_ngxe_dummy_handler => ngxe_dummy_handler ev
  | H_ngxe_reader_handler => ngxe_reader_handler rec fuel ev
  | H_ngxe_writer_handler => ngxe_writer_handler rec fuel ev
  | H_ngxe_client_init_handler => ngxe_client_init_handler rec ev
  | H_ngxe_interval_callback => ngxe_interval_callback rec ev
  | H_ngxe_timeout_callback => ngxe_timeout_callback rec ev
  | H_ngx_event_accept => ngx_event_accept rec fuel ev
  end.

Definition run_task (rec : task -> W Z) (fuel : nat) (t : task) : W Z :=
  match t with
  | T_api a => run_api rec a
  | T_handler ev => run_handler rec fuel ev ;;; rret 0
  | T_reader_recvagain ev c s cb svbuf => reader_RECVAGAIN rec fuel ev c s cb svbuf ;;; rret 0
  | T_rvpv_sendagain c s cb svbuf cur => rvpv_SENDAGAIN rec fuel c s cb svbuf cur ;;; rret 0
  | T_rvpvav_nextbuf c s cb => rvpvav_NEXTBUF rec fuel c s cb ;;; rret 0
  | T_rvpvav_sendagain c s cb svbuf cur => rvpvav_SENDAGAIN rec fuel c s cb svbuf cur ;;; rret 0
  | T_writer_sendagain c s cb svbuf cur => writer_SENDAGAIN rec fuel c s cb svbuf cur ;;; rret 0
  end.

(** The recursion: [run n t] runs [t] with at most [n] nested calls and
    jumps. *)
Fixpoint run (n : nat) (t : task) : W Z :=
  match n with
  | O => fun _ => NoFuel
  | S n => run_task (run n) n t
  end.

Definition call_handler (n : nat) (ev : ptr) : W unit :=
  do! r := run n (T_handler ev) in rret tt.

(** * The event loop *)

(** [ngx_process_events_and_timers] without threads and without the accept
    mutex, which needs several worker processes. *)
Definition ngx_process_events_and_timers (n : nat) (nevents : Z) : W unit :=
  do! resolution := rd_g w_timer_resolution in
  do! timer := (if negb (resolution =? 0) then rret NGX_TIMER_INFINITE else ngx_event_find_timer) in
  let flags := if negb (resolution =? 0) then 0 else NGX_UPDATE_TIME in
  do! before := rd_g w_msec in
  do! rc := ngx_epoll_process_events (call_handler n) nevents timer flags in
  do! after := rd_g w_msec in
  let delta := u64 (after - before) in
  do! posted_accept := rd_g w_posted_accept in
  (when negb (posted_accept =? NULL) then ngx_event_process_posted (call_handler n) Q_accept n) ;;;
  (when negb (delta =? 0) then ngx_event_expire_timers (call_handler n) n) ;;;
  do! posted := rd_g w_posted in
  when negb (posted =? NULL) then ngx_event_process_posted (call_handler n) Q_posted n.

(** [ngxe_loop]: [turns] passes of the loop, which ends when a signal handler
    sets [ngx_terminate] or [ngx_quit]. *)
Fixpoint ngxe_loop (n turns : nat) (nevents : Z) : W unit :=
  match turns with
  | O => rret tt
  | S turns => ngx_process_events_and_timers n nevents ;;; ngxe_loop n turns nevents
  end.

End Engine.
End Engine.
