(* ===== verification/Lifetime.v ===== *)
(** The end of a session: [ngxe_close], and what becomes of a callback whose
    own pool is destroyed while it runs. *)
From stdpp Require Import base numbers gmap list.
From S2P Require Import Prelude Rbtree RbtreeRep World Systems Timer Event PostedQueue Backend Connection FreeList Close Callback Refcount Session.
Local Open Scope Z_scope.
Import World Timer Event PostedQueue Backend Connection FreeList Close Callback Session.

Module Lifetime.

(** * Programs that work on scalars and callbacks only *)

Section Local.
Context {HPerl : Perl} {HKern : Kernel}.

(** The world [w] with the scalars and callbacks of [w']. *)
Definition with_perl_of (w w' : world) : world :=
  w <| w_perl := w_perl w' |> <| w_callbacks := w_callbacks w' |>.

Lemma with_perl_of_trans w w1 w2 : with_perl_of (with_perl_of w w1) w2 = with_perl_of w w2.
Proof. done. Qed.

(** Such a program runs the same way in every world with the same scalars and
    callbacks, and leaves the rest of it alone. *)
Definition perl_local {A} (m : W A) : Prop :=
  forall w a w', m w = Done a w' -> forall w0, m (with_perl_of w0 w) = Done a (with_perl_of w0 w').

Lemma local_ret {A} (a : A) : perl_local (rret a).
Proof. intros w a' w' [= <- <-] w0. done. Qed.
Lemma local_fault {A} : perl_local (rfault : W A).
Proof. intros w a' w' [=]. Qed.
Lemma local_bind {A B} (m : W A) (k : A -> W B) :
  perl_local m -> (forall a, perl_local (k a)) -> perl_local (rbind m k).
Proof.
  intros Hm Hk w b w' Hrun w0. unfold rbind in *. destruct (m w) as [a w1| |] eqn:H1; [|done..].
  rewrite (Hm _ _ _ H1). by apply Hk.
Qed.
Lemma local_cb_rd {A} cb (f : ngxe_callback_t -> A) : perl_local (cb_rd cb f).
Proof.
  intros w a w' Hrun w0. unfold cb_rd, rd_at in *. change (w_callbacks (with_perl_of w0 w)) with (w_callbacks w).
  destruct (w_callbacks w !! cb); [|done]. by injection Hrun as <- <-.
Qed.
Lemma local_cb_wr {A} cb (f : ngxe_callback_t -> A) `{!Setter f} v : perl_local (cb_wr cb f v).
Proof.
  intros w a w' Hrun w0. unfold cb_wr, wr_at in *. change (w_callbacks (with_perl_of w0 w)) with (w_callbacks w).
  destruct (w_callbacks w !! cb); [|done]. by injection Hrun as <- <-.
Qed.
Lemma local_sv_rd {A} p (f : sv -> A) : perl_local (sv_rd p f).
Proof.
  intros w a w' Hrun w0. unfold sv_rd in *. change (w_perl (with_perl_of w0 w)) with (w_perl w).
  destruct (sv_view (w_perl w) p); [|done]. by injection Hrun as <- <-.
Qed.
Lemma local_perl_do f : perl_local (perl_do f).
Proof.
  intros w a w' Hrun w0. unfold perl_do in *. change (w_perl (with_perl_of w0 w)) with (w_perl w).
  destruct (f (w_perl w)); [|done]. by injection Hrun as <- <-.
Qed.
Lemma local_for_each f l : (forall p, perl_local (f p)) -> perl_local (for_each f l).
Proof. intros Hf. induction l; [apply local_ret | by apply local_bind]. Qed.

Create HintDb local.
#[local] Hint Resolve local_ret local_fault local_bind local_cb_rd local_cb_wr local_sv_rd local_perl_do
  local_for_each : local.
Ltac local :=
  repeat first [ apply local_bind; [|intros ?] | progress cbn beta | solve [auto with local]
               | match goal with |- perl_local (if ?b then _ else _) => destruct b end
               | match goal with |- perl_local (let '_ := _ in _) => cbv zeta end ].

Lemma local_callback_dec cb : perl_local (ngxe_callback_dec cb).
Proof. unfold ngxe_callback_dec, cb_args_upto. local. Qed.
Lemma local_buffree sv : perl_local (ngxe_buffree sv).
Proof. unfold ngxe_buffree. local. Qed.

Lemma local_cleanups l : perl_local (run_cleanups l).
Proof.
  induction l as [|cln l IH]; [apply local_ret|]. apply local_bind; [|done]. unfold run_cleanup.
  destruct (cl_handler cln); [apply local_ret | | apply local_buffree].
  unfold ngxe_callback_cleanup. local.
Qed.

(** * Destroying a pool *)

(** What is left of a table of objects after their pool is gone. *)
Definition without {A} (w : world) (l : list ptr) (m : gmap ptr A) : gmap ptr A :=
  if w_stale w then m else drop_objs l m.

Lemma destroy_pool_ok w pool p wc :
  w_pools w !! pool = Some p -> run_cleanups (pool_cleanup p) w = Done tt wc ->
  exists w', ngx_destroy_pool pool w = Done tt w' /\
    w' = w <| w_perl := w_perl wc |>
           <| w_callbacks := without w (pool_objs p) (w_callbacks wc) |>
           <| w_sessions := without w (pool_objs p) (w_sessions w) |>
           <| w_intervals := without w (pool_objs p) (w_intervals w) |>
           <| w_pools := delete pool (w_pools w) |>.
Proof.
  intros Hp Hrun. pose proof (local_cleanups _ _ _ _ Hrun w) as Hloc.
  assert (with_perl_of w w = w) as Hid by by destruct w. rewrite Hid in Hloc.
  eexists. split; [|reflexivity]. unfold ngx_destroy_pool. step. run_to Hloc. step.
  unfold free_objs, rbind, without.
  change (w_stale (with_perl_of w wc)) with (w_stale w). by destruct (w_stale w).
Qed.

Lemma drop_objs_in {A} (l : list ptr) (m : gmap ptr A) p : p ∈ l -> drop_objs l m !! p = None.
Proof.
  induction l as [|q l IH]; [by intros []%not_elem_of_nil|]. rewrite elem_of_cons. cbn.
  destruct (decide (q = p)) as [->|Hne]; [intros _; apply lookup_delete_eq|].
  intros [->|Hp]; [done|]. rewrite lookup_delete_ne by done. by apply IH.
Qed.
Lemma drop_objs_out {A} (l : list ptr) (m : gmap ptr A) p : p ∉ l -> drop_objs l m !! p = m !! p.
Proof.
  induction l as [|q l IH]; [done|]. rewrite not_elem_of_cons. intros [Hne Hp]. cbn.
  rewrite lookup_delete_ne by done. by apply IH.
Qed.
End Local.

(** * Closing a session *)

Section CloseSession.
Context {HPerl : Perl} {HKern : Kernel} {HAct : EventActions} {HOk : EventActionsOk HAct}.

Lemma inv_objects base w L LA LP F i cbs ss its ps :
  inv base w L LA LP F ->
  inv base (w <| w_perl := i |> <| w_callbacks := cbs |> <| w_sessions := ss |> <| w_intervals := its |>
              <| w_pools := ps |>) L LA LP F.
Proof. intros [[] ? ? ? ? ?]. by constructor; [constructor | ..]. Qed.

Lemma close_ok base w L LA LP F c x er ew p wc :
  inv base w L LA LP F -> wf_conn w c x er ew -> c_fd x <> -1 -> c_destroyed x = false ->
  c ∉ F -> c <> NULL -> Z.of_nat (length F) + 1 < 2 ^ 64 ->
  w_pools w !! c_pool x = Some p -> run_cleanups (pool_cleanup p) w = Done tt wc ->
  exists w' L' LA' LP', ngxe_close c w = Done tt w' /\
    inv base w' L' LA' LP' (c :: F) /\
    (forall y, y ∈ L' <-> y ∈ L /\ y.1 <> c_read x /\ y.1 <> c_write x) /\
    others (c_read x) (c_write x) LA LA' /\ others (c_read x) (c_write x) LP LP' /\ fd_closed (c_fd x) w' /\
    w_conns w' = <[c := x <| c_destroyed := true |> <| c_data := w_free w |> <| c_fd := -1 |>]> (w_conns w) /\
    w_pools w' = delete (c_pool x) (w_pools w) /\ w_perl w' = w_perl wc /\
    w_callbacks w' = without w (pool_objs p) (w_callbacks wc) /\
    w_sessions w' = without w (pool_objs p) (w_sessions w) /\
    w_intervals w' = without w (pool_objs p) (w_intervals w) /\
    w_listenings w' = w_listenings w /\ w_stale w' = w_stale w /\
    ngxe_close c w' = Done tt w'.
Proof.
  intros Hinv Hwf Hfd Hd HcF Hnull Hlen Hp Hcl. pose proof Hwf as [Hc Hr Hw Hne Hdr Hdw].
  unfold ngxe_close. destruct (Z.eqb_spec c NULL) as [|_]; [done|]. unfold c_rd, c_wr.
  step. rewrite Hd. step. step. set (x1 := x <| c_destroyed := true |>).
  set (w1 := w <| w_conns := _ |>).
  assert (Hinv1 : inv base w1 L LA LP F) by by eapply inv_put_conn.
  assert (Hwf1 : wf_conn w1 c x1 er ew) by (split; [unfold w1; look | done..]).
  destruct (close_connection_ok base w1 L LA LP F c x1 er ew Hinv1 Hwf1 Hfd HcF Hnull Hlen)
    as (w2 & L' & LA' & LP' & er' & ew' & Hrun2 & Hinv2 & HL & Hc2 & _ & _ & _ & _ & (Hp2 & Hs2 & Hcb2 & Hi2 & Hst2 & Hin2 & Hls2) & HA2 & HP2 & Hfdc).
  run_to Hrun2.
  assert (run_cleanups (pool_cleanup p) w2 = Done tt (with_perl_of w2 wc)) as Hcl2.
  { rewrite <- (local_cleanups _ _ _ _ Hcl w2). f_equal. unfold with_perl_of.
    change (w_perl w) with (w_perl w1). change (w_callbacks w) with (w_callbacks w1).
    rewrite <- Hi2, <- Hcb2. by destruct w2. }
  edestruct (destroy_pool_ok w2 (c_pool x) p) as (w3 & Hrun3 & Hw3); [by rewrite Hp2 | exact Hcl2 |].
  assert (w_conns w3 = <[c := x1 <| c_data := w_free w |> <| c_fd := -1 |>]> (w_conns w)) as Hc3.
  { rewrite Hw3. rsimpl. rewrite Hc2. unfold w1. rsimpl. by rewrite insert_insert_eq. }
  exists w3, L', LA', LP'.
  split_and!; [exact Hrun3 | rewrite Hw3; by apply inv_objects | done | done | done | by rewrite Hw3 | exact Hc3 | | | | | | | |];
    try (rewrite Hw3; rsimpl; unfold without; by rewrite ?Hst2, ?Hp2, ?Hs2, ?Hin2, ?Hls2).
  assert (w_conns w3 !! c = Some (x1 <| c_data := w_free w |> <| c_fd := -1 |>)) by (rewrite Hc3; apply lookup_insert_eq).
  by step.
Qed.
(** C23.  [ngxe_close] of a live session, with any backend: it returns; the
    connection's timers are gone and the other ones stay, its events are out
    of the queues and the other posted events stay, the connection is on the
    free list with its descriptor closed and marked as destroyed, and no other
    connection changes; its pool is gone, with the objects in it, after all its
    cleanup handlers ran, and closing it again changes nothing. *)
Theorem close_correct base w L LA LP F c x er ew p wc :
  inv base w L LA LP F -> wf_conn w c x er ew -> c_fd x <> -1 -> c_destroyed x = false ->
  c ∉ F -> c <> NULL -> Z.of_nat (length F) + 1 < 2 ^ 64 ->
  w_pools w !! c_pool x = Some p -> run_cleanups (pool_cleanup p) w = Done tt wc ->
  exists w' L' LA' LP', ngxe_close c w = Done tt w' /\
    inv base w' L' LA' LP' (c :: F) /\
    (forall y, y ∈ L' <-> y ∈ L /\ y.1 <> c_read x /\ y.1 <> c_write x) /\
    others (c_read x) (c_write x) LA LA' /\ others (c_read x) (c_write x) LP LP' /\ fd_closed (c_fd x) w' /\
    w_conns w' = <[c := x <| c_destroyed := true |> <| c_data := w_free w |> <| c_fd := -1 |>]> (w_conns w) /\
    w_pools w' = delete (c_pool x) (w_pools w) /\ w_perl w' = w_perl wc /\
    w_callbacks w' = without w (pool_objs p) (w_callbacks wc) /\
    w_sessions w' = without w (pool_objs p) (w_sessions w) /\
    w_intervals w' = without w (pool_objs p) (w_intervals w) /\
    w_listenings w' = w_listenings w /\ w_stale w' = w_stale w /\
    ngxe_close c w' = Done tt w'.
Proof. apply close_ok. Qed.
End CloseSession.

(** * A callback whose pool is destroyed while it runs *)

Section UseAfterFree.
Context {HPerl : Perl} {HKern : Kernel} {HAct : EventActions} {HOk : EventActionsOk HAct}
  {HLaws : Refcount.RefcountLaws HPerl}.

(** C24.  In a well-formed world, a callback that holds live scalars, allocated
    from the pool of an open connection, and a subroutine that closes this
    connection (the pool's cleanup handlers return) and then returns: closing
    destroys the pool with the callback structure, which [ngxe_callback] reads
    after the subroutine has returned.  Where freed memory may not be read
    ([w_stale] is false) that is a fault. *)
Theorem close_in_callback_faults base w L LA LP F c x er ew p rec cb y d :
  inv base w L LA LP F -> wf_conn w c x er ew -> c_fd x <> -1 -> c_destroyed x = false ->
  c ∉ F -> c <> NULL -> Z.of_nat (length F) + 1 < 2 ^ 64 ->
  w_pools w !! c_pool x = Some p -> cb ∈ pool_objs p -> w_stale w = false ->
  Refcount.live_callback w cb y ->
  (forall i, Refcount.seen (cb_handler y :: cb_args y) (w_perl w) i ->
     call_sv (cb_handler y) (cb_args y) i = S_call (Api_close c) i (fun _ i' => S_return i') /\
     exists wc, run_cleanups (pool_cleanup p) (w <| w_perl := i |>) = Done tt wc) ->
  rec (Api_close c) = (ngxe_close c ;;; rret 0)%run ->
  ngxe_callback rec cb d w = Fault.
Proof.
  intros Hinv Hwf Hfd Hd HcF Hnull Hlen Hp Hobj Hst Hl Hsub Hrec.
  pose proof Hl as [Hcb Hh Hn Hne _ Hnd Hheld _].
  destruct (cb_args y !! 0%nat) as [a0|] eqn:H0; [|by destruct (cb_args y)].
  destruct (Hheld a0) as (z & Hz & _); [apply elem_of_cons; right; by eapply list_elem_of_lookup_2|].
  set (w0 := w <| w_perl := SAVETMPS (w_perl w) |>).
  destruct (Refcount.take_refs w0 (cb_handler y) (cb_args y) Hnd) as (i & Hinc & Hseen%Refcount.moved_seen & _).
  { intros q Hq. destruct (Hheld q Hq) as (v & Hv & Hvn). exists v. unfold w0. rsimpl.
    rewrite Refcount.save_law. split; [done | lia]. }
  assert (Refcount.seen (cb_handler y :: cb_args y) (w_perl w) i) as Hseen'.
  { intros q Hq. rewrite (Hseen q Hq). unfold w0. rsimpl. by rewrite Refcount.save_law. }
  destruct (Hsub i Hseen') as (Hcall & wc & Hcl).
  destruct (close_ok base (w <| w_perl := i |>) L LA LP F c x er ew p wc)
    as (w' & L' & LA' & LP' & Hclose & _ & _ & _ & _ & _ & _ & _ & _ & Hcbs & _);
    [by apply inv_perl | destruct Hwf; by split | done..|].
  unfold ngxe_callback, cb_arg, cb_rd. do 2 step. rewrite H0. step. step. step.
  destruct (Z.eqb_spec (cb_handler y) NULL) as [|_]; [done|]. step. rewrite Hn.
  erewrite bind_step by (apply Refcount.args_upto_run; exact Hcb). cbv beta. step. step.
  rewrite Refcount.seq2. run_to Hinc. unfold do_call_sv. rewrite bind_assoc. step. rsimpl.
  rewrite Hcall. cbn [run_script]. repeat step. rewrite Hrec. repeat step.
  assert (Hclose' : ngxe_close c (w0 <| w_perl := i |>) = Done tt w') by exact Hclose.
  run_to Hclose'. repeat step. unfold cb_args_upto, cb_rd. rewrite bind_assoc.
  unfold rbind at 1, rd_at. rsimpl. rewrite Hcbs. unfold without. change (w_stale (w <| w_perl := i |>)) with (w_stale w).
  rewrite Hst, drop_objs_in by done. done.
Qed.
End UseAfterFree.

(** * Witnesses *)

Import Systems.
Local Existing Instance scripted_kernel.

(** A subroutine at 200 that closes the connection its first argument names. *)
Definition closing_sub (sub : ptr) (args : list ptr) (i : scalars) : script scalars :=
  match (a ← head args; heap i !! a) with
  | Some x => S_call (Api_close (sv_iv x)) i (fun _ i => S_return i)
  | None => S_return i
  end.
Definition lifetime_perl : Perl := perl_of closing_sub.
Local Existing Instance lifetime_perl.
#[local] Instance lifetime_refcounts : Refcount.RefcountLaws lifetime_perl := Refcount.perl_of_refcounts closing_sub.

(** The open connection 100 with a pool at 400 that holds the callback 300. *)
Definition session_conn : ngx_connection_t :=
  zero_conn <| c_read := 110 |> <| c_write := 120 |> <| c_fd := 5 |> <| c_pool := 400 |>.
Definition session_world : world :=
  (small_world (mk_scalars (list_to_map [(200, empty_sv); (208, empty_sv <| sv_iv := 100 |>); (216, empty_sv)]) 1000 : interp) no_answers)
    <| w_conns := {[ 100 := session_conn ]} |> <| w_free := NULL |> <| w_free_n := 0 |>
    <| w_callbacks := {[ 300 := Refcount.some_callback ]} |>
    <| w_pools := {[ 400 := mk_pool [mk_cleanup CL_ngxe_callback_cleanup 300] [300] ]} |>.

Lemma session_world_inv : inv 0 session_world [] [] [] [].
Proof.
  constructor; [|split_and!; [by left | constructor | done] | split_and!; [by right | constructor | done] | | | done].
  - constructor.
    + exists node0, 0, RbtreeRep.E, 0%nat. split_and!; [|repeat econstructor | done].
      constructor; [done | by repeat split | | done]. apply (bool_decide_unpack _). by vm_compute.
    + constructor.
    + intros x []%not_elem_of_nil.
    + intros e ev. simpl. rewrite !lookup_insert_Some, lookup_empty.
      intros [[<- <-]|[? [[<- <-]|[? ?]]]]; [set_solver | set_solver by lia | done].
    + intros e He. by apply not_elem_of_nil in He.
    + intros e [ev He]. simpl in He. rewrite !lookup_insert_Some, lookup_empty in He.
      destruct He as [[<- _]|[? [[<- _]|[? ?]]]]; [split; [by eexists | done]..|done].
  - intros e ev. simpl. rewrite !lookup_insert_Some, lookup_empty.
    intros [[<- <-]|[? [[<- <-]|[? ?]]]] Hp; done.
  - split_and!; [constructor | done | done | done].
Qed.

Lemma session_callback_live (i : interp) :
  Refcount.seen [200; 208; 216] (w_perl session_world) i ->
  Refcount.live_callback (session_world <| w_perl := i |>) 300 Refcount.some_callback.
Proof.
  intros Hi. assert (forall p, p ∈ [200; 208; 216] -> exists x, sv_view i p = Some x /\ 0 < sv_refcnt x /\ sv_rok x = false) as Hv.
  { intros p Hp. pose proof (Hi p Hp) as Hv. repeat setoid_rewrite elem_of_cons in Hp.
    destruct Hp as [->|[->|[->|[]%not_elem_of_nil]]]; (eexists; split; [exact Hv | done]). }
  split; try done.
  - repeat constructor; set_solver by lia.
  - intros p Hp. destruct (Hv p Hp) as (x & Hx & Hn & _). by exists x.
  - intros p q Hp _ (x & Hx & Hr & _). destruct (Hv p Hp) as (x' & Hx' & _ & Hr'). cbn in Hx, Hx'. congruence.
Qed.

Lemma session_world_live : Refcount.live_callback session_world 300 Refcount.some_callback.
Proof.
  split; try done.
  - repeat constructor; set_solver by lia.
  - intros p Hp. cbn in Hp. repeat setoid_rewrite elem_of_cons in Hp.
    destruct Hp as [->|[->|[->|[]%not_elem_of_nil]]]; by eexists.
  - intros p q Hp _ (x & Hx & Hr & _). cbn in Hp. repeat setoid_rewrite elem_of_cons in Hp.
    destruct Hp as [->|[->|[->|[]%not_elem_of_nil]]]; cbn in Hx; by injection Hx as <-.
Qed.

Lemma session_cleanups (w : world) :
  Refcount.live_callback w 300 Refcount.some_callback ->
  exists wc, run_cleanups [mk_cleanup CL_ngxe_callback_cleanup 300] w = Done tt wc /\
    w_callbacks wc = <[300 := Refcount.released Refcount.some_callback]> (w_callbacks w) /\
    Refcount.dropped [200; 208; 216] (w_perl w) (w_perl wc).
Proof.
  intros Hl. destruct (Refcount.callback_dec_ok _ _ _ Hl) as (i' & Hrun & Hm & _).
  exists (w <| w_perl := i' |> <| w_callbacks := <[300 := Refcount.released Refcount.some_callback]> (w_callbacks w) |>).
  split; [|split; [reflexivity | exact Hm]]. cbn [run_cleanups run_cleanup cl_handler cl_data].
  unfold ngxe_callback_cleanup, cb_rd. rewrite bind_assoc. erewrite rd_at_step by apply Hl. cbn [cb_decremented Refcount.some_callback].
  by run_to Hrun.
Qed.

Lemma close_correct_witness :
  exists wc w' L' LA' LP', ngxe_close 100 session_world = Done tt w' /\
    inv 0 w' L' LA' LP' [100] /\
    (forall y, y ∈ L' <-> y ∈ [] /\ y.1 <> 110 /\ y.1 <> 120) /\
    others 110 120 [] LA' /\ others 110 120 [] LP' /\ fd_closed 5 w' /\
    w_conns w' = <[100 := session_conn <| c_destroyed := true |> <| c_data := NULL |> <| c_fd := -1 |>]> (w_conns session_world) /\
    w_pools w' = delete 400 (w_pools session_world) /\ w_perl w' = w_perl wc /\
    w_callbacks w' = without session_world [300] (w_callbacks wc) /\
    w_sessions w' = without session_world [300] (w_sessions session_world) /\
    w_intervals w' = without session_world [300] (w_intervals session_world) /\
    w_listenings w' = w_listenings session_world /\ w_stale w' = w_stale session_world /\
    ngxe_close 100 w' = Done tt w'.
Proof.
  destruct (session_cleanups session_world session_world_live) as (wc & Hcl & _). exists wc.
  apply (close_correct 0 session_world [] [] [] [] 100 session_conn
           (zero_event <| ev_data := 100 |>) (zero_event <| ev_data := 100 |> <| ev_write := true |>)
           (mk_pool [mk_cleanup CL_ngxe_callback_cleanup 300] [300])).
  - apply session_world_inv.
  - by split.
  - done.
  - reflexivity.
  - set_solver.
  - done.
  - done.
  - reflexivity.
  - exact Hcl.
Defined.

(** The functions of the engine the subroutine calls. *)
Definition close_only (a : api) : W Z :=
  match a with Api_close c => (ngxe_close c ;;; rret 0)%run | _ => rfault end.

Lemma close_in_callback_faults_witness : ngxe_callback close_only 300 false session_world = Fault.
Proof.
  apply (close_in_callback_faults 0 session_world [] [] [] [] 100 session_conn
           (zero_event <| ev_data := 100 |>) (zero_event <| ev_data := 100 |> <| ev_write := true |>)
           (mk_pool [mk_cleanup CL_ngxe_callback_cleanup 300] [300]) close_only 300 Refcount.some_callback false).
  - apply session_world_inv.
  - by split.
  - done.
  - reflexivity.
  - set_solver.
  - done.
  - done.
  - reflexivity.
  - set_solver.
  - reflexivity.
  - apply session_world_live.
  - intros i Hi. split.
    + cbn [call_sv lifetime_perl perl_of]. unfold closing_sub. cbn [head cb_args Refcount.some_callback mbind option_bind].
      change (heap i !! 208) with (sv_view i 208). rewrite (Hi 208) by set_solver. reflexivity.
    + destruct (session_cleanups _ (session_callback_live i Hi)) as (wc & Hcl & _). by exists wc.
  - reflexivity.
Defined.

End Lifetime.
