(* ===== verification/Writer.v ===== *)
(** The writer of a string buffer ([ngxe_writer_handler] with a plain scalar):
    what one activation of it sends, keeps and does, for every answer of the
    kernel. *)
From stdpp Require Import base numbers gmap list strings.
From S2P Require Import Prelude Rbtree RbtreeRep RbtreeTheorems World Systems Timer Event Backend Connection Close Callback Session.
Local Open Scope Z_scope.
Import RbtreeTheorems World Timer Event Backend Connection Close Callback Session.

Module Writer.

(** * What is relied on *)

(** The parts of perlapi the writer uses: [sv_chop] drops bytes at the front of
    the string, [SvOOK_off] keeps the string, [SvCUR_set] sets its length. *)
Definition sv_text (x : sv) : list Z := take (Z.to_nat (sv_cur x)) (sv_pv x).
Definition sv_sound (x : sv) : Prop := 0 <= sv_cur x <= Z.of_nat (length (sv_pv x)).

Class StringLaws (HPerl : Perl) : Prop := {
  chop_law : forall i p x n, sv_view i p = Some x -> sv_sound x -> 0 <= n <= sv_cur x ->
    exists i' x', sv_chop p n i = Some i' /\ sv_view i' p = Some x' /\ sv_sound x' /\
      sv_cur x' = sv_cur x - n /\ sv_text x' = drop (Z.to_nat n) (sv_text x) /\ sv_rok x' = sv_rok x /\
      (forall q, q <> p -> sv_view i' q = sv_view i q);
  ook_law : forall i p x, sv_view i p = Some x -> sv_sound x ->
    exists i' x', SvOOK_off p i = Some i' /\ sv_view i' p = Some x' /\ sv_sound x' /\
      sv_text x' = sv_text x /\ sv_cur x' = sv_cur x /\ sv_rok x' = sv_rok x /\
      (forall q, q <> p -> sv_view i' q = sv_view i q);
  cur_law : forall i p x n, sv_view i p = Some x -> 0 <= n <= Z.of_nat (length (sv_pv x)) ->
    exists i', SvCUR_set p n i = Some i' /\ sv_view i' p = Some (x <| sv_cur := n |>) /\
      (forall q, q <> p -> sv_view i' q = sv_view i q)
}.

(** The bytes the kernel has taken on each descriptor: [send] takes a prefix of
    what it is given, or nothing when it fails. *)
Class SendLog (HKern : Kernel) := {
  sent : kern -> Z -> list Z;
  send_law : forall fd l k, l <> [] ->
    match sys_send fd l k with
    | (inl n, k') => 0 <= n <= Z.of_nat (length l) /\ sent k' fd = sent k fd ++ take (Z.to_nat n) l
    | (inr _, k') => sent k' fd = sent k fd
    end
}.

(** * Pieces of the handlers *)

Section Pieces.
Context {HPerl : Perl} {HKern : Kernel} {HAct : EventActions}.

(** The write event of a registered connection needs no system call. *)
Lemma handle_write_active w c x ew :
  w_conns w !! c = Some x -> w_events w !! c_write x = Some ew -> ev_active ew = true ->
  has (w_flags w) NGX_USE_CLEAR_EVENT = true -> handle_write_event c w = Done NGX_OK w.
Proof.
  intros Hc Hw Ha Hcl. unfold handle_write_event, ngx_handle_write_event. unfold_accessors. cbn [Z.eqb].
  step. rewrite bind_ret. change (NGX_OK =? NGX_ERROR) with false. cbv iota. do 3 step. by rewrite Hcl, Ha.
Qed.
Lemma handle_read_active w c x er :
  w_conns w !! c = Some x -> w_events w !! c_read x = Some er -> ev_active er = true ->
  has (w_flags w) NGX_USE_CLEAR_EVENT = true -> handle_read_event c w = Done NGX_OK w.
Proof.
  intros Hc Hw Ha Hcl. unfold handle_read_event, ngx_handle_read_event. unfold_accessors.
  do 4 step. by rewrite Hcl, Ha.
Qed.

(** [arm_writer] and [arm_reader] arm a timer that is not armed, if the session
    has a timeout. *)
Definition armed (ev : ngx_event_t) (timeout : Z) : ngx_event_t :=
  ev <| ev_timer_set := negb (timeout =? 0) |>.

Definition arm (e timeout : Z) : W unit :=
  (when negb (timeout =? 0) then ngx_event_add_timer e (u64 timeout))%run.

Lemma arm_ok base w L e ev timeout :
  timers base w L -> w_events w !! e = Some ev -> ev_timer_set ev = false ->
  in_window base (u64 (w_msec w + u64 timeout)) ->
  exists t L', arm e timeout w = Done tt (with_timer w e t (armed ev timeout)) /\
    timers base (with_timer w e t (armed ev timeout)) L' /\
    (timeout = 0 -> L' = L) /\ (timeout <> 0 -> timer_updated base e (u64 (w_msec w + u64 timeout)) L L').
Proof.
  intros Ht He Hs Hwin. unfold arm, armed. destruct (Z.eqb_spec timeout 0) as [->|Hne]; cbn [negb].
  - exists (w_tree w), L. rewrite with_timer_id by done. done.
  - destruct (add_timer_ok base w L e ev (u64 timeout) Ht He Hwin) as (t & L' & Hrun & Ht' & Hup).
    by exists t, L'.
Qed.

Lemma arm_writer_run w c s x ew ss :
  w_conns w !! c = Some x -> w_events w !! c_write x = Some ew -> w_sessions w !! s = Some ss ->
  ev_timer_set ew = false -> arm_writer c s w = arm (c_write x) (s_writer_timeout ss) w.
Proof. intros Hc He Hs Hset. unfold arm_writer, arm. unfold_accessors. do 3 step. by rewrite Hset. Qed.
Lemma arm_reader_run w c s x er ss :
  w_conns w !! c = Some x -> w_events w !! c_read x = Some er -> w_sessions w !! s = Some ss ->
  ev_timer_set er = false -> arm_reader c s w = arm (c_read x) (s_reader_timeout ss) w.
Proof. intros Hc He Hs Hset. unfold arm_reader, arm. unfold_accessors. do 3 step. by rewrite Hset. Qed.

Lemma disarm_ok base w L e ev :
  timers base w L -> w_events w !! e = Some ev ->
  exists t L', disarm e w = Done tt (with_timer w e t (ev <| ev_timer_set := false |>)) /\
    timers base (with_timer w e t (ev <| ev_timer_set := false |>)) L' /\
    (forall y, y ∈ L' <-> y ∈ L /\ y.1 <> e).
Proof.
  intros Ht He. destruct (disarm_timers base w L e ev Ht He) as (t & L' & Hrun & H).
  exists t, L'. split; [|done]. unfold disarm, ev_rd. by step.
Qed.

(** ** [ngx_unix_send] *)

(** The connection and its write event after one [send]. *)
Definition send_conn (x : ngx_connection_t) (r : Z + Z) : ngx_connection_t :=
  match r with inl n => if 0 <? n then x <| c_sent := c_sent x + n |> else x | inr _ => x end.
Definition send_event (ew : ngx_event_t) (size : Z) (r : Z + Z) : ngx_event_t :=
  match r with
  | inl n => if size <=? n then ew else ew <| ev_ready := false |>
  | inr err => if err =? NGX_EAGAIN then ew <| ev_ready := false |> else ew <| ev_error := true |>
  end.
Definition send_rc (r : Z + Z) : Z :=
  match r with inl n => n | inr err => if err =? NGX_EAGAIN then NGX_AGAIN else NGX_ERROR end.
Definition after_send (w : world) (c : ptr) (x : ngx_connection_t) (ew : ngx_event_t) (size : Z) (r : Z + Z)
    (k : kern) : world :=
  w <| w_kern := k |> <| w_events := <[c_write x := send_event ew size r]> (w_events w) |>
    <| w_conns := <[c := send_conn x r]> (w_conns w) |>.

Lemma unix_send_ok fuel w c x ew buf r k :
  w_conns w !! c = Some x -> w_events w !! c_write x = Some ew -> buf <> [] ->
  sys_send (c_fd x) buf (w_kern w) = (r, k) -> (forall n, r = inl n -> 0 <= n <= Z.of_nat (length buf)) ->
  r <> inr NGX_EINTR ->
  ngx_unix_send (S fuel) c buf w
    = Done (send_rc r) (after_send w c x ew (Z.of_nat (length buf)) r k).
Proof.
  intros Hc Hw Hbuf Hsys Hn Hint. cbn [ngx_unix_send]. unfold_accessors. do 2 step. cbv zeta.
  rewrite (sys_step _ _ _ _ _ Hsys). unfold after_send, send_conn, send_event, send_rc.
  assert (Hidc : w_conns w = <[c := x]> (w_conns w)) by (symmetry; by apply insert_id).
  assert (Hide : w_events w = <[c_write x := ew]> (w_events w)) by (symmetry; by apply insert_id).
  assert (0 < length buf)%nat as Hlen by (destruct buf; [done | cbn; lia]).
  destruct r as [n|err].
  - specialize (Hn n eq_refl). destruct (Z.ltb_spec 0 n) as [Hpos|Hpos].
    + destruct (Z.ltb_spec n (Z.of_nat (length buf))), (Z.leb_spec (Z.of_nat (length buf)) n); try lia.
      * step. step. step. done.
      * rewrite bind_ret. step. step. rewrite <- Hide. by destruct w.
    + destruct (Z.leb_spec (Z.of_nat (length buf)) n); [lia|]. step. rewrite <- Hidc. by destruct w.
  - destruct (Z.eqb_spec err NGX_EAGAIN) as [->|Hne].
    + cbn [orb]. step. rewrite <- Hidc. by destruct w.
    + destruct (Z.eqb_spec err NGX_EINTR) as [->|Hne']; [done|]. cbn [orb]. step.
      unfold ngx_connection_error. unfold_accessors.
      rewrite bind_assoc. step. rewrite <- Hidc. destruct ((err =? NGX_ECONNRESET) && _); by destruct w.
Qed.

End Pieces.
(** * The handler *)

(** A session that writes the string scalar [b]. *)
Record writing {HPerl : Perl} {HKern : Kernel} (base : Z) (w : world) (L : list (Z * Z)) (c : ptr)
    (x : ngx_connection_t) (ew : ngx_event_t) (ss : ngxe_session_t) (b : sv) : Prop := mk_writing {
  wr_timers : timers base w L;
  wr_conn : w_conns w !! c = Some x;
  wr_c : c <> NULL;
  wr_ev : w_events w !! c_write x = Some ew;
  wr_data : ev_data ew = c;
  wr_active : ev_active ew = true;
  wr_clear : has (w_flags w) NGX_USE_CLEAR_EVENT = true;
  wr_send : c_send x = true;
  wr_s : c_data x <> NULL;
  wr_ss : w_sessions w !! c_data x = Some ss;
  wr_cb : s_writer_callback ss <> NULL;
  wr_buf : s_writer_buffer ss <> NULL;
  wr_sv : sv_view (w_perl w) (s_writer_buffer ss) = Some b;
  wr_sound : sv_sound b;
  wr_rok : sv_rok b = false;
  wr_window : in_window base (u64 (w_msec w + u64 (s_writer_timeout ss)))
}.

Section Handler.
Context {HPerl : Perl} {HKern : Kernel} {HAct : EventActions} {HStr : StringLaws HPerl} {HLog : SendLog HKern}.
Context (rec : task -> W Z) (fuel : nat).

Lemma sv_text_run w p b :
  sv_view (w_perl w) p = Some b -> sv_sound b -> sv_bytes p 0 (sv_cur b) w = Done (sv_text b) w.
Proof.
  intros Hp Hs. unfold sv_bytes, sv_sound in *. rewrite (sv_rd_step _ _ _ _ _ Hp).
  destruct (Z.leb_spec 0 (sv_cur b)); [|lia]. rewrite Z.add_0_l.
  destruct (Z.leb_spec (sv_cur b) (Z.of_nat (length (sv_pv b)))); [|lia]. done.
Qed.

Lemma sv_text_length b : sv_sound b -> Z.of_nat (length (sv_text b)) = sv_cur b.
Proof. unfold sv_sound, sv_text. intros. rewrite length_take. lia. Qed.
Lemma sv_text_nonempty b : sv_sound b -> 0 < sv_cur b -> sv_text b <> [].
Proof. intros Hs Hc Ht. pose proof (sv_text_length b Hs) as Hl. rewrite Ht in Hl. cbn in Hl. lia. Qed.

(** From the entry of the handler to the answer of [send]: the state in which
    it goes on. *)
Lemma writer_until_send base w L c x ew ss b r k :
  writing base w L c x ew ss b -> ev_timedout ew = false -> 0 < sv_cur b ->
  sys_send (c_fd x) (sv_text b) (w_kern w) = (r, k) -> r <> inr NGX_EINTR ->
  exists t L', let ew1 := ew <| ev_timer_set := false |> in
    let w1 := after_send (with_timer w (c_write x) t ew1) c x ew1 (sv_cur b) r k in
    ngxe_writer_handler rec (S fuel) (c_write x) w
      = writer_sent rec c (c_data x) (s_writer_callback ss) (s_writer_buffer ss) (sv_cur b) (send_rc r) w1 /\
    writing base w1 L' c (send_conn x r) (send_event ew1 (sv_cur b) r) ss b /\
    (forall y, y ∈ L' <-> y ∈ L /\ y.1 <> c_write x).
Proof.
  intros Hwr Hto Hcur Hsys Hint. pose proof Hwr as [Ht Hc Hcn Hev Hd Ha Hcl Hsend Hsn Hss Hcb Hbuf Hsv Hsound Hrok Hwin].
  destruct (disarm_ok base w L (c_write x) ew Ht Hev) as (t & L' & Hdis & Ht' & HL').
  exists t, L'. cbv zeta. set (ew1 := ew <| ev_timer_set := false |>) in *.
  set (w1 := with_timer w (c_write x) t ew1) in *. split; [|split; [|done]].
  - unfold ngxe_writer_handler. unfold_accessors. step. rewrite Hd.
    destruct (Z.eqb_spec c NULL); [done|]. step. destruct (Z.eqb_spec (c_data x) NULL); [done|]. step.
    destruct (Z.eqb_spec (s_writer_callback ss) NULL); [done|]. step.
    destruct (Z.eqb_spec (s_writer_buffer ss) NULL); [done|]. step. rewrite Hrok. step. rewrite Hto. step.
    run_to Hdis. erewrite sv_rd_step by exact Hsv. destruct (Z.eqb_spec (sv_cur b) 0); [lia|].
    unfold writer_SENDAGAIN, conn_send. erewrite bind_step by exact (sv_text_run w1 _ b Hsv Hsound).
    cbv beta. unfold_accessors. rewrite bind_assoc.
    erewrite rd_at_step by exact Hc. rewrite Hsend.
    erewrite bind_step; [reflexivity|]. rewrite <- (sv_text_length b Hsound). eapply unix_send_ok.
    + exact Hc.
    + unfold w1, with_timer. look.
    + by apply sv_text_nonempty.
    + exact Hsys.
    + intros m ->. pose proof (send_law (c_fd x) (sv_text b) (w_kern w) (sv_text_nonempty b Hsound Hcur)) as Hlaw.
      rewrite Hsys in Hlaw. by destruct Hlaw.
    + done.
  - assert (Hsc : c_write (send_conn x r) = c_write x /\ c_data (send_conn x r) = c_data x
                  /\ c_send (send_conn x r) = c_send x).
    { unfold send_conn. destruct r; [destruct (0 <? z)|]; done. }
    destruct Hsc as (Hscw & Hscd & Hscs).
    assert (Hse : ev_data (send_event ew1 (sv_cur b) r) = c /\ ev_active (send_event ew1 (sv_cur b) r) = true /\
                  ev_timer_set (send_event ew1 (sv_cur b) r) = false).
    { unfold send_event, ew1. destruct r as [n|e]; [destruct (sv_cur b <=? n) | destruct (e =? NGX_EAGAIN)]; done. }
    destruct Hse as (Hsed & Hsea & Hset).
    split; rewrite ?Hscw, ?Hscd, ?Hscs; try done.
    + apply (timers_frame base w1); [done | | done]. unfold after_send. rsimpl.
      eapply fmap_put; [unfold w1, with_timer; look|]. rewrite Hset. done.
    + unfold after_send. look.
    + unfold after_send. look.
Qed.
(** The end of an activation that waits: nothing but the timer changes. *)
Lemma writing_arm base w L c x ew ss b :
  writing base w L c x ew ss b -> ev_timer_set ew = false ->
  exists t L', let w' := with_timer w (c_write x) t (armed ew (s_writer_timeout ss)) in
    arm_writer c (c_data x) w = Done tt w' /\
    writing base w' L' c x (armed ew (s_writer_timeout ss)) ss b /\
    (s_writer_timeout ss = 0 -> L' = L) /\
    (s_writer_timeout ss <> 0 ->
       timer_updated base (c_write x) (u64 (w_msec w + u64 (s_writer_timeout ss))) L L').
Proof.
  intros Hwr Hset. pose proof Hwr as [Ht Hc Hcn Hev Hd Ha Hcl Hsend Hsn Hss Hcb Hbuf Hsv Hsound Hrok Hwin].
  destruct (arm_ok base w L (c_write x) ew (s_writer_timeout ss) Ht Hev Hset Hwin) as (t & L' & Hrun & Ht' & H0 & H1).
  exists t, L'. cbv zeta. rewrite (arm_writer_run w c (c_data x) x ew ss Hc Hev Hss Hset).
  split; [done|]. split; [|done]. split; try done. unfold with_timer. look.
Qed.

Lemma writing_put base w L c x ew ew' ss b :
  writing base w L c x ew ss b ->
  ev_data ew' = ev_data ew -> ev_active ew' = ev_active ew -> ev_timer_set ew' = ev_timer_set ew ->
  writing base (put_event (c_write x) ew' w) L c x ew' ss b.
Proof.
  intros Hwr Hd' Ha' Hs'. pose proof Hwr as [Ht Hc Hcn Hev Hd Ha Hcl Hsend Hsn Hss Hcb Hbuf Hsv Hsound Hrok Hwin].
  split; try done; try congruence.
  - apply (timers_frame base w); [done | | done]. by eapply fmap_put.
  - unfold put_event. look.
Qed.

Lemma writing_perl base w L c x ew ss b i b' :
  writing base w L c x ew ss b ->
  sv_view i (s_writer_buffer ss) = Some b' -> sv_sound b' -> sv_rok b' = false ->
  writing base (w <| w_perl := i |>) L c x ew ss b'.
Proof. intros [[] ? ? ? ? ? ? ? ? ? ? ? ? ? ? ?] H1 H2 H3. by split; [constructor | ..]. Qed.

(** The timers after an activation that waits: the write event's is the only
    one that changed, and it is armed exactly when the session has a timeout. *)
Definition rearmed (base : Z) (w : world) (e timeout : Z) (L L' : list (Z * Z)) : Prop :=
  exists L0, (forall y, y ∈ L0 <-> y ∈ L /\ y.1 <> e) /\
    (timeout = 0 -> L' = L0) /\ (timeout <> 0 -> timer_updated base e (u64 (w_msec w + u64 timeout)) L0 L').

Lemma writer_partial base w L c x ew ss b n k :
  writing base w L c x ew ss b -> ev_timedout ew = false ->
  sys_send (c_fd x) (sv_text b) (w_kern w) = (inl n, k) -> 0 < n < sv_cur b ->
  exists w' L' x' ew' b', ngxe_writer_handler rec (S fuel) (c_write x) w = Done tt w' /\
    writing base w' L' c x' ew' ss b' /\ rearmed base w (c_write x) (s_writer_timeout ss) L L' /\
    ev_ready ew' = false /\ sv_text b' = drop (Z.to_nat n) (sv_text b) /\ w_kern w' = k /\
    w_callbacks w' = w_callbacks w /\ c_fd x' = c_fd x /\ c_write x' = c_write x.
Proof.
  intros Hwr Hto Hsys Hn.
  destruct (writer_until_send base w L c x ew ss b (inl n) k Hwr Hto) as (t & L1 & Hrun & Hwr1 & HL1);
    [lia | done | done |]. cbv zeta in *. rewrite Hrun.
  set (w1 := after_send _ _ _ _ _ _ _) in *. set (x1 := send_conn x (inl n)) in *. set (ew1 := send_event _ _ _) in *.
  assert (Hx1 : c_write x1 = c_write x /\ c_fd x1 = c_fd x /\ c_data x1 = c_data x).
  { unfold x1, send_conn. by destruct (0 <? n). }
  destruct Hx1 as (Hxw & Hxf & Hxd).
  assert (ev_timer_set ew1 = false) as Hset1 by (unfold ew1, send_event; by destruct (sv_cur b <=? n)).
  clearbody ew1. pose proof Hwr1 as [Ht Hc Hcn Hev Hd Ha Hcl Hsend Hsn Hss Hcb Hbuf Hsv Hsound Hrok Hwin].
  destruct (chop_law _ _ _ n Hsv Hsound) as (i & b' & Hchop & Hsv' & Hsound' & Hcur' & Htext' & Hrok' & _); [lia|].
  unfold writer_sent, send_rc. destruct (Z.eqb_spec n NGX_ERROR); [unfold NGX_ERROR in *; lia|].
  destruct (Z.eqb_spec n 0); [lia|]. cbn [orb]. destruct (Z.ltb_spec 0 n); [|lia].
  erewrite perl_do_step by exact Hchop. erewrite sv_rd_step by exact Hsv'.
  destruct (Z.ltb_spec 0 (sv_cur b')); [|lia].
  pose proof (writing_perl _ _ _ _ _ _ _ _ i b' Hwr1 Hsv' Hsound' ltac:(congruence)) as Hwr2.
  set (w2 := w1 <| w_perl := i |>) in *.
  assert (Hwr3 : writing base (put_event (c_write x1) (ew1 <| ev_ready := false |>) w2) L1 c x1
                   (ew1 <| ev_ready := false |>) ss b') by by eapply writing_put.
  assert (wev_wr c ev_ready false w2 = Done tt (put_event (c_write x1) (ew1 <| ev_ready := false |>) w2)) as Hput.
  { unfold_accessors. step. unfold wr_at. by rewrite (wr_ev _ _ _ _ _ _ _ _ Hwr2). }
  run_to Hput. pose proof Hwr3 as [_ Hc3 _ Hev3 _ Ha3 Hcl3 _ _ _ _ _ _ _ _ _].
  run_to (handle_write_active _ _ _ _ Hc3 Hev3 Ha3 Hcl3). rewrite Z.eqb_refl. cbn [negb].
  rewrite <- Hxd. edestruct (writing_arm _ _ _ _ _ _ _ _ Hwr3 Hset1) as (t' & L' & Harm & Hwr' & Harm0 & Harm1).
  cbv zeta in *. eexists _, L', x1, _, b'. split; [exact Harm|]. split; [exact Hwr'|].
  split; [|split_and!; try done].
  - rewrite <- Hxw. exists L1. split; [by rewrite Hxw|]. done.
Qed.

Lemma writer_again base w L c x ew ss b k :
  writing base w L c x ew ss b -> ev_timedout ew = false -> 0 < sv_cur b ->
  sys_send (c_fd x) (sv_text b) (w_kern w) = (inr NGX_EAGAIN, k) ->
  exists w' L' ew', ngxe_writer_handler rec (S fuel) (c_write x) w = Done tt w' /\
    writing base w' L' c x ew' ss b /\ rearmed base w (c_write x) (s_writer_timeout ss) L L' /\
    ev_ready ew' = false /\ w_kern w' = k /\ w_callbacks w' = w_callbacks w.
Proof.
  intros Hwr Hto Hcur Hsys.
  destruct (writer_until_send base w L c x ew ss b _ k Hwr Hto Hcur Hsys) as (t & L1 & Hrun & Hwr1 & HL1); [done|].
  cbv zeta in *. rewrite Hrun. set (w1 := after_send _ _ _ _ _ _ _) in *. cbn [send_conn send_event] in Hwr1.
  change (NGX_EAGAIN =? NGX_EAGAIN) with true in Hwr1. cbv iota in Hwr1.
  pose proof Hwr1 as [Ht Hc Hcn Hev Hd Ha Hcl Hsend Hsn Hss Hcb Hbuf Hsv Hsound Hrok Hwin].
  unfold writer_sent. change (send_rc (inr NGX_EAGAIN)) with NGX_AGAIN.
  change ((NGX_AGAIN =? NGX_ERROR) || (NGX_AGAIN =? 0)) with false. change (0 <? NGX_AGAIN) with false.
  rewrite Z.eqb_refl. cbv iota.
  run_to (handle_write_active _ _ _ _ Hc Hev Ha Hcl). rewrite Z.eqb_refl. cbn [negb].
  unfold_accessors. rewrite bind_assoc. do 2 step. rsimpl.
  edestruct (writing_arm _ _ _ _ _ _ _ _ Hwr1) as (t' & L' & Harm & Hwr' & Harm0 & Harm1); [done|].
  cbv zeta in *. eexists _, L', _. split; [exact Harm|]. split; [exact Hwr'|]. split; [|done].
  by exists L1.
Qed.

Lemma writer_complete base w L c x ew ss b k :
  writing base w L c x ew ss b -> ev_timedout ew = false -> 0 < sv_cur b ->
  sys_send (c_fd x) (sv_text b) (w_kern w) = (inl (sv_cur b), k) ->
  exists w' L' x' b', ngxe_writer_handler rec (S fuel) (c_write x) w
      = (callback rec (s_writer_callback ss) false ;;;
         writer_AFTERCALLBACK rec c (c_data x) (s_writer_callback ss) (s_writer_buffer ss))%run w' /\
    writing base w' L' c x' (ew <| ev_timer_set := false |>) ss b' /\
    (forall y, y ∈ L' <-> y ∈ L /\ y.1 <> c_write x) /\
    sv_text b' = [] /\ w_kern w' = k /\ w_callbacks w' = w_callbacks w /\ c_fd x' = c_fd x.
Proof.
  intros Hwr Hto Hcur Hsys.
  destruct (writer_until_send base w L c x ew ss b _ k Hwr Hto Hcur Hsys) as (t & L1 & Hrun & Hwr1 & HL1); [done|].
  cbv zeta in *. rewrite Hrun. set (w1 := after_send _ _ _ _ _ _ _) in *.
  cbn [send_event] in Hwr1. rewrite Z.leb_refl in Hwr1.
  pose proof Hwr1 as [Ht Hc Hcn Hev Hd Ha Hcl Hsend Hsn Hss Hcb Hbuf Hsv Hsound Hrok Hwin].
  destruct (chop_law _ _ _ (sv_cur b) Hsv Hsound) as (i & b1 & Hchop & Hsv1 & Hs1 & Hcur1 & Htext1 & Hrok1 & _); [lia|].
  unfold writer_sent, send_rc. destruct (Z.eqb_spec (sv_cur b) NGX_ERROR); [unfold NGX_ERROR in *; lia|].
  destruct (Z.eqb_spec (sv_cur b) 0); [lia|]. cbn [orb]. destruct (Z.ltb_spec 0 (sv_cur b)); [|lia].
  erewrite perl_do_step by exact Hchop. erewrite sv_rd_step by exact Hsv1. rewrite Hcur1, Z.sub_diag.
  cbn [Z.ltb Z.compare Z.eqb]. rewrite bind_assoc.
  destruct (ook_law _ _ _ Hsv1 Hs1) as (i2 & b2 & Hook & Hsv2 & Hs2 & _ & Hcur2 & Hrok2 & _).
  erewrite perl_do_step by exact Hook.
  destruct (cur_law _ _ _ 0 Hsv2) as (i3 & Hset & Hsv3 & _); [unfold sv_sound in *; lia|].
  erewrite perl_do_step by exact Hset. eexists _, L1, _, _. split; [reflexivity|]. split_and!.
  - eapply writing_perl; [eapply writing_perl; [eapply writing_perl; [exact Hwr1 | exact Hsv1 | done | congruence]
      | exact Hsv2 | done | congruence] | exact Hsv3 | unfold sv_sound in *; rsimpl; lia | rsimpl; congruence].
  - exact HL1.
  - done.
  - done.
  - done.
  - unfold send_conn. by destruct (0 <? sv_cur b).
Qed.

Lemma writer_error base w L c x ew ss b r k :
  writing base w L c x ew ss b -> ev_timedout ew = false -> 0 < sv_cur b ->
  sys_send (c_fd x) (sv_text b) (w_kern w) = (r, k) ->
  r = inl 0 \/ (exists err, r = inr err /\ err <> NGX_EAGAIN /\ err <> NGX_EINTR) ->
  exists w' L' ew', ngxe_writer_handler rec (S fuel) (c_write x) w
      = fail_with rec c (s_writer_callback ss) 1 "Write error" w' /\
    writing base w' L' c x ew' ss b /\ (forall y, y ∈ L' <-> y ∈ L /\ y.1 <> c_write x) /\
    w_kern w' = k /\ w_callbacks w' = w_callbacks w.
Proof.
  intros Hwr Hto Hcur Hsys Hr.
  assert (r <> inr NGX_EINTR) as Hint by (destruct Hr as [->|(? & -> & ? & ?)]; congruence).
  destruct (writer_until_send base w L c x ew ss b _ k Hwr Hto Hcur Hsys Hint) as (t & L1 & Hrun & Hwr1 & HL1).
  cbv zeta in *. rewrite Hrun.
  assert (send_conn x r = x) as Hx by by destruct Hr as [->|(? & -> & ? & ?)].
  rewrite Hx in Hwr1. eexists _, L1, _. split; [|by split_and!].
  assert ((send_rc r =? NGX_ERROR) || (send_rc r =? 0) = true) as Hrc.
  { destruct Hr as [->|(err & -> & Hne & _)]; [done|]. unfold send_rc. by destruct (Z.eqb_spec err NGX_EAGAIN). }
  unfold writer_sent. rewrite Hrc. reflexivity.
Qed.
End Handler.

(** * The theorems *)

Section Theorems.
Context {HPerl : Perl} {HKern : Kernel} {HAct : EventActions} {HStr : StringLaws HPerl} {HLog : SendLog HKern}.
Context (rec : task -> W Z) (fuel : nat).

Lemma send_log_run fd b k r k' :
  sv_sound b -> 0 < sv_cur b -> sys_send fd (sv_text b) k = (r, k') ->
  sent k' fd = sent k fd ++ take (match r with inl n => Z.to_nat n | inr _ => 0 end) (sv_text b).
Proof.
  intros Hs Hc Hsys. pose proof (send_law fd (sv_text b) k (sv_text_nonempty b Hs Hc)) as Hlaw.
  rewrite Hsys in Hlaw. destruct r; [by destruct Hlaw as [_ ->]|]. by rewrite Hlaw, app_nil_r.
Qed.

(** One activation of the writer when the kernel takes a part of the
    buffer, or nothing for now: the handler returns without calling back; what
    was taken followed by what is left in the buffer is what was to be sent, so
    no byte is lost, repeated or reordered over any number of activations; the
    event waits for the kernel, and its timer is armed again exactly when the
    session has a timeout, the other timers being untouched. *)
Lemma writer_waits base w L c x ew ss b r k :
  writing base w L c x ew ss b -> ev_timedout ew = false -> 0 < sv_cur b ->
  sys_send (c_fd x) (sv_text b) (w_kern w) = (r, k) ->
  r = inr NGX_EAGAIN \/ (exists n, r = inl n /\ 0 < n < sv_cur b) ->
  exists w' L' x' ew' b', ngxe_writer_handler rec (S fuel) (c_write x) w = Done tt w' /\
    writing base w' L' c x' ew' ss b' /\ rearmed base w (c_write x) (s_writer_timeout ss) L L' /\
    sent (w_kern w') (c_fd x) ++ sv_text b' = sent (w_kern w) (c_fd x) ++ sv_text b /\
    ev_ready ew' = false /\ ev_active ew' = true /\ w_callbacks w' = w_callbacks w.
Proof.
  intros Hwr Hto Hcur Hsys Hr. pose proof (send_log_run _ _ _ _ _ (wr_sound _ _ _ _ _ _ _ _ Hwr) Hcur Hsys) as Hlog.
  destruct Hr as [->|(n & -> & Hn)].
  - destruct (writer_again rec fuel base w L c x ew ss b k Hwr Hto Hcur Hsys)
      as (w' & L' & ew' & Hrun & Hwr' & HL & Hready & Hk & Hcb).
    exists w', L', x, ew', b. split_and!; try done; [|by apply Hwr']. rewrite Hk, Hlog. cbn. by rewrite app_nil_r.
  - destruct (writer_partial rec fuel base w L c x ew ss b n k Hwr Hto Hsys Hn)
      as (w' & L' & x' & ew' & b' & Hrun & Hwr' & HL & Hready & Htext & Hk & Hcb & _).
    exists w', L', x', ew', b'. split_and!; try done; [|by apply Hwr'].
    by rewrite Hk, Hlog, Htext, <- app_assoc, take_drop.
Qed.

(** One activation of the writer when the kernel takes all that is left:
    the callback runs exactly then, with everything sent, the buffer empty and
    the write timer off. *)
Lemma writer_finishes base w L c x ew ss b k :
  writing base w L c x ew ss b -> ev_timedout ew = false -> 0 < sv_cur b ->
  sys_send (c_fd x) (sv_text b) (w_kern w) = (inl (sv_cur b), k) ->
  exists w' L' x' b', ngxe_writer_handler rec (S fuel) (c_write x) w
      = (callback rec (s_writer_callback ss) false ;;;
         writer_AFTERCALLBACK rec c (c_data x) (s_writer_callback ss) (s_writer_buffer ss))%run w' /\
    writing base w' L' c x' (ew <| ev_timer_set := false |>) ss b' /\
    (forall y, y ∈ L' <-> y ∈ L /\ y.1 <> c_write x) /\
    sent (w_kern w') (c_fd x) = sent (w_kern w) (c_fd x) ++ sv_text b /\ sv_text b' = [] /\
    w_callbacks w' = w_callbacks w.
Proof.
  intros Hwr Hto Hcur Hsys. pose proof (wr_sound _ _ _ _ _ _ _ _ Hwr) as Hs.
  pose proof (send_log_run _ _ _ _ _ Hs Hcur Hsys) as Hlog. cbv beta iota in Hlog.
  destruct (writer_complete rec fuel base w L c x ew ss b k Hwr Hto Hcur Hsys)
    as (w' & L' & x' & b' & Hrun & Hwr' & HL & Htext & Hk & Hcb & _).
  exists w', L', x', b'. split_and!; try done. rewrite Hk, Hlog. f_equal. apply take_ge.
  pose proof (sv_text_length b Hs). lia.
Qed.

(** One activation of the writer when [send] fails: nothing is sent, the
    write timer is off, and the handler goes the way of a write error, which
    tells the callback and closes the connection. *)
Lemma writer_fails base w L c x ew ss b r k :
  writing base w L c x ew ss b -> ev_timedout ew = false -> 0 < sv_cur b ->
  sys_send (c_fd x) (sv_text b) (w_kern w) = (r, k) ->
  r = inl 0 \/ (exists err, r = inr err /\ err <> NGX_EAGAIN /\ err <> NGX_EINTR) ->
  exists w' L' ew', ngxe_writer_handler rec (S fuel) (c_write x) w
      = fail_with rec c (s_writer_callback ss) 1 "Write error" w' /\
    writing base w' L' c x ew' ss b /\ (forall y, y ∈ L' <-> y ∈ L /\ y.1 <> c_write x) /\
    sent (w_kern w') (c_fd x) = sent (w_kern w) (c_fd x) /\ w_callbacks w' = w_callbacks w.
Proof.
  intros Hwr Hto Hcur Hsys Hr. pose proof (send_log_run _ _ _ _ _ (wr_sound _ _ _ _ _ _ _ _ Hwr) Hcur Hsys) as Hlog.
  destruct (writer_error rec fuel base w L c x ew ss b r k Hwr Hto Hcur Hsys Hr)
    as (w' & L' & ew' & Hrun & Hwr' & HL & Hk & Hcb).
  exists w', L', ew'. split_and!; try done. rewrite Hk, Hlog.
  by destruct Hr as [->|(err & -> & _)]; rewrite app_nil_r.
Qed.
(** C25.  One activation of the writer of a string (not a reference), with an
    edge-triggered backend whose write event is registered, whatever [send] answers,
    unless a signal interrupts it at once.  When the kernel
    takes a part of the buffer, or nothing for now, the handler returns without
    calling back; what was taken followed by what is left in the buffer is what
    was to be sent, so no byte is lost, repeated or reordered over any number of
    activations; the event waits for the kernel, and its timer is armed again
    exactly when the session has a timeout, the other timers being untouched.
    When the kernel takes all that is left, the callback runs exactly then, with
    everything sent, the buffer empty and the write timer off.  When [send] fails,
    nothing is sent, the write timer is off, and the handler goes the way of a
    write error, which tells the callback and closes the connection. *)
Theorem writer_activation base w L c x ew ss b r k :
  writing base w L c x ew ss b -> ev_timedout ew = false -> 0 < sv_cur b ->
  sys_send (c_fd x) (sv_text b) (w_kern w) = (r, k) ->
  let runs := ngxe_writer_handler rec (S fuel) (c_write x) w in
  (r = inr NGX_EAGAIN \/ (exists n, r = inl n /\ 0 < n < sv_cur b) ->
    exists w' L' x' ew' b', runs = Done tt w' /\
      writing base w' L' c x' ew' ss b' /\ rearmed base w (c_write x) (s_writer_timeout ss) L L' /\
      sent (w_kern w') (c_fd x) ++ sv_text b' = sent (w_kern w) (c_fd x) ++ sv_text b /\
      ev_ready ew' = false /\ ev_active ew' = true /\ w_callbacks w' = w_callbacks w) /\
  (r = inl (sv_cur b) ->
    exists w' L' x' b', runs
        = (callback rec (s_writer_callback ss) false ;;;
           writer_AFTERCALLBACK rec c (c_data x) (s_writer_callback ss) (s_writer_buffer ss))%run w' /\
      writing base w' L' c x' (ew <| ev_timer_set := false |>) ss b' /\
      (forall y, y ∈ L' <-> y ∈ L /\ y.1 <> c_write x) /\
      sent (w_kern w') (c_fd x) = sent (w_kern w) (c_fd x) ++ sv_text b /\ sv_text b' = [] /\
      w_callbacks w' = w_callbacks w) /\
  (r = inl 0 \/ (exists err, r = inr err /\ err <> NGX_EAGAIN /\ err <> NGX_EINTR) ->
    exists w' L' ew', runs = fail_with rec c (s_writer_callback ss) 1 "Write error" w' /\
      writing base w' L' c x ew' ss b /\ (forall y, y ∈ L' <-> y ∈ L /\ y.1 <> c_write x) /\
      sent (w_kern w') (c_fd x) = sent (w_kern w) (c_fd x) /\ w_callbacks w' = w_callbacks w).
Proof.
  intros Hwr Hto Hcur Hsys. split_and!; intros Hr; [by apply (writer_waits base w L c x ew ss b r k) | | by apply (writer_fails base w L c x ew ss b r k)].
  subst r. by apply (writer_finishes base w L c x ew ss b k).
Qed.
End Theorems.

(** * Witnesses *)

Import Systems.
Local Existing Instance scripted_kernel.

#[export] Instance perl_of_strings subs : StringLaws (perl_of subs).
Proof.
  split; cbn [perl_of sv_view sv_chop SvOOK_off SvCUR_set interp]; unfold sv_upd, sv_sound, sv_text.
  - intros i p x n Hp Hs Hn. rewrite Hp. eexists _, _. split; [done|]. cbn.
    split; [apply lookup_insert_eq|]. cbn. split_and!; [lia | rewrite length_drop; lia | done | | done |].
    + replace (Z.to_nat (sv_cur x - n)) with (Z.to_nat (sv_cur x) - Z.to_nat n)%nat by lia.
      rewrite skipn_firstn_comm. done.
    + intros q Hq. by apply lookup_insert_ne.
  - intros i p x Hp Hs. rewrite Hp. eexists _, _. split; [done|]. cbn.
    split; [apply lookup_insert_eq|]. cbn. split_and!; try done; try lia. intros q Hq. by apply lookup_insert_ne.
  - intros i p x n Hp Hn. rewrite Hp. eexists. split; [done|]. cbn.
    split; [apply lookup_insert_eq|]. intros q Hq. by apply lookup_insert_ne.
Qed.

#[export] Instance scripted_send_log : SendLog scripted_kernel.
Proof.
  refine {| sent := fun (k : @kern scripted_kernel) _ => a_sent k |}.
  intros fd l k Hl. cbn [sys_send scripted_kernel]. unfold do_send, answer.
  destruct (a_send k) as [|[n|err] ns]; cbn; [done | | done]. split; [lia | done].
Defined.

Definition writer_perl : Perl := perl_of no_subs.
Local Existing Instance writer_perl.

(** A world without timers whose events are those of the small world. *)
Lemma no_timers (w : world) er ew :
  w_tree w = w_tree (small_world (mk_scalars ∅ 1000 : interp) no_answers) ->
  w_events w = list_to_map [(110, er); (120, ew)] ->
  ev_timer_set er = false -> ev_timer_set ew = false -> timers 0 w [].
Proof.
  intros Htree Hevs Hr Hw. constructor; rewrite ?Htree, ?Hevs.
  - exists node0, 0, RbtreeRep.E, 0%nat. split_and!; [|repeat econstructor | done].
    constructor; [done | by repeat split | | done]. apply (bool_decide_unpack _). by vm_compute.
  - constructor.
  - intros x []%not_elem_of_nil.
  - intros e ev. simpl. rewrite !lookup_insert_Some, lookup_empty.
    intros [[<- <-]|[? [[<- <-]|[? ?]]]]; [| |done]; (split; [congruence | by intros []%not_elem_of_nil]).
  - intros e []%not_elem_of_nil.
  - intros e [ev He]. simpl in He. rewrite !lookup_insert_Some, lookup_empty in He.
    destruct He as [[<- _]|[? [[<- _]|[? ?]]]]; [split; [by eexists | done]..|done].
Qed.

(** The connection 100 writes "hello" from the scalar 200. *)
Definition writer_rev : ngx_event_t := zero_event <| ev_data := 100 |> <| ev_active := true |>.
Definition writer_wev : ngx_event_t :=
  writer_rev <| ev_write := true |> <| ev_ready := true |> <| ev_handler := H_ngxe_writer_handler |>.
Definition writer_conn : ngx_connection_t :=
  zero_conn <| c_read := 110 |> <| c_write := 120 |> <| c_fd := 5 |> <| c_send := true |> <| c_data := 500 |>.
Definition writer_session : ngxe_session_t :=
  zero_session <| s_writer_callback := 300 |> <| s_writer_buffer := 200 |> <| s_writer_timeout := 5000 |>.
Definition hello_sv : sv :=
  empty_sv <| sv_pok := true |> <| sv_ok := true |> <| sv_pv := bytes "hello" |> <| sv_cur := 5 |> <| sv_len := 5 |>.
Definition writer_world (answers : list (Z + Z)) : world :=
  (small_world (mk_scalars {[ 200 := hello_sv ]} 1000 : interp) (no_answers <| a_send := answers |>))
    <| w_events := list_to_map [(110, writer_rev); (120, writer_wev)] |>
    <| w_conns := {[ 100 := writer_conn ]} |>
    <| w_sessions := {[ 500 := writer_session ]} |> <| w_flags := NGX_USE_CLEAR_EVENT |>.

Lemma writer_world_writing answers :
  writing 0 (writer_world answers) [] 100 writer_conn writer_wev writer_session hello_sv.
Proof.
  split; try done.
  - by apply (no_timers _ writer_rev writer_wev).
Qed.

Lemma writer_activation_witness :
  (exists w' L' x' ew' b', ngxe_writer_handler (fun _ => rfault) 1 120 (writer_world [inl 2]) = Done tt w' /\
    writing 0 w' L' 100 x' ew' writer_session b' /\ rearmed 0 (writer_world [inl 2]) 120 5000 [] L' /\
    sent (w_kern w') 5 ++ sv_text b' = [] ++ sv_text hello_sv /\
    ev_ready ew' = false /\ ev_active ew' = true /\ w_callbacks w' = ∅) /\
  (exists w' L' x' b', ngxe_writer_handler (fun _ => rfault) 1 120 (writer_world [inl 5])
      = (callback (fun _ => rfault) 300 false ;;; writer_AFTERCALLBACK (fun _ => rfault) 100 500 300 200)%run w' /\
    writing 0 w' L' 100 x' (writer_wev <| ev_timer_set := false |>) writer_session b' /\
    (forall y, y ∈ L' <-> y ∈ [] /\ y.1 <> 120) /\
    sent (w_kern w') 5 = [] ++ sv_text hello_sv /\ sv_text b' = [] /\ w_callbacks w' = ∅) /\
  (exists w' L' ew', ngxe_writer_handler (fun _ => rfault) 1 120 (writer_world [inr NGX_EPIPE])
      = fail_with (fun _ => rfault) 100 300 1 "Write error" w' /\
    writing 0 w' L' 100 writer_conn ew' writer_session hello_sv /\ (forall y, y ∈ L' <-> y ∈ [] /\ y.1 <> 120) /\
    sent (w_kern w') 5 = [] /\ w_callbacks w' = ∅).
Proof.
  split_and!.
  - refine (proj1 (writer_activation (fun _ => rfault) 0 0 (writer_world [inl 2]) [] 100 writer_conn writer_wev writer_session
      hello_sv (inl 2) (no_answers <| a_sent := bytes "he" |>) _ _ _ _) _); try reflexivity; [apply writer_world_writing|].
    right. exists 2. split; [done|]. simpl. lia.
  - refine (proj1 (proj2 (writer_activation (fun _ => rfault) 0 0 (writer_world [inl 5]) [] 100 writer_conn writer_wev writer_session
      hello_sv (inl 5) (no_answers <| a_sent := bytes "hello" |>) _ _ _ _)) _); try reflexivity. apply writer_world_writing.
  - refine (proj2 (proj2 (writer_activation (fun _ => rfault) 0 0 (writer_world [inr NGX_EPIPE]) [] 100 writer_conn writer_wev
      writer_session hello_sv (inr NGX_EPIPE) no_answers _ _ _ _)) _); try reflexivity; [apply writer_world_writing|].
    right. exists NGX_EPIPE. done.
Defined.

End Writer.
