(* ===== verification/Reader.v ===== *)
(** The reader ([ngxe_reader_handler]): what one activation receives, keeps and
    does, for every answer of the kernel. *)
From stdpp Require Import base numbers gmap list strings.
From S2P Require Import Prelude Rbtree RbtreeRep RbtreeTheorems World Systems Timer Event Backend Connection Close Callback Session Writer Server Engine.
Local Open Scope Z_scope.
Import RbtreeTheorems World Timer Event Backend Connection Close Callback Session Writer Engine.

Module Reader.

(** * What is relied on *)

(** A string scalar whose buffer has [SvLEN] bytes, one of them spare for the
    terminating NUL. *)
Definition sv_roomy (x : sv) : Prop :=
  0 <= sv_cur x /\ sv_cur x + 1 <= sv_len x /\ sv_len x = Z.of_nat (length (sv_pv x)).

(** The bytes [l] stored at offset [off] of a buffer. *)
Definition poked (off : Z) (l : list Z) (pv : list Z) : list Z :=
  take (Z.to_nat off) pv ++ l ++ drop (Z.to_nat off + length l) pv.

(** The parts of perlapi the reader uses: the buffer behind [SvPVX] can be
    stored to up to [SvLEN], [SvGROW] makes it at least as long as asked for
    and keeps the string. *)
Class BufferLaws (HPerl : Perl) : Prop := {
  poke_law : forall i p x off l, sv_view i p = Some x -> 0 <= off ->
    off + Z.of_nat (length l) <= Z.of_nat (length (sv_pv x)) ->
    exists i', sv_poke p off l i = Some i' /\
      sv_view i' p = Some (x <| sv_pv := poked off l (sv_pv x) |>) /\
      (forall q, q <> p -> sv_view i' q = sv_view i q);
  grow_law : forall i p x n, sv_view i p = Some x -> sv_roomy x ->
    exists i' x', SvGROW p n i = Some i' /\ sv_view i' p = Some x' /\ sv_roomy x' /\
      n <= sv_len x' /\ sv_len x <= sv_len x' /\ sv_cur x' = sv_cur x /\ sv_text x' = sv_text x /\
      (forall q, q <> p -> sv_view i' q = sv_view i q)
}.

(** [recv] gives at most as many bytes as there is room for. *)
Class RecvLaw (HKern : Kernel) : Prop := {
  recv_law : forall fd size k l k', sys_recv fd size k = (inl l, k') -> 0 <= size -> Z.of_nat (length l) <= size
}.

(** * Pieces of the handler *)

Section Pieces.
Context {HPerl : Perl} {HKern : Kernel} {HAct : EventActions} {HStr : StringLaws HPerl}
  {HBuf : BufferLaws HPerl} {HRecv : RecvLaw HKern}.

(** The read event after one [recv]. *)
Definition recv_event (w : world) (c : ptr) (x : ngx_connection_t) (er : ngx_event_t) (size : Z)
    (r : list Z + Z) : ngx_event_t :=
  match r with
  | inl [] => er <| ev_ready := false |> <| ev_eof := true |>
  | inl l => if (Z.of_nat (length l) <? size) && negb (has (w_flags w) NGX_USE_GREEDY_EVENT)
             then er <| ev_ready := false |> else er
  | inr err =>
      if err =? NGX_EAGAIN then er <| ev_ready := false |>
      else if (err =? NGX_ECONNRESET) && (c_log_error x =? NGX_ERROR_IGNORE_ECONNRESET)
           then er <| ev_ready := false |>
           else er <| ev_ready := false |> <| ev_error := true |>
  end.
Definition recv_rc (x : ngx_connection_t) (r : list Z + Z) : Z :=
  match r with
  | inl l => Z.of_nat (length l)
  | inr err =>
      if err =? NGX_EAGAIN then NGX_AGAIN
      else if (err =? NGX_ECONNRESET) && (c_log_error x =? NGX_ERROR_IGNORE_ECONNRESET) then 0 else NGX_ERROR
  end.

Lemma unix_recv_once fuel w c x er p b off size r k :
  w_conns w !! c = Some x -> w_events w !! c_read x = Some er ->
  sv_view (w_perl w) p = Some b -> 0 <= off -> 0 <= size -> off + size <= Z.of_nat (length (sv_pv b)) ->
  sys_recv (c_fd x) size (w_kern w) = (r, k) -> r <> inr NGX_EINTR ->
  exists i b', ngx_unix_recv (S fuel) c p off size w
      = Done (recv_rc x r) (put_event (c_read x) (recv_event w c x er size r)
                              (w <| w_kern := k |> <| w_perl := i |>)) /\
    sv_view i p = Some b' /\
    b' = b <| sv_pv := poked off (match r with inl l => l | inr _ => [] end) (sv_pv b) |> /\
    (forall q, q <> p -> sv_view i q = sv_view (w_perl w) q).
Proof.
  intros Hc He Hp Hoff Hpos Hsize Hsys Hint.
  assert (Hid : b = b <| sv_pv := poked off [] (sv_pv b) |>).
  { unfold poked. cbn. rewrite Nat.add_0_r, take_drop. by destruct b. }
  assert (Hw : forall k, w <| w_kern := k |> = w <| w_kern := k |> <| w_perl := w_perl w |>) by by destruct w.
  cbn [ngx_unix_recv]. unfold_accessors. do 2 step. rewrite (sys_step _ _ _ _ _ Hsys).
  destruct r as [[|z l]|err].
  - exists (w_perl w), b. split; [|done]. do 2 step. unfold put_event. rsimpl. rewrite insert_insert_eq. by destruct w.
  - pose proof (recv_law _ _ _ _ _ Hsys ltac:(lia)) as Hlen.
    destruct (poke_law (w_perl w) p b off (z :: l) Hp Hoff) as (i & Hpoke & Hview & Hoth); [lia|].
    exists i, (b <| sv_pv := poked off (z :: l) (sv_pv b) |>). split; [|done].
    cbv zeta. erewrite perl_do_step by exact Hpoke. step. unfold recv_event, recv_rc. rsimpl.
    destruct ((Z.of_nat (length (z :: l)) <? size) && _).
    + step. done.
    + rewrite bind_ret. unfold put_event. rsimpl. rewrite insert_id by done. by destruct w.
  - destruct (Z.eqb_spec err NGX_EINTR) as [->|Hne]; [done|].
    exists (w_perl w), b. split; [|done]. unfold recv_event, recv_rc.
    destruct (Z.eqb_spec err NGX_EAGAIN) as [->|Hne'].
    + rewrite bind_ret. step. by destruct w.
    + unfold ngx_connection_error. unfold_accessors. rewrite bind_assoc. step.
      destruct ((err =? NGX_ECONNRESET) && _); rewrite bind_ret; step.
      * by destruct w.
      * rewrite Z.eqb_refl. step. unfold put_event. rsimpl. rewrite insert_insert_eq. by destruct w.
Qed.

(** [recv] repeated while a signal interrupts it: the answer after [n] calls. *)
Inductive received_by (fd size : Z) : kern -> list Z + Z -> kern -> nat -> Prop :=
| recv_answered k r k' : sys_recv fd size k = (r, k') -> r <> inr NGX_EINTR -> received_by fd size k r k' 1
| recv_interrupted k k1 r k' n : sys_recv fd size k = (inr NGX_EINTR, k1) ->
    received_by fd size k1 r k' n -> received_by fd size k r k' (S n).

Lemma received_by_bound fd size k r k' n :
  received_by fd size k r k' n -> 0 <= size -> (1 <= n)%nat /\ r <> inr NGX_EINTR /\
    match r with inl l => Z.of_nat (length l) <= size | inr _ => True end.
Proof.
  intros Hr Hsize. induction Hr as [k r k' Hsys Hne|k k1 r k' n Hsys Hr IH]; [|naive_solver lia].
  split_and!; [lia | done |]. destruct r; [by eapply recv_law | done].
Qed.

Lemma unix_recv_ok fuel w c x er p b off size r k n :
  w_conns w !! c = Some x -> w_events w !! c_read x = Some er ->
  sv_view (w_perl w) p = Some b -> 0 <= off -> 0 <= size -> off + size <= Z.of_nat (length (sv_pv b)) ->
  received_by (c_fd x) size (w_kern w) r k n -> (n <= fuel)%nat ->
  exists i b', ngx_unix_recv fuel c p off size w
      = Done (recv_rc x r) (put_event (c_read x) (recv_event w c x er size r)
                              (w <| w_kern := k |> <| w_perl := i |>)) /\
    sv_view i p = Some b' /\
    b' = b <| sv_pv := poked off (match r with inl l => l | inr _ => [] end) (sv_pv b) |> /\
    (forall q, q <> p -> sv_view i q = sv_view (w_perl w) q).
Proof.
  intros Hc He Hp Hoff Hpos Hsize Hr. revert fuel w Hc He Hp Hr.
  enough (forall k0, received_by (c_fd x) size k0 r k n -> forall fuel w, w_kern w = k0 ->
    w_conns w !! c = Some x -> w_events w !! c_read x = Some er -> sv_view (w_perl w) p = Some b -> (n <= fuel)%nat ->
    exists i b', ngx_unix_recv fuel c p off size w
      = Done (recv_rc x r) (put_event (c_read x) (recv_event w c x er size r) (w <| w_kern := k |> <| w_perl := i |>)) /\
      sv_view i p = Some b' /\ b' = b <| sv_pv := poked off (match r with inl l => l | inr _ => [] end) (sv_pv b) |> /\
      (forall q, q <> p -> sv_view i q = sv_view (w_perl w) q)) as Hall by (intros; by eapply Hall).
  intros k0 Hr. induction Hr as [k0 r k Hsys Hne|k0 k1 r k n Hsys Hr IH]; intros fuel w <- Hc He Hp Hfuel; (destruct fuel as [|fuel]; [lia|]).
  - by apply unix_recv_once.
  - destruct (IH fuel (w <| w_kern := k1 |>)) as (i & b' & Hrun & Hrest); [done..|lia|].
    exists i, b'. split; [|exact Hrest]. cbn [ngx_unix_recv]. unfold_accessors. do 2 step. rewrite (sys_step _ _ _ _ _ Hsys).
    change (NGX_EINTR =? NGX_EINTR) with true. cbv iota. rewrite Hrun. by destruct w.
Qed.

Lemma poked_text b l :
  sv_roomy b -> sv_cur b + Z.of_nat (length l) + 1 <= sv_len b ->
  let b' := b <| sv_pv := poked (sv_cur b) l (sv_pv b) |> <| sv_cur := sv_cur b + Z.of_nat (length l) |> in
  sv_roomy b' /\ sv_text b' = sv_text b ++ l.
Proof.
  unfold sv_roomy, sv_text, poked. intros (H0 & H1 & H2) Hl. cbn. split.
  - rewrite !length_app, length_take, length_drop. lia.
  - rewrite app_assoc. apply take_app_length'. rewrite length_app, length_take. lia.
Qed.
End Pieces.

(** * The handler *)

(** A session that reads into the scalar [b]; [m] is the amount its callback
    asks for. *)
Record reading {HPerl : Perl} {HKern : Kernel} (base : Z) (w : world) (L : list (Z * Z)) (c : ptr)
    (x : ngx_connection_t) (er : ngx_event_t) (ss : ngxe_session_t) (b m : sv) : Prop := mk_reading {
  rr_timers : timers base w L;
  rr_conn : w_conns w !! c = Some x;
  rr_c : c <> NULL;
  rr_ev : w_events w !! c_read x = Some er;
  rr_data : ev_data er = c;
  rr_active : ev_active er = true;
  rr_clear : has (w_flags w) NGX_USE_CLEAR_EVENT = true;
  rr_recv : c_recv x = true;
  rr_s : c_data x <> NULL;
  rr_ss : w_sessions w !! c_data x = Some ss;
  rr_cb : s_reader_callback ss <> NULL;
  rr_buf : s_reader_buffer ss <> NULL;
  rr_sv : sv_view (w_perl w) (s_reader_buffer ss) = Some b;
  rr_roomy : sv_roomy b;
  rr_min : exists cb a, w_callbacks w !! s_reader_callback ss = Some cb /\ cb_args cb !! 4%nat = Some a /\
    a <> s_reader_buffer ss /\ sv_view (w_perl w) a = Some m;
  rr_window : in_window base (u64 (w_msec w + u64 (s_reader_timeout ss)))
}.

Section Handler.
Context {HPerl : Perl} {HKern : Kernel} {HAct : EventActions} {HStr : StringLaws HPerl}
  {HBuf : BufferLaws HPerl} {HRecv : RecvLaw HKern}.
Context (rec : task -> W Z) (fuel : nat).

Lemma reading_put base w L c x er er' ss b m :
  reading base w L c x er ss b m ->
  ev_data er' = ev_data er -> ev_active er' = ev_active er -> ev_timer_set er' = ev_timer_set er ->
  reading base (put_event (c_read x) er' w) L c x er' ss b m.
Proof.
  intros Hrd Hd' Ha' Hs'. pose proof Hrd as [Ht Hc Hcn Hev Hd Ha Hcl Hrecv Hsn Hss Hcb Hbuf Hsv Hroom Hmin Hwin].
  split; try done; try congruence.
  - apply (timers_frame base w); [done | | done]. by eapply fmap_put.
  - unfold put_event. look.
Qed.

Lemma reading_perl base w L c x er ss b m i b' :
  reading base w L c x er ss b m ->
  sv_view i (s_reader_buffer ss) = Some b' -> sv_roomy b' ->
  (forall q, q <> s_reader_buffer ss -> sv_view i q = sv_view (w_perl w) q) ->
  reading base (w <| w_perl := i |>) L c x er ss b' m.
Proof.
  intros [[] ? ? ? ? ? ? ? ? ? ? ? ? ? (cb & a & H1 & H2 & H3 & H4) ?] Hb Hr Ho.
  split; try done. exists cb, a. rsimpl. by rewrite Ho.
Qed.
Lemma reading_kern base w L c x er ss b m k :
  reading base w L c x er ss b m -> reading base (w <| w_kern := k |>) L c x er ss b m.
Proof. intros [[] ? ? ? ? ? ? ? ? ? ? ? ? ? ? ?]. by split. Qed.

Lemma reading_timer base w L c x er ss b m t L' flag :
  reading base w L c x er ss b m ->
  timers base (with_timer w (c_read x) t (er <| ev_timer_set := flag |>)) L' ->
  reading base (with_timer w (c_read x) t (er <| ev_timer_set := flag |>)) L' c x (er <| ev_timer_set := flag |>) ss b m.
Proof.
  intros [Ht Hc Hcn Hev Hd Ha Hcl Hrecv Hsn Hss Hcb Hbuf Hsv Hroom Hmin Hwin] Ht'.
  split; try done. unfold with_timer. look.
Qed.

(** The buffer after [recv]. *)
Definition filled (b : sv) (r : list Z + Z) : sv :=
  b <| sv_pv := poked (sv_cur b) (match r with inl l => l | inr _ => [] end) (sv_pv b) |>.

Lemma reading_arm base w L c x er ss b m :
  reading base w L c x er ss b m -> ev_timer_set er = false ->
  exists w' L', arm_reader c (c_data x) w = Done tt w' /\
    reading base w' L' c x (armed er (s_reader_timeout ss)) ss b m /\
    (s_reader_timeout ss = 0 -> L' = L) /\
    (s_reader_timeout ss <> 0 ->
       timer_updated base (c_read x) (u64 (w_msec w + u64 (s_reader_timeout ss))) L L') /\
    w_kern w' = w_kern w /\ w_callbacks w' = w_callbacks w /\ w_msec w' = w_msec w /\ w_flags w' = w_flags w.
Proof.
  intros Hrd Hset. pose proof Hrd as [Ht Hc Hcn Hev Hd Ha Hcl Hrecv Hsn Hss Hcb Hbuf Hsv Hroomy Hmin Hwin].
  destruct (arm_ok base w L (c_read x) er (s_reader_timeout ss) Ht Hev Hset Hwin) as (t & L' & Hrun & Ht' & H0 & H1).
  eexists _, L'. rewrite (arm_reader_run w c (c_data x) x er ss Hc Hev Hss Hset).
  split; [exact Hrun|]. split; [by apply reading_timer with L | done].
Qed.

Lemma arm_reader_armed base w L c x er ss b m :
  reading base w L c x er ss b m -> ev_timer_set er = negb (s_reader_timeout ss =? 0) ->
  arm_reader c (c_data x) w = Done tt w.
Proof.
  intros [Ht Hc Hcn Hev Hd Ha Hcl Hrecv Hsn Hss Hcb Hbuf Hsv Hroomy Hmin Hwin] Hset.
  unfold arm_reader. unfold_accessors. do 3 step. rewrite Hset. by destruct (s_reader_timeout ss =? 0).
Qed.
End Handler.

(** The bytes an answer of [recv] carries. *)
Definition received (r : list Z + Z) : list Z := match r with inl l => l | inr _ => [] end.

(** * One activation *)

(** How an activation ends: it waits for the next one, has enough for the
    callback, or fails. *)
Inductive ending := Ends_waiting | Ends_enough | Ends_failed.

Section Activation.
Context {HKern : Kernel} (fd len min : Z) (again : bool).

(** Is there less than was asked for, and room for more? *)
Definition wants_more (cur : Z) : bool := (cur + 1 <? u64 min) && (cur + 1 <? len).

(** What the kernel answers to the calls of [recv] of an activation that starts
    with [cur] bytes in the buffer: the bytes it gives in all, how it ends, and the
    number of calls.  [again]: is the event still ready after a short answer. *)
Inductive activation : Z -> kern -> list Z -> ending -> kern -> nat -> Prop :=
| act_nothing cur k k' n :
    received_by fd (len - cur - 1) k (inr NGX_EAGAIN) k' n -> activation cur k [] Ends_waiting k' n
| act_failed cur k r k' n :
    received_by fd (len - cur - 1) k r k' n -> r = inl [] \/ (exists err, r = inr err /\ err <> NGX_EAGAIN) ->
    activation cur k [] Ends_failed k' n
| act_enough cur k l k' n :
    received_by fd (len - cur - 1) k (inl l) k' n -> l <> [] ->
    wants_more (cur + Z.of_nat (length l)) = false -> activation cur k l Ends_enough k' n
| act_short cur k l k' n :
    received_by fd (len - cur - 1) k (inl l) k' n -> l <> [] -> again = false ->
    wants_more (cur + Z.of_nat (length l)) = true -> activation cur k l Ends_waiting k' n
| act_more cur k l k1 n l' e k' n' :
    received_by fd (len - cur - 1) k (inl l) k1 n -> l <> [] -> again = true ->
    wants_more (cur + Z.of_nat (length l)) = true ->
    activation (cur + Z.of_nat (length l)) k1 l' e k' n' -> activation cur k (l ++ l') e k' (n + n').

Lemma activation_total {HRecv : RecvLaw HKern} cur k :
  (forall size k, exists r k' n, received_by fd size k r k' n) -> cur + 1 < len ->
  exists l e k' n, activation cur k l e k' n.
Proof.
  intros Htot. remember (Z.to_nat (len - cur)) as d eqn:Hd. revert cur k Hd.
  induction d as [d IH] using lt_wf_ind. intros cur k -> Hroom.
  destruct (Htot (len - cur - 1) k) as (r & k1 & n & Hr).
  pose proof (received_by_bound _ _ _ _ _ _ Hr ltac:(lia)) as (_ & Hint & Hlen).
  destruct r as [l|err].
  2:{ destruct (decide (err = NGX_EAGAIN)) as [->|]; [by exists [], Ends_waiting, k1, n; constructor|].
      exists [], Ends_failed, k1, n. eapply act_failed; [exact Hr | right; eauto]. }
  destruct (decide (l = [])) as [->|Hl]; [exists [], Ends_failed, k1, n; eapply act_failed; [exact Hr | by left]|].
  assert (0 < Z.of_nat (length l)) by (destruct l; [done | cbn; lia]).
  destruct (wants_more (cur + Z.of_nat (length l))) eqn:Hw; [|by exists l, Ends_enough, k1, n; constructor].
  pose proof Hw as [_ Hlt%Z.ltb_lt]%andb_true_iff.
  destruct again eqn:Hag; [|by exists l, Ends_waiting, k1, n; apply act_short].
  destruct (IH (Z.to_nat (len - (cur + Z.of_nat (length l)))) ltac:(lia) _ k1 eq_refl Hlt) as (l' & e & k' & n' & Hact).
  exists (l ++ l'), e, k', (n + n')%nat. by eapply act_more.
Qed.
End Activation.

Section Run.
Context {HPerl : Perl} {HKern : Kernel} {HAct : EventActions} {HStr : StringLaws HPerl}
  {HBuf : BufferLaws HPerl} {HRecv : RecvLaw HKern}.
Context (base : Z) (w0 : world) (L0 : list (Z * Z)) (c : ptr) (x : ngx_connection_t) (ss : ngxe_session_t) (m : sv).
Implicit Types (w : world) (L : list (Z * Z)) (er : ngx_event_t) (b : sv).

Definition disarmed L : Prop := forall y, y ∈ L <-> y ∈ L0 /\ y.1 <> c_read x.

(** The session before a [recv]: the read timer is off, or armed again since the
    activation began. *)
Record entered w L er b : Prop := mk_entered {
  en_reading : reading base w L c x er ss b m;
  en_msec : w_msec w = w_msec w0;
  en_flags : w_flags w = w_flags w0;
  en_callbacks : w_callbacks w = w_callbacks w0;
  en_timer : (ev_timer_set er = false /\ disarmed L) \/
    (ev_timer_set er = negb (s_reader_timeout ss =? 0) /\ rearmed base w0 (c_read x) (s_reader_timeout ss) L0 L)
}.

Definition greedy : bool := has (w_flags w0) NGX_USE_GREEDY_EVENT.

Section Step.
Context (rec : task -> W Z) (fuel : nat).
Let RECVAGAIN := reader_RECVAGAIN rec fuel (c_read x) c (c_data x) (s_reader_callback ss) (s_reader_buffer ss).
Let check_min := reader_check_min rec (c_read x) c (c_data x) (s_reader_callback ss) (s_reader_buffer ss).
Let CALLBACK := reader_CALLBACK rec (c_read x) c (c_data x) (s_reader_callback ss) (s_reader_buffer ss).

(** From [RECVAGAIN:] to the answer of [recv]. *)
Lemma until_recv w L er b r k n :
  entered w L er b -> sv_cur b + 1 < sv_len b ->
  received_by (c_fd x) (sv_len b - sv_cur b - 1) (w_kern w) r k n -> (n <= fuel)%nat ->
  exists w1 er1, RECVAGAIN w = reader_received rec (c_read x) c (c_data x) (s_reader_callback ss) (s_reader_buffer ss)
      (sv_cur b) (recv_rc x r) w1 /\
    entered w1 L er1 (filled b r) /\ ev_timer_set er1 = ev_timer_set er /\ w_kern w1 = k /\
    ev_ready er1 = match r with
                   | inl [] | inr _ => false
                   | inl l => if Z.of_nat (length l) <? sv_len b - sv_cur b - 1 then greedy && ev_ready er else ev_ready er
                   end.
Proof.
  intros [Hrd Hms Hfl Hcbs Htm] Hroom Hr Hfuel.
  pose proof Hrd as [Ht Hc Hcn Hev Hd Ha Hcl Hrecv Hsn Hss Hcb Hbuf Hsv Hroomy Hmin Hwin].
  pose proof Hroomy as (Hr0 & Hr1 & Hr2). pose proof (received_by_bound _ _ _ _ _ _ Hr ltac:(lia)) as (_ & _ & Hlen).
  destruct (unix_recv_ok fuel w c x er (s_reader_buffer ss) b (sv_cur b) (sv_len b - sv_cur b - 1) r k n)
    as (i & b' & Hrun & Hview & Hb' & Hoth); [done | done | done | done | lia | lia | done | done |].
  set (er1 := recv_event w c x er (sv_len b - sv_cur b - 1) r) in *.
  assert (ev_timer_set er1 = ev_timer_set er) as Hset by (unfold er1, recv_event; repeat case_match; done).
  exists (put_event (c_read x) er1 (w <| w_kern := k |> <| w_perl := i |>)), er1. split_and!; [| split; [|done|done|done|] | done | done |].
  - unfold RECVAGAIN, reader_RECVAGAIN. do 2 (erewrite sv_rd_step by exact Hsv).
    destruct (Z.eqb_spec (sv_len b) (sv_cur b + 1)); [lia|]. rewrite bind_ret.
    do 2 (erewrite sv_rd_step by exact Hsv). destruct (Z.leb_spec (sv_len b) (sv_cur b + 1)); [lia|].
    unfold conn_recv. rewrite bind_assoc. unfold c_rd. erewrite rd_at_step by exact Hc. rewrite Hrecv.
    run_to Hrun. reflexivity.
  - apply reading_put with er; [|unfold er1, recv_event; repeat case_match; done..].
    eapply reading_perl; [by apply reading_kern | rewrite Hview, Hb'; reflexivity | | exact Hoth].
    unfold filled, sv_roomy, poked. rsimpl. rewrite !length_app, length_take, length_drop.
    assert (Z.of_nat (length (match r with inl l => l | inr _ => [] end)) <= sv_len b - sv_cur b - 1) by (destruct r; [done | cbn; lia]).
    lia.
  - by rewrite Hset.
  - unfold er1, recv_event, greedy. rewrite Hfl. destruct r as [[|z l]|err]; [done | | by repeat case_match].
    destruct (Z.ltb_spec (Z.of_nat (length (z :: l))) (sv_len b - sv_cur b - 1)), (has (w_flags w0) NGX_USE_GREEDY_EVENT); done.
Qed.

Lemma arm_entered w L er b :
  entered w L er b ->
  exists w' L', arm_reader c (c_data x) w = Done tt w' /\ entered w' L' (armed er (s_reader_timeout ss)) b /\
    rearmed base w0 (c_read x) (s_reader_timeout ss) L0 L' /\ w_kern w' = w_kern w.
Proof.
  intros [Hrd Hms Hfl Hcbs [[Hset Hdis]|[Hset Hre]]].
  - destruct (reading_arm _ _ _ _ _ _ _ _ _ Hrd Hset) as (w' & L' & Harm & Hrd' & Hz & Hnz & Hk & Hcb' & Hms' & Hfl').
    assert (rearmed base w0 (c_read x) (s_reader_timeout ss) L0 L') as Hre by (exists L; rewrite <- Hms; by split_and!).
    exists w', L'. split_and!; [done | | done | done]. split; [done | congruence | congruence | congruence | by right].
  - exists w, L. rewrite (arm_reader_armed _ _ _ _ _ _ _ _ _ Hrd Hset). unfold armed. rewrite <- Hset.
    assert (er <| ev_timer_set := ev_timer_set er |> = er) as -> by by destruct er.
    split_and!; [done | split; [done..|by right] | done | done].
Qed.

(** Received data up to the test for enough. *)
Lemma received_data w L er b l :
  entered w L er (filled b (inl l)) -> sv_roomy b -> l <> [] -> sv_cur b + Z.of_nat (length l) + 1 <= sv_len b ->
  exists w' L' b', reader_received rec (c_read x) c (c_data x) (s_reader_callback ss) (s_reader_buffer ss)
      (sv_cur b) (Z.of_nat (length l)) w = check_min w' /\
    entered w' L' (armed er (s_reader_timeout ss)) b' /\ rearmed base w0 (c_read x) (s_reader_timeout ss) L0 L' /\
    sv_text b' = sv_text b ++ l /\ sv_len b' = sv_len b /\ sv_cur b' = sv_cur b + Z.of_nat (length l) /\ w_kern w' = w_kern w.
Proof.
  intros [Hrd Hms Hfl Hcbs Htm] Hroomy Hl Hlen. destruct (poked_text b l Hroomy) as [Hroomy' Htext]; [lia|].
  assert (0 < Z.of_nat (length l)) as Hpos by (destruct l; [done | cbn; lia]).
  destruct (cur_law _ _ _ (sv_cur b + Z.of_nat (length l)) (rr_sv _ _ _ _ _ _ _ _ _ Hrd)) as (i2 & Hcur & Hview & Hoth).
  { destruct (rr_roomy _ _ _ _ _ _ _ _ _ Hrd) as (_ & _ & H2). destruct Hroomy as (? & ? & ?). rewrite <- H2. cbn. lia. }
  pose proof (reading_perl _ _ _ _ _ _ _ _ _ _ _ Hrd Hview Hroomy' Hoth) as Hrd2.
  pose proof Hrd2 as [_ Hc2 _ Hev2 _ Ha2 Hcl2 _ _ _ _ _ _ _ _ _].
  destruct (arm_entered (w <| w_perl := i2 |>) L er _ (mk_entered _ _ _ _ Hrd2 Hms Hfl Hcbs Htm)) as (w' & L' & Harm & Hen & Hre & Hk).
  exists w', L'. eexists. split_and!; [|exact Hen | done | exact Htext | done | done | exact Hk].
  unfold reader_received. destruct (Z.eqb_spec (Z.of_nat (length l)) NGX_ERROR); [unfold NGX_ERROR in *; lia|].
  destruct (Z.eqb_spec (Z.of_nat (length l)) 0); [lia|]. cbn [orb]. destruct (Z.ltb_spec 0 (Z.of_nat (length l))); [|lia].
  erewrite perl_do_step by exact Hcur. run_to (handle_read_active _ _ _ _ Hc2 Hev2 Ha2 Hcl2).
  rewrite Z.eqb_refl. cbn [negb]. run_to Harm. reflexivity.
Qed.

(** The test itself. *)
Lemma check_min_run w L er b :
  reading base w L c x er ss b m -> ev_timer_set er = negb (s_reader_timeout ss =? 0) ->
  check_min w =
    if wants_more (sv_len b) (sv_iv m) (sv_cur b) then
      if ev_ready er then goto rec (T_reader_recvagain (c_read x) c (c_data x) (s_reader_callback ss) (s_reader_buffer ss)) w
      else Done tt w
    else CALLBACK w.
Proof.
  intros Hrd Hset. pose proof (arm_reader_armed _ _ _ _ _ _ _ _ _ Hrd Hset) as Harm.
  pose proof Hrd as [Ht Hc Hcn Hev Hd Ha Hcl Hrecv Hsn Hss Hcb Hbuf Hsv Hroomy (cb & a & H1 & H2 & H3 & H4) Hwin].
  unfold check_min, reader_check_min, cb_arg. unfold_accessors. do 2 step. rewrite bind_assoc. step. rewrite H2. rewrite bind_ret.
  erewrite sv_rd_step by exact H4. unfold wants_more. destruct (_ && _); [|done].
  run_to (handle_read_active _ _ _ _ Hc Hev Ha Hcl). rewrite Z.eqb_refl. cbn [negb].
  unfold rev_rd. rewrite bind_assoc. unfold_accessors. do 2 step. by destruct (ev_ready er).
Qed.

End Step.

(** A full buffer is enlarged by at least 16384 bytes before the next [recv], and
    keeps its contents. *)
Lemma recvagain_grows w L er b :
  entered w L er b -> sv_cur b + 1 = sv_len b -> 16 <= w_pagesize w ->
  exists i b', (forall rec fuel,
      reader_RECVAGAIN rec fuel (c_read x) c (c_data x) (s_reader_callback ss) (s_reader_buffer ss) w
        = reader_RECVAGAIN rec fuel (c_read x) c (c_data x) (s_reader_callback ss) (s_reader_buffer ss) (w <| w_perl := i |>)) /\
    entered (w <| w_perl := i |>) L er b' /\
    sv_text b' = sv_text b /\ sv_cur b' = sv_cur b /\ sv_len b + 16384 <= sv_len b'.
Proof.
  intros [Hrd Hms Hfl Hcbs Htm] Hfull Hpage.
  pose proof Hrd as [Ht Hc Hcn Hev Hd Ha Hcl Hrecv Hsn Hss Hcb Hbuf Hsv Hroomy Hmin Hwin].
  destruct (grow_law (w_perl w) _ b (buf_class (w_pagesize w) (sv_len b + 16384)) Hsv Hroomy)
    as (i & b' & Hgrow & Hview & Hroomy' & Hn & Hlen & Hcur & Htext & Hoth).
  assert (sv_len b + 16384 <= buf_class (w_pagesize w) (sv_len b + 16384)) as Hclass.
  { unfold buf_class. repeat case_match; rewrite ?Z.leb_le in *; lia. }
  exists i, b'. split_and!; [|split; [by eapply reading_perl | done..] | done | done | lia].
  intros rec fuel. unfold reader_RECVAGAIN. do 2 (erewrite sv_rd_step by exact Hsv).
  destruct (Z.eqb_spec (sv_len b) (sv_cur b + 1)); [|lia].
  unfold ngxe_buf_svgrow. rewrite bind_assoc. step. erewrite perl_do_step by exact Hgrow.
  do 4 (erewrite (sv_rd_step _ _ _ (w <| w_perl := i |>)) by exact Hview).
  destruct (Z.eqb_spec (sv_len b') (sv_cur b' + 1)); [lia|]. rewrite bind_ret.
  do 2 (erewrite (sv_rd_step _ _ _ (w <| w_perl := i |>)) by exact Hview). reflexivity.
Qed.

(** From the entry of the handler to [RECVAGAIN:]. *)
Lemma handler_entered w er b :
  w = w0 -> reading base w L0 c x er ss b m -> ev_timedout er = false ->
  exists w1 L1, (forall rec fuel, ngxe_reader_handler rec fuel (c_read x) w
      = reader_RECVAGAIN rec fuel (c_read x) c (c_data x) (s_reader_callback ss) (s_reader_buffer ss) w1) /\
    entered w1 L1 (er <| ev_timer_set := false |>) b /\ w_kern w1 = w_kern w /\ w_pagesize w1 = w_pagesize w.
Proof.
  intros -> Hrd Hto. pose proof Hrd as [Ht Hc Hcn Hev Hd Ha Hcl Hrecv Hsn Hss Hcb Hbuf Hsv Hroom Hmin Hwin].
  destruct (disarm_ok base w0 L0 (c_read x) er Ht Hev) as (t & L1 & Hdis & Ht1 & HL1).
  exists (with_timer w0 (c_read x) t (er <| ev_timer_set := false |>)), L1. split_and!; [| |done | done].
  - intros rec fuel. unfold ngxe_reader_handler. unfold_accessors. step. rewrite Hd.
    destruct (Z.eqb_spec c NULL); [done|]. step. destruct (Z.eqb_spec (c_data x) NULL); [done|]. step.
    destruct (Z.eqb_spec (s_reader_callback ss) NULL); [done|]. step.
    destruct (Z.eqb_spec (s_reader_buffer ss) NULL); [done|]. step. rewrite Hto. step. run_to Hdis. reflexivity.
  - split; [by apply reading_timer with L0 | done | done | done | by left].
Qed.

(** What an activation with fuel [n] comes to, when the kernel gave the bytes [l]
    in [N] calls and it ended as [e]. *)
Definition activated (runs : outcome unit world) (n N : nat) (b : sv) (l : list Z) (e : ending) (k' : kern) : Prop :=
  exists w' L' er' b' n', reading base w' L' c x er' ss b' m /\
    sv_text b' = sv_text b ++ l /\ sv_cur b' + 1 <= sv_len b' /\ w_kern w' = k' /\ w_callbacks w' = w_callbacks w0 /\
    (n' <= n <= n' + N)%nat /\
    match e with
    | Ends_waiting => runs = Done tt w' /\ ev_ready er' = false /\ rearmed base w0 (c_read x) (s_reader_timeout ss) L0 L'
    | Ends_enough =>
        runs = reader_CALLBACK (run n') (c_read x) c (c_data x) (s_reader_callback ss) (s_reader_buffer ss) w' /\
        rearmed base w0 (c_read x) (s_reader_timeout ss) L0 L'
    | Ends_failed =>
        runs = fail_with (run n') c (s_reader_callback ss) 1 "Read error" w' /\
        (disarmed L' \/ rearmed base w0 (c_read x) (s_reader_timeout ss) L0 L')
    end.

Lemma goto_recvagain n ev s cb buf w :
  goto (run (S n)) (T_reader_recvagain ev c s cb buf) w = reader_RECVAGAIN (run n) n ev c s cb buf w.
Proof.
  unfold goto. cbn [run run_task]. rewrite bind_assoc. unfold rbind at 1. by destruct (reader_RECVAGAIN _ _ _ _ _ _ _ w) as [[] ?| |].
Qed.

Lemma filled_nothing b r : received r = [] -> filled b r = b.
Proof. intros Hr. unfold filled. fold (received r). rewrite Hr. unfold poked. cbn. rewrite Nat.add_0_r, take_drop. by destruct b. Qed.

(** The data of one [recv], up to the test. *)
Lemma recvagain_data n w L er b l k1 N :
  entered w L er b -> sv_cur b + 1 < sv_len b -> l <> [] ->
  received_by (c_fd x) (sv_len b - sv_cur b - 1) (w_kern w) (inl l) k1 N -> (N <= n)%nat ->
  exists w' L' er' b', reader_RECVAGAIN (run n) n (c_read x) c (c_data x) (s_reader_callback ss) (s_reader_buffer ss) w
        = (if wants_more (sv_len b) (sv_iv m) (sv_cur b + Z.of_nat (length l)) then
             if ev_ready er' then goto (run n) (T_reader_recvagain (c_read x) c (c_data x) (s_reader_callback ss) (s_reader_buffer ss)) w'
             else Done tt w'
           else reader_CALLBACK (run n) (c_read x) c (c_data x) (s_reader_callback ss) (s_reader_buffer ss) w') /\
      entered w' L' er' b' /\ rearmed base w0 (c_read x) (s_reader_timeout ss) L0 L' /\
      sv_text b' = sv_text b ++ l /\ sv_len b' = sv_len b /\ sv_cur b' = sv_cur b + Z.of_nat (length l) /\ w_kern w' = k1 /\
      (wants_more (sv_len b) (sv_iv m) (sv_cur b + Z.of_nat (length l)) = true -> ev_ready er' = greedy && ev_ready er).
Proof.
  intros Hen Hroom Hl Hr HN.
  pose proof (received_by_bound _ _ _ _ _ _ Hr ltac:(lia)) as (_ & _ & Hlen).
  destruct (until_recv (run n) n w L er b _ k1 N Hen Hroom Hr HN) as (w1 & er1 & Hrun & Hen1 & _ & Hk1 & Hrdy).
  destruct (received_data (run n) w1 L er1 b l Hen1) as (w2 & L2 & b2 & Hrun2 & Hen2 & Hre & Htext & Hlen2 & Hcur2 & Hk2);
    [exact (rr_roomy _ _ _ _ _ _ _ _ _ (en_reading _ _ _ _ Hen)) | done | lia |].
  exists w2, L2, (armed er1 (s_reader_timeout ss)), b2. split_and!; [|done..|congruence|].
  - rewrite Hrun. cbn [recv_rc]. rewrite Hrun2, (check_min_run (run n) w2 L2 _ b2 (en_reading _ _ _ _ Hen2)) by done.
    by rewrite Hlen2, Hcur2.
  - intros [_ Hlt%Z.ltb_lt]%andb_true_iff. unfold armed. rsimpl. rewrite Hrdy. destruct l as [|z l]; [done|].
    destruct (Z.ltb_spec (Z.of_nat (length (z :: l))) (sv_len b - sv_cur b - 1)); [done | lia].
Qed.

Lemma recvagain_ok len again cur k l e k' N :
  activation (c_fd x) len (sv_iv m) again cur k l e k' N ->
  forall n w L er b, entered w L er b -> sv_cur b = cur -> sv_len b = len -> w_kern w = k -> cur + 1 < len ->
  again = greedy && ev_ready er -> (N <= n)%nat ->
  activated (reader_RECVAGAIN (run n) n (c_read x) c (c_data x) (s_reader_callback ss) (s_reader_buffer ss) w) n N b l e k'.
Proof.
  induction 1 as [cur k k' N Hr|cur k r k' N Hr Hbad|cur k l k' N Hr Hl Hw|cur k l k' N Hr Hl Hag Hw|cur k l k1 N l' e k' N' Hr Hl Hag Hw Hact IH];
    intros n w L er b Hen <- <- <- Hroom Hagain HN.
  - destruct (until_recv (run n) n w L er b _ k' N Hen Hroom Hr HN) as (w1 & er1 & Hrun & Hen1 & _ & Hk1 & Hrdy).
    rewrite filled_nothing in Hen1 by done. destruct (arm_entered w1 L er1 b Hen1) as (w2 & L2 & Harm & Hen2 & Hre & Hk2).
    exists w2, L2, (armed er1 (s_reader_timeout ss)), b, n. rewrite app_nil_r.
    split_and!; [by apply Hen2 | done | lia | congruence | by apply Hen2 | lia | lia | by rewrite Hrun | exact Hrdy | done].
  - destruct (until_recv (run n) n w L er b _ k' N Hen Hroom Hr HN) as (w1 & er1 & Hrun & Hen1 & _ & Hk1 & _).
    rewrite filled_nothing in Hen1 by (by destruct Hbad as [->|(? & -> & _)]).
    exists w1, L, er1, b, n. rewrite app_nil_r.
    split_and!; [by apply Hen1 | done | lia | done | by apply Hen1 | lia | lia | |].
    + rewrite Hrun. unfold reader_received. destruct Hbad as [->|(err & -> & Hne)]; [done|].
      unfold recv_rc. destruct (Z.eqb_spec err NGX_EAGAIN); [done|]. by destruct ((err =? NGX_ECONNRESET) && _).
    + destruct (en_timer _ _ _ _ Hen1) as [[_ ?]|[_ ?]]; [by left | by right].
  - destruct (recvagain_data n w L er b l k' N Hen Hroom Hl Hr HN) as (w2 & L2 & er2 & b2 & Hrun & Hen2 & Hre & Htext & Hlen & Hcur & Hk & _).
    rewrite Hw in Hrun. exists w2, L2, er2, b2, n. pose proof (received_by_bound _ _ _ _ _ _ Hr ltac:(lia)) as (_ & _ & Hb).
    split_and!; [by apply Hen2 | done | lia | done | by apply Hen2 | lia | lia | done | done].
  - destruct (recvagain_data n w L er b l k' N Hen Hroom Hl Hr HN) as (w2 & L2 & er2 & b2 & Hrun & Hen2 & Hre & Htext & Hlen & Hcur & Hk & Hrdy).
    rewrite Hw in Hrun. rewrite (Hrdy Hw), <- Hagain, Hag in Hrun. exists w2, L2, er2, b2, n.
    pose proof (received_by_bound _ _ _ _ _ _ Hr ltac:(lia)) as (_ & _ & Hb).
    split_and!; [by apply Hen2 | done | lia | done | by apply Hen2 | lia | lia | done | | done]. rewrite (Hrdy Hw). congruence.
  - pose proof (received_by_bound _ _ _ _ _ _ Hr ltac:(lia)) as (HN1 & _ & Hb).
    destruct (recvagain_data n w L er b l k1 N Hen Hroom Hl Hr ltac:(lia)) as (w2 & L2 & er2 & b2 & Hrun & Hen2 & Hre & Htext & Hlen & Hcur & Hk & Hrdy).
    rewrite Hw, (Hrdy Hw), <- Hagain, Hag in Hrun. destruct n as [|n]; [lia|]. rewrite goto_recvagain in Hrun.
    pose proof Hw as [_ Hlt%Z.ltb_lt]%andb_true_iff.
    destruct (IH n w2 L2 er2 b2) as (w' & L' & er' & b' & n' & H1 & H2 & H3 & H4 & H5 & H6 & H7);
      [done | done | done | done | done | by rewrite (Hrdy Hw), Hagain; destruct greedy, (ev_ready er) | lia |].
    exists w', L', er', b', n'. rewrite Hrun. split_and!; [done | by rewrite H2, Htext, app_assoc | done | done | done | lia | lia | done].
Qed.
End Run.

(** * The theorems *)

(** C28.  One activation of the reader, with an edge-triggered backend whose read
    event is registered, whatever [recv] answers.  A full buffer is first enlarged by at
    least 16384 bytes.  The handler then repeats [recv] as long as signals
    interrupt it and, with a backend that keeps the event ready until [recv] would
    block (as epoll asks for), as long as there is less in the buffer than the
    callback asked for and room for more; unless signals interrupt [recv] forever
    this ends, in one of three ways.  In each of them the received bytes are
    appended to the buffer, which never gets longer than its allocation less the
    byte for the NUL.  The handler waits: the event is not ready any more, the
    callback is not called, and the read timer is armed again exactly when the
    session has a timeout.  Or it goes on to the callback, as soon as the buffer
    is full or holds at least one byte less than the callback asked for.  (The
    documentation promises the callback "an amount of data required"; the code is
    content with one byte less.)  Or the peer has closed the connection or [recv]
    fails, and the handler goes the way of a read error, which tells the callback
    and closes the connection. *)
Theorem reader_activation {HPerl : Perl} {HKern : Kernel} {HAct : EventActions} {HStr : StringLaws HPerl}
    {HBuf : BufferLaws HPerl} {HRecv : RecvLaw HKern} base w L c x er ss b m
    (again := has (w_flags w) NGX_USE_GREEDY_EVENT && ev_ready er) :
  reading base w L c x er ss b m -> ev_timedout er = false -> 16 <= w_pagesize w ->
  exists b0, sv_text b0 = sv_text b /\ sv_cur b0 = sv_cur b /\ sv_cur b0 + 1 < sv_len b0 /\
    (sv_cur b + 1 < sv_len b -> b0 = b) /\ (sv_cur b + 1 = sv_len b -> sv_len b + 16384 <= sv_len b0) /\
    (forall l e k' N n, activation (c_fd x) (sv_len b0) (sv_iv m) again (sv_cur b0) (w_kern w) l e k' N -> (N <= n)%nat ->
       activated base w L c x ss m (ngxe_reader_handler (run n) n (c_read x) w) n N b0 l e k') /\
    ((forall size k, exists r k' n, received_by (c_fd x) size k r k' n) ->
       exists l e k' N, activation (c_fd x) (sv_len b0) (sv_iv m) again (sv_cur b0) (w_kern w) l e k' N).
Proof.
  intros Hrd Hto Hpage. pose proof (rr_roomy _ _ _ _ _ _ _ _ _ Hrd) as (Hcur & Hlen & _).
  destruct (handler_entered base w L c x ss m w er b eq_refl Hrd Hto) as (w1 & L1 & Hrun & Hen & Hk & Hp).
  destruct (decide (sv_cur b + 1 < sv_len b)) as [Hroom|Hfull].
  - exists b. split_and!; [done | done | done | done | lia | | by intros; apply activation_total].
    intros l e k' N n Hact HN. rewrite Hrun. by eapply recvagain_ok.
  - destruct (recvagain_grows base w L c x ss m w1 L1 _ b Hen) as (i & b0 & Hgrow & Hen0 & Htext & Hcur0 & Hlen0); [lia | by rewrite Hp |].
    exists b0. split_and!; [done | done | lia | lia | done | | intros Htot; apply activation_total; [done | exact Htot | lia]].
    intros l e k' N n Hact HN. rewrite Hrun, Hgrow. eapply recvagain_ok; [exact Hact | exact Hen0 | done | done | exact Hk | lia | done | done].
Qed.

(** * Witnesses *)

Import Systems.
Local Existing Instance scripted_kernel.

#[export] Instance perl_of_buffers subs : BufferLaws (perl_of subs).
Proof.
  split; cbn [perl_of sv_view sv_poke SvGROW interp]; unfold sv_upd.
  - intros i p x off l Hp Hoff Hlen. rewrite Hp. eexists. split; [done|]. cbn.
    split; [apply lookup_insert_eq|]. intros q Hq. by apply lookup_insert_ne.
  - intros i p x n Hp (H0 & H1 & H2). rewrite Hp. eexists _, (grow n x). split; [done|]. cbn.
    split; [apply lookup_insert_eq|]. unfold grow, sv_roomy, sv_text.
    destruct (Z.ltb_spec (sv_len x) n); cbn; rewrite ?length_app, ?length_replicate.
    + split_and!; try lia; [rewrite take_app_le by lia; done|]. intros q Hq. by apply lookup_insert_ne.
    + split_and!; try lia; [done|]. intros q Hq. by apply lookup_insert_ne.
Qed.

#[export] Instance scripted_recv : RecvLaw scripted_kernel.
Proof.
  split. intros fd size k l k'. cbn [sys_recv scripted_kernel]. unfold do_recv, answer.
  destruct (a_recv k) as [|[l'|err] ls]; cbn; intros [= <- <-] Hsize. rewrite length_take. lia.
Qed.

Definition reader_perl : Perl := perl_of no_subs.
Local Existing Instance reader_perl.

(** The connection 100 has read "ab" into the scalar 200, an allocation of
    [len] bytes; its callback 300 asks for [min] bytes. *)
Definition reader_rev : ngx_event_t :=
  zero_event <| ev_data := 100 |> <| ev_active := true |> <| ev_ready := true |>
    <| ev_handler := H_ngxe_reader_handler |>.
Definition reader_wev : ngx_event_t :=
  zero_event <| ev_data := 100 |> <| ev_write := true |> <| ev_handler := H_ngxe_dummy_handler |>.
Definition reader_conn : ngx_connection_t :=
  zero_conn <| c_read := 110 |> <| c_write := 120 |> <| c_fd := 5 |> <| c_recv := true |> <| c_data := 500 |>.
Definition reader_session : ngxe_session_t :=
  zero_session <| s_reader_callback := 300 |> <| s_reader_buffer := 200 |> <| s_reader_timeout := 5000 |>.
Definition ab_sv (len : nat) : sv :=
  empty_sv <| sv_pok := true |> <| sv_ok := true |> <| sv_cur := 2 |> <| sv_len := Z.of_nat len |>
    <| sv_pv := bytes "ab" ++ replicate (len - 2) 0 |>.
Definition min_sv (min : Z) : sv := empty_sv <| sv_iok := true |> <| sv_iv := min |>.
Definition reader_world (len : nat) (min : Z) (answers : list (list Z + Z)) : world :=
  (small_world (mk_scalars (list_to_map [(200, ab_sv len); (208, min_sv min)]) 1000 : interp)
     (no_answers <| a_recv := answers |>))
    <| w_events := list_to_map [(110, reader_rev); (120, reader_wev)] |>
    <| w_conns := {[ 100 := reader_conn ]} |> <| w_sessions := {[ 500 := reader_session ]} |>
    <| w_callbacks := {[ 300 := mk_callback 216 [224; 232; 200; 240; 208] 5 false NULL ]} |>
    <| w_flags := Z.lor NGX_USE_CLEAR_EVENT (Z.lor NGX_USE_GREEDY_EVENT NGX_USE_EPOLL_EVENT) |>.

Lemma reader_world_reading len min answers :
  (3 <= len)%nat ->
  reading 0 (reader_world len min answers) [] 100 reader_conn reader_rev reader_session (ab_sv len) (min_sv min).
Proof.
  intros Hlen. split; try done.
  - by apply (no_timers _ reader_rev reader_wev).
  - unfold sv_roomy, ab_sv. cbn. rewrite length_replicate. lia.
  - eexists _, 208. split_and!; try done.
Qed.

(** A signal, "cd", then nothing more; "cd" and "ef" when 7 bytes are asked for;
    "c" and the end of the connection. *)
Definition waiting_answers : list (list Z + Z) := [inr NGX_EINTR; inl (bytes "cd"); inr NGX_EAGAIN].
Definition enough_answers : list (list Z + Z) := [inl (bytes "cd"); inl (bytes "ef")].
Definition failed_answers : list (list Z + Z) := [inl (bytes "c"); inl []].

Lemma reader_activation_witness :
  (exists l e k' N, activation 5 16 10 true 2 (w_kern (reader_world 16 10 waiting_answers)) l e k' N /\
    l = bytes "cd" /\ e = Ends_waiting /\
    activated 0 (reader_world 16 10 waiting_answers) [] 100 reader_conn reader_session (min_sv 10)
      (ngxe_reader_handler (run 3) 3 110 (reader_world 16 10 waiting_answers)) 3 N (ab_sv 16) l e k') /\
  activated 0 (reader_world 16 7 enough_answers) [] 100 reader_conn reader_session (min_sv 7)
    (ngxe_reader_handler (run 2) 2 110 (reader_world 16 7 enough_answers)) 2 2 (ab_sv 16) (bytes "cdef") Ends_enough no_answers /\
  activated 0 (reader_world 16 7 failed_answers) [] 100 reader_conn reader_session (min_sv 7)
    (ngxe_reader_handler (run 2) 2 110 (reader_world 16 7 failed_answers)) 2 2 (ab_sv 16) (bytes "c") Ends_failed no_answers.
Proof.
  split_and!.
  - destruct (reader_activation 0 (reader_world 16 10 waiting_answers) [] 100 reader_conn reader_rev reader_session (ab_sv 16) (min_sv 10))
      as (b0 & _ & _ & _ & Hb0 & _ & Hrun & _); [apply reader_world_reading; lia | reflexivity | cbn; lia |].
    rewrite Hb0 in Hrun by reflexivity.
    assert (activation 5 16 10 true 2 (w_kern (reader_world 16 10 waiting_answers)) (bytes "cd" ++ []) Ends_waiting no_answers (2 + 1)) as Hact.
    { eapply act_more; [eapply recv_interrupted; [reflexivity | apply recv_answered; [reflexivity | done]] | done | reflexivity | reflexivity |].
      apply act_nothing, recv_answered; [reflexivity | done]. }
    exists (bytes "cd"), Ends_waiting, no_answers, 3%nat. split_and!; [exact Hact | done | done |]. apply Hrun; [exact Hact | lia].
  - destruct (reader_activation 0 (reader_world 16 7 enough_answers) [] 100 reader_conn reader_rev reader_session (ab_sv 16) (min_sv 7))
      as (b0 & _ & _ & _ & Hb0 & _ & Hrun & _); [apply reader_world_reading; lia | reflexivity | cbn; lia |].
    rewrite Hb0 in Hrun by reflexivity. apply Hrun; [|lia].
    apply (act_more 5 16 7 true 2 _ (bytes "cd") (no_answers <| a_recv := [inl (bytes "ef")] |> : @kern scripted_kernel) 1 (bytes "ef") Ends_enough no_answers 1).
    1-4: first [apply recv_answered; [reflexivity | done] | done].
    apply act_enough; [apply recv_answered; [reflexivity | done] | done | reflexivity].
  - destruct (reader_activation 0 (reader_world 16 7 failed_answers) [] 100 reader_conn reader_rev reader_session (ab_sv 16) (min_sv 7))
      as (b0 & _ & _ & _ & Hb0 & _ & Hrun & _); [apply reader_world_reading; lia | reflexivity | cbn; lia |].
    rewrite Hb0 in Hrun by reflexivity. apply Hrun; [|lia].
    apply (act_more 5 16 7 true 2 _ (bytes "c") (no_answers <| a_recv := [inl []] |> : @kern scripted_kernel) 1 [] Ends_failed no_answers 1).
    1-4: first [apply recv_answered; [reflexivity | done] | done].
    eapply act_failed; [apply recv_answered; [reflexivity | done] | by left].
Defined.

End Reader.
