(* ===== verification/Failure.v ===== *)
(** How failures and timeouts are reported: the error argument the callback
    sees, and the paths of the handlers that lead there. *)
From stdpp Require Import base numbers gmap list strings.
From S2P Require Import Prelude Rbtree World Systems Timer Event Connection Callback Refcount Session Writer Lifetime.
Local Open Scope Z_scope.
Import World Timer Event Connection Callback Refcount Session Writer.

Module Failure.

(** * What is relied on

    perlapi: [sv_setiv] gives a scalar a number, [sv_setpv] gives it a text and
    leaves the number in its slot, [SvIOK_on] makes the number valid again. *)
Class ErrorLaws (HPerl : Perl) {HLaws : RefcountLaws HPerl} {HLog : CallLog HPerl} : Prop := {
  setiv_law : forall i p x v, sv_view i p = Some x -> sv_rok x = false ->
    exists i' y, sv_setiv p v i = Some i' /\ sv_view i' p = Some y /\
      sv_refcnt y = sv_refcnt x /\ sv_iv y = v /\ sv_rok y = false /\ (forall q, q <> p -> sv_view i' q = sv_view i q) /\
      linked temp reaches i i' /\ calls i' = calls i;
  setpv_law : forall i p x l, sv_view i p = Some x -> sv_rok x = false ->
    exists i' y, sv_setpv p l i = Some i' /\ sv_view i' p = Some y /\
      sv_refcnt y = sv_refcnt x /\ sv_iv y = sv_iv x /\ sv_text y = l /\ sv_pok y = true /\
      (forall q, q <> p -> sv_view i' q = sv_view i q) /\ linked temp reaches i i' /\ calls i' = calls i;
  iok_law : forall i p x, sv_view i p = Some x ->
    exists i' y, SvIOK_on p i = Some i' /\ sv_view i' p = Some y /\
      sv_refcnt y = sv_refcnt x /\ sv_iv y = sv_iv x /\ sv_text y = sv_text x /\ sv_pok y = sv_pok x /\
      sv_iok y = true /\ (forall q, q <> p -> sv_view i' q = sv_view i q) /\ linked temp reaches i i' /\ calls i' = calls i
}.

(** The dual value of an error: a number and a text. *)
Record error_value (code : Z) (text : string) (y : sv) : Prop := mk_error {
  er_iv : sv_iv y = code;
  er_iok : sv_iok y = true;
  er_text : sv_text y = bytes text;
  er_pok : sv_pok y = true
}.

Section Failure.
Context {HPerl : Perl} {HKern : Kernel} {HAct : EventActions} {HLaws : RefcountLaws HPerl} {HLog : CallLog HPerl} {HErr : ErrorLaws HPerl}.
Context (rec : task -> W Z).

Lemma set_error_ok w cb x a z code text :
  w_callbacks w !! cb = Some x -> cb_args x !! 1%nat = Some a -> sv_view (w_perl w) a = Some z -> sv_rok z = false ->
  exists i y, set_error cb code text w = Done tt (w <| w_perl := i |>) /\
    sv_view i a = Some y /\ error_value code text y /\ sv_refcnt y = sv_refcnt z /\
    (forall q, q <> a -> sv_view i q = sv_view (w_perl w) q) /\ linked temp reaches (w_perl w) i /\ calls i = calls (w_perl w).
Proof.
  intros Hcb Ha Hz Hrok. unfold set_error, cb_arg, cb_rd. rewrite bind_assoc. step. rewrite Ha, bind_ret.
  destruct (setiv_law _ _ _ code Hz Hrok) as (i1 & y1 & H1 & V1 & R1 & I1 & K1 & O1 & L1 & C1).
  destruct (setpv_law _ _ _ (bytes text) V1 K1) as (i2 & y2 & H2 & V2 & R2 & I2 & T2 & P2 & O2 & L2 & C2).
  destruct (iok_law _ _ _ V2) as (i3 & y3 & H3 & V3 & R3 & I3 & T3 & P3 & K3 & O3 & L3 & C3).
  erewrite perl_do_step by exact H1. erewrite perl_do_step by exact H2.
  exists i3, y3. unfold perl_do. rsimpl. rewrite H3. split_and!; [done | done | | congruence | | | congruence].
  - split; congruence.
  - intros q Hq. rewrite O3, O2, O1 by done. done.
  - eapply linked_trans; [exact L1|]. by eapply linked_trans.
Qed.

(** A subroutine that makes no calls into the engine, gives back the references it
    takes, leaves its scalars apart and no temporaries, and is recorded with what
    its arguments are. *)
Definition plain_sub (handler : ptr) (args : list ptr) : Prop :=
  forall i, held 1 (handler :: args) i -> apart (handler :: args) i -> no_temps (handler :: args) i ->
    exists i', call_sv handler args i = S_return i' /\ counts_changed 0 (handler :: args) i i' /\
      apart (handler :: args) i' /\ no_temps (handler :: args) i' /\
      calls i' = calls i ++ [(handler, args, sv_view i <$> args)].

Lemma plain_sub_keeps f h args : plain_sub h args -> keeps_callback (do_call_sv f h args) (h :: args).
Proof.
  intros Hp w Hh Ha Ht. destruct (Hp _ Hh Ha Ht) as (i' & Hcall & Hc & Ha' & Ht' & _). exists (w <| w_perl := i' |>).
  unfold do_call_sv. step. by rewrite Hcall.
Qed.

Lemma fail_with_ok w c cb x a z code text :
  live_callback w cb x -> cb_args x !! 1%nat = Some a -> sv_view (w_perl w) a = Some z -> sv_rok z = false ->
  plain_sub (cb_handler x) (cb_args x) ->
  exists i' views y, calls i' = calls (w_perl w) ++ [(cb_handler x, cb_args x, views)] /\
    views !! 1%nat = Some (Some y) /\ error_value code text y /\
    counts_after true (cb_handler x :: cb_args x) (w_perl w) i' /\
    fail_with rec c cb code text w
      = ngxe_close c (w <| w_perl := i' |> <| w_callbacks := <[cb := released x]> (w_callbacks w) |>).
Proof.
  intros Hl Ha Hz Hrok Hsub. pose proof Hl as [Hcb Hh Hn Hne Hd Hnd Hheld Hap].
  assert (a ∈ cb_handler x :: cb_args x) as Hin by (apply elem_of_cons; right; by eapply list_elem_of_lookup_2).
  destruct (set_error_ok w cb x a z code text Hcb Ha Hz Hrok) as (i0 & y0 & Hset & Hv0 & [] & Hr0 & Ho0 & Hk0 & Hlog0).
  assert (Hc0 : counts_changed 0 (cb_handler x :: cb_args x) (w_perl w) i0).
  { intros p Hp. destruct (decide (p = a)) as [->|Hpa].
    - rewrite Hv0, Hz. cbn. by rewrite Hr0, Z.add_0_r.
    - rewrite Ho0 by done. destruct (sv_view (w_perl w) p); [|done]. cbn. by rewrite Z.add_0_r. }
  destruct (callback_ok (fun a => rec (T_api a)) (w <| w_perl := i0 |>) cb x true)
    as (i1 & w3 & i' & Hseen & Hap1 & Ht1 & Hcall & Hrun & Hc & Hlog); [| by apply plain_sub_keeps |].
  { split; try done; [|by eapply apart_linked]. eapply held_mono; [| |exact (held_changed _ _ _ _ _ Hheld Hc0)]; [lia | done]. }
  assert (held 1 (cb_handler x :: cb_args x) i1) as Hheld1.
  { pose proof (changed_trans _ _ _ _ _ _ Hc0 (seen_changed _ _ _ Hseen)) as Hc01.
    eapply held_mono; [| |exact (held_changed _ _ _ _ _ Hheld Hc01)]; [lia | done]. }
  destruct (Hsub i1 Hheld1 Hap1 Ht1) as (i2 & Hsub2 & _ & _ & _ & Hlog2).
  assert (w3 = w <| w_perl := i2 |>) as ->.
  { unfold do_call_sv in Hcall. rewrite rd_g_step in Hcall. rsimpl_in Hcall. rewrite Hsub2 in Hcall.
    by injection Hcall. }
  destruct (Hlog HLog) as [Hlog1 Hlog3]. rsimpl_in Hlog1. rsimpl_in Hlog3.
  eexists i', _, _. split_and!; [by rewrite Hlog3, Hlog2, Hlog1, Hlog0 | | | |].
  - rewrite list_lookup_fmap, Ha. cbn. f_equal. rewrite (Hseen a Hin). rsimpl. rewrite Hv0. cbn. reflexivity.
  - by split.
  - intros p Hp. rewrite (Hc p Hp). rsimpl. apply drop_count. rewrite (Hc0 p Hp). destruct (sv_view (w_perl w) p); [|done]. cbn. by rewrite Z.add_0_r.
  - unfold fail_with, callback. rewrite (bind_step _ _ _ _ _ Hset). cbv beta.
    rewrite (bind_step _ _ _ _ _ Hrun). done.
Qed.

(** An event whose timer ran out: the reader and the writer of a string
    mark the connection as timed out and report the error -1, "Operation timed
    out"; they neither read nor write. *)
Lemma timeout_ok fuel w c x s ss e ev :
  w_events w !! e = Some ev -> ev_data ev = c -> c <> NULL -> ev_timedout ev = true ->
  w_conns w !! c = Some x -> c_data x = s -> s <> NULL -> w_sessions w !! s = Some ss ->
  let w' := w <| w_conns := <[c := x <| c_timedout := true |>]> (w_conns w) |> in
  (s_reader_callback ss <> NULL -> s_reader_buffer ss <> NULL ->
     ngxe_reader_handler rec fuel e w = fail_with rec c (s_reader_callback ss) (-1) "Operation timed out" w') /\
  (forall b, s_writer_callback ss <> NULL -> s_writer_buffer ss <> NULL ->
     sv_view (w_perl w) (s_writer_buffer ss) = Some b -> sv_rok b = false ->
     ngxe_writer_handler rec fuel e w = fail_with rec c (s_writer_callback ss) (-1) "Operation timed out" w').
Proof.
  intros He Hd Hcn Hto Hc Hs Hsn Hss w'. split.
  - intros Hcb Hbuf. unfold ngxe_reader_handler. unfold_accessors. step. rewrite Hd.
    destruct (Z.eqb_spec c NULL); [done|]. step. rewrite Hs. destruct (Z.eqb_spec s NULL); [done|]. step.
    destruct (Z.eqb_spec (s_reader_callback ss) NULL); [done|]. step.
    destruct (Z.eqb_spec (s_reader_buffer ss) NULL); [done|]. step. rewrite Hto. step. done.
  - intros b Hcb Hbuf Hb Hrok. unfold ngxe_writer_handler. unfold_accessors. step. rewrite Hd.
    destruct (Z.eqb_spec c NULL); [done|]. step. rewrite Hs. destruct (Z.eqb_spec s NULL); [done|]. step.
    destruct (Z.eqb_spec (s_writer_callback ss) NULL); [done|]. step.
    destruct (Z.eqb_spec (s_writer_buffer ss) NULL); [done|]. step. rewrite Hrok. step. rewrite Hto. step. done.
Qed.

(** C32.  The error path the handlers share, [fail_with], for a callback that holds
    live scalars, its second argument no reference, and a subroutine that does not
    call the engine and gives back the references it takes: the subroutine is called once, its second argument then a
    dual value of the error's number and text; the callback has given back its
    references, and the connection is closed in the world that is otherwise as
    before.  The reader, and the writer of a string, take this path when their
    timer has run out: they mark the connection as timed out, neither read nor
    write, and report -1, "Operation timed out". *)
Theorem failure_reported :
  (forall w c cb x a z code text,
     live_callback w cb x -> cb_args x !! 1%nat = Some a -> sv_view (w_perl w) a = Some z -> sv_rok z = false ->
     plain_sub (cb_handler x) (cb_args x) ->
     exists i' views y, calls i' = calls (w_perl w) ++ [(cb_handler x, cb_args x, views)] /\
       views !! 1%nat = Some (Some y) /\ error_value code text y /\
       counts_after true (cb_handler x :: cb_args x) (w_perl w) i' /\
       fail_with rec c cb code text w
         = ngxe_close c (w <| w_perl := i' |> <| w_callbacks := <[cb := released x]> (w_callbacks w) |>)) /\
  (forall fuel w c x s ss e ev,
     w_events w !! e = Some ev -> ev_data ev = c -> c <> NULL -> ev_timedout ev = true ->
     w_conns w !! c = Some x -> c_data x = s -> s <> NULL -> w_sessions w !! s = Some ss ->
     let w' := w <| w_conns := <[c := x <| c_timedout := true |>]> (w_conns w) |> in
     (s_reader_callback ss <> NULL -> s_reader_buffer ss <> NULL ->
        ngxe_reader_handler rec fuel e w = fail_with rec c (s_reader_callback ss) (-1) "Operation timed out" w') /\
     (forall b, s_writer_callback ss <> NULL -> s_writer_buffer ss <> NULL ->
        sv_view (w_perl w) (s_writer_buffer ss) = Some b -> sv_rok b = false ->
        ngxe_writer_handler rec fuel e w = fail_with rec c (s_writer_callback ss) (-1) "Operation timed out" w')).
Proof. split; [apply fail_with_ok | apply timeout_ok]. Qed.

End Failure.

(** * Witnesses *)

Import Systems.
Local Existing Instance scripted_kernel.

#[local] Instance logging_errors : ErrorLaws logging_perl.
Proof.
  split; cbn [logging_perl sv_view sv_setiv sv_setpv SvIOK_on interp perl_of]; unfold lift, sv_upd.
  - intros [i l] p x v Hp Hr. cbn [fst snd] in *. rewrite Hp. eexists _, _. split; [done|]. cbn. split; [apply lookup_insert_eq|].
    split_and!; try done; [intros q Hq; by apply lookup_insert_ne|].
    split; [done|]. intros a b (z & Hz & Hz2 & Hz3). cbn in Hz. apply lookup_insert_Some in Hz as [[_ <-]|[_ Hz]]; [done | by exists z].
  - intros [i l] p x t Hp Hr. cbn [fst snd] in *. rewrite Hp. eexists _, _. split; [done|]. cbn. split; [apply lookup_insert_eq|].
    split_and!; try done; [| intros q Hq; by apply lookup_insert_ne|].
    + unfold sv_text. cbn. apply take_app_length'. lia.
    + split; [done|]. intros a b (z & Hz & Hz2 & Hz3). cbn in Hz. apply lookup_insert_Some in Hz as [[_ <-]|[_ Hz]]; [done | by exists z].
  - intros [i l] p x Hp. cbn [fst snd] in *. rewrite Hp. eexists _, _. split; [done|]. cbn. split; [apply lookup_insert_eq|].
    split_and!; try done; [intros q Hq; by apply lookup_insert_ne|]. split; [done|]. intros a b. by apply (refers_insert i p x).
Qed.

Local Existing Instance logging_perl.

(** The session 500 of the connection 100, whose timers have run out, with the
    callback 300 of Refcount.v and an empty log. *)
Definition late_event : ngx_event_t := writer_wev <| ev_timedout := true |>.
Definition late_session : ngxe_session_t :=
  zero_session <| s_reader_callback := 300 |> <| s_reader_buffer := 208 |> <| s_writer_callback := 300 |> <| s_writer_buffer := 208 |>.
Definition failing_world : world :=
  (small_world (((mk_scalars (list_to_map [(200, empty_sv); (208, empty_sv); (216, empty_sv)]) 1000, []) : interp))
     no_answers) <| w_callbacks := {[ 300 := some_callback ]} |>
    <| w_events := list_to_map [(110, late_event); (120, late_event)] |>
    <| w_conns := {[ 100 := writer_conn ]} |> <| w_sessions := {[ 500 := late_session ]} |>.
Lemma failing_world_live : live_callback failing_world 300 some_callback.
Proof.
  split; try done.
  - repeat constructor; set_solver by lia.
  - intros p Hp. cbn in Hp. repeat setoid_rewrite elem_of_cons in Hp.
    destruct Hp as [->|[->|[->|[]%not_elem_of_nil]]]; by eexists.
  - intros p q Hp _ (x & Hx & Hr & _). cbn in Hp. repeat setoid_rewrite elem_of_cons in Hp.
    destruct Hp as [->|[->|[->|[]%not_elem_of_nil]]]; cbn in Hx; by injection Hx as <-.
Qed.

Lemma failure_reported_witness :
  (exists i' views y, i'.2 = [(200, [208; 216], views)] /\ views !! 1%nat = Some (Some y) /\ error_value 1 "Read error" y /\
    counts_after true [200; 208; 216] (w_perl failing_world) i' /\
    fail_with (fun _ => rfault) 100 300 1 "Read error" failing_world
      = ngxe_close 100 (failing_world <| w_perl := i' |>
          <| w_callbacks := <[300 := released some_callback]> (w_callbacks failing_world) |>)) /\
  (let w' := failing_world <| w_conns := <[100 := writer_conn <| c_timedout := true |>]> (w_conns failing_world) |> in
   ngxe_reader_handler (fun _ => rfault) 1 110 failing_world = fail_with (fun _ => rfault) 100 300 (-1) "Operation timed out" w' /\
   ngxe_writer_handler (fun _ => rfault) 1 120 failing_world = fail_with (fun _ => rfault) 100 300 (-1) "Operation timed out" w').
Proof.
  destruct (failure_reported (fun _ => rfault)) as [Hfail Htime]. split.
  - refine (Hfail failing_world 100 300 some_callback 216 empty_sv 1 "Read error" failing_world_live eq_refl eq_refl eq_refl _).
    intros [i l] Hh Ha Ht. eexists. split_and!; [reflexivity | | done | done | done].
    intros p Hp. cbn. destruct (heap i !! p) as [y|]; [|done]. cbn. by rewrite Z.add_0_r.
  - split.
    + refine (proj1 (Htime 1%nat failing_world 100 writer_conn 500 late_session 110 late_event _ _ _ _ _ _ _ _) _ _); done.
    + refine (proj2 (Htime 1%nat failing_world 100 writer_conn 500 late_session 120 late_event _ _ _ _ _ _ _ _) empty_sv _ _ _ _); done.
Defined.

End Failure.
