(* ===== verification/Connect.v ===== *)
(** Outgoing connections: what [ngx_event_connect_peer] (Server.v) does to the
    free list, the timers and the queues on each of its paths, and what becomes
    of a connection whose registration fails. *)
From stdpp Require Import base numbers gmap list.
From S2P Require Import Prelude Rbtree Inet World Systems Timer Event PostedQueue Backend Connection FreeList Close Server.
Local Open Scope Z_scope.
Import World Timer Event PostedQueue Backend Connection FreeList Close Server.

Module Connect.

Section Taken.
Context {HPerl : Perl} {HKern : Kernel}.

(** Events outside a queue do not matter to it. *)
Lemma posted_outside q w w' L :
  head_of q w' = head_of q w -> (forall e, e ∈ L -> w_events w' !! e = w_events w !! e) ->
  posted q w L -> posted q w' L.
Proof.
  intros Hh Hsame (Hq & Hnd & Hseg). split_and!; [done | done |]. rewrite Hh.
  eapply seg_frame; [|done]. intros x Hx. destruct (seg_prev _ _ _ _ _ _ Hx Hseg) as (ev & Hev & _).
  exists ev, ev. by rewrite Hsame.
Qed.

Lemma queue_prev q w L e ev : posted q w L -> w_events w !! e = Some ev -> ev_prev ev = Q_NULL -> e ∉ L.
Proof.
  intros (Hq & _ & Hseg) He Hp Hin. destruct (seg_prev _ _ _ _ _ _ Hin Hseg) as (ev' & He' & Hor).
  rewrite He in He'. injection He' as <-. destruct Hq as [-> | ->], Hor as [?|(z & _ & ?)]; congruence.
Qed.

(** A connection at rest: its events are neither armed nor posted. *)
Definition idle (er ew : ngx_event_t) : Prop :=
  ev_timer_set er = false /\ ev_timer_set ew = false /\ ev_prev er = Q_NULL /\ ev_prev ew = Q_NULL.

Lemma get_connection_none w s : w_files w = None -> w_free w = NULL -> ngx_get_connection s w = Done NULL w.
Proof. intros Hfi Hf. unfold ngx_get_connection. do 2 step. rewrite Hfi. cbn [andb]. step. by rewrite Hf. Qed.

Lemma inv_taken base w L LA LP F c x er ew s :
  inv base w L LA LP (c :: F) -> wf_conn w c x er ew -> idle er ew ->
  inv base (taken c x er s w) L LA LP F.
Proof.
  intros [Ht Ha Hp Hl Hf Hfi] Hwf (Hsr & Hsw & Hpr & Hpw). pose proof Hwf as [Hc Hr Hw Hne _ _].
  assert (forall q Lq, posted q w Lq -> head_of q (taken c x er s w) = head_of q w -> posted q (taken c x er s w) Lq) as Hq.
  { intros q Lq Hq Hh. apply (posted_outside q w); [done| |done]. intros e He. unfold taken. rsimpl.
    rewrite !lookup_insert_ne; [done|..]; intros Heq; subst e;
      [exact (queue_prev _ _ _ _ _ Hq Hr Hpr He) | exact (queue_prev _ _ _ _ _ Hq Hw Hpw He)]. }
  constructor; [by eapply taken_timers | apply Hq; [exact Ha|reflexivity] | apply Hq; [exact Hp|reflexivity] | | by apply taken_list | done].
  intros e ev. unfold taken. rsimpl. rewrite !lookup_insert_Some.
  intros [[<- <-]|[_ [[<- <-]|[_ He]]]] Hprev; [done..|]. by eapply Hl.
Qed.
End Taken.

(** * What is relied on *)

(** The calls of the kernel that make and end sockets, as an observer records
    them; the other calls here make and end none. *)
Inductive sockop :=
| Op_socket (family : Z) (r : Z + Z)
| Op_connect (s : Z) (addr : list Z) (r : unit + Z)
| Op_close (s : Z).
Class SockLog (HKern : Kernel) := {
  socks : kern -> list sockop;
  socket_law : forall f k, socks (sys_socket f k).2 = socks k ++ [Op_socket f (sys_socket f k).1];
  connect_law : forall s a k, socks (sys_connect s a k).2 = socks k ++ [Op_connect s a (sys_connect s a k).1];
  close_law : forall s k, socks (sys_close s k).2 = socks k ++ [Op_close s];
  setsockopt_law : forall s n k, socks (sys_setsockopt s n k).2 = socks k;
  nonblocking_law : forall s k, socks (sys_nonblocking s k).2 = socks k;
  bind_law : forall s a k, socks (sys_bind s a k).2 = socks k;
  ctl_law : forall op fd e d k, socks (sys_epoll_ctl op fd e d k).2 = socks k
}.

(** A backend that makes and ends no sockets; epoll is one. *)
Class QuietActions {HPerl : Perl} {HKern : Kernel} {HLog : SockLog HKern} (HAct : EventActions) : Prop := {
  quiet_add_event : forall e type flags w rc w', ngx_add_event e type flags w = Done rc w' -> socks (w_kern w') = socks (w_kern w);
  quiet_add_conn : forall add c w rc w', ngx_add_conn = Some add -> add c w = Done rc w' -> socks (w_kern w') = socks (w_kern w)
}.

(** The only change of the kernel is a call of [epoll_ctl]. *)
Definition quiet {HPerl : Perl} {HKern : Kernel} {HLog : SockLog HKern} {A} (m : W A) : Prop :=
  forall w a w', m w = Done a w' -> socks (w_kern w') = socks (w_kern w).
Section Quiet.
Context {HPerl : Perl} {HKern : Kernel} {HLog : SockLog HKern}.
Lemma quiet_bind {A B} (m : W A) (f : A -> W B) : quiet m -> (forall a, quiet (f a)) -> quiet (rbind m f).
Proof.
  intros Hm Hf w b w'. unfold rbind. destruct (m w) as [a w1| |] eqn:H1; [|done..].
  intros H2. rewrite (Hf a _ _ _ H2). by apply (Hm w a).
Qed.
Lemma quiet_ret {A} (a : A) : quiet (rret a).
Proof. by intros w b w' [= _ <-]. Qed.
Lemma quiet_rd {X A} (m : world -> gmap ptr X) p (f : X -> A) : quiet (rd_at m p f).
Proof. intros w a w'. unfold rd_at. destruct (m w !! p); [|done]. by intros [= _ <-]. Qed.
Lemma quiet_ev_wr {A} e (f : ngx_event_t -> A) `{!Setter f} v : quiet (ev_wr e f v).
Proof. intros w a w'. unfold ev_wr, wr_at. destruct (w_events w !! e); [|done]. by intros [= _ <-]. Qed.
Lemma quiet_ctl op fd e d : quiet (sys (sys_epoll_ctl op fd e d)).
Proof. intros w a w'. unfold sys. pose proof (ctl_law op fd e d (w_kern w)) as H. destruct (sys_epoll_ctl _ _ _ _ _) as [r k]. by intros [= _ <-]. Qed.
Ltac quiet_steps :=
  repeat first [apply quiet_ret | apply quiet_rd | apply quiet_ev_wr | apply quiet_ctl | apply quiet_bind; [|intros ?]
               | match goal with |- quiet (match ?x with _ => _ end) => destruct x end].
#[export] Instance epoll_quiet : QuietActions epoll_actions.
Proof.
  split.
  - intros e type flags. change (quiet (ngx_epoll_add_event e type flags)). unfold ngx_epoll_add_event. unfold_accessors. quiet_steps.
  - intros add c w rc w' [= <-]. revert w rc w'. change (quiet (ngx_epoll_add_connection c)). unfold ngx_epoll_add_connection. unfold_accessors. quiet_steps.
Qed.
End Quiet.

Section Connect.
Context {HPerl : Perl} {HKern : Kernel} {HLog : SockLog HKern} {HAct : EventActions} {HOk : EventActionsOk HAct} {HQuiet : QuietActions HAct}.
Context (base : Z) (L : list (Z * Z)) (LA LP F : list ptr) (c : ptr) (s : Z).
Context (HcF : c ∉ F) (Hnull : c <> NULL) (Hlen : Z.of_nat (length F) + 1 < 2 ^ 64).

(** The connection is out of the free list, with the descriptor [s] and the
    fields of [x], [er] and [ew]; the kernel is [k]. *)
Record out (k : kern) (x : ngx_connection_t) (er ew : ngx_event_t) (w : world) : Prop := mk_out {
  o_inv : inv base w L LA LP F;
  o_kern : w_kern w = k;
  o_wf : wf_conn w c x er ew;
  o_fd : c_fd x = s;
  o_idle : idle er ew
}.
(** It is back, and still says so. *)
Definition back (w : world) : Prop :=
  inv base w L LA LP (c :: F) /\ exists x er ew, wf_conn w c x er ew /\ c_fd x = s /\ idle er ew.

Lemma out_kern k k' x er ew w : out k x er ew w -> out k' x er ew (w <| w_kern := k' |>).
Proof. intros [Hi _ [] Hfd Hid]. split; [by apply inv_kern | done | by split | done | done]. Qed.

Lemma rwp_out_sys {A} (f : kern -> A * kern) Q k x er ew w :
  out k x er ew w -> (forall w', out (f k).2 x er ew w' -> Q (f k).1 w') -> rwp (sys f) Q w.
Proof. intros Hw HQ. apply rwp_sys. rewrite (o_kern _ _ _ _ _ Hw). by eapply HQ, out_kern. Qed.

(** A field of the connection that says nothing about the list or the events. *)
Lemma rwp_out_c_wr {A} (f : ngx_connection_t -> A) `{!Setter f} v Q k x er ew w :
  (c_data (x <| f := v |>) = c_data x /\ c_read (x <| f := v |>) = c_read x /\
     c_write (x <| f := v |>) = c_write x /\ c_fd (x <| f := v |>) = c_fd x) ->
  out k x er ew w -> (forall w', out k (x <| f := v |>) er ew w' -> Q tt w') -> rwp (c_wr c f v) Q w.
Proof.
  intros (Hd & Hcr & Hcw & Hcf) [Hi Hk [Hc Hr Hw Hne Hd1 Hd2] Hfd Hid] HQ.
  eapply rwp_wr_at; [exact Hc|]. apply HQ. split; [by eapply inv_put_conn | done | | by rewrite Hcf | done].
  rewrite <- Hcr in Hr, Hne. rewrite <- Hcw in Hw, Hne. split; [rsimpl; apply lookup_insert_eq | done..].
Qed.

(** A field of one of the events that is neither its timer nor its place in a queue. *)
Definition same_place (ev ev' : ngx_event_t) : Prop :=
  ev_data ev' = ev_data ev /\ ev_timer_set ev' = ev_timer_set ev /\ links ev' = links ev.
Lemma out_read k x er ew w er' : out k x er ew w -> same_place er er' -> out k x er' ew (put_event (c_read x) er' w).
Proof.
  intros [Hi Hk [Hc Hr Hw Hne Hd1 Hd2] Hfd (H1 & H2 & H3 & H4)] (Hd & Ht & Hl). pose proof Hl as [= Hn Hp].
  split; [by eapply inv_put_event | done | | done | repeat split; congruence].
  split; unfold put_event; rsimpl; [done|apply lookup_insert_eq|by rewrite lookup_insert_ne|done|congruence|done].
Qed.
Lemma out_write k x er ew w ew' : out k x er ew w -> same_place ew ew' -> out k x er ew' (put_event (c_write x) ew' w).
Proof.
  intros [Hi Hk [Hc Hr Hw Hne Hd1 Hd2] Hfd (H1 & H2 & H3 & H4)] (Hd & Ht & Hl). pose proof Hl as [= Hn Hp].
  split; [by eapply inv_put_event | done | | done | repeat split; congruence].
  split; unfold put_event; rsimpl; [done|by rewrite lookup_insert_ne|apply lookup_insert_eq|done|done|congruence].
Qed.

Lemma rwp_out_ready Q k x er ew w :
  out k x er ew w -> (forall w', out k x er (ew <| ev_ready := true |>) w' -> Q tt w') -> rwp (ev_wr (c_write x) ev_ready true) Q w.
Proof.
  intros Hw HQ. eapply rwp_wr_at; [exact (wf_w _ _ _ _ _ (o_wf _ _ _ _ _ Hw))|]. apply HQ. by apply (out_write k x er ew).
Qed.

(** An event is added: it is active, or there was an error. *)
Lemma rwp_out_add_read Q k x er ew w flags :
  out k x er ew w ->
  (forall k' w', socks k' = socks k -> out k' x (er <| ev_active := true |>) ew w' -> Q NGX_OK w') ->
  (forall k' w', socks k' = socks k -> out k' x er ew w' -> Q NGX_ERROR w') -> rwp (ngx_add_event (c_read x) NGX_READ_EVENT flags) Q w.
Proof.
  intros Hw HQ1 HQ2. pose proof Hw as [_ Hk [Hc Hr _ _ Hd _] _ _].
  destruct (add_event_spec w c x er ew (c_read x) er NGX_READ_EVENT flags (o_wf _ _ _ _ _ Hw) Hr Hd) as (k' & [Hrun|Hrun]);
    unfold rwp; pose proof (quiet_add_event _ _ _ _ _ _ Hrun) as Hq; rewrite Hrun; rewrite Hk in Hq.
  - apply (HQ1 k'); [exact Hq|]. eapply out_read; [by eapply out_kern | done].
  - apply (HQ2 k'); [exact Hq|]. by eapply out_kern.
Qed.
Lemma rwp_out_add_write Q k x er ew w flags :
  out k x er ew w ->
  (forall k' w', socks k' = socks k -> out k' x er (ew <| ev_active := true |>) w' -> Q NGX_OK w') ->
  (forall k' w', socks k' = socks k -> out k' x er ew w' -> Q NGX_ERROR w') -> rwp (ngx_add_event (c_write x) NGX_WRITE_EVENT flags) Q w.
Proof.
  intros Hw HQ1 HQ2. pose proof Hw as [_ Hk [Hc _ Hr _ _ Hd] _ _].
  destruct (add_event_spec w c x er ew (c_write x) ew NGX_WRITE_EVENT flags (o_wf _ _ _ _ _ Hw) Hr Hd) as (k' & [Hrun|Hrun]);
    unfold rwp; pose proof (quiet_add_event _ _ _ _ _ _ Hrun) as Hq; rewrite Hrun; rewrite Hk in Hq.
  - apply (HQ1 k'); [exact Hq|]. eapply out_write; [by eapply out_kern | done].
  - apply (HQ2 k'); [exact Hq|]. by eapply out_kern.
Qed.

Lemma rwp_out_add_conn add Q k x er ew w :
  ngx_add_conn = Some add -> out k x er ew w ->
  (forall k' w', socks k' = socks k -> out k' x (er <| ev_active := true |>) (ew <| ev_active := true |>) w' -> Q NGX_OK w') ->
  (forall k' w', socks k' = socks k -> out k' x er ew w' -> Q NGX_ERROR w') -> rwp (add c) Q w.
Proof.
  intros Hadd Hw HQ1 HQ2. pose proof Hw as [_ Hk Hwf _ _].
  destruct (add_conn_spec add w c x er ew Hadd Hwf) as (k' & [Hrun|Hrun]);
    unfold rwp; pose proof (quiet_add_conn _ _ _ _ _ Hadd Hrun) as Hq; rewrite Hrun; rewrite Hk in Hq.
  - apply (HQ1 k'); [exact Hq|]. apply (out_write k' x (er <| ev_active := true |>) ew); [|done]. apply (out_read k' x er ew); [by eapply out_kern | done].
  - apply (HQ2 k'); [exact Hq|]. by eapply out_kern.
Qed.

(** * What the caller sees *)

(** The result for an answer of [connect]. *)
Definition connect_code (r : unit + Z) : Z :=
  match r with inl _ => NGX_OK | inr err => if err =? NGX_EINPROGRESS then NGX_AGAIN else NGX_DECLINED end.

(** The connection in use: connected, its write event is ready; unless it was
    declined, its read event is active and, while connecting, its write event. *)
Record in_use (rc : Z) (x : ngx_connection_t) (er ew : ngx_event_t) : Prop := {
  iu_io : c_recv x = true /\ c_send x = true;
  iu_ready : rc = NGX_OK -> ev_ready ew = true;
  iu_read : rc = NGX_OK \/ rc = NGX_AGAIN -> ev_active er = true;
  iu_write : rc = NGX_AGAIN -> ev_active ew = true
}.

(** An error and the connection free again, its socket closed; or the connection
    in the peer structure.  [lg] is the log before [connect]. *)
Definition connected (lg : list sockop) (pc : ngx_peer_connection_t) (r : Z * ngx_peer_connection_t) (w : world) : Prop :=
  (r.1 = NGX_ERROR /\ back w /\
     (socks (w_kern w) = lg ++ [Op_close s] \/ exists cr, socks (w_kern w) = lg ++ [Op_connect s (pc_sockaddr pc) cr; Op_close s])) \/
  (exists cr k x er ew, socks k = lg ++ [Op_connect s (pc_sockaddr pc) cr] /\ r.1 = connect_code cr /\ pc_connection r.2 = c /\
     out k x er ew w /\ in_use r.1 x er ew).

Lemma out_freed k x er ew w : out k x er ew w -> back (freed c x w).
Proof.
  intros [Hi Hk [Hc Hr Hw Hne Hd1 Hd2] Hfd Hid]. split; [by apply inv_freed|].
  exists (x <| c_data := w_free w |>), er, ew. split; [|done].
  split; [unfold freed; rsimpl; apply lookup_insert_eq | done..].
Qed.

Lemma connect_failed_run pc k x er ew w :
  out k x er ew w -> exists w', connect_failed pc c s w = Done (NGX_ERROR, pc) w' /\ back w' /\ w_kern w' = (sys_close s k).2.
Proof.
  intros Hw. pose proof Hw as [Hi Hk Hwf _ _]. unfold connect_failed.
  rewrite (bind_step _ _ _ _ _ (free_connection_run w c x (wf_c _ _ _ _ _ Hwf) (iv_files _ _ _ _ _ _ Hi))).
  destruct (out_freed _ _ _ _ _ Hw) as (Hi' & x' & er' & ew' & [] & Hrest).
  assert (w_kern (freed c x w) = k) as Hk' by (by rewrite <- Hk). unfold rbind, sys. rewrite Hk'. destruct (sys_close s k) as [rc k'].
  eexists. split; [reflexivity|]. split; [|done]. split; [by apply inv_kern|]. exists x', er', ew'. by split.
Qed.
Lemma connect_failed_ok pc k x er ew w :
  out k x er ew w -> rwp (connect_failed pc c s) (fun r w' => r = (NGX_ERROR, pc) /\ back w' /\ socks (w_kern w') = socks k ++ [Op_close s]) w.
Proof.
  intros Hw. destruct (connect_failed_run pc k x er ew w Hw) as (w' & Hrun & Hb & Hk). apply rwp_run. eexists _, w'.
  split_and!; [exact Hrun | done | done |]. by rewrite Hk, close_law.
Qed.

Lemma connect_finish_ok lg pc0 pc cr k x er ew w :
  pc_connection pc = c -> pc_sockaddr pc = pc_sockaddr pc0 -> socks k = lg ++ [Op_connect s (pc_sockaddr pc0) cr] ->
  c_recv x = true /\ c_send x = true -> (forall add, ngx_add_conn = Some add -> ev_active er = true /\ ev_active ew = true) ->
  out k x er ew w -> rwp (connect_finish pc c s cr) (connected lg pc0) w.
Proof.
  intros Hpc Hsa Hlg Hio Hact Hw. pose proof (wf_c _ _ _ _ _ (o_wf _ _ _ _ _ Hw)) as Hc.
  unfold connect_finish, c_rd. apply rwp_bind, (rwp_rd_at _ _ _ _ _ _ Hc), rwp_bind, (rwp_rd_at _ _ _ _ _ _ Hc).
  assert (forall pc1 k' x' er' ew' w', socks k' = socks k -> out k' x' er' ew' w' -> rwp (connect_failed pc1 c s) (connected lg pc0) w') as Hfail.
  { intros pc1 k' x' er' ew' w' Hk' Hw'. eapply rwp_mono; [by eapply connect_failed_ok|]. intros r w2 (-> & Hb & Hs). left. split_and!; [done | done |].
    right. exists cr. by rewrite Hs, Hk', Hlg, <- app_assoc. }
  assert (forall rc k' x' er' ew' w', rc = connect_code cr -> socks k' = socks k -> out k' x' er' ew' w' -> in_use rc x' er' ew' ->
    connected lg pc0 (rc, pc) w') as Hdone.
  { intros rc k' x' er' ew' w' Hrc Hk' Hw' Hiu. right. exists cr, k', x', er', ew'. split_and!; [by rewrite Hk' | done | done | done | done]. }
  destruct cr as [u|err]; cbn [connect_code] in *.
  - destruct ngx_add_conn as [add|] eqn:Hadd.
    + apply rwp_bind, (rwp_out_ready _ k x er ew); [done|]. intros w' Hw'. apply (Hdone _ k x er (ew <| ev_ready := true |>)); [done..|].
      split; [done | done | by intros _; destruct (Hact add eq_refl) | done].
    + apply rwp_bind, rwp_rd_g, rwp_bind, (rwp_out_add_read _ k x er ew); [done| |].
      * intros k1 w1 Hk1 Hw1. change (negb (NGX_OK =? NGX_OK)) with false. cbv iota.
        apply rwp_bind, (rwp_out_ready _ k1 x (er <| ev_active := true |>) ew); [done|]. intros w' Hw'.
        by apply (Hdone _ k1 x (er <| ev_active := true |>) (ew <| ev_ready := true |>)).
      * intros k1 w1 Hk1 Hw1. by eapply Hfail.
  - destruct (Z.eqb_spec err NGX_EINPROGRESS) as [->|Hne]; cbn [negb].
    2:{ apply (Hdone _ k x er ew); [done..|]. split; [done | done | | done]. intros [?|?]; done. }
    destruct ngx_add_conn as [add|] eqn:Hadd.
    + apply (Hdone _ k x er ew); [done..|]. destruct (Hact add eq_refl). by split.
    + apply rwp_bind, rwp_rd_g, rwp_bind, (rwp_out_add_read _ k x er ew); [done| |].
      * intros k1 w1 Hk1 Hw1. change (negb (NGX_OK =? NGX_OK)) with false. cbv iota.
        apply rwp_bind, (rwp_out_add_write _ k1 x (er <| ev_active := true |>) ew); [done| |].
        -- intros k2 w2 Hk2 Hw2. change (negb (NGX_OK =? NGX_OK)) with false. cbv iota.
           apply (Hdone _ k2 x (er <| ev_active := true |>) (ew <| ev_active := true |>)); [done | congruence | done | by split].
        -- intros k2 w2 Hk2 Hw2. eapply Hfail; [|exact Hw2]. congruence.
      * intros k1 w1 Hk1 Hw1. by eapply Hfail.
Qed.

Lemma rwp_out_counter v Q k x er ew w : out k x er ew w -> (forall w', out k x er ew w' -> Q tt w') -> rwp (wr_g w_counter v) Q w.
Proof.
  intros [Hi Hk [] Hfd Hid] HQ. apply HQ.
  split; [destruct Hi as [[] ? ? ? ? ?]; constructor; [by constructor | done..] | done | by split | done | done].
Qed.

(** [ngx_event_connect_peer] after the connection was taken and bound: what is
    left once the fields are set. *)
Definition connect_register (pc : ngx_peer_connection_t) : W (Z * ngx_peer_connection_t) :=
  (do! r := (match ngx_add_conn with Some add_conn => add_conn c | None => rret NGX_OK end) in
   if r =? NGX_ERROR then connect_failed pc c s
   else do! rc := sys (sys_connect s (pc_sockaddr pc)) in connect_finish pc c s rc)%run.

Lemma connect_fields_ok pc Q k x er ew w :
  out k x er ew w ->
  (forall x' w', c_recv x' = true /\ c_send x' = true -> out k x' er ew w' -> rwp (connect_register (pc <| pc_connection := c |>)) Q w') ->
  rwp (c_wr c c_recv true ;;; c_wr c c_send true ;;; c_wr c c_sendfile true ;;;
       c_wr c c_log_error (pc_log_error pc) ;;;
       (when negb (default 0 (pc_sockaddr pc !! 0%nat) =? Inet.AF_INET) then
          (c_wr c c_tcp_nopush NGX_TCP_NOPUSH_DISABLED ;;; c_wr c c_tcp_nodelay NGX_TCP_NODELAY_DISABLED)) ;;;
       let pc := pc <| pc_connection := c |> in
       do! counter := rd_g w_counter in
       c_wr c c_number counter ;;;
       wr_g w_counter (u64 (counter + 1)) ;;;
       connect_register pc)%run Q w.
Proof.
  intros Hw HQ. do 4 (apply rwp_bind; eapply rwp_out_c_wr; [|exact Hw|]; [done|]; clear w Hw; intros w Hw).
  apply rwp_bind, (rwp_mono _ (fun _ w' => exists x', (c_recv x' = true /\ c_send x' = true) /\ out k x' er ew w')).
  { destruct (negb _); [|eexists; split; [|exact Hw]; done]. apply rwp_bind. eapply rwp_out_c_wr; [|exact Hw|]; [done|]. intros w1 Hw1.
    eapply rwp_out_c_wr; [|exact Hw1|]; [done|]. intros w2 Hw2. eexists; split; [|exact Hw2]; done. }
  clear w Hw. intros _ w (x' & Hio & Hw). cbv zeta. apply rwp_bind, rwp_rd_g.
  generalize (w_counter w). intros counter. apply rwp_bind. eapply rwp_out_c_wr; [|exact Hw|]; [done|]. clear w Hw. intros w Hw.
  apply rwp_bind. eapply rwp_out_counter; [exact Hw|]. intros w' Hw'. eapply HQ; [|exact Hw']; done.
Qed.

Lemma connect_register_ok lg pc0 pc k x er ew w :
  pc_connection pc = c -> pc_sockaddr pc = pc_sockaddr pc0 -> socks k = lg -> c_recv x = true /\ c_send x = true ->
  out k x er ew w -> rwp (connect_register pc) (connected lg pc0) w.
Proof.
  intros Hpc Hsa Hlg Hio Hw. apply rwp_bind.
  assert (forall k' er' ew' w', socks k' = lg -> (forall add, ngx_add_conn = Some add -> ev_active er' = true /\ ev_active ew' = true) ->
    out k' x er' ew' w' -> rwp (do! rc := sys (sys_connect s (pc_sockaddr pc)) in connect_finish pc c s rc)%run (connected lg pc0) w') as Hend.
  { intros k' er' ew' w' Hk' Hact Hw'. apply rwp_bind. eapply rwp_out_sys; [exact Hw'|]. intros w2 Hw2.
    eapply connect_finish_ok; [done | done | | done | exact Hact | exact Hw2]. by rewrite connect_law, Hk', Hsa. }
  destruct ngx_add_conn as [add|] eqn:Hadd; [|by eapply Hend].
  eapply rwp_out_add_conn; [exact Hadd | exact Hw | |]; intros k' w' Hk' Hw'.
  - change (NGX_OK =? NGX_ERROR) with false. cbv iota. eapply Hend; [| |exact Hw']; [congruence | by intros add' _].
  - change (NGX_ERROR =? NGX_ERROR) with true. cbv iota. eapply rwp_mono; [by eapply connect_failed_ok|]. intros r w2 (-> & Hb & Hs).
    left. split_and!; [done | done |]. left. by rewrite Hs, Hk', Hlg.
Qed.

End Connect.

Section Peer.
Context {HPerl : Perl} {HKern : Kernel} {HLog : SockLog HKern} {HAct : EventActions} {HOk : EventActionsOk HAct} {HQuiet : QuietActions HAct}.

Lemma taken_out base w L LA LP F c x er ew s :
  inv base w L LA LP (c :: F) -> wf_conn w c x er ew -> idle er ew ->
  out base L LA LP F c s (w_kern w) (fresh_conn (c_read x) (c_write x) s)
    (fresh_event c (negb (ev_instance er)) false) (fresh_event c (negb (ev_instance er)) true) (taken c x er s w).
Proof.
  intros Hi Hwf Hid. pose proof Hwf as [Hc Hr Hw Hne _ _]. split; [by eapply inv_taken | done | | done | done].
  split; [unfold taken; rsimpl; apply lookup_insert_eq | unfold taken; look | unfold taken; look | done..].
Qed.

(** The start of the function, up to the socket of the connection. *)
Lemma connect_start base w L LA LP F c x er ew pc s k Q :
  inv base w L LA LP (c :: F) -> wf_conn w c x er ew -> idle er ew ->
  sys_socket (default 0 (pc_sockaddr pc !! 0%nat)) (w_kern w) = (inl s, k) ->
  (forall r w', connected base L LA LP F c s (socks (w_kern w) ++ [Op_socket (default 0 (pc_sockaddr pc !! 0%nat)) (inl s)]) pc r w' -> Q r w') ->
  rwp (ngx_event_connect_peer pc) Q w.
Proof.
  intros Hi Hwf Hid Hsock HQ. pose proof (iv_free _ _ _ _ _ _ Hi) as (Hnd & (Hfree & Hnull & _) & _ & Hlen).
  apply list.NoDup_cons in Hnd as [HcF _]. cbn [length] in Hlen.
  set (lg := socks (w_kern w) ++ _) in HQ.
  assert (socks k = lg) as Hlg.
  { pose proof (socket_law (default 0 (pc_sockaddr pc !! 0%nat)) (w_kern w)) as Hl. rewrite Hsock in Hl. exact Hl. }
  unfold ngx_event_connect_peer. apply rwp_bind, rwp_sys. rewrite Hsock. cbn [fst snd].
  assert (inv base (w <| w_kern := k |>) L LA LP (c :: F)) as Hi1 by (by apply inv_kern).
  assert (wf_conn (w <| w_kern := k |>) c x er ew) as Hwf1 by (by destruct Hwf).
  apply rwp_bind. unfold rwp at 1. rewrite (get_connection_run _ c x er ew s Hwf1 Hfree Hnull (iv_files _ _ _ _ _ _ Hi1)).
  2,3: apply (tm_node _ _ _ (iv_timers _ _ _ _ _ _ Hi1)); destruct Hwf1; by eexists.
  destruct (Z.eqb_spec c NULL) as [|_]; [done|].
  pose proof (taken_out _ _ _ _ _ _ _ _ _ _ s Hi1 Hwf1 Hid) as Hout. rsimpl_in Hout. revert Hout.
  generalize (taken c x er s (w <| w_kern := k |>)), (fresh_conn (c_read x) (c_write x) s),
    (fresh_event c (negb (ev_instance er)) false), (fresh_event c (negb (ev_instance er)) true).
  clearbody lg. clear Hsock Hi Hwf Hi1 Hwf1 Hfree Hid w x er ew. intros w x er ew Hw.
  eapply rwp_mono; [|exact HQ].
  assert (forall k' w', socks k' = lg -> out base L LA LP F c s k' x er ew w' -> rwp (connect_failed pc c s) (connected base L LA LP F c s lg pc) w') as Hfail.
  { intros k' w' Hk' Hw'. eapply rwp_mono; [eapply connect_failed_ok; [done..|lia|exact Hw']|]. intros r w2 (-> & Hb & Hs).
    left. split_and!; [done | done |]. left. by rewrite Hs, Hk'. }
  apply rwp_bind, (rwp_mono _ (fun _ w' => exists k', socks k' = lg /\ out base L LA LP F c s k' x er ew w')).
  { destruct (pc_rcvbuf pc =? 0); [by exists k|]. eapply rwp_out_sys; [exact Hw|]. intros w' Hw'. eexists. split; [|exact Hw']. by rewrite setsockopt_law. }
  clear k Hlg w Hw. intros [?|?] w (k & Hlg & Hw); [|by eapply Hfail].
  apply rwp_bind. eapply rwp_out_sys; [exact Hw|]. clear w Hw. intros w Hw. rewrite <- (nonblocking_law s) in Hlg.
  destruct (sys_nonblocking s k) as [r k1]. cbn [fst snd] in *. clear k. destruct r as [?|?]; [|by eapply Hfail].
  apply rwp_bind, (rwp_mono _ (fun _ w' => exists k', socks k' = lg /\ out base L LA LP F c s k' x er ew w')).
  { destruct (pc_local pc) as [a|]; [|by exists k1]. eapply rwp_out_sys; [exact Hw|]. intros w' Hw'. eexists. split; [|exact Hw']. by rewrite bind_law. }
  clear k1 Hlg w Hw. intros [?|?] w (k & Hlg & Hw); [|by eapply Hfail].
  eapply connect_fields_ok; [exact Hw|]. intros x' w' Hio Hw'. eapply connect_register_ok; [done..|lia|done|done|exact Hlg|exact Hio|exact Hw'].
Qed.
End Peer.

Section Refused.
Context {HPerl : Perl} {HKern : Kernel}.

(** The run in which [epoll_ctl] refuses the connection. *)
Lemma refused_run base w L LA LP F c x er ew pc s k k' err k2 :
  inv base w L LA LP (c :: F) -> wf_conn w c x er ew -> idle er ew ->
  pc_rcvbuf pc = 0 -> pc_local pc = None ->
  sys_socket (default 0 (pc_sockaddr pc !! 0%nat)) (w_kern w) = (inl s, k) ->
  sys_nonblocking s k = (inl tt, k') ->
  sys_epoll_ctl EPOLL_CTL_ADD s (Z.lor EPOLLIN (Z.lor EPOLLOUT EPOLLET)) (tag c (negb (ev_instance er))) k' = (inr err, k2) ->
  exists w1, ngx_event_connect_peer pc w = Done (NGX_ERROR, pc <| pc_connection := c |>) w1 /\ back base L LA LP F c s w1.
Proof.
  intros Hi Hwf Hid Hbuf Hloc Hsock Hnb Hctl.
  pose proof (iv_free _ _ _ _ _ _ Hi) as (Hnd & (Hfree & Hnull & _) & _ & Hlen).
  apply list.NoDup_cons in Hnd as [HcF _]. cbn [length] in Hlen.
  assert (rwp (ngx_event_connect_peer pc) (fun r w' => r = (NGX_ERROR, pc <| pc_connection := c |>) /\ back base L LA LP F c s w') w) as Hwp.
  { unfold ngx_event_connect_peer. apply rwp_bind, rwp_sys. rewrite Hsock. cbn [fst snd].
    assert (inv base (w <| w_kern := k |>) L LA LP (c :: F)) as Hi1 by (by apply inv_kern).
    assert (wf_conn (w <| w_kern := k |>) c x er ew) as Hwf1 by (by destruct Hwf).
    apply rwp_bind. unfold rwp at 1. rewrite (get_connection_run _ c x er ew s Hwf1 Hfree Hnull (iv_files _ _ _ _ _ _ Hi1)).
    2,3: apply (tm_node _ _ _ (iv_timers _ _ _ _ _ _ Hi1)); destruct Hwf1; by eexists.
    destruct (Z.eqb_spec c NULL) as [|_]; [done|]. rewrite Hbuf, Hloc. change (0 =? 0) with true. cbv iota.
    apply rwp_bind. cbn [rret rwp]. pose proof (taken_out _ _ _ _ _ _ _ _ _ _ s Hi1 Hwf1 Hid) as Hout. rsimpl_in Hout.
    apply rwp_bind. eapply rwp_out_sys; [exact Hout|]. rewrite Hnb. cbn [fst snd]. intros w1 Hw1.
    apply rwp_bind. cbn [rret rwp]. eapply connect_fields_ok; [exact Hw1|]. intros x' w' _ Hw'.
    unfold connect_register. cbn [ngx_add_conn epoll_actions]. apply rwp_bind.
    assert (ngx_epoll_add_connection c w' = Done NGX_ERROR (w' <| w_kern := k2 |>)) as Hadd.
    { pose proof Hw' as [_ Hk' [Hc' Hr' _ _ _ _] Hfd' _]. unfold ngx_epoll_add_connection. unfold_accessors. repeat step.
      rewrite Hfd'. erewrite sys_step by (rewrite Hk'; exact Hctl). done. }
    unfold rwp at 1. rewrite Hadd. change (NGX_ERROR =? NGX_ERROR) with true. cbv iota.
    destruct (connect_failed_run base L LA LP F c s HcF Hnull ltac:(lia) (pc <| pc_connection := c |>) k2 x'
      (fresh_event c (negb (ev_instance er)) false) (fresh_event c (negb (ev_instance er)) true) (w' <| w_kern := k2 |>)) as (w2 & Hrun & Hb & _); [by eapply out_kern|].
    unfold rwp. rewrite Hrun. by split. }
  apply rwp_run in Hwp as (r & w1 & Hrun & -> & Hb). by exists w1.
Qed.
End Refused.

Section CloseFree.
Context {HPerl : Perl} {HKern : Kernel} {HAct : EventActions} {HOk : EventActionsOk HAct}.

(** [ngx_close_connection] of a connection that is first on the free list and
    still has a descriptor: the list now starts with the connection and goes on
    with it, forever. *)
Lemma close_free_connection base w L LA LP F c x er ew :
  inv base w L LA LP (c :: F) -> wf_conn w c x er ew -> c_fd x <> -1 ->
  exists w', ngx_close_connection c w = Done tt w' /\ w_free w' = c /\
    exists x', w_conns w' !! c = Some x' /\ c_data x' = c.
Proof.
  intros Hinv Hwf Hfd. pose proof Hwf as [Hc Hr Hw Hne _ _].
  pose proof (iv_free _ _ _ _ _ _ Hinv) as (_ & (Hfree & _) & _).
  unfold ngx_close_connection, c_rd. step. destruct (Z.eqb_spec (c_fd x) (-1)) as [|_]; [done|]. do 2 step.
  destruct (close_timers_run base w L LA LP _ c x er ew Hinv Hwf) as (t & L' & Hrun1 & Hinv2 & _ & Hwf2).
  run_to Hrun1. set (w2 := with_timer _ (c_write x) _ _) in *. run_to (close_events_run _ _ _ _ _ Hwf2).
  pose proof Hwf2 as [_ Hr2 Hw2 _ _ _]. set (w3 := put_event (c_write x) _ (put_event (c_read x) _ w2)).
  assert (Hinv3 : inv base w3 L' LA LP (c :: F)).
  { eapply (inv_put_event _ _ _ _ _ _ (c_write x)); [|unfold put_event; look|done|done].
    eapply (inv_put_event _ _ _ _ _ _ (c_read x)); [done | exact Hr2 | done | done]. }
  edestruct (close_posted_run base w3 L' LA LP (c :: F) (c_read x) (c_write x))
    as (w4 & LA4 & LP4 & er4 & ew4 & Hrun4 & Hinv4 & Hrest & Hr4 & _ & _ & Hw4 & _);
    [exact Hinv3 | unfold w3, put_event; look | unfold w3, put_event; look | exact Hne |].
  run_to Hrun4. assert (w_conns w4 = w_conns w) as Hc4 by (destruct Hrest as (m & a & p & ->); done).
  rewrite <- Hc4 in Hc. pose proof (iv_free _ _ _ _ _ _ Hinv4) as (_ & (Hfree4 & _) & _).
  unfold close_release, ev_wr. step. step. set (w5 := (w4 <| w_events := _ |>) <| w_events := _ |>).
  assert (w_conns w5 !! c = Some x) as Hc5 by exact Hc.
  run_to (free_connection_run w5 c x Hc5 (iv_files _ _ _ _ _ _ Hinv4)).
  assert (Hc6 : w_conns (freed c x w5) !! c = Some (x <| c_data := w_free w4 |>)) by (unfold freed; look).
  unfold c_rd, c_wr. step. step. unfold rbind, sys. destruct (sys_close _ _) as [rc k]. eexists. split; [reflexivity|].
  unfold freed. rsimpl. split; [done|]. rewrite lookup_insert_eq. eexists. split; [done|]. rsimpl. exact Hfree4.
Qed.
End CloseFree.

(** * The theorems *)


(** C5.  With the epoll backend, a connection that the kernel refuses to watch is
    freed twice.  When [epoll_ctl] fails for the new socket (which needs neither a
    receive buffer's size nor a local address), [ngx_event_connect_peer] frees the
    connection and returns [NGX_ERROR], but the peer
    structure still points to it, and its descriptor is not reset; the caller in
    Engine.xs passes it to [ngx_close_connection], which frees it again.  The free
    list is then a cycle: its first connection is followed by itself, so that two
    calls of [ngx_get_connection] return the same connection. *)
Theorem connect_error_freed_twice {HPerl : Perl} {HKern : Kernel} base w L LA LP F c x er ew pc s k k' err k2 :
  inv base w L LA LP (c :: F) -> wf_conn w c x er ew -> idle er ew ->
  pc_rcvbuf pc = 0 -> pc_local pc = None ->
  sys_socket (default 0 (pc_sockaddr pc !! 0%nat)) (w_kern w) = (inl s, k) -> s <> -1 ->
  sys_nonblocking s k = (inl tt, k') ->
  sys_epoll_ctl EPOLL_CTL_ADD s (Z.lor EPOLLIN (Z.lor EPOLLOUT EPOLLET)) (tag c (negb (ev_instance er))) k' = (inr err, k2) ->
  exists pc' w1 w2 x2, ngx_event_connect_peer (HAct := epoll_actions) pc w = Done (NGX_ERROR, pc') w1 /\ pc_connection pc' = c /\
    ngx_close_connection (HAct := epoll_actions) (pc_connection pc') w1 = Done tt w2 /\
    w_free w2 = c /\ w_conns w2 !! c = Some x2 /\ c_data x2 = c.
Proof.
  intros Hi Hwf Hid Hbuf Hloc Hsock Hs Hnb Hctl.
  destruct (refused_run base w L LA LP F c x er ew pc s k k' err k2) as (w1 & Hrun & Hb & x1 & er1 & ew1 & Hwf1 & Hfd & _); [done..|].
  destruct (close_free_connection base w1 L LA LP F c x1 er1 ew1) as (w2 & Hclose & Hfree & x2 & Hx2 & Hd); [done|done|congruence|].
  exists (pc <| pc_connection := c |>), w1, w2, x2. done.
Qed.

(** * Witnesses *)

Import Systems.
Local Existing Instance scripted_kernel.
Definition connect_perl : Perl := perl_of no_subs.
Local Existing Instance connect_perl.

(** The kernel of the witnesses with a log of its sockets. *)
Definition logged_kernel : Kernel :=
  tracing_kernel (fun fd l => l ++ [Op_close fd]) (fun f r l => l ++ [Op_socket f r])
    (fun s a r l => l ++ [Op_connect s a r]) (fun _ _ _ _ _ l => l).
#[local] Instance logged_socks : SockLog logged_kernel.
Proof.
  refine (Build_SockLog logged_kernel (fun k : @kern logged_kernel => k.2) _ _ _ _ _ _ _); intros;
    cbn [logged_kernel tracing_kernel sys_socket sys_connect sys_close sys_setsockopt sys_nonblocking sys_bind sys_epoll_ctl];
    unfold traced; match goal with |- context [let '(_, _) := ?t in _] => destruct t; done end.
Defined.

Definition connect_world : world := small_world (mk_scalars ∅ 1000 : interp) no_answers.
Lemma connect_world_inv : inv 0 connect_world [] [] [] [100].
Proof.
  constructor.
  - apply free_world_timers.
  - split_and!; [by left | constructor | done].
  - split_and!; [by right | constructor | done].
  - intros e ev. simpl. rewrite !lookup_insert_Some, lookup_empty.
    intros [[<- <-]|[? [[<- <-]|[? ?]]]]; done.
  - split_and!; [repeat constructor; set_solver | split_and!; [done | done |] | done | done]. by exists 0.
  - done.
Qed.

Definition local_peer : ngx_peer_connection_t := mk_peer NULL [2; 0; 0; 80; 127; 0; 0; 1] None 0 0.

Definition socket_answers : answers := no_answers <| a_socket := [inl 5] |> <| a_connect := [inr NGX_EINPROGRESS] |>.
Definition log_world : @world connect_perl logged_kernel := with_kernel (K := logged_kernel) (socket_answers, []) connect_world.
Lemma log_world_inv : inv 0 log_world [] [] [] [100].
Proof. pose proof connect_world_inv as [[] ? ? ? ? ?]. constructor; [by constructor | done..]. Qed.

(** The calls on sockets a run has made. *)
Definition sockets_of {A} (r : outcome A (@world connect_perl logged_kernel)) : option (list sockop) :=
  match r with Done _ w => Some (w_kern w).2 | _ => None end.
Lemma log_world_run :
  sockets_of (ngx_event_connect_peer local_peer log_world)
    = Some [Op_socket 2 (inl 5); Op_connect 5 (pc_sockaddr local_peer) (inr NGX_EINPROGRESS)].
Proof. vm_compute. reflexivity. Qed.


Definition refused_world : world := connect_world <| w_kern := (no_answers <| a_socket := [inl 5] |> <| a_ctl := [inr 28] |> : kern) |>.

Lemma connect_error_freed_twice_witness :
  exists pc' w1 w2 x2, ngx_event_connect_peer local_peer refused_world = Done (NGX_ERROR, pc') w1 /\ pc_connection pc' = 100 /\
    ngx_close_connection (pc_connection pc') w1 = Done tt w2 /\
    w_free w2 = 100 /\ w_conns w2 !! 100 = Some x2 /\ c_data x2 = 100.
Proof.
  refine (connect_error_freed_twice 0 refused_world [] [] [] [] 100 free_conn free_rev free_wev local_peer 5
    (no_answers <| a_ctl := [inr 28] |>) (no_answers <| a_ctl := [inr 28] |>) 28 no_answers _ _ _ _ _ _ _ _ _).
  - apply inv_kern, connect_world_inv.
  - by split.
  - done.
  - done.
  - done.
  - reflexivity.
  - done.
  - reflexivity.
  - reflexivity.
Defined.

End Connect.
