(* ===== verification/Accept.v ===== *)
(** Accepted connections: what one turn of the loop of [ngx_event_accept]
    (Server.v) does with a new socket, on every path: the connection, its pool
    and its session, or nothing left of them. *)
From stdpp Require Import base numbers gmap list.
From S2P Require Import Prelude Rbtree RbtreeRep Inet World Systems Timer Event PostedQueue Backend Connection FreeList Close Callback Refcount Session Lifetime Server Connect.
Local Open Scope Z_scope.
Import World Timer Event PostedQueue Backend Connection FreeList Close Callback Session Lifetime Server Connect.

Module Accept.

Section Frame.
Context {HPerl : Perl} {HKern : Kernel}.

(** The invariant depends on no other part of the world. *)
Lemma inv_frame base w w' L LA LP F :
  w_tree w' = w_tree w -> w_events w' = w_events w -> w_conns w' = w_conns w -> w_free w' = w_free w ->
  w_free_n w' = w_free_n w -> w_posted_accept w' = w_posted_accept w -> w_posted w' = w_posted w ->
  w_files w' = w_files w -> inv base w L LA LP F -> inv base w' L LA LP F.
Proof.
  intros Ht He Hc Hf Hfn Ha Hp Hfi [H1 H2 H3 H4 H5 H6]. constructor.
  - apply (timers_frame base w); [done | by rewrite He | done].
  - apply (posted_frame _ w); [exact Ha | by rewrite He | done].
  - apply (posted_frame _ w); [exact Hp | by rewrite He | done].
  - by rewrite He.
  - apply (free_list_frame w); [by rewrite Hc | done..].
  - congruence.
Qed.

(** What a connection in use holds does not matter to it. *)
Lemma inv_conn_out base w L LA LP F c x' :
  inv base w L LA LP F -> c ∉ F -> inv base (w <| w_conns := <[c := x']> (w_conns w) |>) L LA LP F.
Proof.
  intros [[] ? ? ? (Hnd & Hch & Hn & Hb) ?] Hc. constructor; [by constructor | done.. | | done].
  split_and!; [done | | done | done]. rsimpl. rewrite fmap_insert. by apply chain_insert_ne.
Qed.

(** Addresses that were never given out. *)
Definition unused (w : world) : Prop :=
  0 < w_next w /\ forall a, w_next w <= a ->
    w_pools w !! a = None /\ w_sessions w !! a = None /\ w_callbacks w !! a = None /\ w_intervals w !! a = None.

Lemma drop_objs_unused {A} (l : list ptr) (m : gmap ptr A) (n : Z) :
  Forall (fun a => n <= a) l -> (forall a, n <= a -> m !! a = None) -> drop_objs l m = m.
Proof.
  intros Hl Hm. apply map_eq. intros a. destruct (decide (a ∈ l)) as [Hin|Hin]; [|by rewrite drop_objs_out].
  rewrite drop_objs_in by done. rewrite Forall_forall in Hl. symmetry. by apply Hm, Hl.
Qed.
End Frame.

Section Stage.
Context {HPerl : Perl} {HKern : Kernel} {HAct : EventActions} {HOk : EventActionsOk HAct}.
Context (base : Z) (L : list (Z * Z)) (LA LP F : list ptr) (c : ptr) (s : Z) (w0 : world).
Context (HcF : c ∉ F) (Hnull : c <> NULL) (Hlen : Z.of_nat (length F) + 1 < 2 ^ 64).
Context (Hunused : unused w0).

(** What the work on [c] leaves alone. *)
Record kept (w : world) : Prop := mk_kept {
  kp_listenings : w_listenings w = w_listenings w0;
  kp_conns : forall c', c' <> c -> w_conns w !! c' = w_conns w0 !! c';
  kp_callbacks : w_callbacks w = w_callbacks w0;
  kp_intervals : w_intervals w = w_intervals w0;
  kp_stale : w_stale w = w_stale w0
}.

(** The pool of the new connection, when it has one: no cleanup handlers, and
    objects at addresses that were unused. *)
Definition own_pool (o : option (ptr * list ptr)) (w : world) : Prop :=
  w_next w0 <= w_next w /\
  match o with
  | None => w_pools w = w_pools w0
  | Some (p, objs) =>
      w_pools w = <[p := mk_pool [] objs]> (w_pools w0) /\ w_pools w0 !! p = None /\ p <> NULL /\
      Forall (fun a => w_next w0 <= a) objs
  end.

(** The connection is taken; [x], [er] and [ew] are its contents so far. *)
Record stage (x : ngx_connection_t) (er ew : ngx_event_t) (o : option (ptr * list ptr)) (w : world) : Prop := mk_stage {
  sg_inv : inv base w L LA LP F;
  sg_conn : wf_conn w c x er ew;
  sg_fd : c_fd x = s;
  sg_idle : idle er ew;
  sg_kept : kept w;
  sg_sessions : w_sessions w = w_sessions w0;
  sg_perl : w_perl w = w_perl w0;
  sg_events : forall e, is_Some (w_events w0 !! e) -> is_Some (w_events w !! e);
  sg_pool : own_pool o w
}.

(** Changes outside connections, events and pools. *)
Lemma stage_frame x er ew o w w' :
  w_tree w' = w_tree w -> w_events w' = w_events w -> w_conns w' = w_conns w -> w_free w' = w_free w ->
  w_free_n w' = w_free_n w -> w_posted_accept w' = w_posted_accept w -> w_posted w' = w_posted w ->
  w_files w' = w_files w -> w_listenings w' = w_listenings w -> w_callbacks w' = w_callbacks w ->
  w_intervals w' = w_intervals w -> w_stale w' = w_stale w -> w_sessions w' = w_sessions w ->
  w_perl w' = w_perl w -> stage x er ew o w -> forall o', own_pool o' w' -> stage x er ew o' w'.
Proof.
  intros ? He Hc ? ? ? ? ? ? ? ? ? ? ? [Hi [] ? ? [] ? ? Hev ?] o' Ho'.
  constructor; try congruence; [by eapply inv_frame | split; congruence | constructor; try congruence; intros c' Hne; rewrite Hc; auto | intros e; rewrite He; apply Hev].
Qed.

Lemma rwp_stage_sys {A} (f : kern -> A * kern) Q x er ew o w :
  stage x er ew o w -> (forall r w', stage x er ew o w' -> Q r w') -> rwp (sys f) Q w.
Proof. intros Hw HQ. apply rwp_sys, HQ. by eapply stage_frame; [..|exact Hw|apply Hw]. Qed.

Lemma rwp_stage_counter v Q x er ew o w :
  stage x er ew o w -> (forall w', stage x er ew o w' -> Q tt w') -> rwp (wr_g w_counter v) Q w.
Proof. intros Hw HQ. apply HQ. by eapply stage_frame; [..|exact Hw|apply Hw]. Qed.

Lemma stage_put_conn x er ew o w x' :
  stage x er ew o w -> c_read x' = c_read x -> c_write x' = c_write x -> c_fd x' = c_fd x ->
  stage x' er ew o (w <| w_conns := <[c := x']> (w_conns w) |>).
Proof.
  intros [Hi [Hc Hr Hw Hne Hd1 Hd2] Hfd Hid [] ? ? ? ?] Er Ew Ef.
  constructor; [by apply inv_conn_out | | congruence | done | | done | done | done | done].
  - split; rsimpl; [apply lookup_insert_eq | by rewrite Er | by rewrite Ew | congruence | done | done].
  - constructor; try done. intros c' Hne'. rsimpl. rewrite lookup_insert_ne by done. auto.
Qed.

Lemma rwp_stage_c_wr {A} (f : ngx_connection_t -> A) `{!Setter f} v Q x er ew o w :
  c_read (x <| f := v |>) = c_read x -> c_write (x <| f := v |>) = c_write x -> c_fd (x <| f := v |>) = c_fd x ->
  stage x er ew o w -> (forall w', stage (x <| f := v |>) er ew o w' -> Q tt w') -> rwp (c_wr c f v) Q w.
Proof. intros H1 H2 H3 Hw HQ. eapply rwp_wr_at; [apply Hw|]. by apply HQ, (stage_put_conn x). Qed.

Lemma rwp_stage_c_rd {A} (f : ngx_connection_t -> A) Q x er ew o w :
  stage x er ew o w -> Q (f x) w -> rwp (c_rd c f) Q w.
Proof. intros Hw HQ. eapply rwp_rd_at; [apply Hw | done]. Qed.

(** An event changed in neither its timer flag nor its links. *)
Lemma stage_put_read x er ew o w er' :
  stage x er ew o w -> ev_data er' = ev_data er -> ev_timer_set er' = ev_timer_set er -> links er' = links er ->
  stage x er' ew o (put_event (c_read x) er' w).
Proof.
  intros [Hi [Hc Hr Hw Hne Hd1 Hd2] Hfd (? & ? & ? & ?) [] ? ? Hev ?] Hd Ht Hl. pose proof Hl as [= _ Hp].
  constructor; [by eapply inv_put_event | | done | repeat split; congruence | by constructor | done | done | | done].
  2:{ intros e He. unfold put_event. rsimpl. rewrite lookup_insert_is_Some'. auto. }
  split; unfold put_event; rsimpl; [done | apply lookup_insert_eq | by rewrite lookup_insert_ne | done | congruence | done].
Qed.
Lemma stage_put_write x er ew o w ew' :
  stage x er ew o w -> ev_data ew' = ev_data ew -> ev_timer_set ew' = ev_timer_set ew -> links ew' = links ew ->
  stage x er ew' o (put_event (c_write x) ew' w).
Proof.
  intros [Hi [Hc Hr Hw Hne Hd1 Hd2] Hfd (? & ? & ? & ?) [] ? ? Hev ?] Hd Ht Hl. pose proof Hl as [= _ Hp].
  constructor; [by eapply inv_put_event | | done | repeat split; congruence | by constructor | done | done | | done].
  2:{ intros e He. unfold put_event. rsimpl. rewrite lookup_insert_is_Some'. auto. }
  split; unfold put_event; rsimpl; [done | by rewrite lookup_insert_ne | apply lookup_insert_eq | done | done | congruence].
Qed.

Definition harmless {A} (f : ngx_event_t -> A) `{!Setter f} (v : A) : Prop :=
  forall ev, ev_data (ev <| f := v |>) = ev_data ev /\ ev_timer_set (ev <| f := v |>) = ev_timer_set ev /\
    links (ev <| f := v |>) = links ev.

Lemma rwp_stage_rev_wr {A} (f : ngx_event_t -> A) `{!Setter f} v Q x er ew o w e :
  harmless f v -> stage x er ew o w -> e = c_read x ->
  (forall w', stage x (er <| f := v |>) ew o w' -> Q tt w') -> rwp (ev_wr e f v) Q w.
Proof.
  intros Hf Hst -> HQ. destruct (Hf er) as (? & ? & ?). eapply rwp_wr_at; [apply Hst|]. by apply HQ, (stage_put_read x er).
Qed.
Lemma rwp_stage_wev_wr {A} (f : ngx_event_t -> A) `{!Setter f} v Q x er ew o w e :
  harmless f v -> stage x er ew o w -> e = c_write x ->
  (forall w', stage x er (ew <| f := v |>) o w' -> Q tt w') -> rwp (ev_wr e f v) Q w.
Proof.
  intros Hf Hst -> HQ. destruct (Hf ew) as (? & ? & ?). eapply rwp_wr_at; [apply Hst|]. by apply HQ, (stage_put_write x er ew).
Qed.

Lemma rwp_stage_create_pool size Q x er ew w :
  stage x er ew None w ->
  (forall w', stage x er ew None w' -> Q NULL w') ->
  (forall p w', p <> NULL -> stage x er ew (Some (p, [])) w' -> Q p w') ->
  rwp (ngx_create_pool size) Q w.
Proof.
  intros Hw HN HP. unfold ngx_create_pool. apply rwp_bind. eapply rwp_stage_sys; [done|].
  clear w Hw. intros [] w Hw; [|by apply HN]. destruct Hunused as [Hpos Hun].
  destruct (sg_pool _ _ _ _ _ Hw) as [Hnext Hpools]. destruct (Hun (w_next w) Hnext) as (Hnone & _).
  apply HP; [unfold NULL; lia|]. eapply stage_frame; [..|exact Hw|]; try done.
  split; [rsimpl; lia|]. rsimpl. rewrite Hpools. split_and!; [done | done | unfold NULL; lia | constructor].
Qed.

Lemma rwp_stage_alloc size Q x er ew p objs w :
  stage x er ew (Some (p, objs)) w ->
  (forall w', stage x er ew (Some (p, objs)) w' -> Q NULL w') ->
  (forall a w', a <> NULL -> w_next w0 <= a -> stage x er ew (Some (p, a :: objs)) w' -> Q a w') ->
  rwp (pool_alloc p size) Q w.
Proof.
  intros Hw HN HP. unfold pool_alloc. apply rwp_bind. eapply rwp_stage_sys; [done|].
  clear w Hw. intros [] w Hw; [|by apply HN]. destruct Hunused as [Hpos Hun].
  destruct (sg_pool _ _ _ _ _ Hw) as (Hnext & Hpools & Hnone & Hp & Hobjs).
  unfold rwp. rewrite Hpools, lookup_insert_eq. apply HP; [unfold NULL; lia | done |].
  eapply stage_frame; [..|exact Hw|]; try done. split; [rsimpl; lia|]. rsimpl.
  rewrite insert_insert_eq. split_and!; [done | done | done | by constructor].
Qed.

Lemma rwp_stage_add_conn add Q x er ew o w :
  ngx_add_conn = Some add -> stage x er ew o w ->
  (forall rc w', stage x er ew o w' -> Q rc w') ->
  (forall rc w', stage x (er <| ev_active := true |>) (ew <| ev_active := true |>) o w' -> Q rc w') ->
  rwp (add c) Q w.
Proof.
  intros Hadd Hw HE HS. pose proof Hw as [Hi Hwf _ _ _ _ _ _ _].
  destruct (add_conn_spec add w c x er ew Hadd Hwf) as (k & [Hrun|Hrun]); unfold rwp; rewrite Hrun.
  - apply HS, (stage_put_write x _ ew); [|done..]. apply (stage_put_read x er); [|done..].
    by eapply stage_frame; [..|exact Hw|apply Hw].
  - apply HE. by eapply stage_frame; [..|exact Hw|apply Hw].
Qed.

(** Nothing is left of the attempt: the connection is free again and its
    descriptor closed, the pool is gone, timers, queues, sessions, callbacks
    and scalars are as before. *)
Definition gone (w : world) : Prop :=
  (exists L' LA' LP', inv base w L' LA' LP' (c :: F) /\
     (forall y, y ∈ L' <-> y ∈ L) /\ (forall y, y ∈ LA' <-> y ∈ LA) /\ (forall y, y ∈ LP' <-> y ∈ LP)) /\
  kept w /\ w_sessions w = w_sessions w0 /\ w_perl w = w_perl w0 /\ w_pools w = w_pools w0 /\ fd_closed s w.

(** The pool without cleanup handlers: destroying it leaves no trace. *)
Lemma without_unused {A} w objs (m : gmap ptr A) :
  Forall (fun a => w_next w0 <= a) objs -> (forall a, w_next w0 <= a -> m !! a = None) -> without w objs m = m.
Proof. intros Ho Hm. unfold without. destruct (w_stale w); [done|]. by eapply drop_objs_unused. Qed.

Lemma unused_tables objs w :
  Forall (fun a => w_next w0 <= a) objs ->
  without w objs (w_sessions w0) = w_sessions w0 /\ without w objs (w_callbacks w0) = w_callbacks w0 /\
  without w objs (w_intervals w0) = w_intervals w0.
Proof. intros Ho. destruct Hunused as [_ Hun]. split_and!; apply without_unused; try done; apply Hun. Qed.

(** [ngx_close_accepted_connection] up to the pool. *)
Lemma close_accepted_run x er ew o w :
  stage x er ew o w ->
  exists w', ngx_close_accepted_connection c w = (if negb (c_pool x =? NULL) then ngx_destroy_pool (c_pool x) else rret tt) w' /\
    inv base w' L LA LP (c :: F) /\ kept w' /\ w_sessions w' = w_sessions w0 /\ w_perl w' = w_perl w0 /\
    own_pool o w' /\ fd_closed s w'.
Proof.
  intros [Hi Hwf Hfd Hid [H1 H2 H3 H4 H5] Hs Hp _ Ho]. pose proof (wf_c _ _ _ _ _ Hwf) as Hc.
  unfold ngx_close_accepted_connection.
  rewrite (bind_step _ _ _ _ _ (free_connection_run w c x Hc (iv_files _ _ _ _ _ _ Hi))).
  assert (Hi1 : inv base (freed c x w) L LA LP (c :: F)) by by apply inv_freed.
  assert (Hc1 : w_conns (freed c x w) !! c = Some (x <| c_data := w_free w |>)) by (unfold freed; look).
  assert (Hk1 : kept (freed c x w)).
  { constructor; unfold freed; rsimpl; try done. intros c' Hne. rewrite !lookup_insert_ne by done. auto. }
  assert (Hs1 : w_sessions (freed c x w) = w_sessions w0) by exact Hs.
  assert (Hp1 : w_perl (freed c x w) = w_perl w0) by exact Hp.
  assert (Ho1 : own_pool o (freed c x w)) by exact Ho.
  revert Hi1 Hc1 Hk1 Hs1 Hp1 Ho1. generalize (freed c x w). clear - Hfd. intros w1 Hi Hc [H1 H2 H3 H4 H5] Hs Hp Ho.
  unfold c_rd, c_wr. step. step. rsimpl. rewrite Hfd. destruct (sys_close s (w_kern w1)) as [rc k] eqn:Hsys.
  erewrite sys_step by exact Hsys. step. rsimpl. eexists. split; [reflexivity|]. split_and!.
  - apply inv_kern. by eapply inv_put_conn.
  - constructor; rsimpl; try done. intros c' Hne. rewrite !lookup_insert_ne by done. auto.
  - by rsimpl.
  - by rsimpl.
  - unfold own_pool. by rsimpl.
  - exists (w_kern w1). rsimpl. by rewrite Hsys.
Qed.

Lemma close_accepted_ok x er ew o w :
  stage x er ew o w -> c_pool x = match o with Some (p, _) => p | None => NULL end ->
  rwp (ngx_close_accepted_connection c) (fun _ w' => gone w') w.
Proof.
  intros Hst Hpool. destruct (close_accepted_run _ _ _ _ _ Hst) as (w2 & Hrun & Hi & Hk & Hs & Hp & Ho & Hf).
  unfold rwp. rewrite Hrun, Hpool. clear Hrun. destruct o as [[p objs]|].
  - destruct Ho as (Hnext & Hpools & Hnone & Hpn & Hobjs). destruct (Z.eqb_spec p NULL) as [|_]; [done|]. cbn [negb].
    destruct (destroy_pool_ok w2 p (mk_pool [] objs) w2) as (w3 & Hrun & Hw3); [by rewrite Hpools, lookup_insert_eq|done|].
    rewrite Hrun. destruct (unused_tables objs w2 Hobjs) as (Es & Ec & Ei). destruct Hk as [G1 G2 G3 G4 G5].
    rewrite Hs, G3, G4 in Hw3. cbn [pool_objs] in Hw3. rewrite Es, Ec, Ei in Hw3. split.
    { exists L, LA, LP. split; [|done]. rewrite Hw3. by apply inv_objects. }
    rewrite Hw3. split_and!; [constructor; rsimpl; first [done | exact G1 | exact G2 | exact G5] | by rsimpl | by rsimpl | | by unfold fd_closed; rsimpl].
    rsimpl. rewrite Hpools. by apply delete_insert_id.
  - split; [by exists L, LA, LP|]. split_and!; [done | done | done | apply Ho | done].
Qed.

(** [ngxe_close] of a connection whose session could not be allocated. *)
Lemma close_unfinished_ok x er ew p objs w :
  stage x er ew (Some (p, objs)) w -> c_pool x = p -> s <> -1 -> c_destroyed x = false ->
  rwp (ngxe_close c) (fun _ w' => gone w') w.
Proof.
  intros [Hi Hwf Hfd (Ht1 & Ht2 & Hq1 & Hq2) [H1 H2 H3 H4 H5] Hs Hp _ (Hnext & Hpools & Hnone & Hpn & Hobjs)] Hpool Hs1 Hd.
  destruct (close_ok base w L LA LP F c x er ew (mk_pool [] objs) w) as (w' & L' & LA' & LP' & Hrun & Hi' & HL & HA & HP & Hf & Hc & Hps & Hpe & Hcb & Hss & Hit & Hls & Hsta & _);
    [done | done | congruence | done | done | done | done | rewrite Hpool, Hpools; apply lookup_insert_eq | done |].
  unfold rwp. rewrite Hrun. pose proof Hwf as [_ Hr Hw _ _ _]. cbn [pool_objs] in *.
  destruct (unused_tables objs w Hobjs) as (Es & Ec & Ei). rewrite Hs in Hss. rewrite H3 in Hcb. rewrite H4 in Hit.
  assert (forall e ev, w_events w !! e = Some ev -> ev_timer_set ev = false -> forall y, y ∈ L -> y.1 <> e) as HnL.
  { intros e ev He Hset y Hy <-. pose proof (proj2 (tm_set _ _ _ (iv_timers _ _ _ _ _ _ Hi) y.1 ev He)) as Hset'.
    rewrite Hset' in Hset; [done|]. apply list_elem_of_fmap. eauto. }
  assert (forall q Lq, posted q w Lq -> forall y, y ∈ Lq -> y <> c_read x /\ y <> c_write x) as HnQ.
  { intros q Lq Hq y Hy. split; intros ->; [exact (queue_prev _ _ _ _ _ Hq Hr Hq1 Hy) | exact (queue_prev _ _ _ _ _ Hq Hw Hq2 Hy)]. }
  split.
  - exists L', LA', LP'. split_and!; [done | | |].
    + intros y. rewrite HL. split; [tauto|]. intros Hy. split_and!; [done | |]; eapply HnL; eauto.
    + intros y. rewrite (HA y). split; [tauto|]. intros Hy. destruct (HnQ _ _ (iv_accept _ _ _ _ _ _ Hi) y Hy). done.
    + intros y. rewrite (HP y). split; [tauto|]. intros Hy. destruct (HnQ _ _ (iv_posted _ _ _ _ _ _ Hi) y Hy). done.
  - rewrite Hfd in Hf. split_and!; [constructor | congruence | congruence | | done]; [congruence | | congruence..|].
    + intros c' Hne. rewrite Hc, lookup_insert_ne by done. auto.
    + rewrite Hps, Hpool, Hpools. by apply delete_insert_id.
Qed.

Context (rec : task -> W Z) (ls : ptr) (l : ngx_listening_t) (xl : ngx_connection_t) (y : ngxe_callback_t) (a0 a1 : ptr) (args : list ptr).
Context (Hs1 : s <> -1) (Hls : w_listenings w0 !! ls = Some l) (Hlc : ls_connection l <> c)
  (Hxl : w_conns w0 !! ls_connection l = Some xl) (Hcb : w_callbacks w0 !! c_data xl = Some y)
  (Hargs : cb_args y = a0 :: a1 :: args).
Context (Hsets : forall text, exists i1 i2, sv_setiv a0 c (w_perl w0) = Some i1 /\ sv_setpv a1 text i1 = Some i2).

(** The connection is ready for its owner: a pool with a zeroed session in it,
    handlers that do nothing, and the callback's first two arguments set to
    the connection and the peer's address. *)
Record accepted (text : list Z) (x : ngx_connection_t) (er ew : ngx_event_t) (objs : list ptr) (w : world) : Prop := mk_accepted {
  ac_inv : inv base w L LA LP F;
  ac_conn : wf_conn w c x er ew;
  ac_fd : c_fd x = s;
  ac_idle : idle er ew;
  ac_kept : kept w;
  ac_pools : w_pools w = <[c_pool x := mk_pool [] objs]> (w_pools w0);
  ac_new : w_pools w0 !! c_pool x = None /\ w_sessions w0 !! c_data x = None;
  ac_objs : c_data x ∈ objs;
  ac_sessions : w_sessions w = <[c_data x := zero_session]> (w_sessions w0);
  ac_handlers : ev_handler er = H_ngxe_dummy_handler /\ ev_handler ew = H_ngxe_dummy_handler /\ ev_ready ew = true;
  ac_io : c_recv x = true /\ c_send x = true;
  ac_listening : c_listening x = ls;
  ac_text : c_addr_text x = text;
  ac_destroyed : c_destroyed x = false;
  ac_perl : exists i, sv_setiv a0 c (w_perl w0) = Some i /\ sv_setpv a1 text i = Some (w_perl w)
}.

Lemma rwp_stage_session Q x er ew p objs w :
  stage x er ew (Some (p, objs)) w ->
  (forall w', stage x er ew (Some (p, objs)) w' -> Q NULL w') ->
  (forall a w', a <> NULL -> w_next w0 <= a -> stage x er ew (Some (p, a :: objs)) w' ->
     Q a (w' <| w_sessions := <[a := zero_session]> (w_sessions w') |>)) ->
  rwp (pcalloc_session p) Q w.
Proof.
  intros Hw HN HP. unfold pcalloc_session. apply rwp_bind. eapply rwp_stage_alloc; [done | exact HN|].
  intros a w' Ha Hnew Hw'. destruct (Z.eqb_spec a NULL) as [|_]; [done|]. by apply HP.
Qed.

Lemma init_connection_ok x er ew p objs text Q w :
  stage x er ew (Some (p, objs)) w -> c_pool x = p -> c_listening x = ls -> c_addr_text x = text ->
  c_recv x = true -> c_send x = true -> c_destroyed x = false -> ev_ready ew = true ->
  (forall w', gone w' -> Q tt w') ->
  (forall x er ew objs w', accepted text x er ew objs w' -> rwp (callback rec (c_data xl) false) Q w') ->
  rwp (ngxe_server_init_connection rec c) Q w.
Proof.
  intros Hst Hp Hl Ht Hrv Hsd Hde Hre Hgone Hacc. unfold ngxe_server_init_connection.
  apply rwp_bind. eapply rwp_stage_c_rd; [done|]. apply rwp_bind. rewrite Hp. eapply rwp_stage_session; [done| |].
  { clear w Hst. intros w Hst. change (NULL =? NULL) with true. cbv iota.
    eapply rwp_mono; [by eapply close_unfinished_ok|]. intros [] w' Hw'. by apply Hgone. }
  clear w Hst. intros ss w Hss Hnew Hst. destruct (Z.eqb_spec ss NULL) as [|_]; [done|].
  pose proof Hst as [Hi Hwf Hfd Hid [G1 G2 G3 G4 G5] Hs Hpe Hev (_ & Hpools & Hnone & Hpn & Hobjs)].
  pose proof Hwf as [Hc Hr Hw Hne Hd1 Hd2].
  destruct (Hsets text) as (i1 & i2 & Hi1 & Hi2).
  rewrite <- (G2 _ Hlc) in Hxl.
  rewrite <- G1 in Hls. rewrite <- G3 in Hcb.
  unfold rwp, ls_rd, cb_arg. unfold_accessors. do 8 step. rsimpl. rewrite Hl. do 2 step.
  do 2 step. rewrite Hargs. cbn [lookup list_lookup]. step. erewrite perl_do_step by (rsimpl; rewrite Hpe; exact Hi1).
  do 2 step. rewrite Hargs. cbn [lookup list_lookup]. do 2 step. rsimpl. rewrite Ht.
  erewrite perl_do_step by (rsimpl; exact Hi2). rsimpl.
  match goal with |- match _ ?w' with _ => _ end => change (rwp (callback rec (c_data xl) false) Q w') end.
  eapply (Hacc (x <| c_data := ss |>) (er <| ev_handler := H_ngxe_dummy_handler |>) (ew <| ev_handler := H_ngxe_dummy_handler |>) (ss :: objs)).
  assert (Hi' : inv base (put_event (c_write x) (ew <| ev_handler := H_ngxe_dummy_handler |>)
     (put_event (c_read x) (er <| ev_handler := H_ngxe_dummy_handler |>)
       (w <| w_conns := <[c := x <| c_data := ss |>]> (w_conns w) |>))) L LA LP F).
  { eapply (inv_put_event _ _ _ _ _ _ (c_write x) ew); [|unfold put_event; look | done | done].
    eapply (inv_put_event _ _ _ _ _ _ (c_read x) er); [by apply inv_conn_out | exact Hr | done | done]. }
  destruct Hunused as [_ Hun]. destruct (Hun ss Hnew) as (_ & Hns & _).
  constructor; rsimpl; try done.
  - eapply inv_frame; [..|exact Hi']; reflexivity.
  - split; rsimpl; [look | look | look | done | done | done].
  - constructor; rsimpl; try done. intros c' Hne'. rewrite lookup_insert_ne by done. auto.
  - by rewrite Hp.
  - by rewrite Hp.
  - set_solver.
  - by rewrite Hs.
  - eauto.
Qed.
(** The end of the turn: the address as text, the backend, the session. *)
Definition accept_finish (sa : list Z) (flags : Z) (pool : ptr) : W bool :=
  (do! addr_ntop := ls_rd ls ls_addr_ntop in
   do! max_len := ls_rd ls ls_addr_text_max_len in
   do! text := (if addr_ntop : bool then
                  do! data := pool_alloc pool max_len in
                  if data =? NULL then rret None
                  else
                    let text := Inet.ngx_sock_ntop (sockaddr_of sa) max_len false in
                    c_wr c c_addr_text text ;;;
                    rret (match text with [] => None | _ => Some text end)
                else rret (Some [])) in
   match text with
   | None => ngx_close_accepted_connection c ;;; rret false
   | Some _ =>
       do! r := (match ngx_add_conn with
                 | Some add_conn => if has flags NGX_USE_EPOLL_EVENT then rret NGX_OK else add_conn c
                 | None => rret NGX_OK
                 end) in
       if r =? NGX_ERROR then ngx_close_accepted_connection c ;;; rret false
       else ngxe_server_init_connection rec c ;;; rret true
   end)%run.

Definition peer_text (sa : list Z) : list Z :=
  if ls_addr_ntop l then Inet.ngx_sock_ntop (sockaddr_of sa) (ls_addr_text_max_len l) false else [].

Context (Q : bool -> world -> Prop) (sa : list Z).
Context (Hgone : forall b w', gone w' -> Q b w')
  (Hacc : forall x er ew objs w', accepted (peer_text sa) x er ew objs w' ->
            rwp (callback rec (c_data xl) false) (fun _ => Q true) w').

Lemma decline_ok x er ew o w :
  stage x er ew o w -> c_pool x = match o with Some (p, _) => p | None => NULL end ->
  rwp (ngx_close_accepted_connection c ;;; rret false)%run Q w.
Proof.
  intros Hst Hp. apply rwp_bind. eapply rwp_mono; [by eapply close_accepted_ok|]. intros [] w' Hw'. by apply Hgone.
Qed.

Lemma accept_register_ok flags x er ew p objs w :
  stage x er ew (Some (p, objs)) w -> c_pool x = p -> c_listening x = ls -> c_addr_text x = peer_text sa ->
  c_recv x = true -> c_send x = true -> c_destroyed x = false -> ev_ready ew = true ->
  rwp (do! r := (match ngx_add_conn with
                 | Some add_conn => if has flags NGX_USE_EPOLL_EVENT then rret NGX_OK else add_conn c
                 | None => rret NGX_OK
                 end) in
       if r =? NGX_ERROR then ngx_close_accepted_connection c ;;; rret false
       else ngxe_server_init_connection rec c ;;; rret true)%run Q w.
Proof.
  intros Hst Hp Hl Ht Hrv Hsd Hde Hre. apply rwp_bind.
  assert (forall er ew r w', stage x er ew (Some (p, objs)) w' -> ev_ready ew = true ->
    rwp (if r =? NGX_ERROR then ngx_close_accepted_connection c ;;; rret false
         else ngxe_server_init_connection rec c ;;; rret true)%run Q w') as Hend.
  { intros er' ew' r w' Hst' Hre'. destruct (r =? NGX_ERROR); [by eapply decline_ok|].
    apply rwp_bind. eapply init_connection_ok; [done..| |].
    - intros w1 Hw1. by apply Hgone.
    - intros x1 er1 ew1 objs1 w1 Hw1. by eapply Hacc. }
  destruct ngx_add_conn as [add|] eqn:Hadd; [|by eapply Hend]. destruct (has _ _); [by eapply Hend|].
  eapply rwp_stage_add_conn; [done | done | |]; intros rc w' Hst'; by eapply Hend.
Qed.

Lemma accept_finish_ok flags x er ew p objs w :
  stage x er ew (Some (p, objs)) w -> c_pool x = p -> c_listening x = ls -> c_addr_text x = [] ->
  c_recv x = true -> c_send x = true -> c_destroyed x = false -> ev_ready ew = true ->
  rwp (accept_finish sa flags p) Q w.
Proof.
  intros Hst Hp Hl Ht Hrv Hsd Hde Hre. unfold accept_finish, ls_rd.
  assert (w_listenings w !! ls = Some l) as Hlw by (by rewrite (kp_listenings _ (sg_kept _ _ _ _ _ Hst))).
  apply rwp_bind, (rwp_rd_at _ _ _ _ _ _ Hlw), rwp_bind, (rwp_rd_at _ _ _ _ _ _ Hlw), rwp_bind. clear Hlw.
  destruct (ls_addr_ntop l) eqn:Hnt.
  2:{ apply rwp_ret. eapply accept_register_ok; [done..| |done|done|done|done]. unfold peer_text. by rewrite Hnt. }
  apply rwp_bind. eapply rwp_stage_alloc; [done| |]; clear w Hst.
  { intros w Hst. change (NULL =? NULL) with true. cbv iota. apply rwp_ret. by eapply decline_ok. }
  intros a w Ha _ Hst. destruct (Z.eqb_spec a NULL) as [|_]; [done|]. cbv zeta.
  assert (peer_text sa = Inet.ngx_sock_ntop (sockaddr_of sa) (ls_addr_text_max_len l) false) as Hpt
    by (unfold peer_text; by rewrite Hnt).
  rewrite <- Hpt. apply rwp_bind. eapply rwp_stage_c_wr; [done..|]. clear w Hst. intros w Hst. apply rwp_ret.
  destruct (peer_text sa) as [|b text] eqn:Htx in |- *; [by eapply decline_ok|].
  by eapply accept_register_ok.
Qed.

(** The connection's fields, its events and its number. *)
Definition accept_fields (ev : ptr) (flags : Z) (pool : ptr) : W bool :=
  (c_wr c c_recv true ;;;
   c_wr c c_send true ;;;
   c_wr c c_listening ls ;;;
   c_wr c c_unexpected_eof true ;;;
   do! rev := c_rd c c_read in
   do! wev := c_rd c c_write in
   ev_wr wev ev_ready true ;;;
   (when has flags (Z.lor NGX_USE_AIO_EVENT NGX_USE_RTSIG_EVENT)
    then ev_wr rev ev_ready true) ;;;
   do! deferred := ev_rd ev ev_deferred_accept in
   (when deferred then ev_wr rev ev_ready true) ;;;
   do! counter := rd_g w_counter in
   c_wr c c_number counter ;;;
   wr_g w_counter (u64 (counter + 1)) ;;;
   accept_finish sa flags pool)%run.

(** From the new pool to the address. *)
Definition accept_prepare (ev : ptr) (pool : ptr) : W bool :=
  (do! p := pool_alloc pool (Z.of_nat (length sa)) in
   if p =? NULL then ngx_close_accepted_connection c ;;; rret false
   else
     c_wr c c_sockaddr sa ;;;
     do! log := pool_alloc pool sizeof_ngx_log_t in
     if log =? NULL then ngx_close_accepted_connection c ;;; rret false
     else
       do! inherited := rd_g w_inherited_nonblocking in
       do! flags := rd_g w_flags in
       do! r := (if negb inherited
                    && negb (has flags (Z.lor NGX_USE_AIO_EVENT NGX_USE_RTSIG_EVENT))
                 then sys (sys_nonblocking s) else rret (inl tt)) in
       if match r with inr _ => true | inl _ => false end
       then ngx_close_accepted_connection c ;;; rret false
       else
         accept_fields ev flags pool)%run.

Lemma rwp_stage_when_ready (b : bool) e R x er ew o w :
  stage x er ew o w -> e = c_read x ->
  (forall er' w', stage x er' ew o w' -> R tt w') -> rwp (if b then ev_wr e ev_ready true else rret tt) R w.
Proof.
  intros Hst He HR. destruct b; [|by eapply HR]. eapply rwp_stage_rev_wr; [by intros ?|done|done|]. intros w' Hw'. by eapply HR.
Qed.

Lemma accept_fields_ok ev flags x er ew p objs w :
  stage x er ew (Some (p, objs)) w -> is_Some (w_events w0 !! ev) ->
  c_pool x = p -> c_addr_text x = [] -> c_destroyed x = false ->
  rwp (accept_fields ev flags p) Q w.
Proof.
  intros Hst Hev Hp Ht Hde. unfold accept_fields.
  do 4 (apply rwp_bind; eapply rwp_stage_c_wr; [done..|]; clear w Hst; intros w Hst).
  do 2 (apply rwp_bind; eapply rwp_stage_c_rd; [done|]).
  apply rwp_bind. eapply rwp_stage_wev_wr; [by intros ?|done|done|]. clear w Hst. intros w Hst.
  apply rwp_bind. eapply rwp_stage_when_ready; [done|done|]. clear w Hst. intros er1 w Hst.
  destruct (sg_events _ _ _ _ _ Hst ev Hev) as [evx Hevx].
  apply rwp_bind. eapply rwp_rd_at; [exact Hevx|]. apply rwp_bind. eapply rwp_stage_when_ready; [done|done|].
  clear w Hst Hevx. intros er2 w Hst. apply rwp_bind, rwp_rd_g. generalize (w_counter w). intros counter.
  apply rwp_bind. eapply rwp_stage_c_wr; [done..|]. clear w Hst. intros w Hst.
  apply rwp_bind. eapply rwp_stage_counter; [done|]. clear w Hst. intros w Hst.
  by eapply accept_finish_ok.
Qed.

Lemma accept_prepare_ok ev x er ew p w :
  stage x er ew (Some (p, [])) w -> is_Some (w_events w0 !! ev) ->
  c_pool x = p -> c_addr_text x = [] -> c_destroyed x = false ->
  rwp (accept_prepare ev p) Q w.
Proof.
  intros Hst Hev Hp Ht Hde. unfold accept_prepare. apply rwp_bind.
  eapply rwp_stage_alloc; [done| |]; clear w Hst.
  { intros w Hst. change (NULL =? NULL) with true. cbv iota. by eapply decline_ok. }
  intros a w Ha _ Hst. destruct (Z.eqb_spec a NULL) as [|_]; [done|].
  apply rwp_bind. eapply rwp_stage_c_wr; [done..|]. clear w Hst. intros w Hst.
  apply rwp_bind. eapply rwp_stage_alloc; [done| |]; clear w Hst.
  { intros w Hst. change (NULL =? NULL) with true. cbv iota. by eapply decline_ok. }
  intros a' w Ha' _ Hst. destruct (Z.eqb_spec a' NULL) as [|_]; [done|].
  apply rwp_bind, rwp_rd_g, rwp_bind, rwp_rd_g. generalize (w_inherited_nonblocking w), (w_flags w). intros inherited flags.
  assert (forall (r : unit + Z) w', stage (x <| c_sockaddr := sa |>) er ew (Some (p, [a'; a])) w' ->
    rwp (if match r with inr _ => true | inl _ => false end then ngx_close_accepted_connection c ;;; rret false
         else accept_fields ev flags p)%run Q w') as Hend.
  { intros [u|err] w' Hst'; [by eapply accept_fields_ok | by eapply decline_ok]. }
  apply rwp_bind. destruct (negb inherited && _); [eapply rwp_stage_sys; [done|]; intros r w'; apply Hend | by apply Hend].
Qed.
End Stage.

Section Accepting.
Context {HPerl : Perl} {HKern : Kernel} {HAct : EventActions} {HOk : EventActionsOk HAct}.

(** The connection just taken is the first stage. *)
Lemma taken_stage base w L LA LP F c x er ew s :
  inv base w L LA LP (c :: F) -> wf_conn w c x er ew -> idle er ew ->
  let i := negb (ev_instance er) in
  stage base L LA LP F c s w (fresh_conn (c_read x) (c_write x) s) (fresh_event c i false) (fresh_event c i true) None
    (taken c x er s w).
Proof.
  intros Hi Hwf Hid i. destruct (taken_out _ _ _ _ _ _ _ _ _ _ s Hi Hwf Hid) as [Hi' _].
  pose proof Hwf as [Hc Hr Hw Hne _ _]. constructor; [done | | done | done | | done | done | | done].
  - split; [unfold taken; rsimpl; apply lookup_insert_eq | unfold taken; look | unfold taken; look | done..].
  - constructor; try done. intros c' Hne'. unfold taken. rsimpl. by rewrite lookup_insert_ne.
  - intros e He. unfold taken. rsimpl. rewrite !lookup_insert_is_Some'. auto.
Qed.

Lemma accept_none_ok base w L LA LP rec ev ls s sa :
  inv base w L LA LP [] ->
  rwp (accept_one rec ev ls s sa) (fun more w' => more = false /\ fd_closed s w' /\ exists n k,
    w' = w <| w_accept_disabled := n |> <| w_kern := k |>) w.
Proof.
  intros Hi. pose proof (iv_free _ _ _ _ _ _ Hi) as (_ & Hfree & _). cbn in Hfree. unfold accept_one, rwp. do 3 step.
  erewrite bind_step by (apply get_connection_none; [exact (iv_files _ _ _ _ _ _ Hi) | exact Hfree]).
  change (NULL =? NULL) with true. cbv iota beta.
  destruct (sys_close s (w_kern w)) as [rc k] eqn:Hcl. erewrite sys_step by exact Hcl. split_and!; [done | | by eexists _, _].
  exists (w_kern w). rsimpl. by rewrite Hcl.
Qed.

Lemma accept_one_ok base w L LA LP F c x er ew rec ev ls s sa l xl y a0 a1 args Q :
  inv base w L LA LP (c :: F) -> wf_conn w c x er ew -> idle er ew -> unused w ->
  s <> -1 -> is_Some (w_events w !! ev) ->
  w_listenings w !! ls = Some l -> ls_connection l <> c -> w_conns w !! ls_connection l = Some xl ->
  w_callbacks w !! c_data xl = Some y -> cb_args y = a0 :: a1 :: args ->
  (forall text, exists i1 i2, sv_setiv a0 c (w_perl w) = Some i1 /\ sv_setpv a1 text i1 = Some i2) ->
  (forall b w', gone base L LA LP F c s w w' -> Q b w') ->
  (forall x er ew objs w', accepted base L LA LP F c s w ls a0 a1 (peer_text l sa) x er ew objs w' ->
     rwp (callback rec (c_data xl) false) (fun _ => Q true) w') ->
  rwp (accept_one rec ev ls s sa) Q w.
Proof.
  intros Hi Hwf Hid Hun Hs Hev Hls Hlc Hxl Hcb Hargs Hsets Hgone Hacc.
  pose proof (iv_free _ _ _ _ _ _ Hi) as (Hnd & (Hfree & Hnull & _) & _ & Hlen).
  apply list.NoDup_cons in Hnd as [HcF _]. cbn [length] in Hlen. assert (Z.of_nat (length F) + 1 < 2 ^ 64) as Hlen' by lia.
  unfold accept_one. apply rwp_bind, rwp_rd_g, rwp_bind, rwp_rd_g, rwp_bind.
  generalize (s64 (w_connection_n w / 8 - w_free_n w)). intros n. cbn [rwp wr_g].
  set (w1 := w <| w_accept_disabled := n |>).
  assert (inv base w1 L LA LP (c :: F)) as Hi1 by (eapply inv_frame; [..|exact Hi]; reflexivity).
  assert (wf_conn w1 c x er ew) as Hwf1 by (by destruct Hwf).
  assert (forall w' x er ew o, stage base L LA LP F c s w1 x er ew o w' -> stage base L LA LP F c s w x er ew o w') as Hrel.
  { intros w' x' er' ew' o [G1 G2 G3 G4 [? ? ? ? ?] G6 G7 G8 G9]. constructor; [done..|by constructor|done|done|done|done]. }
  apply rwp_bind. unfold rwp at 1. rewrite (get_connection_run w1 c x er ew s Hwf1 Hfree Hnull (iv_files _ _ _ _ _ _ Hi1)).
  2,3: apply (tm_node _ _ _ (iv_timers _ _ _ _ _ _ Hi1)); destruct Hwf1; by eexists.
  destruct (Z.eqb_spec c NULL) as [|_]; [done|].
  pose proof (Hrel _ _ _ _ _ (taken_stage _ _ _ _ _ _ _ _ _ _ s Hi1 Hwf1 Hid)) as Hst. revert Hst.
  generalize (taken c x er s w1). clear Hrel Hi1 Hwf1 w1 n. intros w' Hst.
  assert (w_listenings w' !! ls = Some l) as Hlw by (by rewrite (kp_listenings _ _ _ (sg_kept _ _ _ _ _ _ _ _ _ _ _ _ _ Hst))).
  apply rwp_bind, (rwp_rd_at _ _ _ _ _ _ Hlw), rwp_bind. clear Hlw.
  eapply rwp_stage_create_pool; [done|done| |]; clear w' Hst.
  - intros w' Hst. apply rwp_bind. eapply rwp_stage_c_wr; [done..|]. clear w' Hst. intros w' Hst.
    change (NULL =? NULL) with true. cbv iota. by eapply decline_ok.
  - intros p w' Hp Hst. apply rwp_bind. eapply rwp_stage_c_wr; [done..|]. clear w' Hst. intros w' Hst.
    destruct (Z.eqb_spec p NULL) as [|_]; [done|].
    by eapply (accept_prepare_ok base L LA LP F c s w).
Qed.
End Accepting.

(** * The theorem *)

(** C2.  One turn of the loop of [ngx_event_accept] with a new socket, with any
    backend, any answers of the kernel and any failing allocation: it returns.
    Either the new connection was taken off the free list and given its pool, a
    zeroed session, the peer's address and handlers that do nothing, and the
    server's callback ran with the connection and the address as its first
    arguments, in a world otherwise as before; or nothing is left: the
    connection is free again, the socket closed, the pool and all that was
    allocated from it gone, and timers, queues, sessions, callbacks and other
    connections are as they were.  With no free connection the socket is closed
    and the loop ends. *)
Theorem accept_one_correct {HPerl : Perl} {HKern : Kernel} {HAct : EventActions} {HOk : EventActionsOk HAct}
    base w L LA LP F c x er ew rec ev ls s sa l xl y a0 a1 args P :
  (inv base w L LA LP (c :: F) -> wf_conn w c x er ew -> idle er ew -> unused w ->
   s <> -1 -> is_Some (w_events w !! ev) ->
   w_listenings w !! ls = Some l -> ls_connection l <> c -> w_conns w !! ls_connection l = Some xl ->
   w_callbacks w !! c_data xl = Some y -> cb_args y = a0 :: a1 :: args ->
   (forall text, exists i1 i2, sv_setiv a0 c (w_perl w) = Some i1 /\ sv_setpv a1 text i1 = Some i2) ->
   (forall x er ew objs w', accepted base L LA LP F c s w ls a0 a1 (peer_text l sa) x er ew objs w' ->
      rwp (callback rec (c_data xl) false) (fun _ => P) w') ->
   exists more w', accept_one rec ev ls s sa w = Done more w' /\
     (gone base L LA LP F c s w w' \/ (more = true /\ P w'))) /\
  (inv base w L LA LP [] ->
   exists w' n k, accept_one rec ev ls s sa w = Done false w' /\ fd_closed s w' /\
     w' = w <| w_accept_disabled := n |> <| w_kern := k |>).
Proof.
  split.
  - intros Hi Hwf Hid Hun Hs Hev Hls Hlc Hxl Hcb Hargs Hsets Hacc.
    apply (rwp_run (accept_one rec ev ls s sa) (fun more w' => gone base L LA LP F c s w w' \/ (more = true /\ P w'))).
    eapply (accept_one_ok base w L LA LP F c x er ew); eauto.
    intros x' er' ew' objs w' Ha. eapply rwp_mono; [by eapply Hacc|]. auto.
  - intros Hi. pose proof (accept_none_ok base w L LA LP rec ev ls s sa Hi) as Hrun.
    apply rwp_run in Hrun as (more & w' & Hrun & -> & Hf & n & k & Hw'). by exists w', n, k.
Qed.

(** * Witness

    The server's listening connection 500 with the events 510 and 520 and the
    callback 300, its listening structure at 600, and one free connection. *)

Import Systems.
Local Existing Instance scripted_kernel.
Definition accept_perl : Perl := perl_of no_subs.
Local Existing Instance accept_perl.
#[local] Instance accept_refcounts : Refcount.RefcountLaws accept_perl := Refcount.perl_of_refcounts no_subs.

Definition listening_conn : ngx_connection_t :=
  zero_conn <| c_read := 510 |> <| c_write := 520 |> <| c_fd := 4 |> <| c_data := 300 |> <| c_listening := 600 |>.
Definition server_listening : ngx_listening_t := mk_listening 4 500 256 true 15 [2; 0; 0; 80; 127; 0; 0; 1] true.
Definition accept_world : world :=
  (small_world (mk_scalars (list_to_map [(200, Refcount.shared_sv); (208, Refcount.shared_sv); (216, Refcount.shared_sv)]) 1000 : interp) no_answers)
    <| w_tree := Rbtree.mk_rb (list_to_map [(8, node0); (110, node0); (120, node0); (510, node0); (520, node0)]) 8 |>
    <| w_events := list_to_map [(110, free_rev); (120, free_wev);
                                (510, zero_event <| ev_data := 500 |> <| ev_accept := true |> <| ev_handler := H_ngx_event_accept |>);
                                (520, zero_event <| ev_data := 500 |> <| ev_write := true |>)] |>
    <| w_conns := list_to_map [(100, free_conn); (500, listening_conn)] |>
    <| w_listenings := {[ 600 := server_listening ]} |>
    <| w_callbacks := {[ 300 := Refcount.some_callback ]} |>.

Lemma accept_world_events e ev :
  w_events accept_world !! e = Some ev ->
  ev_timer_set ev = false /\ ev_prev ev = Q_NULL /\ (e = 110 \/ e = 120 \/ e = 510 \/ e = 520).
Proof.
  simpl. rewrite !lookup_insert_Some, lookup_empty. naive_solver.
Qed.

Lemma accept_world_inv : inv 0 accept_world [] [] [] [100].
Proof.
  constructor; [|split_and!; [by left | constructor | done] | split_and!; [by right | constructor | done] | | | done].
  - constructor; [|constructor|set_solver| |set_solver|].
    + exists node0, 0, RbtreeRep.E, 0%nat. split_and!; [|constructor|done].
      constructor; [done | done | apply (bool_decide_unpack _); by vm_compute | done].
    + intros e ev He. destruct (accept_world_events e ev He) as [-> _]. set_solver.
    + intros e [ev He]. destruct (accept_world_events e ev He) as (_ & _ & [-> | [-> | [-> | ->]]]); (split; [by eexists | done]).
  - intros e ev He. by destruct (accept_world_events e ev He) as (_ & -> & _).
  - split_and!; [repeat constructor; set_solver | split_and!; [done | done |] | done | done]. by exists 0.
Qed.

(** The callback runs in every world in which a connection was accepted. *)
Lemma accept_callback_runs rec text x er ew objs w :
  accepted 0 [] [] [] [] 100 7 accept_world 600 208 216 text x er ew objs w ->
  rwp (callback rec 300 false) (fun _ w' => w_callbacks w' !! 300 = Some Refcount.some_callback) w.
Proof.
  intros Ha. destruct (ac_perl _ _ _ _ _ _ _ _ _ _ _ _ _ _ _ _ _ Ha) as (i & Hi & Hw).
  apply rwp_run. destruct (Refcount.callback_ok (fun a => rec (T_api a)) w 300 Refcount.some_callback false) as (i1 & w3 & i' & _ & _ & _ & _ & Hrun & _).
  - injection Hi as <-. injection Hw as Hw.
    split; try done; [rewrite (kp_callbacks _ _ _ (ac_kept _ _ _ _ _ _ _ _ _ _ _ _ _ _ _ _ _ Ha)); done | repeat constructor; set_solver by lia | |].
    + rewrite <- Hw. intros p Hp. change (p ∈ [200; 208; 216]) in Hp.
      repeat setoid_rewrite elem_of_cons in Hp. destruct Hp as [->|[->|[->|[]%not_elem_of_nil]]]; by eexists.
    + rewrite <- Hw. intros p q Hp _ (z & Hz & Hr & _). change (p ∈ [200; 208; 216]) in Hp.
      repeat setoid_rewrite elem_of_cons in Hp. destruct Hp as [->|[->|[->|[]%not_elem_of_nil]]]; cbn in Hz; by injection Hz as <-.
  - intros w1 _ Hap Ht. exists w1. split_and!; [by destruct w1 | done | | done | done].
    intros p Hp. cbn. destruct (heap (w_perl w1) !! p) as [y|]; [|done]. cbn. by rewrite Z.add_0_r.
  - eexists tt, _. split; [exact Hrun|]. rsimpl. apply lookup_insert_eq.
Qed.

Definition peer_address : list Z := [2; 0; 0; 99; 10; 0; 0; 1; 0; 0; 0; 0; 0; 0; 0; 0].

Lemma accept_one_correct_witness :
  exists more w', accept_one (fun _ => rfault) 510 600 7 peer_address accept_world = Done more w' /\
    (gone 0 [] [] [] [] 100 7 accept_world w' \/ (more = true /\ w_callbacks w' !! 300 = Some Refcount.some_callback)).
Proof.
  apply (proj1 (accept_one_correct 0 accept_world [] [] [] [] 100 free_conn free_rev free_wev (fun _ => rfault) 510 600 7
    peer_address server_listening listening_conn Refcount.some_callback 208 216 []
    (fun w' => w_callbacks w' !! 300 = Some Refcount.some_callback))).
  - apply accept_world_inv.
  - by split.
  - done.
  - split; [done|]. intros a Ha. change (1000 <= a) in Ha. cbn [w_pools w_sessions w_callbacks w_intervals].
    split_and!; [done | done | | done]. apply lookup_singleton_ne. lia.
  - done.
  - by eexists.
  - reflexivity.
  - done.
  - reflexivity.
  - reflexivity.
  - reflexivity.
  - intros text. by eexists _, _.
  - intros x er ew objs w'. apply accept_callback_runs.
Defined.

End Accept.
