(* ===== verification/Loop.v ===== *)
(** One pass of the event loop over the intervals of the Perl API: the loop of
    ngx_event.c, the timers, the dispatch of handlers, [ngxe_interval_callback]
    and the call of the subroutine, put together. *)
From stdpp Require Import base numbers gmap list.
From S2P Require Import Prelude Rbtree RbtreeTheorems World Systems Timer Event Connection Callback Refcount Session Server Engine.
Local Open Scope Z_scope.
Import Rbtree RbtreeTheorems World Timer Event Connection Callback Refcount Session Server Engine.

Module Loop.

Section Loop.
Context {HPerl : Perl} {HKern : Kernel} {HLaws : RefcountLaws HPerl} {HLog : CallLog HPerl}.

(** * The call of a subroutine *)

(** [scalars]: all the scalars the callbacks in question hold.  A subroutine that
    returns without calling the engine, gives back the references it takes, makes
    none of the scalars refer to another one or a temporary, and is recorded. *)
Context (scalars : list ptr).
Definition called (i : interp) : list (ptr * list ptr) := fst <$> calls i.
Definition recorded_sub (handler : ptr) (args : list ptr) : Prop :=
  forall i, held 0 scalars i -> apart scalars i -> no_temps scalars i -> exists i', call_sv handler args i = S_return i' /\
    counts_changed 0 scalars i i' /\ apart scalars i' /\ no_temps scalars i' /\ called i' = called i ++ [(handler, args)].

(** The count of every scalar [p] has changed by [f p]. *)
Definition shifted (f : ptr -> Z) (i i' : interp) : Prop :=
  forall p, p ∈ scalars -> sv_refcnt <$> sv_view i' p = (fun x => sv_refcnt x + f p) <$> sv_view i p.
Definition by_ (d : Z) (l : list ptr) (p : ptr) : Z := if bool_decide (p ∈ l) then d else 0.

Lemma shifted_trans f g i1 i2 i3 : shifted f i1 i2 -> shifted g i2 i3 -> shifted (fun p => f p + g p) i1 i3.
Proof.
  intros H1 H2 p Hp. specialize (H1 p Hp). specialize (H2 p Hp).
  destruct (sv_view i1 p), (sv_view i2 p), (sv_view i3 p); simplify_eq/=; try done. f_equal. lia.
Qed.
Lemma moved_shifted d l i i' : counts_moved d l i i' -> shifted (by_ d l) i i'.
Proof.
  intros Hm p Hp. rewrite (Hm p). unfold by_. case_bool_decide; destruct (sv_view i p); try done. cbn. by rewrite Z.add_0_r.
Qed.
Lemma changed_shifted i i' : counts_changed 0 scalars i i' -> shifted (fun _ => 0) i i'.
Proof. done. Qed.
Lemma shifted_held n m f i i' : (forall p, p ∈ scalars -> m <= n + f p) -> shifted f i i' -> held n scalars i -> held m scalars i'.
Proof.
  intros Hf Hs Hh p Hp. destruct (Hh p Hp) as (x & Hx & Hn). specialize (Hs p Hp). specialize (Hf p Hp). rewrite Hx in Hs.
  destruct (sv_view i' p) as [x'|]; [|done]. injection Hs as Hs. exists x'. split; [done | lia].
Qed.

Lemma callback_recorded rec w cb x :
  live_callback w cb x -> cb_handler x :: cb_args x ⊆ scalars -> held 0 scalars (w_perl w) -> apart scalars (w_perl w) ->
  recorded_sub (cb_handler x) (cb_args x) ->
  exists i', ngxe_callback rec cb false w = Done tt (w <| w_perl := i' |>) /\
    shifted (fun _ => 0) (w_perl w) i' /\ apart scalars i' /\ called i' = called (w_perl w) ++ [(cb_handler x, cb_args x)].
Proof.
  intros Hl Hsub Hall Hap Hrec. pose proof Hl as [Hcb Hh Hn Hne Hd Hnd Hheld _].
  destruct (cb_args x !! 0%nat) as [a0|] eqn:H0; [|by destruct (cb_args x)].
  destruct (Hheld a0) as (y & Hy & _); [apply elem_of_cons; right; by eapply list_elem_of_lookup_2|].
  set (l := cb_handler x :: cb_args x) in *.
  unfold ngxe_callback, cb_arg, cb_rd. do 2 step. rewrite H0. step. step. step.
  destruct (Z.eqb_spec (cb_handler x) NULL) as [|_]; [done|]. step. rewrite Hn.
  erewrite bind_step by (apply args_upto_run; exact Hcb). cbv beta. step. step.
  set (w1 := w <| w_perl := SAVETMPS (w_perl w) |>).
  assert (shifted (fun _ => 0) (w_perl w) (w_perl w1)) as Hs1.
  { intros p Hp. unfold w1. rsimpl. rewrite save_law. destruct (sv_view (w_perl w) p); [|done]. cbn. by rewrite Z.add_0_r. }
  assert (held 0 scalars (w_perl w1)) as Hh1 by (eapply shifted_held; [|exact Hs1|exact Hall]; intros; lia).
  destruct (take_refs w1 (cb_handler x) (cb_args x) Hnd) as (i2 & Hrun2 & Hs2%moved_shifted & Hk2 & Hc2); [by eapply held_mono; [| |exact Hh1]|].
  rewrite seq2, (bind_step _ _ _ _ _ Hrun2).
  assert (held 0 scalars i2) as Hh2.
  { eapply shifted_held; [|exact Hs2|exact Hh1]. intros p Hp. unfold by_. case_bool_decide; lia. }
  destruct (Hrec i2 Hh2) as (i3 & Hcall & Hs3 & Hap3 & Ht3 & Hc3).
  { eapply apart_linked; [exact Hk2|]. intros p q Hp Hq Hr. apply (Hap p q Hp Hq). by apply save_reaches. }
  { eapply no_temps_linked; [exact Hk2|]. intros p Hp. apply save_temps. }
  assert (do_call_sv rec (cb_handler x) (cb_args x) (w1 <| w_perl := i2 |>) = Done tt (w <| w_perl := i3 |>)) as Hrun3.
  { unfold do_call_sv. step. rsimpl. by rewrite Hcall. }
  rewrite (bind_step _ _ _ _ _ Hrun3). erewrite bind_step by (apply args_upto_run; exact Hcb). cbv beta.
  pose proof (shifted_trans _ _ _ _ _ Hs2 (changed_shifted _ _ Hs3)) as Hs23. cbv beta in Hs23.
  destruct (give_refs (w <| w_perl := i3 |>) cb x) as (i4 & Hrun4 & Hs4%moved_shifted & Hk4 & Hc4); [exact Hcb | exact Hnd | |].
  { intros p Hp. destruct (Hh1 p (Hsub p Hp)) as (z & Hz & Hzn). pose proof (Hs23 p (Hsub p Hp)) as Hs. rewrite Hz in Hs.
    unfold by_ in Hs. rewrite bool_decide_eq_true_2 in Hs by exact Hp. rsimpl. destruct (sv_view i3 p) as [z'|]; [|done].
    injection Hs as Hs. exists z'. split; [done | lia]. }
  rewrite seq3, (bind_step _ _ _ _ _ Hrun4). step. step. unfold wr_g. exists (FREETMPS i4). split_and!; [done | | |].
  - intros p Hp. rewrite free_law by (by apply (no_temps_linked scalars _ _ Hk4)).
    pose proof (shifted_trans _ _ _ _ _ Hs1 (shifted_trans _ _ _ _ _ Hs23 Hs4) p Hp) as Hs. cbv beta in Hs. rewrite Hs.
    unfold by_. case_bool_decide; by destruct (sv_view (w_perl w) p).
  - intros p q Hp Hq Hr%free_reaches. by apply (apart_linked scalars _ _ Hk4 Hap3 p q Hp Hq).
  - unfold called in *. rewrite calls_free, Hc4. rsimpl. rewrite Hc3, Hc2. unfold w1. rsimpl. by rewrite calls_save.
Qed.

(** * Intervals *)

(** The interval and the callback of each event. *)
Context (info : ptr -> ngxe_interval_t * ngxe_callback_t).
Definition deadline (now e : Z) : Z := u64 (now + i_msec (info e).1).
Definition call_of (e : ptr) : ptr * list ptr := (cb_handler (info e).2, cb_args (info e).2).

(** The event [e] belongs to an interval, whose callback is live and whose
    subroutine returns. *)
Record interval_at (w : world) (e : ptr) (ev : ngx_event_t) (c : ngx_connection_t) : Prop := mk_interval_at {
  ia_event : w_events w !! e = Some ev;
  ia_handler : ev_handler ev = H_ngxe_interval_callback;
  ia_conn : w_conns w !! ev_data ev = Some c;
  ia_interval : w_intervals w !! c_data c = Some (info e).1;
  ia_callback : live_callback w (i_callback (info e).1) (info e).2;
  ia_msec : 0 <= i_msec (info e).1;
  ia_scalars : cb_handler (info e).2 :: cb_args (info e).2 ⊆ scalars;
  ia_sub : recorded_sub (cb_handler (info e).2) (cb_args (info e).2)
}.

(** The world between two passes: the armed events [L] are intervals, nothing is
    posted. *)
Record intervals (base : Z) (w : world) (L : list (Z * Z)) : Prop := mk_intervals {
  iv_timers : timers base w L;
  iv_each : forall e, e ∈ L.*1 -> exists ev c, interval_at w e ev c;
  iv_held : held 0 scalars (w_perl w);
  iv_apart : apart scalars (w_perl w);
  iv_posted : w_posted w = NULL;
  iv_accept : w_posted_accept w = NULL;
  iv_resolution : w_timer_resolution w = 0;
  iv_alarm : w_timer_alarm w = false
}.

(** What a pass changes: timers and flags of the events, the interpreter, the
    clock and the kernel. *)
Definition same_objects (w w' : world) : Prop :=
  w_conns w' = w_conns w /\ w_intervals w' = w_intervals w /\ w_callbacks w' = w_callbacks w.

Lemma interval_at_frame w w' e ev ev' c :
  same_objects w w' -> held 0 scalars (w_perl w') -> apart scalars (w_perl w') -> w_events w' !! e = Some ev' ->
  ev_handler ev' = ev_handler ev -> ev_data ev' = ev_data ev -> interval_at w e ev c -> interval_at w' e ev' c.
Proof.
  intros (Hc & Hi & Hcb) Hh Hap Hev Hhd Hd []. destruct ia_callback0. constructor; [done | congruence | by rewrite Hc, Hd | by rewrite Hi | | done..].
  constructor; try done; [by rewrite Hcb | by eapply held_mono; [| |exact Hh]|]. intros p q Hp Hq. apply Hap; set_solver.
Qed.

Lemma deadline_later base now e :
  0 <= base -> in_window base now -> 0 <= i_msec (info e).1 -> u64 (now - base) + i_msec (info e).1 < 2 ^ 63 ->
  in_window base (deadline now e) /\ u64 (deadline now e - base) = u64 (now - base) + i_msec (info e).1 /\
  u64 (now + u64 (i_msec (info e).1)) = deadline now e.
Proof.
  intros Hb [Hn1 Hn2] Hm Hs. unfold in_window, deadline. set (m := i_msec (info e).1) in *.
  pose proof (u64_range (now - base)) as Hr. 
  assert (u64 (u64 (now + m) - base) = u64 (now - base) + m) as Heq.
  { unfold u64, wrapU. rewrite Zminus_mod_idemp_l. replace (now + m - base) with (now - base + m) by lia.
    rewrite <- Zplus_mod_idemp_l. apply Z.mod_small. unfold u64, wrapU in Hs, Hr. lia. }
  rewrite Heq. split; [split; [apply u64_range | lia] |]. split; [done|]. unfold u64, wrapU. by rewrite Zplus_mod_idemp_r.
Qed.

(** [ngx_event_add_timer] on an event that is not armed. *)
Lemma add_timer_new base w L e ev timer :
  timers base w L -> w_events w !! e = Some ev -> ev_timer_set ev = false -> in_window base (u64 (w_msec w + timer)) ->
  exists t L1 L2, L = L1 ++ L2 /\
    ngx_event_add_timer e timer w = Done tt (with_timer w e t (ev <| ev_timer_set := true |>)) /\
    timers base (with_timer w e t (ev <| ev_timer_set := true |>)) (L1 ++ (e, u64 (w_msec w + timer)) :: L2).
Proof.
  intros Ht Hev Hset Hwin. assert (e ∉ L.*1) as He by (intros He; apply (tm_set _ _ _ Ht e ev Hev) in He; congruence).
  destruct (add_insert_ok base w L e _ ev Ht Hev He Hwin) as (t & L1 & L2 & HL & Hrun & Ht'). exists t, L1, L2.
  split_and!; [done | | done]. unfold ngx_event_add_timer, ev_rd. step. cbv zeta. step. by rewrite Hset.
Qed.

(** ** One handler *)

(** A list without one element of it. *)
Lemma filter_mid (La Lb : list (Z * Z)) e k :
  e ∉ (La ++ Lb).*1 -> filter (fun x => x.1 <> e) (La ++ (e, k) :: Lb) = La ++ Lb.
Proof.
  intros He. rewrite filter_app, filter_cons, decide_False by (cbn; tauto). rewrite <- filter_app.
  apply filter_all. intros x Hx <-. apply He. apply list_elem_of_fmap. eauto.
Qed.

Context (base now : Z) (L0 : list (Z * Z)).
Context (Hbase : 0 <= base) (Hnow : in_window base now).
Context (Hwindow : forall e, e ∈ L0.*1 -> u64 (now - base) + i_msec (info e).1 < 2 ^ 63).

Definition during (w : world) (L : list (Z * Z)) : Prop :=
  intervals base w L /\ w_msec w = now /\ (forall e, e ∈ L.*1 <-> e ∈ L0.*1) /\
  (forall x, x ∈ L -> x ∈ L0 \/ x.2 = deadline now x.1).

Lemma handler_run n e w w' ev :
  w_events w !! e = Some ev -> ev_handler ev = H_ngxe_interval_callback -> 
  ngxe_interval_callback (run n) e w = Done tt w' -> call_handler (S n) e w = Done tt w'.
Proof.
  intros Hev Hh Hrun. unfold call_handler. cbn [run run_task]. unfold run_handler, ev_rd. rewrite !bind_assoc. step. rewrite Hh.
  by rewrite (bind_step _ _ _ _ _ Hrun).
Qed.

Lemma interval_rearms n e k L w t ev :
  during w ((e, k) :: L) -> w_events w !! e = Some ev -> timers base (with_timer w e t (timed_out ev)) L ->
  exists w' La Lb, call_handler (S n) e (with_timer w e t (timed_out ev)) = Done tt w' /\ L = La ++ Lb /\ (e ∉ L.*1) /\
    during w' (La ++ (e, deadline now e) :: Lb) /\ called (w_perl w') = called (w_perl w) ++ [call_of e].
Proof.
  intros (Hiv & Hms & Hdom & Hkeys) Hev Ht. pose proof Hiv as [Ht0 Heach Hheld Hap Hp1 Hp2 Hres Hal].
  destruct (Heach e) as (ev0 & c & Hat); [set_solver|]. pose proof Hat as [Hev0 Hhd Hc Hi Hcb Hm Hsub Hrec].
  assert (ev0 = ev) as -> by congruence. set (w1 := with_timer w e t (timed_out ev)).
  assert (e ∈ L0.*1) as HeL0 by (apply Hdom; set_solver).
  destruct (deadline_later base now e Hbase Hnow Hm (Hwindow e HeL0)) as (Hwin & Hlater & Hkey).
  assert (w_events w1 !! e = Some (timed_out ev)) as Hev1 by apply lookup_insert_eq.
  destruct (add_timer_new base w1 L e (timed_out ev) (u64 (i_msec (info e).1)) Ht Hev1 eq_refl) as (t2 & La & Lb & HL & Hadd & Ht2).
  { change (w_msec w1) with (w_msec w). by rewrite Hms, Hkey. }
  change (w_msec w1) with (w_msec w) in Ht2. rewrite Hms, Hkey in Ht2.
  set (w2 := with_timer w1 e t2 ((timed_out ev) <| ev_timer_set := true |>)) in *.
  destruct (callback_recorded (fun a => run n (T_api a)) w2 (i_callback (info e).1) (info e).2) as (i' & Hcall & Hs & Hap' & Hlog); [by destruct Hcb | done | done | done | done |].
  assert (held 0 scalars i') as Hheld' by (eapply shifted_held; [|exact Hs|exact Hheld]; intros; lia).
  assert (e ∉ L.*1) as HeL.
  { pose proof (holds_not_in ngx_event_timer_sentinel (w_tree w) [] e k L (tm_holds _ _ _ Ht0)). set_solver. }
  exists (w2 <| w_perl := i' |>), La, Lb. split_and!.
  - apply (handler_run n e _ _ (timed_out ev)); [done | done|]. unfold ngxe_interval_callback, ev_rd, c_rd, i_rd. step.
    change (ev_data (timed_out ev)) with (ev_data ev).
    erewrite rd_at_step by exact Hc. erewrite rd_at_step by exact Hi. rewrite (bind_step _ _ _ _ _ Hadd).
    erewrite rd_at_step by exact Hi. exact Hcall.
  - done.
  - done.
  - split_and!; [| done | |].
    + constructor; [by destruct Ht2; constructor | | done..].
      intros e' He'. assert (e' ∈ L0.*1) as He0 by (apply Hdom; rewrite HL; rewrite fmap_app in *; set_solver).
      destruct (Heach e') as (ev' & c' & Hat'); [by apply Hdom|].
      destruct (decide (e' = e)) as [->|Hne].
      * exists ((timed_out ev) <| ev_timer_set := true |>), c. apply (interval_at_frame w _ e ev); try done. cbn. by rewrite lookup_insert_eq.
      * exists ev', c'. apply (interval_at_frame w _ e' ev'); try done. cbn. rewrite !lookup_insert_ne by done. apply Hat'.
    + intros e'. rewrite <- Hdom, HL. rewrite !fmap_app. cbn. rewrite !fmap_app. set_solver.
    + intros x Hx. rewrite <- Permutation_middle in Hx. apply elem_of_cons in Hx as [->|Hx]; [by right|]. apply Hkeys. rewrite HL. by right.
  - done.
Qed.

Lemma interval_fires n : (forall e, e ∈ L0.*1 -> 0 < i_msec (info e).1) ->
  firing_handler base (call_handler (S n)) during (fun w => called (w_perl w)) call_of.
Proof.
  intros Hpos e k L w t ev Hd Hev Ht. pose proof Hd as (Hiv & Hms & Hdom & _).
  destruct (interval_rearms n e k L w t ev Hd Hev Ht) as (w' & La & Lb & Hrun & HL & HeL & Hd' & Hlog).
  exists w', (La ++ (e, deadline now e) :: Lb). split_and!; [done | done | | done | subst L; by apply filter_mid |].
  { destruct Hd' as (_ & -> & _). done. }
  intros x Hx Hxe. assert (x = (e, deadline now e)) as ->.
  { rewrite <- Permutation_middle in Hx. apply elem_of_cons in Hx as [->|Hx]; [done|]. destruct HeL. subst L e. apply list_elem_of_fmap. eauto. }
  assert (e ∈ L0.*1) as He by (apply Hdom; set_solver). pose proof (Hpos e He).
  destruct (deadline_later base now e Hbase Hnow) as (_ & Hlater & _); [lia | by apply Hwindow |].
  unfold expired. rewrite Hms. cbn. lia.
Qed.

(** ** A pass *)

(** The time the loop asks the kernel to sleep. *)
Definition sleep (base : Z) (w : world) (L : list (Z * Z)) : Z :=
  match L with [] => NGX_TIMER_INFINITE | (_, k) :: _ => remaining base (w_msec w) k end.

(** The kernel's answer to one pass: no events, or a signal, and the time. *)
Definition only_time (nevents timer : Z) (k k' : kern) : Prop :=
  exists r k1 tv, sys_epoll_wait (s32 nevents) (s32 timer) k = (r, k1) /\
    match r with inl l => l = [] | inr _ => True end /\
    sys_gettimeofday k1 = (tv, k') /\ now = u64 (tv.1 * 1000 + tv.2 / 1000).

Lemma wait_run call nevents timer w k' :
  w_timer_alarm w = false -> only_time nevents timer (w_kern w) k' ->
  exists rc, ngx_epoll_process_events call nevents timer NGX_UPDATE_TIME w = Done rc (w <| w_kern := k' |> <| w_msec := now |>).
Proof.
  intros Hal (r & k1 & tv & Hwait & Hr & Htime & Hn). unfold ngx_epoll_process_events.
  rewrite (sys_step _ _ _ _ _ Hwait). step. rsimpl. rewrite Hal. change (has NGX_UPDATE_TIME NGX_UPDATE_TIME || false) with true. cbv iota.
  assert (time_update_msec (w <| w_kern := k1 |>) = Done tt (w <| w_kern := k' |> <| w_msec := now |>)) as Hup.
  { unfold time_update_msec. rewrite (sys_step _ _ _ tv k') by exact Htime. rewrite Hn. done. }
  rewrite (bind_step _ _ _ _ _ Hup). destruct r as [l|err].
  - subst l. destruct (timer =? u64 (-1)); by eexists.
  - rewrite andb_false_r. by eexists.
Qed.

Lemma delta_zero a b : 0 <= a < 2 ^ 64 -> 0 <= b < 2 ^ 64 -> (u64 (b - a) =? 0) = (a =? b).
Proof.
  intros Ha Hb. unfold u64, wrapU. destruct (Z.eqb_spec a b) as [->|Hne]; [by rewrite Z.sub_diag|].
  apply Z.eqb_neq. intros Hm. apply Z.mod_divide in Hm as [q Hq]; [|done]. assert (q = 0) by nia. lia.
Qed.

Lemma timers_later w w' L : w_tree w' = w_tree w -> w_events w' = w_events w -> timers base w L -> timers base w' L.
Proof. intros Ht He []. constructor; rewrite ?Ht, ?He; done. Qed.

Local Open Scope run_scope.

(** The pass up to the expiry of the timers. *)
Lemma pass_waits n nevents w k' :
  intervals base w L0 -> in_window base (w_msec w) -> only_time nevents (sleep base w L0) (w_kern w) k' ->
  let w1 := w <| w_kern := k' |> <| w_msec := now |> in
  intervals base w1 L0 /\
  ngx_process_events_and_timers n nevents w =
    ((when negb (w_msec w =? now) then ngx_event_expire_timers (call_handler n) n) ;;;
     do! posted := rd_g w_posted in
     when negb (posted =? NULL) then ngx_event_process_posted (call_handler n) Q_posted n) w1.
Proof.
  intros Hiv Hw0 Hk w1. pose proof Hiv as [Ht Heach Hheld Hap Hp1 Hp2 Hres Hal]. split.
  { constructor; [by apply (timers_later w) | | done..]. intros e He. destruct (Heach e He) as (ev & c & Hat). exists ev, c.
    apply (interval_at_frame w w1 e ev ev c); try done. apply Hat. }
  destruct (wait_run (call_handler n) nevents (sleep base w L0) w k' Hal Hk) as (rc & Hwait).
  unfold ngx_process_events_and_timers. step. rewrite Hres. cbn [Z.eqb negb].
  assert (ngx_event_find_timer w = Done (sleep base w L0) w) as Hfind by exact (find_timer_ok base w L0 Ht Hw0).
  rewrite (bind_step _ _ _ _ _ Hfind). cbv zeta. step. rewrite (bind_step _ _ _ _ _ Hwait). fold w1. step. step. change (w_posted_accept w1) with (w_posted_accept w).
  rewrite Hp2. change (negb (NULL =? NULL)) with false. cbv iota. step.
  change (w_msec w1) with now. by rewrite (delta_zero (w_msec w)) by (first [apply Hw0 | apply Hnow]).
Qed.

Lemma pass_ok n nevents w k' :
  (forall e, e ∈ L0.*1 -> 0 < i_msec (info e).1) -> intervals base w L0 -> in_window base (w_msec w) -> only_time nevents (sleep base w L0) (w_kern w) k' ->
  (length L0 < n)%nat ->
  let due := if w_msec w =? now then [] else filter (expired base now) L0 in
  exists w' L, ngx_process_events_and_timers n nevents w = Done tt w' /\ intervals base w' L /\ w_msec w' = now /\
    called (w_perl w') = called (w_perl w) ++ (call_of <$> due.*1) /\
    (forall e, e ∈ L.*1 <-> e ∈ L0.*1) /\
    (forall x, x ∈ L -> (x.1 ∈ due.*1 -> x.2 = deadline now x.1) /\ (x.1 ∉ due.*1 -> x ∈ L0)).
Proof.
  intros Hpos Hiv Hw0 Hk Hlen due. pose proof Hiv as [Ht Heach Hheld Hap Hp1 Hp2 Hres Hal].
  destruct (pass_waits n nevents w k' Hiv Hw0 Hk) as [Hiv1 ->]. set (w1 := _ <| w_msec := now |>) in *.
  destruct n as [|n]; [lia|]. subst due.
  destruct (w_msec w =? now) eqn:Hmoved; cbn [negb].
  { step. step. change (w_posted w1) with (w_posted w). rewrite Hp1. exists w1, L0.
    split_and!; [done | done | done | by rewrite app_nil_r | done |]. intros x Hx. split; [intros []%not_elem_of_nil | done]. }
  destruct (expire_firing_ok base (call_handler (S n)) during (fun w L Hd => iv_timers _ _ _ (proj1 Hd))
    (fun w => called (w_perl w)) call_of (interval_fires n Hpos) (S n) w1 L0) as (w' & L & Hrun & (Hiv' & Hms & Hdom & Hkeys) & _ & Hlog & Hdone & Hrest).
  { split_and!; [done | done | done | by left]. }
  { done. }
  { pose proof (length_filter (expired base (w_msec w1)) L0). lia. }
  rewrite (bind_step _ _ _ _ _ Hrun). step. rewrite (iv_posted _ _ _ Hiv'). change (w_msec w1) with now in *.
  exists w', L. split_and!; [done | done | done | by rewrite Hlog, list_fmap_compose | done |].
  intros x Hx. split; intros Hd.
  - destruct (Hkeys x Hx) as [Hx0|]; [|done]. destruct (Hdone x Hx). apply list_elem_of_fmap in Hd as (y & Hy & Hye%list_elem_of_filter).
    destruct Hye as [Hye Hy0]. destruct x as [e k], y as [e' k2]. cbn in Hy. subst e'.
    by rewrite (timers_unique _ _ _ _ _ _ Ht Hx0 Hy0).
  - assert (x ∈ filter (fun x => x.1 ∉ (filter (expired base now) L0).*1) L) as Hin by (apply list_elem_of_filter; done).
    rewrite Hrest in Hin. by apply list_elem_of_filter in Hin as [_ ?].
Qed.

(** An interval of 0 milliseconds is due again as soon as it is armed. *)
Lemma zero_expire e0 : i_msec (info e0).1 = 0 ->
  forall fuel n w L k0, during w L -> (e0, k0) ∈ L -> expired base now (e0, k0) ->
  ngx_event_expire_timers (call_handler (S n)) fuel w = NoFuel.
Proof.
  intros Hz fuel. induction fuel as [|fuel IH]; intros n w L k0 Hd Hin Hexp0; [done|].
  pose proof Hd as (Hiv & Hms & Hdom & _). pose proof (iv_timers _ _ _ Hiv) as Htm.
  destruct (timers_nil_head base now L) as [Hstop | (e & k & L' & -> & Hexp)].
  { rewrite <- Hms in Hstop, Hexp0. by destruct (not_expired base w L Htm Hstop _ Hin). }
  destruct (iv_each _ _ _ Hiv e) as (ev & c & Hat); [set_solver|].
  destruct (expire_step_fire base w e k L' (call_handler (S n)) ev Htm) as (t & Ht & Hstep); [by rewrite Hms | by rewrite Hms | apply Hat |].
  destruct (interval_rearms n e k L' w t ev Hd (ia_event _ _ _ _ Hat) Ht) as (w' & La & Lb & Hrun & HL & HeL & Hd' & _).
  cbn [ngx_event_expire_timers]. rewrite (bind_step _ _ _ true w'); [|rewrite Hstep; by rewrite (bind_step _ _ _ _ _ Hrun)].
  destruct (decide (e0 = e)) as [->|Hne].
  - apply (IH n w' _ (deadline now e) Hd'); [set_solver|]. assert (e ∈ L0.*1) as He by (apply Hdom; set_solver).
    destruct (deadline_later base now e Hbase Hnow) as (_ & Hlater & _); [lia | by apply Hwindow |]. unfold expired. cbn. lia.
  - apply (IH n w' _ k0 Hd'); [|done]. rewrite <- Permutation_middle, <- HL. set_solver.
Qed.

Lemma zero_pass e0 n nevents w k' :
  i_msec (info e0).1 = 0 -> intervals base w L0 -> in_window base (w_msec w) -> only_time nevents (sleep base w L0) (w_kern w) k' ->
  w_msec w <> now -> e0 ∈ (filter (expired base now) L0).*1 -> ngx_process_events_and_timers n nevents w = NoFuel.
Proof.
  intros Hz Hiv Hw0 Hk Hmoved ([e k] & -> & [Hexp Hin]%list_elem_of_filter)%list_elem_of_fmap.
  destruct (pass_waits n nevents w k' Hiv Hw0 Hk) as [Hiv1 ->]. apply Z.eqb_neq in Hmoved. rewrite Hmoved. cbn [negb].
  unfold rbind. destruct n as [|n]; [done|].
  rewrite (zero_expire e) with (L := L0) (k0 := k); try done. split_and!; [done | done | done | by left].
Qed.
End Loop.

(** * The theorems *)

(** C7.  A pass of the event loop when the armed timers are intervals of the Perl
    API, whose callbacks hold live scalars that do not refer to each other and whose
    subroutines do not call the engine and give back the references they take, the
    kernel reports no events and the clock then shows [now], within half of the
    clock's range of all deadlines.  If the periods are positive, the loop asks the kernel to sleep until the nearest
    deadline at most and returns; if the clock has moved, the subroutines of
    exactly the intervals whose deadline has passed have been called, once each
    with their arguments, earliest deadline first; each of them is armed again a
    period after [now], and the others keep their deadlines.  The world is ready
    for the next pass.  But an interval of 0 milliseconds, which [ngxe_interval]
    accepts, stops the engine: once one is due, [ngx_event_expire_timers] calls
    its subroutine and finds it due again, and the pass does not return, whatever
    the fuel and the other intervals. *)
Theorem intervals_fire {HPerl : Perl} {HKern : Kernel} {HLaws : RefcountLaws HPerl} {HLog : CallLog HPerl}
    scalars info base now L nevents w k' :
  0 <= base -> in_window base (w_msec w) -> in_window base now ->
  intervals scalars info base w L -> only_time now nevents (sleep base w L) (w_kern w) k' ->
  (forall e, e ∈ L.*1 -> u64 (now - base) + i_msec (info e).1 < 2 ^ 63) ->
  let due := if w_msec w =? now then [] else filter (expired base now) L in
  (forall n, (length L < n)%nat -> (forall e, e ∈ L.*1 -> 0 < i_msec (info e).1) ->
    exists w' L', ngx_process_events_and_timers n nevents w = Done tt w' /\
      intervals scalars info base w' L' /\ w_msec w' = now /\
      called (w_perl w') = called (w_perl w) ++ (call_of info <$> due.*1) /\
      (forall e, e ∈ L'.*1 <-> e ∈ L.*1) /\
      (forall x, x ∈ L' -> (x.1 ∈ due.*1 -> x.2 = deadline info now x.1) /\ (x.1 ∉ due.*1 -> x ∈ L))) /\
  (forall e, e ∈ due.*1 -> i_msec (info e).1 = 0 -> forall n, ngx_process_events_and_timers n nevents w = NoFuel).
Proof.
  intros Hb Hw Hn Hiv Hk Hwin due. split.
  - intros n Hlen Hp. by apply (pass_ok scalars info base now L Hb Hn Hwin) with (k' := k').
  - intros e Hdue Hz n. subst due. destruct (Z.eqb_spec (w_msec w) now) as [|Hmoved]; [by apply not_elem_of_nil in Hdue|].
    by apply (zero_pass scalars info base now L Hb Hn Hwin e n nevents w k').
Qed.

(** * Witnesses *)

Import Systems.
Local Existing Instance scripted_kernel.

Local Existing Instance logging_perl.

(** The interval 500 of [msec] milliseconds on the connection 100, due at 1500;
    it is 1000 o'clock, and 1600 when the kernel returns. *)
Definition some_interval (msec : Z) (e : ptr) : ngxe_interval_t * ngxe_callback_t :=
  (mk_interval msec 300 100, mk_callback 200 [208] 1 false NULL).
Definition interval_rev : ngx_event_t :=
  zero_event <| ev_data := 100 |> <| ev_timer_set := true |> <| ev_handler := H_ngxe_interval_callback |>.
Definition interval_world (msec : Z) : world :=
  (small_world ((mk_scalars (list_to_map [(200, empty_sv); (208, empty_sv)]) 1000, []) : interp)
     (no_answers <| a_time := [(1, 600000)] |>))
    <| w_tree := mk_rb (list_to_map [(8, node0); (110, mk_node 1500 8 8 0 0); (120, node0)]) 110 |>
    <| w_events := list_to_map [(110, interval_rev); (120, zero_event <| ev_data := 100 |> <| ev_write := true |>)] |>
    <| w_conns := {[ 100 := zero_conn <| c_read := 110 |> <| c_write := 120 |> <| c_data := 500 |> ]} |>
    <| w_intervals := {[ 500 := (some_interval msec 110).1 ]} |>
    <| w_callbacks := {[ 300 := (some_interval msec 110).2 ]} |>.

Lemma interval_world_timers msec : timers 0 (interval_world msec) [(110, 1500)].
Proof.
  pose proof (timed_world_timers 1500 ltac:(lia)) as [H1 H2 H3 H4 H5 H6]. constructor; [exact H1 | exact H2 | exact H3 | | |].
  - intros e ev. cbn. rewrite !lookup_insert_Some, lookup_empty. intros [[<- <-]|[? [[<- <-]|[? ?]]]]; [|..|done]; set_solver by lia.
  - intros e He. cbn in He. apply list_elem_of_singleton in He as ->. by eexists.
  - intros e [ev He]. apply H6. cbn in He |- *. rewrite !lookup_insert_Some, lookup_empty in He.
    destruct He as [[<- _]|[? [[<- _]|[? ?]]]]; [by eexists..|done].
Qed.

Lemma interval_world_sub : recorded_sub [200; 208] 200 [208].
Proof.
  intros [i l] Hh Ha Ht. eexists. split_and!; [reflexivity | | done | done | by unfold called; cbn; rewrite fmap_app].
  intros p Hp. cbn. destruct (heap i !! p) as [y|]; [|done]. cbn. by rewrite Z.add_0_r.
Qed.

Lemma interval_world_held msec : held 0 [200; 208] (w_perl (interval_world msec)).
Proof.
  intros p Hp. exists empty_sv. split; [|done].
  repeat setoid_rewrite elem_of_cons in Hp. destruct Hp as [->|[->|[]%not_elem_of_nil]]; done.
Qed.
Lemma interval_world_apart msec : apart [200; 208] (w_perl (interval_world msec)).
Proof.
  intros p q Hp _ (x & Hx & Hr & _). repeat setoid_rewrite elem_of_cons in Hp.
  destruct Hp as [->|[->|[]%not_elem_of_nil]]; cbn in Hx; by injection Hx as <-.
Qed.

Lemma interval_world_ok msec : 0 <= msec -> intervals [200; 208] (some_interval msec) 0 (interval_world msec) [(110, 1500)].
Proof.
  intros Hm. constructor; [apply interval_world_timers | | apply interval_world_held | apply interval_world_apart | done..].
  cbn. intros e ->%list_elem_of_singleton. eexists _, _. constructor; [done | done | done | done | | done | set_solver | apply interval_world_sub].
  constructor; [done | done | done | done | done | | apply interval_world_held | apply interval_world_apart].
  apply (bool_decide_unpack _). by vm_compute.
Qed.

Lemma interval_world_time msec : only_time 1600 512 (sleep 0 (interval_world msec) [(110, 1500)]) (w_kern (interval_world msec)) no_answers.
Proof. exists (inl []), (no_answers <| a_time := [(1, 600000)] |>), (1, 600000). done. Qed.

(** The interval of 700 milliseconds is called once and armed for 2300; one of 0 milliseconds is called for ever. *)
Lemma intervals_fire_witness :
  (exists w' L', ngx_process_events_and_timers 3 512 (interval_world 700) = Done tt w' /\
     intervals [200; 208] (some_interval 700) 0 w' L' /\ w_msec w' = 1600 /\
     called (w_perl w') = called (w_perl (interval_world 700)) ++ [(200, [208])] /\
     (forall e, e ∈ L'.*1 <-> e ∈ [110]) /\
     (forall x, x ∈ L' -> (x.1 ∈ [110] -> x.2 = 2300) /\ (x.1 ∉ [110] -> x ∈ [(110, 1500)]))) /\
  ngx_process_events_and_timers 100 512 (interval_world 0) = NoFuel.
Proof.
  split.
  - apply (intervals_fire [200; 208] (some_interval 700) 0 1600 [(110, 1500)] 512 (interval_world 700) no_answers);
      [lia | by vm_compute | by vm_compute | apply interval_world_ok; lia | apply interval_world_time | | simpl; lia |];
      intros e He; by vm_compute.
  - apply (intervals_fire [200; 208] (some_interval 0) 0 1600 [(110, 1500)] 512 (interval_world 0) no_answers) with (e := 110);
      [lia | by vm_compute | by vm_compute | apply interval_world_ok; lia | apply interval_world_time | | | done].
    + intros e He. by vm_compute.
    + vm_compute. set_solver.
Defined.

End Loop.
